(* ===== verification/_CoqProject ===== *)
-Q . S2P
Prelude.v
StateMonad.v
StringView.v
Utils.v
Base64.v
Cesu8.v
Error.v
NetUtils.v
SocketAddress.v
Wide.v
SystemDns.v
Url.v
TimeUtils.v
File.v
FileHandles.v
RotatingLog.v
TldRegistry.v
Cidr.v
CidrSet.v
Netlink.v
RoutingTable.v
RoutingTableFacts.v
NetworkMonitor.v
AppleMonitor.v
RouteResolver.v
Guid.v
WinNet.v
WfpEngine.v
WfpFirewall.v
WfpFirewallFacts.v
Regex.v
MakeSsl.v
CertInfo.v
Coro.v
Parallel.v
AutoFd.v
Wrappers.v
MoveOnlyFunction.v
SystemError.v
Logger.v
FormatCheck.v
Containers.v
LruCache.v
LruTimeoutCache.v
TimeoutCache.v
Headers.v
Message.v
Http1.v
Http2.v
Http2Facts.v
Http2Safety.v
Http2Messages.v
Http3.v
Http3Facts.v
Http3Setup.v
