(* ===== verification/Prelude.v ===== *)
(** * NativeLibsCommon, verified

    NativeLibsCommon is the C++ library shared by AdGuard's native products: string, number and byte
    utilities, addresses and CIDR ranges, caches, files and logs, time and URLs, the public suffix
    lookup, the routing tables of Linux and Apple systems, a firewall on Windows, regular expressions, coroutines, TLS clients,
    and HTTP/1, HTTP/2 and HTTP/3 sessions on top of llhttp, nghttp2 and ngtcp2.  This
    development translates the code that carries its logic into definitions that can be run, and proves
    what makes each part correct.  Paths below are relative to [src/].

    ** Files and what they model

    - [Prelude] (this file): bytes, machine integers, tactics, the hint database [ag].
    - [StateMonad]: the monad of the HTTP/2 and HTTP/3 sessions, the network monitor and the firewall.
    - [StringView]: what the code uses of [std::string_view], [<cctype>], [std::from_chars] and [fmt].
    - [Utils]: [common/utils.cpp], [utils.h]: case, trimming, splitting, joining, numbers, lines, hex,
      shell quoting, wrapping, UUIDs; [Wide]: wide strings, addresses as text, adapters of containers.
    - [Base64], [Cesu8]: [common/base64.cpp], [common/cesu8.cpp].
    - [Error]: [error.h]: chains of errors, their texts, [Result].
    - [NetUtils], [SystemDns], [WinNet]: [common/net_utils.cpp]: endpoints as text, the system's DNS
      servers from the resolver state or from resolv.conf, binding of sockets, and the adapters, routes
      and registry of Windows.
    - [SocketAddress]: [common/socket_address.cpp]: the bytes of the storage and every view of them.
    - [Url], [TimeUtils], [RotatingLog]: [common/url.cpp], [time_utils.cpp],
      [rotating_log_to_file.cpp] with its header; [File], [FileHandles]: [common/file.cpp], its lines and
      its handles on both platforms.
    - [TldRegistry]: [tldregistry.cpp] and Chromium's [lookup_string_in_fixed_set.cc], the byte
      automaton of the public suffix list.
    - [Cidr], [CidrSet]: class [CidrRange] and class [CidrRangeSet] of [cidr_range.h].
    - [Netlink], [RoutingTable], [NetworkMonitor]: [common/network_monitor.cpp] on Linux: the kernel's
      messages as bytes, class [LinuxRoutingTable] with its theorems in [RoutingTableFacts], and class
      [NetworkMonitorImpl], with [exec_with_output] of [utils.h]; [AppleMonitor]: the same class on
      Apple systems, and the default interface of Windows.
    - [RouteResolver]: [common/route_resolver.cpp], the Apple branch.
    - [WfpFirewall]: [common/wfp_firewall.cpp] over the interface [WfpEngine], with its theorems in
      [WfpFirewallFacts].
    - [Guid]: [common/guid_utils.cpp]; [Regex]: [common/regex.cpp], [regex.h].
    - [MakeSsl]: [tls/make_ssl.cpp], as built with BoringSSL; [CertInfo]: [tls/cert_utils.cpp].
    - [Coro]: [coro.h]: tasks as a machine of frames; [Parallel]: [parallel.h]: the shared states of
      [any_of_cond] and [all_of] over all interleavings.
    - [AutoFd], [MoveOnlyFunction]: the owning wrappers of [autofd.h] and [move_only_function.h];
      [SystemError]: [common/error.cpp], [common/system_error.cpp]; [Logger]: [common/logger.cpp];
      [FormatCheck]: the checker of format strings of [format.h]; [Wrappers]: the traits of
      [unsigned char] in [defs.h] and the small classes of [utils.h].
    - [Containers], [LruCache], [LruTimeoutCache], [TimeoutCache]: [cache.h] and [clock.h].
    - [Headers]: [http/headers.cpp], [http/util.cpp]: header lists, messages, iterators, texts.
    - [Message]: what the binary HTTP sessions share: messages collected field by field, and the
      interface of libevent's buffer with its laws.
    - [Http1]: [http/http1.cpp]; [Http2]: [http/http2.cpp], with its theorems in [Http2Facts],
      [Http2Messages] and [Http2Safety], which states nghttp2's contract about the order of its callbacks; [Http3]: [http/http3.cpp], with its theorems in [Http3Facts], and [Http3Setup]:
      how its sessions are made.

    ** How code becomes definitions

    A class is a record of its fields and each method a function of the source's name.  Strings and
    byte views are lists of codes; integers are [Z] kept at their width by [u8] to [u64] and [i32]
    where the code can overflow; sizes that cannot are [nat].  A container with stable iterators is a
    list of nodes with identities and an index ([Containers]); an unordered map is a [gmap].  Errors are
    values ([option], [Result], [outcome]); a thrown exception or a null pointer is a value of its own,
    never a default.  The HTTP sessions are computations in small state monads that record every call
    of a user callback in order.

    Code outside the repository is an argument.  llhttp and nghttp2 answer trees of callbacks which the
    session runs ([Http1.Exec], [Http2.Run]); nghttp2's other calls are a class ([Http2.Nghttp2]), and a
    callback may change the library in the middle of a run.  An HTTP/3 session stands between two such
    libraries ([Http3.Ngtcp2], [Http3.Nghttp3]): a run of the first calls the session, which runs the
    second.  libevent's buffer is the class [Message.EvBuffer] with the documented laws [EvBufferLaws];
    HTTP/3 uses more of it ([Http3.EvBufferRef], [Http3Facts.EvBufferRefLaws]).  [inet_pton], [inet_ntop],
    [getaddrinfo], [getnameinfo], the calendar functions, the clock, random bytes, the generated suffix
    table and the refusals of the file system are arguments of the functions that use them.  PCRE2 is the
    class [Regex.Pcre2] with the law of its substitution; the TLS library is an oracle over the calls so
    far ([MakeSsl.make_ssl]); what sockets, [sysctl], [popen] and the interface table answer are arguments
    of the monitor and the resolver; the Windows Filtering Platform is the class [WfpEngine.Engine] with
    the laws [EngineLaws] of its sessions, transactions and filters; the parse context of [fmt] is the class
    [FormatCheck.CompileParseContext] with its laws, and the traits of argument types [FormatCheck.FormatArgs]; the tables of Windows and the updates of Apple's
    Network framework are arguments; [std::sort] is any function that sorts.  Theorems
    assume of them what their documentation says, by name, and each such theorem has a witness with
    concrete functions.

    ** What is proved

    - Sessions.  HTTP/1: a finished stream of a client is never reported again, requests are put
      together from their pieces, chunked bodies read back as sent.  HTTP/2: a closed stream is silent but
      for window updates, every stream is reported closed by the time the session is gone, no operation throws
      from construction to destruction while nghttp2 keeps to the order of its callbacks, blocks of fields become the right messages, and bodies leave in order and reach their end.
      HTTP/3: a body stays in memory until the peer has acknowledged it and leaves in order, it reaches
      its end, the answer about the room in the window is exact, the close of the peer is reported once,
      when the first packet is answered as draining, a block of fields becomes one request, and the response to a HEAD
      request has no body.
    - Ranges.  [exclude] is set difference, a set of ranges refines the union of what was inserted,
      the order is total, texts round-trip.
    - Caches.  The LRU cache refines a list of recency; the timeout caches keep index and queue in
      step over every history, answer what is fresh and evict the oldest.
    - Routes.  The routing table refines a map from prefix and interface to metric under every sequence
      of the kernel's messages, a dump is loaded as it was written, and the cached default is the best
      one; the monitor, from its start over the kernel's messages, reports the interface of that default and
      never the same connection twice, and its descriptors are closed when it does not run.  The resolver answers
      by the longest prefix of the table the system has, written as the system writes it.  On
      Windows the active interface is a usable physical one of least metric; on Apple systems the
      monitor reports every change of the interface and every path without a connection, over runs of starts and
      stops.
    - Firewall.  Whatever calls fail, a flow no two operations contend for is decided by those that reported
      success, as their documentation says; an operation that failed leaves no filter, and a construction that failed
      no session.
    - Coroutines.  A task computes what it says when read as a function and every frame is destroyed
      once; [any_of_cond] and [all_of] resume the parent at most once, lose no wakeup and return the first
      match, or all results, in the interleavings that do not tear an increment of the count of children.
    - Owners.  Over every history of its objects a descriptor is closed exactly once; the wrapper for
      callables refines a variable, its heap objects belonging to one wrapper each; a value kept by
      [AutoPod] is deleted or released exactly once.
    - Format strings.  One whose fields are not numbered compiles exactly when its fields and their
      specifications take all the arguments, unless an argument has a name known at run time only.
    - Expressions and TLS.  Replacing until nothing is left ends exactly when rewriting does; late
      compilation and shortcuts change no answer; making a TLS object stops at the first call that
      fails, and the client's random has the bits its mask keeps; the text about certificates is never cut.
    - Text and bytes.  Round trips of Base64 with the domain of its decoder, CESU-8 code points and
      sizes, splitting against a reference, response heads read back, wide strings that convert back.
    - Addresses, URLs, files, logs and suffixes.  Endpoint and socket address texts round-trip, family
      casts undo each other, the order of addresses is strict; path normalisation resolves segments;
      lines read in chunks are the lines of the file; the rotating log puts every message where its limit says and
      drops only its oldest file; a lookup in the automaton, written in its documented format, finds exactly its
      words; the suffix search ends with the longest suffix, and a
      reduced domain keeps the right labels.

    ** Fuel and bounds

    Loops that are not structural carry fuel, and the theorems show that it is enough: [exclude] gets
    one turn plus two for every bit of every excluded range, per original range; [get_tld] one turn per
    character, each turn removing at least one; a list of child offsets of the automaton is no longer
    than the table, and a read past the table is an error of its own; the loops over messages one turn
    per field; a body of HTTP/3 is read in at most one turn per byte.  The loop of [flush_impl] ends when the
    libraries have nothing to send, which is theirs to decide: its fuel is an argument and running out of
    it an answer of its own.  The walks over netlink messages and attributes get one turn per byte, each
    turn removing some; the loop of [replace_all] has its fuel as an argument and the theorem says when
    some fuel is enough.  [split_by] with an empty delimiter does not end, which its model shows.  Sizes and times
    are assumed below the width of their type where a theorem says so; 64-bit overflow of durations is
    left out.

    ** Not modelled

    What is logged, outside [Logger]; mutexes outside [Parallel] (each object is used by one thread at a time);
    in HTTP/3 the connection ids ngtcp2 asks for after the handshake and the readers of statistics; thread
    numbers; declarations, type aliases and templates that only choose types, which have no behaviour of
    their own; the tests, and the headers of the package recipes. *)

(** ** Shared vocabulary *)

From Stdlib Require Export ZArith Lia Ascii String.
From stdpp Require Export prelude list list_numbers strings gmap.

#[global] Open Scope nat_scope.

(** ** Bytes, characters and strings

    A [char] or [uint8_t] is its unsigned code as a [Z]; a [std::string], a [std::string_view]
    and a [Uint8View] are lists of such codes. *)

Abbreviation bytes := (list Z).

(** A value that fits one byte. *)
Definition is_byte (b : Z) : Prop := (0 <= b < 256)%Z.

(** A string all of whose elements are bytes. *)
Definition is_bytes (s : bytes) : Prop := Forall is_byte s.

(** The code of an ASCII character literal. *)
Definition chr (a : Ascii.ascii) : Z := Z.of_N (Ascii.N_of_ascii a).
Arguments chr a%_char.

(** The codes of a string literal. *)
Fixpoint str (s : String.string) : bytes :=
  match s with
  | String.EmptyString => []
  | String.String a s' => chr a :: str s'
  end.
Arguments str s%_string.

#[global] Instance is_byte_dec b : Decision (is_byte b).
Proof. unfold is_byte. apply _. Defined.

#[global] Instance is_bytes_dec s : Decision (is_bytes s).
Proof. unfold is_bytes. apply _. Defined.

(** ** Machine integers: the value kept at width [w] bits *)

Definition wrap (w x : Z) : Z := (x mod 2 ^ w)%Z.

Definition u8 (x : Z) : Z := wrap 8 x.
Definition u16 (x : Z) : Z := wrap 16 x.
Definition u32 (x : Z) : Z := wrap 32 x.
Definition u64 (x : Z) : Z := wrap 64 x.
Definition i32 (x : Z) : Z := (wrap 32 (x + 2 ^ 31) - 2 ^ 31)%Z.

(** ** Results: a value, a reported error, or an exception that leaves the function *)

Inductive outcome (E A : Type) : Type :=
| Returns (a : A)
| Throws (e : E).
Arguments Returns {E A} a.
Arguments Throws {E A} e.

(** ** Tactics *)

(** Splits every boolean test and [match] of the goal, then closes the easy cases. *)
Ltac crush_match :=
  repeat (case_match; simplify_eq/=); try done; try lia.

(** Turns boolean comparisons of the context and the goal into propositions. *)
Ltac bool_to_prop :=
  repeat match goal with
  | H : context [negb _ = true] |- _ => rewrite negb_true_iff in H
  | H : context [negb _ = false] |- _ => rewrite negb_false_iff in H
  | H : context [andb _ _ = true] |- _ => rewrite andb_true_iff in H
  | H : context [andb _ _ = false] |- _ => rewrite andb_false_iff in H
  | H : context [orb _ _ = true] |- _ => rewrite orb_true_iff in H
  | H : context [orb _ _ = false] |- _ => rewrite orb_false_iff in H
  | H : context [Z.eqb _ _ = true] |- _ => rewrite Z.eqb_eq in H
  | H : context [Z.eqb _ _ = false] |- _ => rewrite Z.eqb_neq in H
  | H : context [Z.ltb _ _ = true] |- _ => rewrite Z.ltb_lt in H
  | H : context [Z.ltb _ _ = false] |- _ => rewrite Z.ltb_ge in H
  | H : context [Z.leb _ _ = true] |- _ => rewrite Z.leb_le in H
  | H : context [Z.leb _ _ = false] |- _ => rewrite Z.leb_gt in H
  | H : context [Nat.eqb _ _ = true] |- _ => rewrite Nat.eqb_eq in H
  | H : context [Nat.eqb _ _ = false] |- _ => rewrite Nat.eqb_neq in H
  | H : context [Nat.ltb _ _ = true] |- _ => rewrite Nat.ltb_lt in H
  | H : context [Nat.ltb _ _ = false] |- _ => rewrite Nat.ltb_ge in H
  | H : context [Nat.leb _ _ = true] |- _ => rewrite Nat.leb_le in H
  | H : context [Nat.leb _ _ = false] |- _ => rewrite Nat.leb_gt in H
  end.

Create HintDb ag discriminated.

(** ** Lemmas on bytes *)

Lemma wrap_range w x : (0 <= w)%Z -> (0 <= wrap w x < 2 ^ w)%Z.
Proof. intros. unfold wrap. apply Z.mod_pos_bound. lia. Qed.

Lemma wrap_small w x : (0 <= x < 2 ^ w)%Z -> wrap w x = x.
Proof. intros. unfold wrap. by apply Z.mod_small. Qed.

Lemma u8_byte x : is_byte (u8 x).
Proof. unfold is_byte, u8. pose proof (wrap_range 8 x). lia. Qed.

Lemma u8_id x : is_byte x -> u8 x = x.
Proof. unfold is_byte, u8. intros. apply wrap_small. lia. Qed.

Lemma chr_byte a : is_byte (chr a).
Proof. destruct a as [[] [] [] [] [] [] [] []]; vm_compute; split; congruence. Qed.

Lemma str_bytes s : is_bytes (str s).
Proof. induction s; constructor; [apply chr_byte|done]. Qed.

Lemma is_bytes_app s t : is_bytes (s ++ t) <-> is_bytes s /\ is_bytes t.
Proof. apply Forall_app. Qed.

Lemma is_bytes_take n s : is_bytes s -> is_bytes (take n s).
Proof. apply Forall_take. Qed.

Lemma is_bytes_drop n s : is_bytes s -> is_bytes (drop n s).
Proof. apply Forall_drop. Qed.

#[export] Hint Resolve u8_byte chr_byte str_bytes is_bytes_take is_bytes_drop : ag.

(** Bitwise operations stay within a width. *)
Lemma bits_range w x :
  (0 <= w -> 0 <= x -> (x < 2 ^ w <-> forall i, w <= i -> Z.testbit x i = false))%Z.
Proof. intros. by apply Z.bounded_iff_bits_nonneg. Qed.

(** Putting a number below a shifted one. *)
Lemma lor_low x b k : (0 <= k -> 0 <= b < 2 ^ k -> Z.lor (Z.shiftl x k) b = x * 2 ^ k + b)%Z.
Proof.
  intros Hk Hb. assert (Z.land (Z.shiftl x k) b = 0)%Z as Hd.
  { apply Z.bits_inj'. intros i Hi. rewrite Z.land_spec, Z.bits_0, Z.shiftl_spec by done.
    destruct (Z.ltb_spec i k).
    - rewrite (Z.testbit_neg_r x) by lia. done.
    - rewrite (proj1 (bits_range k b Hk (proj1 Hb)) (proj2 Hb) i) by done. apply andb_false_r. }
  rewrite <- Z.lxor_lor, <- Z.add_nocarry_lxor by done. by rewrite Z.shiftl_mul_pow2.
Qed.

Ltac bit_range lem :=
  intros w a b Hw Ha Hb; split; [apply lem; lia|];
  apply bits_range; [done|apply lem; lia|]; intros i Hi;
  rewrite ?Z.lxor_spec, ?Z.land_spec, ?Z.lor_spec;
  by rewrite (proj1 (bits_range w a Hw (proj1 Ha)) (proj2 Ha) i Hi),
             (proj1 (bits_range w b Hw (proj1 Hb)) (proj2 Hb) i Hi).

Lemma lxor_range :
  forall w a b, (0 <= w -> 0 <= a < 2 ^ w -> 0 <= b < 2 ^ w -> 0 <= Z.lxor a b < 2 ^ w)%Z.
Proof. bit_range Z.lxor_nonneg. Qed.

Lemma lor_range :
  forall w a b, (0 <= w -> 0 <= a < 2 ^ w -> 0 <= b < 2 ^ w -> 0 <= Z.lor a b < 2 ^ w)%Z.
Proof. bit_range Z.lor_nonneg. Qed.

Lemma land_range :
  forall w a b, (0 <= w -> 0 <= a < 2 ^ w -> 0 <= b < 2 ^ w -> 0 <= Z.land a b < 2 ^ w)%Z.
Proof. bit_range Z.land_nonneg. Qed.

Lemma land_byte a b : is_byte a -> is_byte b -> is_byte (Z.land a b).
Proof. unfold is_byte. intros. apply (land_range 8); simpl; lia. Qed.

Lemma lor_byte a b : is_byte a -> is_byte b -> is_byte (Z.lor a b).
Proof. unfold is_byte. intros. apply (lor_range 8); simpl; lia. Qed.

#[export] Hint Resolve land_byte lor_byte : ag.

Lemma list_sum_cons x l : list_sum (x :: l) = x + list_sum l.
Proof. done. Qed.

(** A decidable statement about every number of a range follows from running it on each. *)
Fixpoint check_range (k : nat) (x : Z) (p : Z -> bool) : bool :=
  match k with
  | O => true
  | S k' => if p x then check_range k' (x + 1)%Z p else false
  end.

Lemma check_range_spec k x p :
  check_range k x p = true -> forall y, (x <= y < x + Z.of_nat k)%Z -> p y = true.
Proof.
  revert x. induction k as [|k IH]; intros x; simpl; [lia|].
  destruct (p x) eqn:E; [|done]. intros H y Hy.
  destruct (Z.eq_dec y x) as [->|]; [done|]. apply (IH (x + 1)%Z); [done|lia].
Qed.

Lemma range_spec (n : Z) (P : Z -> Prop) `{!forall x, Decision (P x)} :
  check_range (Z.to_nat n) 0 (fun x => bool_decide (P x)) = true ->
  forall x, (0 <= x < n)%Z -> P x.
Proof.
  intros Hall x Hx. apply (bool_decide_eq_true (P x)).
  apply (check_range_spec _ _ _ Hall x). lia.
Qed.

(** Closes [forall x, 0 <= x < n -> P x] by running [P] on the whole range. *)
Ltac by_range :=
  repeat match goal with x : Z |- _ => revert x end;
  match goal with
  | |- forall x : Z, (0 <= x < ?n)%Z -> @?P x => apply (range_spec n P)
  | |- forall x : Z, is_byte x -> @?P x => apply (range_spec 256 P)
  end; vm_compute; reflexivity.
