(* ===== verification/StateMonad.v ===== *)
(** * Computations over a state that may fail

    The HTTP/2 and HTTP/3 sessions are written in this monad: the state is the session, and [None] is
    an exception that leaves the function or a null pointer that is used. *)

From S2P Require Export Prelude.

Definition M (S A : Type) : Type := S -> option (A * S).

#[export] Instance M_ret {S} : MRet (M S) := fun A a s => Some (a, s).
#[export] Instance M_bind {S} : MBind (M S) := fun A B f m s => match m s with None => None | Some (a, s') => f a s' end.
#[export] Instance M_fmap {S} : FMap (M S) := fun A B f m s => match m s with None => None | Some (a, s') => Some (f a, s') end.

Definition crash {S A} : M S A := fun _ => None.
Definition gets {S A} (f : S -> A) : M S A := fun s => Some (f s, s).
Definition modify {S} (f : S -> S) : M S unit := fun s => Some (tt, f s).
