(* ===== verification/StringView.v ===== *)
(** * The C++ standard library the sources call: [std::string_view], [<cctype>], [<algorithm>]
      searches, [std::from_chars] and the number formats of [fmt]

    Positions are [nat]; a search that answers [npos] answers [None].  The character classes are
    those of the "C" locale. *)

From S2P Require Export Prelude.

(** ** Character classes *)

Section Ctype.
Local Open Scope Z_scope.

Definition isdigit (c : Z) : bool := (48 <=? c) && (c <=? 57).
Definition islower (c : Z) : bool := (97 <=? c) && (c <=? 122).
Definition isupper (c : Z) : bool := (65 <=? c) && (c <=? 90).
Definition isspace (c : Z) : bool := (c =? 32) || ((9 <=? c) && (c <=? 13)).
Definition tolower (c : Z) : Z := if isupper c then c + 32 else c.
Definition toupper (c : Z) : Z := if islower c then c - 32 else c.

Lemma tolower_idemp c : tolower (tolower c) = tolower c.
Proof. unfold tolower, isupper. repeat (case_match; bool_to_prop); lia. Qed.

Lemma tolower_toupper c : tolower (toupper c) = tolower c.
Proof. unfold tolower, toupper, isupper, islower. repeat (case_match; bool_to_prop); lia. Qed.

Lemma tolower_byte c : is_byte c -> is_byte (tolower c).
Proof. unfold is_byte, tolower, isupper. intros. case_match; bool_to_prop; lia. Qed.

Lemma toupper_byte c : is_byte c -> is_byte (toupper c).
Proof. unfold is_byte, toupper, islower. intros. case_match; bool_to_prop; lia. Qed.
End Ctype.

#[export] Hint Resolve tolower_byte toupper_byte : ag.

(** ** Searches *)

(** Index of the first element that satisfies [p] ([std::find_if], [find], [find_first_of]). *)
Fixpoint find_index {A} (p : A -> bool) (l : list A) : option nat :=
  match l with
  | [] => None
  | x :: l' => if p x then Some 0 else S <$> find_index p l'
  end.

(** Index of the last element that satisfies [p] ([rfind], [find_last_of]). *)
Fixpoint rfind_index {A} (p : A -> bool) (l : list A) : option nat :=
  match l with
  | [] => None
  | x :: l' =>
      match rfind_index p l' with
      | Some i => Some (S i)
      | None => if p x then Some 0 else None
      end
  end.

(** [find_index] from position [pos] on. *)
Definition find_index_from {A} (p : A -> bool) (pos : nat) (l : list A) : option nat :=
  (fun i => pos + i) <$> find_index p (drop pos l).

(** [s.starts_with(pre)]. *)
Definition has_prefix (pre s : bytes) : bool := bool_decide (take (length pre) s = pre).

(** [s.ends_with(suf)]. *)
Definition has_suffix (suf s : bytes) : bool :=
  (length suf <=? length s) && bool_decide (drop (length s - length suf) s = suf).

(** [hay.find(needle)]. *)
Fixpoint find_sub (needle hay : bytes) : option nat :=
  if has_prefix needle hay then Some 0
  else match hay with
       | [] => None
       | _ :: hay' => S <$> find_sub needle hay'
       end.

(** [hay.find(needle, pos)]. *)
Definition find_sub_from (needle : bytes) (pos : nat) (hay : bytes) : option nat :=
  if pos <=? length hay then (fun i => pos + i) <$> find_sub needle (drop pos hay) else None.

(** [s.substr(pos, len)]. *)
Definition substr (pos len : nat) (s : bytes) : bytes := take len (drop pos s).

(** Membership of a character in a set of delimiters. *)
Definition char_in (delim : bytes) (c : Z) : bool := existsb (Z.eqb c) delim.

(** Longest prefix, and what remains, of elements that satisfy [p]. *)
Fixpoint take_while {A} (p : A -> bool) (l : list A) : list A :=
  match l with
  | [] => []
  | x :: l' => if p x then x :: take_while p l' else []
  end.

Fixpoint drop_while {A} (p : A -> bool) (l : list A) : list A :=
  match l with
  | [] => []
  | x :: l' => if p x then drop_while p l' else l
  end.

Section SearchLemmas.
Context {A : Type}.
Implicit Types (p : A -> bool) (l k : list A).

Lemma find_index_Some p l i :
  find_index p l = Some i <->
  exists x, l !! i = Some x /\ p x = true /\ Forall (fun y => p y = false) (take i l).
Proof.
  revert i. induction l as [|x l IH]; intros i; simpl.
  - split; [done|]. intros (? & Hl & _). by rewrite lookup_nil in Hl.
  - destruct (p x) eqn:Hx.
    + split.
      * intros [= <-]. exists x. simpl. auto.
      * intros (y & Hy & Hpy & Hf). destruct i as [|i]; [done|].
        simpl in Hf. inversion Hf; subst. congruence.
    + rewrite fmap_Some. split.
      * intros (j & Hj & ->). apply IH in Hj as (y & ? & ? & ?). exists y. simpl. auto.
      * intros (y & Hy & Hpy & Hf). destruct i as [|i]; simpl in *; [congruence|].
        inversion Hf; subst. exists i. split; [|done]. apply IH. eauto.
Qed.

Lemma find_index_None p l : find_index p l = None <-> Forall (fun y => p y = false) l.
Proof.
  induction l as [|x l IH]; simpl; [split; constructor|].
  destruct (p x) eqn:Hx.
  - split; [done|]. inversion 1; congruence.
  - rewrite fmap_None, IH, Forall_cons. tauto.
Qed.

Lemma find_index_lt p l i : find_index p l = Some i -> i < length l.
Proof. intros (x & Hx & _)%find_index_Some. by eapply lookup_lt_Some. Qed.

Lemma find_index_split p l i :
  find_index p l = Some i ->
  exists l1 x l2, l = l1 ++ x :: l2 /\ length l1 = i /\ p x = true /\ Forall (fun y => p y = false) l1.
Proof.
  intros Hi. pose proof (find_index_lt _ _ _ Hi). apply find_index_Some in Hi as (x & Hx & Hp & Hf).
  exists (take i l), x, (drop (S i) l). rewrite length_take, <- (drop_S _ _ _ Hx), take_drop.
  split; [done|]. split; [lia|]. done.
Qed.

Lemma rfind_index_None p l : rfind_index p l = None <-> Forall (fun y => p y = false) l.
Proof.
  induction l as [|x l IH]; simpl; [split; constructor|].
  rewrite Forall_cons, <- IH. destruct (rfind_index p l), (p x); intuition congruence.
Qed.

Lemma rfind_index_Some p l i :
  rfind_index p l = Some i <->
  exists x, l !! i = Some x /\ p x = true /\ Forall (fun y => p y = false) (drop (S i) l).
Proof.
  revert i. induction l as [|x l IH]; intros i; simpl.
  - split; [done|]. intros (? & Hl & _). by rewrite lookup_nil in Hl.
  - destruct (rfind_index p l) as [j|] eqn:Hj.
    + split.
      * intros [= <-]. by apply IH.
      * intros (y & Hy & Hp & Hf). destruct i as [|i]; simpl in *.
        -- rewrite drop_0 in Hf. apply rfind_index_None in Hf. congruence.
        -- f_equal. assert (Some j = Some i); [|congruence]. apply IH. eauto.
    + apply rfind_index_None in Hj. destruct (p x) eqn:Hx; split; try done.
      * intros [= <-]. exists x. simpl. by rewrite drop_0.
      * intros (y & Hy & Hp & _). destruct i as [|i]; [done|]. simpl in Hy.
        rewrite Forall_lookup in Hj. specialize (Hj _ _ Hy). simpl in Hj. congruence.
      * intros (y & Hy & Hp & _). destruct i as [|i]; simpl in *; [congruence|].
        rewrite Forall_lookup in Hj. specialize (Hj _ _ Hy). simpl in Hj. congruence.
Qed.

Lemma find_index_app p l k :
  find_index p (l ++ k) =
  match find_index p l with
  | Some i => Some i
  | None => (fun i => length l + i) <$> find_index p k
  end.
Proof.
  induction l as [|x l IH]; simpl; [by destruct (find_index p k)|].
  destruct (p x); [done|]. rewrite IH. destruct (find_index p l); [done|].
  by destruct (find_index p k).
Qed.

Lemma find_index_ext p q l :
  Forall (fun x => p x = q x) l -> find_index p l = find_index q l.
Proof. induction 1 as [|x l Hx _ IH]; simpl; [done|]. by rewrite Hx, IH. Qed.

Lemma take_drop_while p l : take_while p l ++ drop_while p l = l.
Proof. induction l as [|x l IH]; simpl; [done|]. destruct (p x); simpl; [by rewrite IH|done]. Qed.

Lemma take_while_Forall p l : Forall (fun x => p x = true) (take_while p l).
Proof. induction l as [|x l IH]; simpl; [done|]. destruct (p x) eqn:E; auto. Qed.

Lemma drop_while_head p l : match drop_while p l with [] => True | x :: _ => p x = false end.
Proof. induction l as [|x l IH]; simpl; [done|]. by destruct (p x) eqn:E. Qed.

Lemma drop_while_all p l : Forall (fun x => p x = true) l -> drop_while p l = [].
Proof. induction 1 as [|x l Hx _ IH]; simpl; [done|]. by rewrite Hx. Qed.

Lemma drop_while_app_all p l k :
  Forall (fun x => p x = true) l -> drop_while p (l ++ k) = drop_while p k.
Proof. induction 1 as [|x l Hx _ IH]; simpl; [done|]. by rewrite Hx. Qed.

(** Dropping up to the first element that fails [p] is [drop_while]. *)
Lemma drop_find_index_not p l :
  drop (default (length l) (find_index (fun x => negb (p x)) l)) l = drop_while p l.
Proof.
  induction l as [|x l IH]; simpl; [done|].
  destruct (p x); simpl; [|done]. rewrite <- IH.
  by destruct (find_index (fun x => negb (p x)) l).
Qed.

Lemma drop_while_find_drop p l :
  drop_while p l = drop (length (take_while p l)) l.
Proof. induction l as [|x l IH]; simpl; [done|]. by destruct (p x). Qed.
End SearchLemmas.

Lemma has_prefix_spec pre s : has_prefix pre s = true <-> exists t, s = pre ++ t.
Proof.
  unfold has_prefix. rewrite bool_decide_eq_true. split.
  - intros H. exists (drop (length pre) s). by rewrite <- H at 1; rewrite take_drop.
  - intros [t ->]. by rewrite take_app_length.
Qed.

Lemma has_suffix_spec suf s : has_suffix suf s = true <-> exists t, s = t ++ suf.
Proof.
  unfold has_suffix. rewrite andb_true_iff, bool_decide_eq_true, Nat.leb_le. split.
  - intros [_ H]. exists (take (length s - length suf) s).
    by rewrite <- H at 2; rewrite take_drop.
  - intros [t ->]. rewrite length_app. split; [lia|].
    replace (length t + length suf - length suf) with (length t) by lia. by rewrite drop_app_length.
Qed.

Lemma find_sub_Some needle hay i :
  find_sub needle hay = Some i ->
  i + length needle <= length hay /\ has_prefix needle (drop i hay) = true /\
  forall j, j < i -> has_prefix needle (drop j hay) = false.
Proof.
  revert i. induction hay as [|c hay IH]; intros i; simpl.
  - destruct (has_prefix needle []) eqn:E; [|done]. intros [= <-].
    split; [|split; [done|lia]]. apply has_prefix_spec in E as [t Ht].
    apply (f_equal length) in Ht. rewrite length_app in Ht. simpl in Ht. lia.
  - destruct (has_prefix needle (c :: hay)) eqn:E.
    + intros [= <-]. split; [|split; [done|lia]].
      apply has_prefix_spec in E as [t Ht]. apply (f_equal length) in Ht.
      rewrite length_app in Ht. simpl in Ht. lia.
    + rewrite fmap_Some. intros (k & Hk & ->). apply IH in Hk as (Hl & Hp & Hmin).
      split; [simpl; lia|]. split; [done|]. intros [|j] Hj; [done|]. simpl. apply Hmin. lia.
Qed.

Lemma find_sub_None needle hay j :
  find_sub needle hay = None -> has_prefix needle (drop j hay) = false.
Proof.
  revert j. induction hay as [|c hay IH]; intros j; simpl.
  - destruct (has_prefix needle []) eqn:E; [done|]. by rewrite drop_nil.
  - destruct (has_prefix needle (c :: hay)) eqn:E; [done|].
    rewrite fmap_None. intros H. destruct j; [done|]. simpl. by apply IH.
Qed.

(** The needle is found where it was put when its first character does not occur before. *)
Lemma find_sub_app c n line rest :
  Forall (fun x => x <> c) line -> find_sub (c :: n) (line ++ (c :: n) ++ rest) = Some (length line).
Proof.
  induction 1 as [|x line Hx _ IH].
  - cbn [app]. unfold find_sub. rewrite (proj2 (has_prefix_spec (c :: n) (c :: n ++ rest))); [done|]. by exists rest.
  - cbn [app find_sub length]. cbn [app] in IH. rewrite IH.
    destruct (has_prefix (c :: n) (x :: line ++ c :: n ++ rest)) eqn:E; [|done].
    apply has_prefix_spec in E as [t [= -> _]]. done.
Qed.

Lemma char_in_spec d c : char_in d c = true <-> c ∈ d.
Proof.
  unfold char_in. rewrite existsb_exists. setoid_rewrite Z.eqb_eq.
  setoid_rewrite <- list_elem_of_In. naive_solver.
Qed.

(** ** Numbers: the digits [fmt] prints and [std::from_chars] reads *)

Section Numbers.
Local Open Scope Z_scope.

Definition digit_char (upper : bool) (d : Z) : Z :=
  if d <? 10 then 48 + d else (if upper then 55 else 87) + d.

Definition digit_val (base c : Z) : option Z :=
  let v := if isdigit c then Some (c - 48)
           else if islower c then Some (c - 87)
           else if isupper c then Some (c - 55)
           else None in
  match v with
  | Some d => if d <? base then Some d else None
  | None => None
  end.

Fixpoint digits_aux (fuel : nat) (upper : bool) (base n : Z) (acc : bytes) : bytes :=
  match fuel with
  | O => acc
  | S f =>
      let acc' := digit_char upper (n mod base) :: acc in
      if n / base =? 0 then acc' else digits_aux f upper base (n / base) acc'
  end.

(** The digits of a non-negative number, as the formats [{}], [{:x}] and [{:X}] print them; a
    number of [k] bits has at most [k] digits, which the fuel allows. *)
Definition fmt_num (upper : bool) (base n : Z) : bytes :=
  digits_aux (S (Z.to_nat (Z.log2 n))) upper base n [].

Definition fmt_dec (n : Z) : bytes :=
  if n <? 0 then 45 :: fmt_num false 10 (- n) else fmt_num false 10 n.
Definition fmt_hex (n : Z) : bytes := fmt_num false 16 n.
Definition fmt_HEX (n : Z) : bytes := fmt_num true 16 n.

(** Padding on the left with zeros ([{:04x}], [{:06}]). *)
Definition pad_zero (w : nat) (s : bytes) : bytes := replicate (w - length s) 48 ++ s.

(** The value of the longest run of digits, with what follows it. *)
Fixpoint read_digits (base acc : Z) (s : bytes) : Z * bytes :=
  match s with
  | [] => (acc, [])
  | c :: s' =>
      match digit_val base c with
      | Some d => read_digits base (acc * base + d) s'
      | None => (acc, s)
      end
  end.

(** [std::errc] as [std::from_chars] sets it. *)
Inductive from_chars_ec := FcOk | FcInvalidArgument | FcOutOfRange.

Definition int_min (is_signed : bool) (w : Z) : Z := if is_signed then - 2 ^ (w - 1) else 0.
Definition int_max (is_signed : bool) (w : Z) : Z := if is_signed then 2 ^ (w - 1) - 1 else 2 ^ w - 1.

(** [std::from_chars(first, last, value, base)]: the unread rest, the value and the error code;
    a minus sign is read for signed types only. *)
Definition from_chars (is_signed : bool) (w base : Z) (s : bytes) : bytes * Z * from_chars_ec :=
  let neg := is_signed && match s with c :: _ => c =? 45 | [] => false end in
  let ds := if neg then drop 1 s else s in
  match ds with
  | [] => (s, 0, FcInvalidArgument)
  | c :: _ =>
      match digit_val base c with
      | None => (s, 0, FcInvalidArgument)
      | Some _ =>
          let '(v, rest) := read_digits base 0 ds in
          let v := if neg then - v else v in
          if (int_min is_signed w <=? v) && (v <=? int_max is_signed w)
          then (rest, v, FcOk) else (rest, 0, FcOutOfRange)
      end
  end.

Lemma digit_val_char upper base d :
  0 <= d < base -> base <= 16 -> digit_val base (digit_char upper d) = Some d.
Proof.
  intros. unfold digit_val, digit_char, isdigit, islower, isupper.
  destruct (Z.ltb_spec d 10), upper;
    repeat (case_match; bool_to_prop; simplify_eq); try (f_equal; lia); lia.
Qed.

Lemma digit_val_range base c d : digit_val base c = Some d -> 0 <= d < base.
Proof.
  unfold digit_val, isdigit, islower, isupper. intros.
  repeat (case_match; bool_to_prop; simplify_eq); lia.
Qed.

Lemma read_digits_app base acc s t :
  Forall (fun c => is_Some (digit_val base c)) s ->
  read_digits base acc (s ++ t) = read_digits base (fst (read_digits base acc s)) t.
Proof.
  intros Hs. revert acc. induction Hs as [|c s [d Hd] _ IH]; intros acc; simpl; [done|].
  by rewrite Hd, IH.
Qed.

Lemma digits_aux_app fuel upper base n acc :
  digits_aux fuel upper base n acc = digits_aux fuel upper base n [] ++ acc.
Proof.
  revert n acc. induction fuel as [|f IH]; intros n acc; simpl; [done|].
  case_match; [done|]. rewrite IH. rewrite (IH _ [_]). by rewrite <- app_assoc.
Qed.

Lemma log2_div n base : 2 <= base -> 0 < n / base -> 0 <= n -> Z.log2 (n / base) < Z.log2 n.
Proof.
  intros Hb Hq Hn. apply Z.lt_le_trans with (Z.log2 (2 * (n / base))).
  - rewrite Z.log2_double by done. lia.
  - apply Z.log2_le_mono. pose proof (Z.mul_div_le n base). nia.
Qed.

Lemma digits_aux_read fuel upper base n :
  2 <= base <= 16 -> 0 <= n -> (Z.to_nat (Z.log2 n) < fuel)%nat ->
  let ds := digits_aux fuel upper base n [] in
  Forall (fun c => is_Some (digit_val base c)) ds /\ ds <> [] /\ read_digits base 0 ds = (n, []).
Proof.
  intros Hb. revert n. induction fuel as [|f IH]; intros n Hn Hf; [lia|]. simpl.
  assert (Hd : digit_val base (digit_char upper (n mod base)) = Some (n mod base)).
  { apply digit_val_char; [|lia]. apply Z.mod_pos_bound. lia. }
  pose proof (Z.div_mod n base ltac:(lia)) as Hdm.
  destruct (Z.eqb_spec (n / base) 0) as [Hz|Hz].
  - split; [constructor; [by rewrite Hd|constructor]|]. split; [done|]. simpl. rewrite Hd.
    f_equal. rewrite Hz in Hdm. lia.
  - assert (0 < n / base) as Hq by (pose proof (Z.div_pos n base); lia).
    destruct (IH (n / base)) as (Hall & Hne & Hr); [lia| |].
    { pose proof (log2_div n base). pose proof (Z.log2_nonneg (n / base)). lia. }
    rewrite digits_aux_app. split; [|split].
    + apply Forall_app. split; [done|]. constructor; [by rewrite Hd|constructor].
    + intros E. apply app_eq_nil in E. naive_solver.
    + rewrite read_digits_app by done. rewrite Hr. simpl. rewrite Hd. f_equal. lia.
Qed.

Lemma fmt_num_read upper base n :
  2 <= base <= 16 -> 0 <= n ->
  Forall (fun c => is_Some (digit_val base c)) (fmt_num upper base n) /\
  fmt_num upper base n <> [] /\ read_digits base 0 (fmt_num upper base n) = (n, []).
Proof. intros. apply digits_aux_read; [done..|]. lia. Qed.

(** The [k] low digits of a number, the most significant first. *)
Fixpoint fixed_digits (k : nat) (upper : bool) (base n : Z) : bytes :=
  match k with
  | O => []
  | S k' => fixed_digits k' upper base (n / base) ++ [digit_char upper (n mod base)]
  end.

Lemma fixed_digits_0 k upper base : 0 < base -> fixed_digits k upper base 0 = replicate k 48.
Proof.
  intros Hb. induction k as [|k IH]; [done|]. cbn [fixed_digits].
  rewrite Z.div_0_l, Z.mod_0_l, IH by lia. by rewrite <- replicate_S_end.
Qed.

Lemma pad_zero_snoc k s c : (length s <= k)%nat -> pad_zero (S k) (s ++ [c]) = pad_zero k s ++ [c].
Proof.
  intros. unfold pad_zero. rewrite length_app. cbn [length].
  replace (S k - (length s + 1))%nat with (k - length s)%nat by lia. by rewrite app_assoc.
Qed.

(** A number of at most [k] digits printed in a field of [k] digits filled with zeros. *)
Lemma pad_zero_digits k fuel upper base n :
  2 <= base -> 0 <= n < base ^ Z.of_nat k -> (0 < k)%nat -> (Z.to_nat (Z.log2 n) < fuel)%nat ->
  (length (digits_aux fuel upper base n []) <= k)%nat /\
  pad_zero k (digits_aux fuel upper base n []) = fixed_digits k upper base n.
Proof.
  intros Hb. revert fuel n. induction k as [|k IH]; intros fuel n Hn Hk Hf; [lia|].
  destruct fuel as [|f]; [lia|]. cbn [digits_aux fixed_digits].
  destruct (Z.eqb_spec (n / base) 0) as [Hz|Hz].
  - rewrite Hz, fixed_digits_0 by lia. unfold pad_zero. cbn [length].
    rewrite Nat.sub_succ, Nat.sub_0_r. split; [lia|done].
  - assert (0 < n / base) as Hq by (pose proof (Z.div_pos n base); lia).
    rewrite Nat2Z.inj_succ, Z.pow_succ_r in Hn by lia.
    assert (n / base < base ^ Z.of_nat k) as Hlt by (apply Z.div_lt_upper_bound; lia).
    destruct (IH f (n / base)) as [Hl Hp]; [lia| | |].
    + destruct k; [simpl in Hlt; lia|lia].
    + pose proof (log2_div n base). pose proof (Z.log2_nonneg (n / base)). lia.
    + rewrite digits_aux_app, length_app, pad_zero_snoc, Hp by done. cbn [length]. split; [lia|done].
Qed.

Lemma pad_zero_fmt k upper base n :
  2 <= base -> 0 <= n < base ^ Z.of_nat k -> (0 < k)%nat ->
  pad_zero k (fmt_num upper base n) = fixed_digits k upper base n.
Proof. intros. apply pad_zero_digits; [done..|]. lia. Qed.

Lemma read_digits_range base acc s :
  2 <= base -> 0 <= acc -> 0 <= fst (read_digits base acc s).
Proof.
  intros Hb. revert acc. induction s as [|c s IH]; intros acc Ha; simpl; [done|].
  destruct (digit_val base c) as [d|] eqn:E; [|done].
  apply IH. apply digit_val_range in E. nia.
Qed.
End Numbers.

Arguments fmt_num : simpl never.
Arguments fmt_dec : simpl never.
Arguments fmt_hex : simpl never.
Arguments fmt_HEX : simpl never.
