(* ===== verification/Utils.v ===== *)
(** * String utilities: [common/include/common/utils.h] and [common/utils.cpp]

    Case folding, trimming, searching, splitting, joining, number parsing, line iteration, hex
    coding, shell quoting and word wrapping, with the theorems that give each its reference
    meaning. *)

From S2P Require Import StringView.

(** ** Case and whitespace *)

Definition to_upper (s : bytes) : bytes := map toupper s.
Definition to_lower (s : bytes) : bytes := map tolower s.

Definition not_space (c : Z) : bool := negb (isspace c).

(** [find_if(begin, end, not isspace)], then [remove_prefix(distance)]. *)
Definition ltrim (s : bytes) : bytes :=
  drop (default (length s) (find_index not_space s)) s.

(** [find_if(rbegin, rend, not isspace)], then [remove_suffix(distance)]. *)
Definition rtrim (s : bytes) : bytes :=
  take (length s - default (length s) (find_index not_space (reverse s))) s.

Definition trim (s : bytes) : bytes := rtrim (ltrim s).

(** [std::equal] over both ranges with a case-insensitive predicate. *)
Fixpoint iequals (l r : bytes) : bool :=
  match l, r with
  | [], [] => true
  | a :: l', b :: r' => (tolower a =? tolower b)%Z && iequals l' r'
  | _, _ => false
  end.

Definition starts_with (s pre : bytes) : bool :=
  (length pre <=? length s) && bool_decide (substr 0 (length pre) s = pre).

Definition ends_with (s suf : bytes) : bool :=
  (length suf <=? length s)
  && bool_decide (substr (length s - length suf) (length suf) s = suf).

Definition istarts_with (s pre : bytes) : bool :=
  (length pre <=? length s) && iequals (substr 0 (length pre) s) pre.

Definition iends_with (s suf : bytes) : bool :=
  (length suf <=? length s) && iequals (substr (length s - length suf) (length suf) s) suf.

(** The nested [do] loops of [ifind]: one unit of fuel per character of the haystack read; the
    inner loop reads [haystack[pos++]] until it meets the first character of the needle. *)
Fixpoint ifind_loop (fuel : nat) (hay needle : bytes) (c : Z) (pos : nat) : option nat :=
  match fuel with
  | O => None
  | S f =>
      if (length hay <=? pos) || (length hay - pos <? length needle) then None
      else
        let pos' := S pos in
        if (tolower (hay !!! pos) =? c)%Z
           && iequals (substr pos' (length needle - 1) hay) (drop 1 needle)
        then Some (pos' - 1)
        else ifind_loop f hay needle c pos'
  end.

Definition ifind (hay needle : bytes) : option nat :=
  match needle with
  | [] => Some 0
  | c :: _ =>
      match hay with
      | [] => None
      | _ => ifind_loop (S (length hay)) hay needle (tolower c) 0
      end
  end.

(** ** Splitting *)

(** The loop shared by the two [split_by] overloads: [n] pieces, the search for the end of a
    piece given as a function of the position. *)
Fixpoint split_loop (n : nat) (find_end : nat -> option nat) (dlen : nat) (s : bytes)
    (include_empty need_trim : bool) (seek : nat) : list bytes :=
  match n with
  | O => []
  | S n' =>
      let start := seek in
      let e := default (length s) (find_end seek) in
      let len := e - start in
      let out :=
        if negb (len =? 0) then
          let piece := substr seek len s in
          let piece := if need_trim then trim piece else piece in
          if include_empty || negb (bool_decide (piece = [])) then [piece] else []
        else [] in
      out ++ split_loop n' find_end dlen s include_empty need_trim (e + dlen)
  end.

(** Number of pieces: one more than the delimiters found one after the other. The loop of the
    source has no bound; with an empty delimiter it never ends, so the fuel may run out. *)
Fixpoint count_delims (fuel : nat) (s delim : bytes) (seek num : nat) : option nat :=
  match fuel with
  | O => None
  | S f =>
      match find_sub_from delim seek s with
      | Some pos => count_delims f s delim (pos + length delim) (S num)
      | None => Some num
      end
  end.

Definition split_by_str_fuel (fuel : nat) (s delim : bytes) (include_empty need_trim : bool)
    : option (list bytes) :=
  match s with
  | [] => Some (if include_empty then [s] else [])
  | _ =>
      num ← count_delims fuel s delim 0 1;
      Some (split_loop num (fun seek => find_sub_from delim seek s) (length delim) s
              include_empty need_trim 0)
  end.

Definition split_by_str (s delim : bytes) (include_empty need_trim : bool) : option (list bytes) :=
  split_by_str_fuel (length s + 2) s delim include_empty need_trim.

Definition split_by_any_of (s delim : bytes) (include_empty need_trim : bool) : list bytes :=
  match s with
  | [] => if include_empty then [s] else []
  | _ =>
      let num := 1 + length (List.filter (char_in delim) s) in
      split_loop num (fun seek => find_index_from (char_in delim) seek s) 1 s
        include_empty need_trim 0
  end.

Definition split_by (s : bytes) (delim : Z) (include_empty need_trim : bool) : list bytes :=
  let ch := u8 delim in split_by_any_of s [ch] include_empty need_trim.

Definition split2 (s delim : bytes) (rev need_trim : bool) : bytes * bytes :=
  let seek := if negb rev then find_index (char_in delim) s else rfind_index (char_in delim) s in
  let '(first, second) :=
    match seek with
    | Some i => (take i s, drop (i + 1) s)
    | None => (s, [])
    end in
  if need_trim then (trim first, trim second) else (first, second).

Definition split2_by (s : bytes) (delim : Z) (need_trim : bool) : bytes * bytes :=
  let ch := u8 delim in split2 s [ch] false need_trim.

Definition rsplit2_by (s : bytes) (delim : Z) (need_trim : bool) : bytes * bytes :=
  let ch := u8 delim in split2 s [ch] true need_trim.

Definition split2_by_any_of (s delim : bytes) (need_trim : bool) : bytes * bytes :=
  split2 s delim false need_trim.

(** [split_if]: the loop consumes at least one character per turn. *)
Fixpoint split_if_loop (fuel : nat) (p : Z -> bool) (need_trim : bool) (s : bytes) : list bytes :=
  match fuel with
  | O => []
  | S f =>
      match s with
      | [] => []
      | _ =>
          let pos := default (length s) (find_index p s) in
          let part := substr 0 pos s in
          let part := if need_trim then trim part else part in
          (if negb (bool_decide (part = [])) then [part] else [])
          ++ split_if_loop f p need_trim (drop (Nat.min (pos + 1) (length s)) s)
      end
  end.

Definition split_if (s : bytes) (p : Z -> bool) (need_trim : bool) : list bytes :=
  split_if_loop (S (length s)) p need_trim s.

(** ** Concatenation *)

(** The loop appends every part to the result. *)
Fixpoint concat_loop (result : bytes) (parts : list bytes) : bytes :=
  match parts with
  | [] => result
  | p :: ps => concat_loop (result ++ p) ps
  end.

Definition concat (parts : list bytes) : bytes := concat_loop [] parts.

Fixpoint join_loop (result : bytes) (parts : list bytes) (delimiter : bytes) : bytes :=
  match parts with
  | [] => result
  | p :: ps => join_loop ((result ++ delimiter) ++ p) ps delimiter
  end.

Definition join (parts : list bytes) (delimiter : bytes) : bytes :=
  match parts with
  | [] => []
  | p :: ps => join_loop p ps delimiter
  end.

(** ** Numbers and hashes *)

(** [to_integer<Int>(str, base)]: everything must have been read, with no error. *)
Definition to_integer (is_signed : bool) (w base : Z) (s : bytes) : option Z :=
  let '(last_out, result, ec) := from_chars is_signed w base s in
  match last_out, ec with
  | [], FcOk => Some result
  | _, _ => None
  end.

(** A [char] converted to [uint32_t], for the two signednesses a platform may give to [char]. *)
Definition char_to_u32 (char_signed : bool) (c : Z) : Z :=
  if char_signed && (128 <=? c)%Z then u32 (c - 256) else c.

Definition hash (char_signed : bool) (s : bytes) : Z :=
  fold_left (fun h c => Z.lxor (u32 (h * 33)) (char_to_u32 char_signed c)) s 5381%Z.

(** [hash_combine_impl] and its fold over the hashes of the objects, [size_t] being 64 bits. *)
Definition hash_combine_impl (seed value : Z) : Z :=
  Z.lxor seed (u64 (value + 0x9e3779b9 + u64 (Z.shiftl seed 6) + Z.shiftr seed 2)).

Definition hash_combine (hashes : list Z) : Z := fold_left hash_combine_impl hashes 0%Z.

Definition bitwise_includes (lhs rhs : Z) : bool := (Z.land lhs rhs =? rhs)%Z.

(** ** In-place partition *)

Definition swap_at {A} (i j : nat) (l : list A) : list A :=
  match l !! i, l !! j with
  | Some x, Some y => <[i := y]> (<[j := x]> l)
  | _, _ => l
  end.

(** The loop of [swap_remove_if] from index [i], [b] being the [begin] iterator. *)
Fixpoint swap_remove_loop {A} (n : nat) (p : A -> bool) (i b : nat) (l : list A) : nat * list A :=
  match n with
  | O => (b, l)
  | S n' =>
      match l !! i with
      | None => (b, l)
      | Some x =>
          if negb (p x) then swap_remove_loop n' p (S i) (S b) (swap_at b i l)
          else swap_remove_loop n' p (S i) b l
      end
  end.

(** Index of the new end and the rearranged range. *)
Definition swap_remove_if {A} (p : A -> bool) (l : list A) : nat * list A :=
  match find_index p l with
  | None => (length l, l)
  | Some b => swap_remove_loop (length l - S b) p (S b) b l
  end.

(** ** Lines *)

Definition is_eol (c : Z) : bool := char_in [13; 10]%Z c.

(** [utils::for_each_line]: the action is run on its own state and says whether to go on; its
    position argument is a [uint32_t].  Each turn moves [start] forward, so the length of the
    text bounds the number of turns. *)
Fixpoint for_each_line_loop {S} (fuel : nat) (s : bytes) (action : Z -> bytes -> S -> bool * S)
    (start : nat) (st : S) : S :=
  match fuel with
  | O => st
  | Datatypes.S f =>
      if start =? length s then st
      else
        match find_index_from is_eol start s with
        | None => snd (action (u32 (Z.of_nat start)) (trim (drop start s)) st)
        | Some e =>
            let len := e - start in
            let line := trim (substr start len s) in
            let '(go_on, st') := action (u32 (Z.of_nat start)) line st in
            if negb go_on then st'
            else for_each_line_loop f s action (start + len + 1) st'
        end
  end.

Definition for_each_line {S} (s : bytes) (action : Z -> bytes -> S -> bool * S) (st : S) : Z * S :=
  (0%Z, for_each_line_loop (Datatypes.S (length s)) s action 0 st).

Definition read_line (s : bytes) (pos : nat) : option bytes :=
  if length s <=? pos then None
  else
    let e := default (length s) (find_index_from is_eol pos s) in
    Some (trim (substr pos (e - pos) s)).

(** ** Hex *)

Definition HEX_TABLE : bytes := str "0123456789abcdef".

Definition encode_to_hex (data : bytes) : bytes :=
  flat_map (fun x => [HEX_TABLE !!! Z.to_nat (Z.shiftr x 4); HEX_TABLE !!! Z.to_nat (Z.land x 0x0f)])
    data.

Definition parse_hex_char (c : Z) : Z :=
  (if (48 <=? c) && (c <=? 57) then c - 0x30
   else if (97 <=? c) && (c <=? 102) then c - 0x57
   else if (65 <=? c) && (c <=? 70) then c - 0x37
   else -1)%Z.

(** The loop over pairs; [None] stands for the early [return {}]. *)
Fixpoint decode_hex_loop (hex : bytes) (result : bytes) : option bytes :=
  match hex with
  | h :: l :: rest =>
      let hi := parse_hex_char h in
      let lo := parse_hex_char l in
      if ((hi <? 0) || (lo <? 0))%Z then None
      else decode_hex_loop rest (result ++ [u8 (Z.lor (Z.shiftl hi 4) lo)])
  | _ => Some result
  end.

Definition decode_hex (hex : bytes) : bytes :=
  if Nat.odd (length hex) then [] else default [] (decode_hex_loop hex []).

(** ** Shell quoting and word wrapping *)

Definition safe_string_view (cstr : option bytes) : bytes := default [] cstr.

Definition escape_argument_for_shell (arg : bytes) : bytes :=
  [39]%Z ++ flat_map (fun ch => if negb (ch =? 39)%Z then [ch] else [39; 92; 39; 39]%Z) arg ++ [39]%Z.

Definition is_blank (c : Z) : bool := (c =? 32)%Z.

(** The skip of spaces after a segment. *)
Definition skip_spaces (text : bytes) (pos : nat) : nat :=
  pos + length (take_while is_blank (drop pos text)).

(** Width of the segment that starts at [cur_pos]. *)
Definition wrap_width (text : bytes) (width cur_pos : nat) : nat :=
  let cur_width := if length text - cur_pos <? width then length text - cur_pos else width in
  if (cur_pos + cur_width <? length text) && negb (is_blank (text !!! (cur_pos + cur_width))) then
    match rfind_index is_blank (substr cur_pos cur_width text) with
    | Some p => if negb (p =? 0) then p else cur_width
    | None => cur_width
    end
  else cur_width.

Fixpoint word_wrap_loop (fuel : nat) (text : bytes) (width cur_pos : nat) : list bytes :=
  match fuel with
  | O => []
  | S f =>
      if cur_pos <? length text then
        let cur_width := wrap_width text width cur_pos in
        substr cur_pos cur_width text
        :: word_wrap_loop f text width (skip_spaces text (cur_pos + cur_width))
      else []
  end.

Definition word_wrap (text : bytes) (width : nat) : list bytes :=
  if (width =? 0) || (length text <=? width) then [text]
  else word_wrap_loop (length text) text width 0.

(** ** Random UUIDs *)

(** The eight [short_parts] of the union on a little-endian machine. *)
Definition short_parts (ints : list Z) : list Z :=
  flat_map (fun x => [Z.land x 0xffff; Z.shiftr x 16]) ints.

(** [generate_uuid] for the four 32-bit numbers drawn from the generator. *)
Definition generate_uuid (r0 r1 r2 r3 : Z) : bytes :=
  let sp := short_parts [r0; r1; r2; r3] in
  let sp := alter (fun x => Z.lor (Z.land x 0x0fff) 0x4000) 3 sp in
  let sp := alter (fun x => Z.lor (Z.land x 0x3fff) 0x8000) 4 sp in
  let f i := pad_zero 4 (fmt_hex (sp !!! i)) in
  let dash := str "-" in
  f 0 ++ f 1 ++ dash ++ f 2 ++ dash ++ f 3 ++ dash ++ f 4 ++ dash ++ f 5 ++ f 6 ++ f 7.

(** ** Trimming *)

Lemma ltrim_drop_while s : ltrim s = drop_while isspace s.
Proof. apply drop_find_index_not. Qed.

Lemma rtrim_drop_while s : rtrim s = reverse (drop_while isspace (reverse s)).
Proof.
  unfold rtrim. rewrite <- (drop_find_index_not isspace (reverse s)), length_reverse.
  change (fun x => negb (isspace x)) with not_space.
  set (k := default (length s) (find_index not_space (reverse s))).
  assert (k <= length s) as Hk.
  { subst k. destruct (find_index not_space (reverse s)) eqn:E; simpl; [|lia].
    apply find_index_lt in E. rewrite length_reverse in E. lia. }
  clearbody k. rewrite <- (reverse_involutive s) at 2. rewrite <- (length_reverse s) in *.
  generalize dependent (reverse s). intros t Ht.
  rewrite <- (take_drop k t) at 2. rewrite reverse_app, take_app_length'; [done|].
  by rewrite length_reverse, length_drop.
Qed.

(** A string without white space at either end. *)
Definition trimmed (s : bytes) : Prop :=
  (forall c t, s = c :: t -> isspace c = false) /\ (forall c t, s = t ++ [c] -> isspace c = false).

Lemma ltrim_spec s :
  exists pre, s = pre ++ ltrim s /\ Forall (fun c => isspace c = true) pre /\
              forall c t, ltrim s = c :: t -> isspace c = false.
Proof.
  rewrite ltrim_drop_while. exists (take_while isspace s).
  rewrite take_drop_while. split; [done|]. split; [apply take_while_Forall|].
  intros c t E. pose proof (drop_while_head isspace s) as H. by rewrite E in H.
Qed.

Lemma rtrim_spec s :
  exists post, s = rtrim s ++ post /\ Forall (fun c => isspace c = true) post /\
               forall c t, rtrim s = t ++ [c] -> isspace c = false.
Proof.
  rewrite rtrim_drop_while. exists (reverse (take_while isspace (reverse s))).
  split; [|split].
  - by rewrite <- reverse_app, take_drop_while, reverse_involutive.
  - apply Forall_reverse, take_while_Forall.
  - intros c t E. pose proof (drop_while_head isspace (reverse s)) as H.
    apply (f_equal reverse) in E. rewrite reverse_involutive, reverse_app in E.
    simpl in E. by rewrite E in H.
Qed.

Lemma trim_decompose s :
  exists pre post, s = pre ++ trim s ++ post /\ Forall (fun c => isspace c = true) (pre ++ post) /\
                   trimmed (trim s).
Proof.
  destruct (ltrim_spec s) as (pre & Hs & Hpre & Hl).
  destruct (rtrim_spec (ltrim s)) as (post & Hr & Hpost & Hrr).
  exists pre, post. unfold trim. rewrite <- Hr. split; [done|]. split; [by apply Forall_app|].
  split; [|done]. intros c t E. apply (Hl c (t ++ post)). by rewrite Hr, E.
Qed.

Lemma trimmed_trim s : trimmed s -> trim s = s.
Proof.
  intros [Hh Hl]. assert (ltrim s = s) as E.
  { rewrite ltrim_drop_while. destruct s as [|c s]; [done|]. simpl. by rewrite (Hh c s). }
  unfold trim. rewrite E, rtrim_drop_while. destruct s as [|c s] using rev_ind; [done|].
  rewrite reverse_snoc. simpl. rewrite (Hl c s) by done. by rewrite reverse_cons, reverse_involutive.
Qed.

Lemma trim_bytes s : is_bytes s -> is_bytes (trim s).
Proof. intros. unfold trim, rtrim, ltrim. auto with ag. Qed.

Lemma trim_length s : length (trim s) <= length s.
Proof.
  destruct (trim_decompose s) as (pre & post & E & _). rewrite E at 2. rewrite !length_app. lia.
Qed.

#[export] Hint Resolve trim_bytes : ag.

Lemma no_space_trim s : Forall (fun c => isspace c = false) s -> trim s = s.
Proof.
  intros H. apply trimmed_trim. rewrite Forall_forall in H. split; intros c t ->; apply H; set_solver.
Qed.

(** The first occurrence of the delimiter splits. *)
Lemma split2_by_first (a b : bytes) (d : Z) (need_trim : bool) :
  is_byte d -> Forall (fun c => c <> d) a ->
  split2_by (a ++ d :: b) d need_trim = if need_trim then (trim a, trim b) else (a, b).
Proof.
  intros Hd Ha. unfold split2_by, split2. rewrite u8_id by done. cbn [negb].
  rewrite find_index_app, (proj2 (find_index_None _ _)).
  - cbn [find_index]. unfold char_in at 1. cbn [existsb]. rewrite Z.eqb_refl. cbn.
    rewrite Nat.add_0_r, take_app_length, drop_app_ge, Nat.add_1_r by lia.
    replace (S (length a) - length a) with 1 by lia. by destruct need_trim.
  - eapply Forall_impl; [exact Ha|]. intros c Hc. cbn. rewrite orb_false_r. by apply Z.eqb_neq.
Qed.

Lemma split2_by_none (a : bytes) (d : Z) (need_trim : bool) :
  is_byte d -> Forall (fun c => c <> d) a ->
  split2_by a d need_trim = (if need_trim then trim a else a, []).
Proof.
  intros Hd Ha. unfold split2_by, split2. rewrite u8_id by done. cbn [negb].
  rewrite (proj2 (find_index_None _ _)); [by destruct need_trim|].
  eapply Forall_impl; [exact Ha|]. intros c Hc. cbn. rewrite orb_false_r. by apply Z.eqb_neq.
Qed.

(** Trimming removes exactly the white space at both ends. *)
Theorem trim_spec s :
  (exists pre post, s = pre ++ trim s ++ post /\ Forall (fun c => isspace c = true) (pre ++ post)) /\
  trimmed (trim s) /\ trim (trim s) = trim s.
Proof.
  destruct (trim_decompose s) as (pre & post & E & Hf & Ht).
  split; [eauto|]. split; [done|]. by apply trimmed_trim.
Qed.

(** ** Case-insensitive comparison and search *)

Lemma iequals_spec l r : iequals l r = true <-> to_lower l = to_lower r.
Proof.
  revert r. induction l as [|a l IH]; intros [|b r]; simpl; [done..|].
  rewrite andb_true_iff, IH, Z.eqb_eq. split; [by intros [-> ->]|by intros [= -> ->]].
Qed.

Lemma iequals_eq l r : iequals l r = bool_decide (to_lower l = to_lower r).
Proof.
  destruct (iequals l r) eqn:E; symmetry.
  - apply bool_decide_eq_true. by apply iequals_spec.
  - apply bool_decide_eq_false. intros H%iequals_spec. congruence.
Qed.

#[export] Instance iequals_equivalence : Equivalence (fun l r => iequals l r = true).
Proof.
  split; red; setoid_rewrite iequals_spec; [done|done|]. intros x y z. by intros -> ->.
Qed.

Lemma to_lower_drop n s : to_lower (drop n s) = drop n (to_lower s).
Proof. unfold to_lower. apply fmap_drop. Qed.

Lemma to_lower_take n s : to_lower (take n s) = take n (to_lower s).
Proof. unfold to_lower. apply fmap_take. Qed.

Lemma length_to_lower s : length (to_lower s) = length s.
Proof. apply length_map. Qed.

(** The test of one turn of the search: the needle, lowered, is a prefix of the lowered rest. *)
Lemma ifind_test hay c needle pos :
  pos < length hay -> length (c :: needle) <= length hay - pos ->
  (tolower (hay !!! pos) =? tolower c)%Z && iequals (substr (S pos) (length (c :: needle) - 1) hay) needle
  = has_prefix (to_lower (c :: needle)) (drop pos (to_lower hay)).
Proof.
  intros Hp Hl. unfold has_prefix, substr. rewrite length_to_lower.
  destruct (lookup_lt_is_Some_2 hay pos Hp) as [x Hx].
  rewrite (list_lookup_total_correct _ _ _ Hx).
  rewrite <- to_lower_drop, <- to_lower_take, iequals_eq.
  rewrite (drop_S hay x pos Hx). simpl length. simpl take. simpl to_lower.
  destruct (Z.eqb_spec (tolower x) (tolower c)) as [E|E]; simpl; rewrite ?Nat.sub_0_r.
  - rewrite E. apply bool_decide_ext. unfold to_lower. split; [by intros ->|by intros [= ->]].
  - symmetry. apply bool_decide_eq_false. by intros [= ? _].
Qed.

Lemma find_sub_drop needle hay pos :
  pos <= length hay ->
  (forall j, j < pos -> has_prefix needle (drop j hay) = false) ->
  find_sub needle hay = (fun i => pos + i) <$> find_sub needle (drop pos hay).
Proof.
  revert hay. induction pos as [|pos IH]; intros hay Hp Hj.
  - rewrite drop_0. by destruct (find_sub needle hay).
  - destruct hay as [|c hay]; simpl in Hp; [lia|]. simpl.
    pose proof (Hj 0 ltac:(lia)) as H0. simpl in H0. rewrite H0, (IH hay); [|lia|].
    + by destruct (find_sub needle (drop pos hay)).
    + intros j Hjp. apply (Hj (S j)). lia.
Qed.

Lemma find_sub_short needle hay : length hay < length needle -> find_sub needle hay = None.
Proof.
  intros H. destruct (find_sub needle hay) eqn:E; [|done]. apply find_sub_Some in E. lia.
Qed.

Lemma ifind_loop_spec fuel hay c needle pos :
  length hay - pos < fuel ->
  ifind_loop fuel hay (c :: needle) (tolower c) pos
  = (fun i => pos + i) <$> find_sub (to_lower (c :: needle)) (drop pos (to_lower hay)).
Proof.
  revert pos. induction fuel as [|f IH]; intros pos Hf; [lia|]. cbn [ifind_loop].
  destruct ((length hay <=? pos) || (length hay - pos <? length (c :: needle))) eqn:E; bool_to_prop.
  - rewrite find_sub_short; [done|]. rewrite length_drop, !length_to_lower. simpl in *. lia.
  - destruct E as [E1 E2].
    change (drop 1 (c :: needle)) with needle. rewrite ifind_test by lia.
    assert (pos < length (to_lower hay)) as Hlt by (rewrite length_to_lower; lia).
    destruct (lookup_lt_is_Some_2 _ _ Hlt) as [x Hx].
    destruct (has_prefix _ _) eqn:Hpre.
    + rewrite (drop_S _ x pos Hx) in Hpre |- *. cbn [find_sub]. rewrite Hpre. cbn. f_equal. lia.
    + rewrite IH by lia. rewrite (drop_S _ x pos Hx) in Hpre |- *. cbn [find_sub]. rewrite Hpre.
      destruct (find_sub (to_lower (c :: needle)) (drop (S pos) (to_lower hay))); cbn; [|done].
      f_equal. lia.
Qed.

(** [ifind] is the search for the lowered needle in the lowered text. *)
Theorem ifind_lower hay needle : ifind hay needle = find_sub (to_lower needle) (to_lower hay).
Proof.
  destruct needle as [|c needle].
  - simpl. by destruct (to_lower hay).
  - unfold ifind. destruct hay as [|x hay].
    + by rewrite find_sub_short by (simpl; lia).
    + rewrite ifind_loop_spec by lia. rewrite drop_0.
      by destruct (find_sub (to_lower (c :: needle)) (to_lower (x :: hay))).
Qed.

(** ** Joining and splitting *)

Lemma concat_loop_spec r ps : concat_loop r ps = r ++ List.concat ps.
Proof.
  revert r. induction ps as [|p ps IH]; intros r; simpl; [by rewrite app_nil_r|].
  by rewrite IH, <- app_assoc.
Qed.

Lemma join_loop_app r ps d : join_loop r ps d = r ++ join_loop [] ps d.
Proof.
  revert r. induction ps as [|p ps IH]; intros r; simpl; [by rewrite app_nil_r|].
  rewrite IH. rewrite (IH (d ++ p)). by rewrite <- !app_assoc.
Qed.

Lemma join_cons p q ps d : join (p :: q :: ps) d = p ++ d ++ join (q :: ps) d.
Proof.
  simpl. rewrite join_loop_app, (join_loop_app q). by rewrite <- !app_assoc.
Qed.

(** What the loops of the split functions keep of a raw piece. *)
Definition keep_piece (include_empty need_trim : bool) (x : bytes) : list bytes :=
  if bool_decide (x = []) then []
  else
    let y := if need_trim then trim x else x in
    if include_empty || negb (bool_decide (y = [])) then [y] else [].

Definition keep (include_empty need_trim : bool) (ps : list bytes) : list bytes :=
  flat_map (keep_piece include_empty need_trim) ps.

(** The raw pieces of a text for a search function and the length of what it finds. *)
Inductive pieces_of (find : bytes -> option nat) (dlen : nat) : bytes -> list bytes -> Prop :=
| pieces_last s : find s = None -> pieces_of find dlen s [s]
| pieces_more s i ps :
    find s = Some i -> pieces_of find dlen (drop (i + dlen) s) ps ->
    pieces_of find dlen s (take i s :: ps).

Lemma pieces_of_cons find dlen s ps : pieces_of find dlen s ps -> exists p qs, ps = p :: qs.
Proof. destruct 1; eauto. Qed.

Lemma keep_piece_substr (ie nt : bool) (s : bytes) (i : nat) :
  i <= length s ->
  (if negb (i =? 0) then
     let piece := substr 0 i s in
     let piece := if nt then trim piece else piece in
     if ie || negb (bool_decide (piece = [])) then [piece] else []
   else []) = keep_piece ie nt (take i s).
Proof.
  intros Hi. unfold keep_piece, substr. rewrite drop_0.
  destruct (Nat.eqb_spec i 0) as [->|Hn]; simpl; [done|].
  rewrite (bool_decide_eq_false_2 (take i s = [])); [done|]. intros E. apply (f_equal length) in E.
  rewrite length_take in E. simpl in E. lia.
Qed.

Lemma split_loop_pieces find dlen find_end s ie nt ps seek :
  (forall x i, find x = Some i -> i + dlen <= length x) ->
  (forall k, k <= length s -> find_end k = (fun i => k + i) <$> find (drop k s)) ->
  seek <= length s -> pieces_of find dlen (drop seek s) ps ->
  split_loop (length ps) find_end dlen s ie nt seek = keep ie nt ps.
Proof.
  intros Hlen Hend Hseek Hp. remember (drop seek s) as t eqn:Ht. revert seek Hseek Ht.
  induction Hp as [t Hn|t i ps Hi _ IH]; intros seek Hseek ->; cbn [split_loop length].
  - rewrite Hend, Hn by done. cbn [from_option id fmap option_fmap option_map].
    unfold keep. cbn [flat_map]. f_equal. rewrite <- length_drop.
    etrans; [|rewrite <- (take_ge (drop seek s) (length (drop seek s))); [done|lia]].
    rewrite <- keep_piece_substr by lia. unfold substr. by rewrite drop_0.
  - rewrite Hend, Hi by done. cbn [from_option id fmap option_fmap option_map].
    pose proof (Hlen _ _ Hi) as Hb. rewrite length_drop in Hb.
    replace (seek + i - seek) with i by lia. unfold keep. cbn [flat_map]. f_equal.
    + rewrite <- keep_piece_substr by (rewrite length_drop; lia). unfold substr. by rewrite drop_0.
    + apply IH; [lia|]. rewrite drop_drop. f_equal. lia.
Qed.

Lemma pieces_of_exists find dlen s :
  0 < dlen -> (forall x i, find x = Some i -> i + dlen <= length x) ->
  exists ps, pieces_of find dlen s ps.
Proof.
  intros Hd Hlen. induction s as [s IH] using (induction_ltof1 _ length). unfold ltof in IH.
  destruct (find s) as [i|] eqn:Hi; [|exists [s]; by constructor].
  destruct (IH (drop (i + dlen) s)) as [ps Hps].
  { pose proof (Hlen _ _ Hi). rewrite length_drop. lia. }
  exists (take i s :: ps). by econstructor.
Qed.

(** Number of turns of the counting loop, for the pieces from [seek] on. *)
Lemma count_delims_pieces delim s ps seek fuel num :
  pieces_of (find_sub delim) (length delim) (drop seek s) ps ->
  seek <= length s -> length ps <= fuel ->
  count_delims fuel s delim seek num = Some (num + length ps - 1).
Proof.
  intros Hp. remember (drop seek s) as t eqn:Ht. revert seek fuel num Ht.
  induction Hp as [t Hn|t i ps Hi Hp IH]; intros seek [|fuel] num -> Hs Hf; simpl in *; try lia.
  - unfold find_sub_from. rewrite (proj2 (Nat.leb_le _ _) Hs), Hn. cbn. f_equal. lia.
  - pose proof (find_sub_Some _ _ _ Hi) as (Hb & _). rewrite length_drop in Hb.
    unfold find_sub_from. rewrite (proj2 (Nat.leb_le _ _) Hs), Hi. cbn.
    rewrite IH; [f_equal|by rewrite drop_drop; f_equal; lia|lia|lia].
    apply pieces_of_cons in Hp as (? & ? & ->). simpl. lia.
Qed.

Lemma pieces_of_length find dlen s ps :
  0 < dlen -> (forall x i, find x = Some i -> i + dlen <= length x) ->
  pieces_of find dlen s ps -> length ps <= S (length s).
Proof.
  intros Hd Hlen. induction 1 as [|s i ps Hi _ IH]; simpl; [lia|].
  pose proof (Hlen _ _ Hi). rewrite length_drop in IH. lia.
Qed.

Lemma pieces_of_join delim s ps :
  pieces_of (find_sub delim) (length delim) s ps -> join ps delim = s.
Proof.
  induction 1 as [|s i ps Hi Hp IH]; [done|].
  apply find_sub_Some in Hi as (_ & (t & Ht)%has_prefix_spec & _).
  destruct (pieces_of_cons _ _ _ _ Hp) as (q & qs & ->). rewrite join_cons, IH.
  rewrite <- (take_drop i s) at 3. f_equal. rewrite <- drop_drop, Ht. by rewrite drop_app_length.
Qed.

Lemma pieces_of_count p s ps :
  pieces_of (find_index p) 1 s ps -> length ps = 1 + length (List.filter p s).
Proof.
  induction 1 as [s Hn|s i ps Hi _ IH]; simpl.
  - apply find_index_None in Hn. induction Hn as [|x s Hx _ IH]; simpl; [done|]. by rewrite Hx.
  - rewrite IH. apply find_index_Some in Hi as (x & Hx & Hp & Hf).
    rewrite <- (take_drop i s) at 2. rewrite (drop_S _ _ _ Hx), List.filter_app, length_app.
    simpl. rewrite Hp. simpl. rewrite Nat.add_1_r.
    assert (List.filter p (take i s) = []) as ->; [|simpl; lia].
    induction Hf as [|y l Hy _ IHf]; simpl; [done|]. by rewrite Hy.
Qed.

Lemma pieces_of_free p s ps :
  pieces_of (find_index p) 1 s ps -> Forall (Forall (fun c => p c = false)) ps.
Proof.
  induction 1 as [s Hn|s i ps Hi _ IH].
  - constructor; [by apply find_index_None|constructor].
  - constructor; [|done]. by apply find_index_Some in Hi as (x & _ & _ & Hf).
Qed.

Lemma pieces_of_join_char d s ps : pieces_of (find_index (char_in [d])) 1 s ps -> join ps [d] = s.
Proof.
  induction 1 as [|s i ps Hi Hp IH]; [done|].
  apply find_index_Some in Hi as (x & Hx & Hd & _).
  apply char_in_spec, list_elem_of_singleton in Hd as ->.
  destruct (pieces_of_cons _ _ _ _ Hp) as (q & qs & ->). rewrite join_cons, IH.
  rewrite <- (take_drop i s) at 3. f_equal. by rewrite (drop_S _ _ _ Hx), Nat.add_1_r.
Qed.

Lemma split_by_any_of_pieces s delim ie nt ps :
  s <> [] -> pieces_of (find_index (char_in delim)) 1 s ps ->
  split_by_any_of s delim ie nt = keep ie nt ps.
Proof.
  intros Hs Hp. unfold split_by_any_of. destruct s as [|c s]; [done|].
  rewrite <- (pieces_of_count _ _ _ Hp).
  apply split_loop_pieces with (find := find_index (char_in delim)); [|done|lia|by rewrite drop_0].
  intros x i Hi%find_index_lt. lia.
Qed.

(** Splitting by a character is splitting at every occurrence. *)
Theorem split_by_reference s d ie nt :
  s <> [] -> is_byte d ->
  exists ps, join ps [d] = s /\ Forall (fun x => d ∉ x) ps /\ split_by s d ie nt = keep ie nt ps.
Proof.
  intros Hs Hd. destruct (pieces_of_exists (find_index (char_in [d])) 1 s) as [ps Hp].
  { lia. } { intros x i Hi%find_index_lt. lia. }
  exists ps. split; [by apply pieces_of_join_char|]. split.
  - apply pieces_of_free in Hp. eapply Forall_impl; [done|]. intros x Hx Hin.
    rewrite Forall_forall in Hx. specialize (Hx d Hin). cbv beta in Hx.
    assert (char_in [d] d = true) by (apply char_in_spec; set_solver). congruence.
  - unfold split_by. rewrite u8_id by done. by apply split_by_any_of_pieces.
Qed.

Lemma split_by_reference_witness :
  exists ps, join ps [chr ","] = str "a, b,,c" /\ split_by (str "a, b,,c") (chr ",") false true = keep false true ps /\
    split_by (str "a, b,,c") (chr ",") false true = [str "a"; str "b"; str "c"].
Proof.
  destruct (split_by_reference (str "a, b,,c") (chr ",") false true) as (ps & E & _ & K); [done|apply chr_byte|].
  exists ps. split; [exact E|]. split; [exact K|by vm_compute].
Defined.

(** Splitting by a string ends and is splitting at the successive occurrences. *)
Theorem split_by_str_reference s delim ie nt :
  s <> [] -> delim <> [] ->
  exists ps, pieces_of (find_sub delim) (length delim) s ps /\ join ps delim = s /\
             split_by_str s delim ie nt = Some (keep ie nt ps).
Proof.
  intros Hs Hd.
  assert (0 < length delim) as Hl by (destruct delim; [done|simpl; lia]).
  assert (forall x i, find_sub delim x = Some i -> i + length delim <= length x) as Hb.
  { intros x i Hi%find_sub_Some. lia. }
  destruct (pieces_of_exists _ _ s Hl Hb) as [ps Hp]. exists ps.
  split; [done|]. split; [by apply pieces_of_join|].
  pose proof (pieces_of_length _ _ _ _ Hl Hb Hp). unfold split_by_str, split_by_str_fuel.
  destruct s as [|c s]; [done|].
  rewrite (count_delims_pieces _ _ ps) by (rewrite ?drop_0; done || lia).
  cbn [mbind option_bind]. f_equal. replace (1 + length ps - 1) with (length ps) by lia.
  apply split_loop_pieces with (find := find_sub delim); [done| |lia|by rewrite drop_0].
  intros k Hk. unfold find_sub_from. by rewrite (proj2 (Nat.leb_le _ _) Hk).
Qed.

Lemma split_by_str_reference_witness :
  exists ps, join ps (str "::") = str "a::b" /\ split_by_str (str "a::b") (str "::") false false = Some (keep false false ps).
Proof.
  destruct (split_by_str_reference (str "a::b") (str "::") false false) as (ps & _ & E & K); [done..|]. eauto.
Defined.

(** With an empty delimiter the counting loop never ends. *)
Theorem split_by_str_empty_delim fuel s ie nt :
  s <> [] -> split_by_str_fuel fuel s [] ie nt = None.
Proof.
  intros Hs. unfold split_by_str_fuel. destruct s as [|c s]; [done|].
  assert (forall num, count_delims fuel (c :: s) [] 0 num = None) as ->; [|done].
  induction fuel as [|f IH]; intros num; simpl; [done|]. apply IH.
Qed.

(** ** Numbers *)

Section ToInteger.
Local Open Scope Z_scope.

Lemma to_integer_unsigned_fmt is_signed w upper base n :
  2 <= base <= 16 -> 0 <= n <= int_max is_signed w -> int_min is_signed w <= 0 ->
  to_integer is_signed w base (fmt_num upper base n) = Some n.
Proof.
  intros Hb Hn Hmin. destruct (fmt_num_read upper base n) as (Hall & Hne & Hr); [done|lia|].
  unfold to_integer, from_chars. destruct (fmt_num upper base n) as [|c ds] eqn:E; [done|].
  inversion Hall as [|? ? [d Hd]]; subst.
  assert ((c =? 45) = false) as Hc.
  { destruct (Z.eqb_spec c 45); [|done]. subst. vm_compute in Hd. done. }
  rewrite Hc, andb_false_r, Hd, Hr. rewrite !(proj2 (Z.leb_le _ _)) by lia. done.
Qed.

Lemma fmt_dec_digits n : 0 <= n -> Forall (fun c => isdigit c = true) (fmt_dec n) /\ fmt_dec n <> [].
Proof.
  intros Hn. unfold fmt_dec. rewrite (proj2 (Z.ltb_ge _ _)) by done.
  destruct (fmt_num_read false 10 n) as (H & Hne & _); [lia..|]. split; [|done].
  eapply Forall_impl; [exact H|]. intros c [d Hd]. unfold digit_val, isdigit, islower, isupper in *.
  crush_match.
Qed.

Lemma fmt_dec_to_integer w n :
  0 <= n < 2 ^ w -> to_integer false w 10 (fmt_dec n) = Some n.
Proof.
  intros Hn. unfold fmt_dec. rewrite (proj2 (Z.ltb_ge _ _)) by lia.
  apply to_integer_unsigned_fmt; unfold int_max, int_min; lia.
Qed.

Lemma int_min_nonpos is_signed w : 0 < w -> int_min is_signed w <= 0.
Proof. intros. unfold int_min. destruct is_signed; [|done]. pose proof (Z.pow_pos_nonneg 2 (w - 1)). lia. Qed.

(** Printing then parsing a number of the type gives it back; what parses is in range. *)
Theorem to_integer_roundtrip is_signed w :
  0 < w ->
  (forall n, int_min is_signed w <= n <= int_max is_signed w ->
             to_integer is_signed w 10 (fmt_dec n) = Some n) /\
  (forall base s v, to_integer is_signed w base s = Some v ->
                    int_min is_signed w <= v <= int_max is_signed w).
Proof.
  intros Hw. split.
  - intros n Hn. pose proof (int_min_nonpos is_signed w Hw). unfold fmt_dec.
    destruct (Z.ltb_spec n 0); [|apply to_integer_unsigned_fmt; lia].
    assert (is_signed = true) as -> by (unfold int_min in Hn; destruct is_signed; [done|lia]).
    destruct (fmt_num_read false 10 (- n)) as (Hall & Hne & Hr); [lia..|].
    unfold to_integer, from_chars. cbn [andb drop Z.eqb Pos.eqb].
    destruct (fmt_num false 10 (- n)) as [|c ds] eqn:E; [done|].
    inversion Hall as [|? ? [d Hd]]; subst. rewrite drop_0, Hd, Hr, Z.opp_involutive.
    rewrite !(proj2 (Z.leb_le _ _)) by lia. done.
  - intros base s v. unfold to_integer, from_chars.
    repeat (case_match; simplify_eq/=); intros; simplify_eq; bool_to_prop; lia.
Qed.

Lemma to_integer_roundtrip_witness :
  to_integer true 16 10 (fmt_dec (-32768)) = Some (-32768) /\ to_integer true 16 10 (fmt_dec 40000) = None.
Proof.
  split; [|by vm_compute]. destruct (to_integer_roundtrip true 16) as [H _]; [lia|].
  apply H. by vm_compute.
Defined.
End ToInteger.

Lemma hash_range char_signed s : is_bytes s -> (0 <= hash char_signed s < 2 ^ 32)%Z.
Proof.
  unfold hash. intros Hs. assert (0 <= 5381 < 2 ^ 32)%Z as Hh by lia.
  generalize dependent 5381%Z. induction Hs as [|c s Hc _ IH]; intros h Hh; simpl; [done|].
  apply IH. clear IH.
  assert (0 <= char_to_u32 char_signed c < 2 ^ 32)%Z as Hv.
  { unfold char_to_u32, is_byte in *. case_match; [by apply wrap_range|lia]. }
  apply lxor_range; [done|by apply wrap_range|done].
Qed.

(** ** In-place partition *)

Lemma swap_at_app {A} (l1 l2 l3 : list A) x y :
  swap_at (length l1) (length l1 + S (length l2)) (l1 ++ x :: l2 ++ y :: l3)
  = l1 ++ y :: l2 ++ x :: l3.
Proof.
  unfold swap_at. rewrite list_lookup_middle by done.
  rewrite lookup_app_r by lia. replace (length l1 + S (length l2) - length l1) with (S (length l2)) by lia.
  simpl. rewrite list_lookup_middle by done.
  rewrite insert_app_r. simpl. rewrite <- (Nat.add_0_r (length l2)) at 1. rewrite insert_app_r. simpl.
  rewrite <- (Nat.add_0_r (length l1)) at 1. rewrite insert_app_r. done.
Qed.

Lemma swap_remove_loop_spec {A} (p : A -> bool) (l3 l1 l2 : list A) :
  l2 <> [] -> Forall (fun x => p x = true) l2 ->
  exists l2',
    swap_remove_loop (length l3) p (length l1 + length l2) (length l1) (l1 ++ l2 ++ l3)
    = (length (l1 ++ List.filter (fun x => negb (p x)) l3),
       (l1 ++ List.filter (fun x => negb (p x)) l3) ++ l2')
    /\ Forall (fun x => p x = true) l2' /\ l2' ≡ₚ l2 ++ List.filter p l3.
Proof.
  revert l1 l2. induction l3 as [|y l3 IH]; intros l1 l2 Hne Hall; simpl.
  - exists l2. by rewrite !app_nil_r.
  - rewrite app_assoc, list_lookup_middle by (rewrite length_app; lia).
    destruct (p y) eqn:Hy; simpl.
    + destruct (IH l1 (l2 ++ [y])) as (l2' & E & Hf & Hp).
      { by destruct l2. } { apply Forall_app. auto. }
      exists l2'. rewrite <- app_assoc. rewrite <- (app_assoc l2 [y] l3) in E. simpl in E.
      rewrite length_app in E. simpl in E.
      replace (S (length l1 + length l2)) with (length l1 + (length l2 + 1)) by lia.
      rewrite E. split; [done|]. split; [done|]. by rewrite Hp, <- app_assoc.
    + destruct l2 as [|x l2]; [done|]. rewrite <- app_assoc. simpl. rewrite swap_at_app.
      destruct (IH (l1 ++ [y]) (l2 ++ [x])) as (l2' & E & Hf & Hp).
      { by destruct l2. } { inversion Hall; subst. apply Forall_app. auto. }
      exists l2'. rewrite !length_app in E. simpl in E.
      replace (S (length l1 + S (length l2))) with (length l1 + 1 + (length l2 + 1)) by lia.
      replace (S (length l1)) with (length l1 + 1) by lia.
      rewrite <- !app_assoc in E. simpl in E. rewrite E. split; [|split; [done|]].
      * f_equal; [|by rewrite <- !app_assoc]. rewrite length_app. simpl. lia.
      * rewrite Hp, <- app_assoc. simpl. by rewrite <- Permutation_middle.
Qed.

(** [swap_remove_if] keeps the others in order and moves every removed element to the tail. *)
Theorem swap_remove_if_spec {A} (p : A -> bool) (l : list A) :
  let '(e, l') := swap_remove_if p l in
  take e l' = List.filter (fun x => negb (p x)) l /\
  Forall (fun x => p x = true) (drop e l') /\ l' ≡ₚ l.
Proof.
  unfold swap_remove_if. destruct (find_index p l) as [b|] eqn:Hb.
  - destruct (find_index_split _ _ _ Hb) as (l1 & x & l3 & -> & <- & Hp & Hf).
    assert (List.filter (fun y => negb (p y)) l1 = l1) as Hk.
    { clear Hb. induction Hf as [|y k Hy _ IH]; simpl; [done|]. by rewrite Hy, IH. }
    destruct (swap_remove_loop_spec p l3 l1 [x]) as (l2' & E & Hf' & Hperm); [done|auto|].
    rewrite length_app. simpl in *. rewrite Nat.add_1_r in E.
    replace (length l1 + S (length l3) - S (length l1)) with (length l3) by lia.
    rewrite E, take_app_length, drop_app_length, List.filter_app. simpl. rewrite Hp. simpl.
    rewrite Hk. split; [done|]. split; [done|].
    rewrite Hperm, <- app_assoc. f_equiv. simpl. rewrite <- Permutation_middle. f_equiv.
    clear. induction l3 as [|y k IHk]; simpl; [done|].
    destruct (p y); simpl; [rewrite <- Permutation_middle|]; by rewrite IHk.
  - apply find_index_None in Hb. rewrite take_ge, drop_ge by lia. split; [|done].
    induction Hb as [|y k Hy _ IH]; simpl; [done|]. by rewrite Hy, <- IH.
Qed.

(** ** Lines *)

(** The lines of a text, each with the position where it starts: every [\r] or [\n] ends one,
    and the text after the last of them is one more when it is not empty. *)
Fixpoint text_lines (start : nat) (cur : bytes) (s : bytes) : list (nat * bytes) :=
  match s with
  | [] => match cur with [] => [] | _ => [(start, cur)] end
  | c :: s' =>
      if is_eol c then (start, cur) :: text_lines (start + length cur + 1) [] s'
      else text_lines start (cur ++ [c]) s'
  end.

(** The action on each line in turn, until it answers [false]. *)
Fixpoint run_lines {S} (action : Z -> bytes -> S -> bool * S) (ls : list (nat * bytes)) (st : S) : S :=
  match ls with
  | [] => st
  | (pos, l) :: ls' =>
      let '(go_on, st') := action (u32 (Z.of_nat pos)) (trim l) st in
      if negb go_on then st' else run_lines action ls' st'
  end.

Lemma text_lines_find start cur s :
  text_lines start cur s =
  match find_index is_eol s with
  | Some i =>
      (start, cur ++ take i s) :: text_lines (start + length cur + i + 1) [] (drop (S i) s)
  | None => match cur ++ s with [] => [] | l => [(start, l)] end
  end.
Proof.
  revert cur. induction s as [|c s IH]; intros cur; simpl.
  - rewrite app_nil_r. by destruct cur.
  - destruct (is_eol c); [by rewrite app_nil_r, Nat.add_0_r|].
    rewrite IH, length_app. simpl. destruct (find_index is_eol s); simpl.
    + rewrite <- app_assoc. simpl. f_equal. f_equal. lia.
    + by rewrite <- app_assoc.
Qed.

Lemma for_each_line_loop_spec {S} fuel s (action : Z -> bytes -> S -> bool * S) start st :
  start <= length s -> length s - start < fuel ->
  for_each_line_loop fuel s action start st = run_lines action (text_lines start [] (drop start s)) st.
Proof.
  revert start st. induction fuel as [|f IH]; intros start st Hs Hf; [lia|].
  rewrite text_lines_find. cbn [for_each_line_loop app length].
  destruct (Nat.eqb_spec start (length s)) as [->|Hne]; [by rewrite drop_all|].
  unfold find_index_from. destruct (find_index is_eol (drop start s)) as [i|] eqn:Hi; cbn.
  - pose proof (find_index_lt _ _ _ Hi) as Hlt. rewrite length_drop in Hlt.
    unfold substr. replace (start + i - start) with i by lia.
    destruct (action _ _ st) as [[] st']; cbn; [|done].
    rewrite IH by lia. rewrite drop_drop. do 3 f_equal; lia.
  - destruct (drop start s) as [|c t] eqn:E.
    { apply (f_equal length) in E. rewrite length_drop in E. simpl in E. lia. }
    cbn. by destruct (action _ _ st) as [[] st'].
Qed.

(** [for_each_line] runs the action on the trimmed lines of the text, in order. *)
Theorem for_each_line_spec {S} s (action : Z -> bytes -> S -> bool * S) st :
  for_each_line s action st = (0%Z, run_lines action (text_lines 0 [] s) st).
Proof. unfold for_each_line. f_equal. rewrite for_each_line_loop_spec by lia. by rewrite drop_0. Qed.

(** ** Hex *)

Lemma parse_hex_table d :
  (0 <= d < 16)%Z -> parse_hex_char (HEX_TABLE !!! Z.to_nat d) = d.
Proof.
  by_range.
Qed.

Lemma byte_nibbles b :
  is_byte b -> (0 <= Z.shiftr b 4 < 16 /\ 0 <= Z.land b 0x0f < 16 /\
                u8 (Z.lor (Z.shiftl (Z.shiftr b 4) 4) (Z.land b 0x0f)) = b)%Z.
Proof. by_range. Qed.

Lemma encode_to_hex_length data : length (encode_to_hex data) = 2 * length data.
Proof. unfold encode_to_hex. induction data; simpl; lia. Qed.

Lemma decode_hex_loop_encode data r :
  is_bytes data -> decode_hex_loop (encode_to_hex data) r = Some (r ++ data).
Proof.
  intros Hd. revert r. induction Hd as [|b data Hb _ IH]; intros r; [by rewrite app_nil_r|].
  destruct (byte_nibbles b Hb) as (Hhi & Hlo & E).
  cbn [encode_to_hex flat_map app decode_hex_loop]. rewrite !parse_hex_table by done.
  rewrite !(proj2 (Z.ltb_ge _ _)) by lia. cbn [orb]. rewrite E.
  change (flat_map _ data) with (encode_to_hex data). rewrite IH, <- app_assoc. done.
Qed.

(** Hex coding is undone by decoding, for either case of the digits. *)
Theorem decode_hex_encode data :
  is_bytes data ->
  decode_hex (encode_to_hex data) = data /\ decode_hex (to_upper (encode_to_hex data)) = data.
Proof.
  intros Hd.
  assert (forall c, (0 <= c < 16)%Z ->
            parse_hex_char (toupper (HEX_TABLE !!! Z.to_nat c)) = parse_hex_char (HEX_TABLE !!! Z.to_nat c)) as Hup.
  { by_range. }
  assert (forall r, decode_hex_loop (to_upper (encode_to_hex data)) r
                    = decode_hex_loop (encode_to_hex data) r) as Eup.
  { induction Hd as [|b data Hb _ IH]; intros r; [done|].
    destruct (byte_nibbles b Hb) as (Hhi & Hlo & E).
    cbn [encode_to_hex flat_map app to_upper map decode_hex_loop]. rewrite !Hup by done.
    case_match; [done|]. apply IH. }
  unfold decode_hex, to_upper. rewrite length_map, encode_to_hex_length.
  rewrite Nat.odd_mul. cbn [Nat.odd Nat.even negb andb]. fold (to_upper (encode_to_hex data)).
  rewrite Eup, decode_hex_loop_encode by done. done.
Qed.

Lemma decode_hex_encode_witness :
  decode_hex (encode_to_hex [0; 171; 255]%Z) = [0; 171; 255]%Z /\ encode_to_hex [0; 171; 255]%Z = str "00abff".
Proof. split; [apply (decode_hex_encode [0; 171; 255]%Z); by repeat constructor|by vm_compute]. Defined.

(** ** Shell quoting *)

(** How a POSIX shell reads one word: single quotes keep everything, a backslash keeps the next
    character, and an unquoted character that is special to the shell ends the word ([None]). *)
Definition sh_plain (c : Z) : bool :=
  isdigit c || islower c || isupper c || char_in (str "_-./,:=@%+") c.

Fixpoint sh_word (fuel : nat) (quoted : bool) (s : bytes) : option bytes :=
  match fuel with
  | O => None
  | S f =>
      match s with
      | [] => if quoted then None else Some []
      | c :: s' =>
          if quoted then
            if (c =? 39)%Z then sh_word f false s' else cons c <$> sh_word f true s'
          else if (c =? 39)%Z then sh_word f true s'
          else if (c =? 92)%Z then
            match s' with d :: s'' => cons d <$> sh_word f false s'' | [] => None end
          else if sh_plain c then cons c <$> sh_word f false s' else None
      end
  end.

Lemma sh_word_quoted arg fuel :
  4 * length arg + 2 <= fuel ->
  sh_word fuel true
    (flat_map (fun ch => if negb (ch =? 39)%Z then [ch] else [39; 92; 39; 39]%Z) arg ++ [39]%Z)
  = Some arg.
Proof.
  revert fuel. induction arg as [|c arg IH]; intros fuel Hf; cbn [length] in Hf.
  - destruct fuel as [|[|f]]; [lia..|]. done.
  - destruct fuel as [|f]; [lia|]. cbn [flat_map].
    destruct (Z.eqb_spec c 39) as [->|Hc]; cbn [negb app].
    + destruct f as [|[|f]]; [lia..|]. cbn [sh_word Z.eqb Pos.eqb]. by rewrite IH by lia.
    + cbn [sh_word]. rewrite (proj2 (Z.eqb_neq _ _) Hc). by rewrite IH by lia.
Qed.

(** A shell reads an escaped argument as one word equal to the argument. *)
Theorem escape_argument_for_shell_word arg :
  sh_word (4 * length arg + 3) false (escape_argument_for_shell arg) = Some arg.
Proof.
  replace (4 * length arg + 3) with (S (4 * length arg + 2)) by lia.
  exact (sh_word_quoted arg _ (le_n _)).
Qed.

(** ** Word wrapping *)

Definition nonblank (s : bytes) : bytes := List.filter (fun c => negb (is_blank c)) s.

Lemma nonblank_app s t : nonblank (s ++ t) = nonblank s ++ nonblank t.
Proof. apply List.filter_app. Qed.

Lemma nonblank_skip text pos :
  pos <= length text -> nonblank (drop pos text) = nonblank (drop (skip_spaces text pos) text).
Proof.
  intros _. unfold skip_spaces. rewrite <- drop_drop, <- drop_while_find_drop.
  rewrite <- (take_drop_while is_blank (drop pos text)) at 1. rewrite nonblank_app.
  pose proof (take_while_Forall is_blank (drop pos text)) as Hf.
  assert (nonblank (take_while is_blank (drop pos text)) = []) as ->; [|done].
  unfold nonblank. induction Hf as [|c l Hc _ IH]; simpl; [done|]. by rewrite Hc.
Qed.

Lemma skip_spaces_bound text pos :
  pos <= length text -> pos <= skip_spaces text pos <= length text.
Proof.
  intros H. unfold skip_spaces. split; [lia|].
  pose proof (f_equal length (take_drop_while is_blank (drop pos text))) as E.
  rewrite length_app, length_drop in E. lia.
Qed.

Lemma wrap_width_bound text width pos :
  0 < width -> pos < length text ->
  0 < wrap_width text width pos <= width /\ pos + wrap_width text width pos <= length text.
Proof.
  intros Hw Hp. unfold wrap_width.
  set (cw := if length text - pos <? width then length text - pos else width).
  assert (0 < cw <= width /\ pos + cw <= length text) as Hcw.
  { subst cw. destruct (Nat.ltb_spec (length text - pos) width); lia. }
  clearbody cw. case_match; [|done].
  destruct (rfind_index is_blank (substr pos cw text)) as [q|] eqn:E; [|done].
  apply rfind_index_Some in E as (x & Hx & _). apply lookup_lt_Some in Hx.
  unfold substr in Hx. rewrite length_take, length_drop in Hx.
  destruct (Nat.eqb_spec q 0); simpl; lia.
Qed.

Lemma word_wrap_loop_spec fuel text width pos :
  0 < width -> pos <= length text -> length text - pos <= fuel ->
  Forall (fun l => 0 < length l <= width) (word_wrap_loop fuel text width pos) /\
  nonblank (List.concat (word_wrap_loop fuel text width pos)) = nonblank (drop pos text).
Proof.
  intros Hw. revert pos. induction fuel as [|f IH]; intros pos Hp Hf; cbn [word_wrap_loop].
  - rewrite drop_ge by lia. split; constructor.
  - destruct (Nat.ltb_spec pos (length text)) as [Hlt|]; [|rewrite drop_ge by lia; split; constructor].
    pose proof (wrap_width_bound text width pos Hw Hlt) as [Hc Hb].
    pose proof (skip_spaces_bound text (pos + wrap_width text width pos) Hb) as Hs.
    destruct (IH (skip_spaces text (pos + wrap_width text width pos))) as [Hall Hj]; [lia..|].
    split.
    + constructor; [|done]. unfold substr. rewrite length_take, length_drop. lia.
    + cbn [List.concat]. rewrite nonblank_app, Hj, <- nonblank_skip by done. unfold substr.
      rewrite <- nonblank_app, <- drop_drop. by rewrite take_drop.
Qed.

(** Every wrapped line fits the width and only spaces are lost. *)
Theorem word_wrap_spec text width :
  0 < width ->
  Forall (fun l => length l <= width) (word_wrap text width) /\
  nonblank (List.concat (word_wrap text width)) = nonblank text.
Proof.
  intros Hw. unfold word_wrap.
  destruct ((width =? 0) || (length text <=? width)) eqn:E; bool_to_prop.
  - simpl. rewrite app_nil_r. split; [|done]. constructor; [lia|constructor].
  - destruct (word_wrap_loop_spec (length text) text width 0) as [Ha Hn]; [lia..|].
    split; [|by rewrite Hn]. eapply Forall_impl; [done|]. simpl. lia.
Qed.

Lemma word_wrap_spec_witness :
  Forall (fun l => length l <= 5) (word_wrap (str "the quick brown") 5) /\
  word_wrap (str "the quick brown") 5 = [str "the"; str "quick"; str "brown"].
Proof. split; [apply (word_wrap_spec (str "the quick brown") 5); lia|by vm_compute]. Defined.

(** ** UUIDs *)

Definition hex4 (x : Z) : bytes := pad_zero 4 (fmt_hex x).

Lemma hex4_spec x :
  (0 <= x < 65536)%Z -> length (hex4 x) = 4 /\ hex4 x !! 0 = Some (digit_char false (x / 4096 mod 16)).
Proof.
  intros H. unfold hex4, fmt_hex. rewrite pad_zero_fmt by (simpl; lia). simpl. split; [done|].
  do 2 f_equal. rewrite !Z.div_div by lia. done.
Qed.

Lemma uuid_version x :
  (0 <= x < 65536)%Z ->
  (0 <= Z.lor (Z.land x 0x0fff) 0x4000 < 65536 /\ Z.lor (Z.land x 0x0fff) 0x4000 / 4096 mod 16 = 4)%Z.
Proof.
  intros Hx. split.
  - apply (lor_range 16); [lia| |lia]. change 0xfff%Z with (Z.ones 12).
    rewrite Z.land_ones by done. pose proof (Z.mod_pos_bound x (2 ^ 12)). lia.
  - change 4096%Z with (2 ^ 12)%Z. rewrite <- Z.shiftr_div_pow2 by done.
    rewrite Z.shiftr_lor, Z.shiftr_land. change (Z.shiftr 4095 12) with 0%Z. by rewrite Z.land_0_r.
Qed.

Lemma uuid_variant x :
  (0 <= x < 65536)%Z ->
  (0 <= Z.lor (Z.land x 0x3fff) 0x8000 < 65536 /\ 8 <= Z.lor (Z.land x 0x3fff) 0x8000 / 4096 mod 16 <= 11)%Z.
Proof.
  intros Hx. split.
  - apply (lor_range 16); [lia| |lia]. change 0x3fff%Z with (Z.ones 14).
    rewrite Z.land_ones by done. pose proof (Z.mod_pos_bound x (2 ^ 14)). lia.
  - change 4096%Z with (2 ^ 12)%Z. rewrite <- Z.shiftr_div_pow2 by done.
    rewrite Z.shiftr_lor, Z.shiftr_land. change (Z.shiftr 0x3fff 12) with (Z.ones 2).
    rewrite Z.land_ones by done. pose proof (Z.mod_pos_bound (Z.shiftr x 12) (2 ^ 2)) as Hm.
    assert (Z.shiftr x 12 mod 2 ^ 2 ∈ [0; 1; 2; 3])%Z as Hin by (rewrite !elem_of_cons; lia).
    rewrite !elem_of_cons in Hin.
    by destruct Hin as [->|[->|[->|[->|[]%not_elem_of_nil]]]].
Qed.

Lemma short_part_range x : (0 <= x < 2 ^ 32 -> 0 <= Z.land x 0xffff < 65536 /\ 0 <= Z.shiftr x 16 < 65536)%Z.
Proof.
  intros H. split.
  - change 0xffff%Z with (Z.ones 16). rewrite Z.land_ones by done. by apply Z.mod_pos_bound.
  - rewrite Z.shiftr_div_pow2 by done. split; [apply Z.div_pos; lia|]. apply Z.div_lt_upper_bound; lia.
Qed.

(** A generated UUID has the 8-4-4-4-12 layout, version 4 and the RFC 4122 variant. *)
Theorem generate_uuid_v4 r0 r1 r2 r3 :
  Forall (fun r => 0 <= r < 2 ^ 32)%Z [r0; r1; r2; r3] ->
  let u := generate_uuid r0 r1 r2 r3 in
  length u = 36 /\ Forall (fun i => u !! i = Some (chr "-")) [8; 13; 18; 23] /\
  u !! 14 = Some (chr "4") /\
  exists c, u !! 19 = Some c /\ c ∈ str "89ab".
Proof.
  intros H. rewrite !Forall_cons in H. destruct H as (H0 & H1 & H2 & H3 & _).
  apply short_part_range in H0 as [A0 A1], H1 as [B0 B1], H2 as [C0 C1], H3 as [D0 D1].
  apply uuid_version in B1 as [B1 Ev]. apply uuid_variant in C0 as [C0 Er].
  unfold generate_uuid. cbn [short_parts flat_map app alter list_alter lookup_total list_lookup_total].
  generalize dependent (Z.lor (Z.land (Z.shiftr r1 16) 4095) 16384).
  generalize dependent (Z.lor (Z.land (Z.land r2 65535) 16383) 32768).
  intros v Hv Er ver Hver Ever.
  fold (hex4 (Z.land r0 65535)) (hex4 (Z.shiftr r0 16)) (hex4 (Z.land r1 65535)) (hex4 ver) (hex4 v)
    (hex4 (Z.shiftr r2 16)) (hex4 (Z.land r3 65535)) (hex4 (Z.shiftr r3 16)).
  apply hex4_spec in A0 as [A0 _], A1 as [A1 _], B0 as [B0 _], Hver as [Hver Lver],
    Hv as [Hv Lv], C1 as [C1 _], D0 as [D0 _], D1 as [D1 _].
  rewrite Ever in Lver.
  repeat match goal with
  | L : length ?l = 4 |- _ =>
      is_var l; fail 1
  | L : length (hex4 ?x) = 4 |- _ =>
      let l := fresh "l" in set (l := hex4 x) in *; clearbody l;
      destruct l as [|? [|? [|? [|? [|? ?]]]]]; try (simpl in L; lia); clear L
  end.
  simpl in *. simplify_eq. split; [done|]. split; [by repeat constructor|]. split; [done|].
  eexists. split; [done|].
  assert ((v / 4096 mod 16)%Z ∈ [8; 9; 10; 11]%Z) as Hin by (rewrite !elem_of_cons; lia).
  rewrite !elem_of_cons in Hin. destruct Hin as [->|[->|[->|[->|[]%not_elem_of_nil]]]]; vm_compute; set_solver.
Qed.

Lemma generate_uuid_v4_witness :
  length (generate_uuid 1 2 3 4294967295) = 36 /\ generate_uuid 1 2 3 4294967295 !! 14 = Some (chr "4").
Proof.
  destruct (generate_uuid_v4 1 2 3 4294967295) as (H1 & _ & H2 & _); [by repeat constructor|]. by split.
Defined.
