(* ===== verification/Base64.v ===== *)
(** * Base64: [common/base64.cpp] and [common/include/common/base64.h]

    Both alphabets, the encoder with its output size, and the decoder with the table lookups it
    makes.  The decoder indexes a 256-entry array with a [char]: where [char] is signed a code
    above 127 is a negative index, which the model reports as [OutOfBounds]. *)

From S2P Require Import StringView.

Section Tables.
Local Open Scope Z_scope.

Definition url_safe_base64_table (xs : bytes) : bytes :=
  map (fun x => if x =? 43 then 45 else if x =? 47 then 95 else x) xs.

(** The array is indexed by the character literals ['-'], ['+'], ['_'] and ['/']. *)
Definition swap_entries (i j : nat) (xs : bytes) : bytes :=
  let t := xs !!! i in <[j := t]> (<[i := xs !!! j]> xs).

Definition url_safe_basis (xs : bytes) : bytes :=
  let result := swap_entries 45 43 xs in swap_entries 95 47 result.

(** The literal has 65 entries, the last one the terminating zero. *)
Definition BASE64_TABLE_DEFAULT : bytes :=
  str "ABCDEFGHIJKLMNOPQRSTUVWXYZabcdefghijklmnopqrstuvwxyz0123456789+/" ++ [0].

Definition BASE64_TABLE_URL_SAFE : bytes := url_safe_base64_table BASE64_TABLE_DEFAULT.

Definition BASIS_DEFAULT : bytes :=
  [77; 77; 77; 77; 77; 77; 77; 77; 77; 77; 77; 77; 77; 77; 77; 77;
   77; 77; 77; 77; 77; 77; 77; 77; 77; 77; 77; 77; 77; 77; 77; 77;
   77; 77; 77; 77; 77; 77; 77; 77; 77; 77; 77; 62; 77; 77; 77; 63;
   52; 53; 54; 55; 56; 57; 58; 59; 60; 61; 77; 77; 77; 77; 77; 77;
   77;  0;  1;  2;  3;  4;  5;  6;  7;  8;  9; 10; 11; 12; 13; 14;
   15; 16; 17; 18; 19; 20; 21; 22; 23; 24; 25; 77; 77; 77; 77; 77;
   77; 26; 27; 28; 29; 30; 31; 32; 33; 34; 35; 36; 37; 38; 39; 40;
   41; 42; 43; 44; 45; 46; 47; 48; 49; 50; 51; 77; 77; 77; 77; 77]
  ++ replicate 128 77.

Definition BASIS_URL_SAFE : bytes := url_safe_basis BASIS_DEFAULT.
Definition PADDING : Z := 61.

Definition base64_table (url_safe : bool) : bytes :=
  if url_safe then BASE64_TABLE_URL_SAFE else BASE64_TABLE_DEFAULT.

Definition basis_of (url_safe : bool) : bytes :=
  if url_safe then BASIS_URL_SAFE else BASIS_DEFAULT.
End Tables.

(** ** Encoding *)

Definition encode_base64_size (data_size : nat) (url_safe : bool) : nat :=
  if url_safe then (data_size * 4 + 2) / 3 else (data_size + 2) / 3 * 4.

(** What the encoder writes through its output iterator. *)
Fixpoint encode_out (table : bytes) (url_safe : bool) (data : bytes) : bytes :=
  let t i := table !!! Z.to_nat i in
  match data with
  | [] => []
  | [a] =>
      [t (Z.shiftr a 2); t (Z.shiftl (Z.land a 0x03) 4)]
      ++ (if negb url_safe then [PADDING] else []) ++ (if negb url_safe then [PADDING] else [])
  | [a; b] =>
      [t (Z.shiftr a 2); t (Z.lor (Z.shiftl (Z.land a 0x03) 4) (Z.shiftr b 4));
       t (Z.shiftl (Z.land b 0x0f) 2)]
      ++ (if negb url_safe then [PADDING] else [])
  | a :: b :: c :: rest =>
      [t (Z.shiftr a 2); t (Z.lor (Z.shiftl (Z.land a 0x03) 4) (Z.shiftr b 4));
       t (Z.lor (Z.shiftl (Z.land b 0x0f) 2) (Z.shiftr c 6)); t (Z.land c 0x3f)]
      ++ encode_out table url_safe rest
  end.

Definition encode_iter (data : bytes) (url_safe : bool) : bytes :=
  encode_out (base64_table url_safe) url_safe data.

(** The string is sized first and then written from its beginning: the characters that are not
    written stay zero, and writing past its end is out of bounds ([None]). *)
Definition encode_to_base64 (data : bytes) (url_safe : bool) : option bytes :=
  let size := encode_base64_size (length data) url_safe in
  let out := encode_iter data url_safe in
  if length out <=? size then Some (out ++ replicate (size - length out) 0%Z) else None.

(** ** Decoding *)

Inductive undefined := OutOfBounds.

(** Index given to [operator[]] for a character of the input. *)
Definition char_index (char_signed : bool) (c : Z) : Z :=
  if char_signed && (128 <=? c)%Z then u64 (c - 256) else c.

Definition basis_at (char_signed : bool) (basis : bytes) (c : Z) : option Z :=
  let i := char_index char_signed c in
  if (i <? 256)%Z then basis !! Z.to_nat i else None.

(** The scan for the end of the data: the number of characters before the first ['='] or the end,
    [Returns None] when one of them is not of the alphabet. *)
Fixpoint scan (char_signed : bool) (basis src : bytes) (len : nat) : outcome undefined (option nat) :=
  match src with
  | [] => Returns (Some len)
  | c :: src' =>
      if (c =? PADDING)%Z then Returns (Some len)
      else
        match basis_at char_signed basis c with
        | None => Throws OutOfBounds
        | Some v =>
            if (v =? 77)%Z then Returns None else scan char_signed basis src' (S len)
        end
  end.

Section Decode.
Variable char_signed : bool.
Variable basis : bytes.

Let at_ (s : bytes) (i : nat) : Z := default 0%Z (s !! i ≫= basis_at char_signed basis).

Definition byte0 (s : bytes) : Z := u8 (Z.lor (Z.shiftl (at_ s 0) 2) (Z.shiftr (at_ s 1) 4)).
Definition byte1 (s : bytes) : Z := u8 (Z.lor (Z.shiftl (at_ s 1) 4) (Z.shiftr (at_ s 2) 2)).
Definition byte2 (s : bytes) : Z := u8 (Z.lor (Z.shiftl (at_ s 2) 6) (at_ s 3)).

(** The loop over groups of four, then the one or two bytes of an incomplete group. *)
Fixpoint decode_loop (fuel : nat) (s : bytes) (len : nat) (result : bytes) : bytes :=
  match fuel with
  | O => result
  | S f =>
      if 3 <? len then decode_loop f (drop 4 s) (len - 4) (result ++ [byte0 s; byte1 s; byte2 s])
      else
        let result := if 1 <? len then result ++ [byte0 s] else result in
        if 2 <? len then result ++ [byte1 s] else result
  end.
End Decode.

Definition decode_base64 (char_signed : bool) (data : bytes) (url_safe : bool)
    : outcome undefined (option bytes) :=
  let basis := basis_of url_safe in
  match scan char_signed basis data 0 with
  | Throws e => Throws e
  | Returns None => Returns None
  | Returns (Some len) =>
      if (len mod 4 =? 1) then Returns None
      else Returns (Some (decode_loop char_signed basis (S len) data len []))
  end.

(** ** The encoder fills its string exactly *)

(** Induction by groups of three bytes. *)
Lemma triple_ind (P : bytes -> Prop) :
  P [] -> (forall a, P [a]) -> (forall a b, P [a; b]) ->
  (forall a b c l, P l -> P (a :: b :: c :: l)) -> forall l, P l.
Proof.
  intros H0 H1 H2 H3 l. induction l as [l IH] using (induction_ltof1 _ length). unfold ltof in IH.
  destruct l as [|a [|b [|c l]]]; auto. apply H3, IH. simpl. lia.
Qed.

Lemma encode_iter_length data url_safe :
  length (encode_iter data url_safe) = encode_base64_size (length data) url_safe.
Proof.
  unfold encode_iter. generalize (base64_table url_safe). intros t.
  induction data as [|a|a b|a b c data IH] using triple_ind; [by destruct url_safe..|].
  cbn [encode_out app length]. rewrite IH. unfold encode_base64_size. destruct url_safe.
  - replace (S (S (S (length data))) * 4 + 2) with (length data * 4 + 2 + 4 * 3) by lia.
    rewrite Nat.div_add by lia. lia.
  - replace (S (S (S (length data))) + 2) with (length data + 2 + 1 * 3) by lia.
    rewrite Nat.div_add by lia. lia.
Qed.

Lemma encode_to_base64_eq data url_safe :
  encode_to_base64 data url_safe = Some (encode_iter data url_safe).
Proof.
  unfold encode_to_base64. rewrite encode_iter_length, Nat.leb_refl, Nat.sub_diag.
  simpl. by rewrite app_nil_r.
Qed.

(** ** Decoding undoes encoding *)

Section Bits.
Local Open Scope Z_scope.

Lemma byte_hi2 a : is_byte a -> u8 (Z.lor (Z.shiftl (Z.shiftr a 2) 2) (Z.land a 3)) = a.
Proof. by_range. Qed.

Lemma byte_hi4 a : is_byte a -> Z.lor (Z.shiftl (Z.shiftr a 4) 4) (Z.land a 15) = a.
Proof. by_range. Qed.

Lemma byte_hi6 a : is_byte a -> Z.lor (Z.shiftl (Z.shiftr a 6) 6) (Z.land a 63) = a.
Proof. by_range. Qed.

Lemma byte_small a :
  is_byte a -> 0 <= Z.shiftr a 2 < 64 /\ 0 <= Z.shiftr a 4 < 16 /\ 0 <= Z.shiftr a 6 < 4 /\
               0 <= Z.land a 3 < 4 /\ 0 <= Z.land a 15 < 16 /\ 0 <= Z.land a 63 < 64.
Proof. by_range. Qed.

Lemma shiftr_join x y k : 0 <= k -> 0 <= y < 2 ^ k -> Z.shiftr (Z.lor (Z.shiftl x k) y) k = x.
Proof.
  intros Hk Hy. rewrite Z.shiftr_lor, Z.shiftr_shiftl_l, Z.sub_diag, Z.shiftl_0_r by done.
  rewrite (Z.shiftr_div_pow2 y) by done. rewrite Z.div_small by done. apply Z.lor_0_r.
Qed.

Lemma u8_drop_high x y : u8 (Z.lor (Z.shiftl x 8) y) = u8 y.
Proof.
  unfold u8, wrap. rewrite <- !Z.land_ones, Z.land_lor_distr_l by done.
  rewrite (Z.land_ones (Z.shiftl x 8)), Z.shiftl_mul_pow2, Z.mod_mul by done. apply Z.lor_0_l.
Qed.

(** The six-bit groups of three bytes and back. *)
Lemma group_bytes a b c :
  is_byte a -> is_byte b -> is_byte c ->
  let i0 := Z.shiftr a 2 in
  let i1 := Z.lor (Z.shiftl (Z.land a 3) 4) (Z.shiftr b 4) in
  let i2 := Z.lor (Z.shiftl (Z.land b 15) 2) (Z.shiftr c 6) in
  let i3 := Z.land c 63 in
  Forall (fun i => 0 <= i < 64) [i0; i1; i2; i3] /\
  u8 (Z.lor (Z.shiftl i0 2) (Z.shiftr i1 4)) = a /\
  u8 (Z.lor (Z.shiftl i1 4) (Z.shiftr i2 2)) = b /\
  u8 (Z.lor (Z.shiftl i2 6) i3) = c.
Proof.
  intros Ha Hb Hc. pose proof (byte_small a Ha). pose proof (byte_small b Hb).
  pose proof (byte_small c Hc). cbv zeta. split; [|split; [|split]].
  - rewrite !Forall_cons. split_and!; try done; try lia; apply (lor_range 6); try lia;
      rewrite Z.shiftl_mul_pow2 by done; lia.
  - rewrite shiftr_join by lia. by apply byte_hi2.
  - rewrite shiftr_join by lia. rewrite Z.shiftl_lor, Z.shiftl_shiftl, <- Z.lor_assoc by done.
    rewrite u8_drop_high, byte_hi4 by done. by apply u8_id.
  - rewrite Z.shiftl_lor, Z.shiftl_shiftl, <- Z.lor_assoc by done.
    rewrite u8_drop_high, byte_hi6 by done. by apply u8_id.
Qed.

(** The table and the basis are inverse to each other on the 64 values. *)
Lemma basis_table char_signed url_safe i :
  0 <= i < 64 ->
  let c := base64_table url_safe !!! Z.to_nat i in
  basis_at char_signed (basis_of url_safe) c = Some i /\ (c =? PADDING) = false /\ (i =? 77) = false.
Proof. destruct char_signed, url_safe; by_range. Qed.
End Bits.

(** The six-bit groups the encoder looks up. *)
Fixpoint groups (data : bytes) : list Z :=
  match data with
  | [] => []
  | [a] => [Z.shiftr a 2; Z.shiftl (Z.land a 3) 4]
  | [a; b] =>
      [Z.shiftr a 2; Z.lor (Z.shiftl (Z.land a 3) 4) (Z.shiftr b 4); Z.shiftl (Z.land b 15) 2]
  | a :: b :: c :: rest =>
      [Z.shiftr a 2; Z.lor (Z.shiftl (Z.land a 3) 4) (Z.shiftr b 4);
       Z.lor (Z.shiftl (Z.land b 15) 2) (Z.shiftr c 6); Z.land c 63] ++ groups rest
  end.

(** The bytes the decoder makes of a sequence of six-bit groups. *)
Fixpoint ungroup (gs : list Z) : bytes :=
  match gs with
  | i0 :: i1 :: i2 :: i3 :: rest =>
      [u8 (Z.lor (Z.shiftl i0 2) (Z.shiftr i1 4)); u8 (Z.lor (Z.shiftl i1 4) (Z.shiftr i2 2));
       u8 (Z.lor (Z.shiftl i2 6) i3)] ++ ungroup rest
  | [i0; i1; i2] =>
      [u8 (Z.lor (Z.shiftl i0 2) (Z.shiftr i1 4)); u8 (Z.lor (Z.shiftl i1 4) (Z.shiftr i2 2))]
  | [i0; i1] => [u8 (Z.lor (Z.shiftl i0 2) (Z.shiftr i1 4))]
  | _ => []
  end.

Definition table_chars (url_safe : bool) (gs : list Z) : bytes :=
  map (fun i => base64_table url_safe !!! Z.to_nat i) gs.

Lemma encode_out_groups data url_safe :
  exists pad, encode_iter data url_safe = table_chars url_safe (groups data) ++ pad /\
              Forall (fun c => c = PADDING) pad /\ (url_safe = true -> pad = []).
Proof.
  unfold encode_iter. induction data as [|a|a b|a b c data IH] using triple_ind.
  - by exists [].
  - exists (if negb url_safe then [PADDING; PADDING] else []). destruct url_safe; cbn; (split; [done|]); (split; [by repeat constructor|done]).
  - exists (if negb url_safe then [PADDING] else []). destruct url_safe; cbn; (split; [done|]); (split; [by repeat constructor|done]).
  - destruct IH as (pad & E & Hp & Hu). exists pad. cbn [encode_out groups table_chars map app].
    rewrite E. done.
Qed.

Lemma groups_small data : is_bytes data -> Forall (fun i => 0 <= i < 64)%Z (groups data).
Proof.
  induction data as [|a|a b|a b c data IH] using triple_ind; intros H; unfold is_bytes in *;
    rewrite ?Forall_cons in H; cbn [groups app].
  - constructor.
  - destruct (group_bytes a 0 0) as [Hf _]; [tauto|done..|]. rewrite !Forall_cons in Hf |- *.
    rewrite Z.shiftr_0_l, Z.lor_0_r in Hf. cbv beta in *. pose proof (Forall_nil_2 (fun i => 0 <= i < 64)%Z). tauto.
  - destruct (group_bytes a b 0) as [Hf _]; [tauto|tauto|done|]. rewrite !Forall_cons in Hf |- *.
    rewrite Z.shiftr_0_l, Z.lor_0_r in Hf. cbv beta in *. pose proof (Forall_nil_2 (fun i => 0 <= i < 64)%Z). tauto.
  - destruct (group_bytes a b c) as [Hf _]; [tauto..|]. rewrite !Forall_cons in Hf |- *. cbv beta in *. pose proof (Forall_nil_2 (fun i => 0 <= i < 64)%Z). tauto.
Qed.

Lemma ungroup_groups data : is_bytes data -> ungroup (groups data) = data.
Proof.
  induction data as [|a|a b|a b c data IH] using triple_ind; intros H; unfold is_bytes in *;
    rewrite ?Forall_cons in H; cbn [groups ungroup app].
  - done.
  - destruct (group_bytes a 0 0) as (_ & E & _); [tauto|done..|].
    rewrite Z.shiftr_0_l, Z.lor_0_r in E. by rewrite E.
  - destruct (group_bytes a b 0) as (_ & E0 & E1 & _); [tauto|tauto|done|].
    rewrite Z.shiftr_0_l, Z.lor_0_r in E1. by rewrite E0, E1.
  - destruct (group_bytes a b c) as (_ & E0 & E1 & E2); [tauto..|]. by rewrite E0, E1, E2, IH by tauto.
Qed.

Lemma groups_length data : length (groups data) mod 4 <> 1.
Proof.
  induction data as [|a|a b|a b c data IH] using triple_ind; [done..|].
  cbn [groups app length].
  replace (S (S (S (S (length (groups data)))))) with (length (groups data) + 1 * 4) by lia.
  by rewrite Nat.Div0.mod_add.
Qed.

Lemma scan_table cs url_safe gs tail n :
  Forall (fun i => 0 <= i < 64)%Z gs ->
  scan cs (basis_of url_safe) (table_chars url_safe gs ++ tail) n
  = scan cs (basis_of url_safe) tail (n + length gs).
Proof.
  intros H. revert n. induction H as [|i gs Hi _ IH]; intros n; cbn [table_chars map app scan length].
  - by rewrite Nat.add_0_r.
  - destruct (basis_table cs url_safe i Hi) as (E & E1 & E2). rewrite E1, E, E2, Nat.add_succ_r.
    apply IH.
Qed.

Lemma quad_ind (P : list Z -> Prop) :
  P [] -> (forall a, P [a]) -> (forall a b, P [a; b]) -> (forall a b c, P [a; b; c]) ->
  (forall a b c d l, P l -> P (a :: b :: c :: d :: l)) -> forall l, P l.
Proof.
  intros H0 H1 H2 H3 H4 l. induction l as [l IH] using (induction_ltof1 _ length). unfold ltof in IH.
  destruct l as [|a [|b [|c [|d l]]]]; auto. apply H4, IH. simpl. lia.
Qed.

Lemma decode_loop_table cs url_safe gs tail fuel r :
  Forall (fun i => 0 <= i < 64)%Z gs -> length gs < fuel ->
  decode_loop cs (basis_of url_safe) fuel (table_chars url_safe gs ++ tail) (length gs) r
  = r ++ ungroup gs.
Proof.
  intros His. revert fuel r.
  assert (forall i, (0 <= i < 64)%Z ->
            basis_at cs (basis_of url_safe) (base64_table url_safe !!! Z.to_nat i) = Some i) as Hb.
  { intros i Hi. by apply basis_table. }
  induction gs as [|a|a b|a b c|a b c d gs IH] using quad_ind; intros [|fuel] r Hf; simpl in Hf; try lia;
    rewrite ?Forall_cons in His; cbn [decode_loop length Nat.ltb Nat.leb ungroup table_chars map app].
  - by rewrite app_nil_r.
  - by rewrite app_nil_r.
  - unfold byte0. cbn [lookup list_lookup mbind option_bind]. by rewrite !Hb by tauto.
  - unfold byte0, byte1. cbn [lookup list_lookup mbind option_bind]. rewrite !Hb by tauto.
    by rewrite <- app_assoc.
  - replace (S (S (S (S (length gs)))) - 4) with (length gs) by lia. cbn [drop].
    rewrite drop_0. change (map _ gs) with (table_chars url_safe gs). rewrite IH by (tauto || lia).
    unfold byte0, byte1, byte2. cbn [lookup list_lookup mbind option_bind]. rewrite !Hb by tauto.
    by rewrite <- app_assoc.
Qed.

(** C35: Encoding never writes past or short of its string, and decoding gives the data back. *)
Theorem base64_roundtrip data url_safe char_signed :
  is_bytes data ->
  exists s, encode_to_base64 data url_safe = Some s /\
            length s = encode_base64_size (length data) url_safe /\
            decode_base64 char_signed s url_safe = Returns (Some data).
Proof.
  intros Hd. exists (encode_iter data url_safe).
  split; [apply encode_to_base64_eq|]. split; [apply encode_iter_length|].
  destruct (encode_out_groups data url_safe) as (pad & E & Hpad & _).
  pose proof (groups_small data Hd) as Hs. unfold decode_base64. rewrite E, scan_table by done.
  assert (scan char_signed (basis_of url_safe) pad (0 + length (groups data))
          = Returns (Some (length (groups data)))) as ->.
  { destruct Hpad as [|c pad Hc]; [done|]. subst c. done. }
  destruct (Nat.eqb_spec (length (groups data) mod 4) 1) as [Hm|_]; [by apply groups_length in Hm|].
  rewrite decode_loop_table by (done || lia). by rewrite ungroup_groups.
Qed.

Lemma base64_roundtrip_witness :
  exists s, encode_to_base64 [0; 255; 17; 200]%Z true = Some s /\
            length s = encode_base64_size 4 true /\
            decode_base64 true s true = Returns (Some [0; 255; 17; 200]%Z).
Proof. apply (base64_roundtrip [0; 255; 17; 200]%Z true true). repeat constructor; done. Defined.

(** ** What the decoder accepts *)

Definition not_padding (c : Z) : bool := negb (c =? PADDING)%Z.

Definition between (a b : Ascii.ascii) (c : Z) : bool := (chr a <=? c)%Z && (c <=? chr b)%Z.

(** The two alphabets of RFC 4648. *)
Definition base64_char (url_safe : bool) (c : Z) : bool :=
  between "A" "Z" c || between "a" "z" c || between "0" "9" c ||
  if url_safe then (c =? chr "-")%Z || (c =? chr "_")%Z else (c =? chr "+")%Z || (c =? chr "/")%Z.

(** The tables of the decoder know these characters and no other. *)
Lemma basis_alphabet url_safe c :
  is_byte c -> exists v, basis_of url_safe !! Z.to_nat c = Some v /\ (v =? 77)%Z = negb (base64_char url_safe c).
Proof.
  intros Hc. assert (Hall : forallb (fun i => match basis_of url_safe !! i with
    | Some v => Bool.eqb (v =? 77)%Z (negb (base64_char url_safe (Z.of_nat i))) | None => false end) (seq 0 256) = true)
    by (destruct url_safe; vm_compute; reflexivity).
  unfold is_byte in Hc. rewrite forallb_forall in Hall. specialize (Hall (Z.to_nat c)). rewrite in_seq in Hall.
  specialize (Hall ltac:(lia)). rewrite Z2Nat.id in Hall by lia. destruct (basis_of url_safe !! Z.to_nat c) as [v|]; [|done].
  exists v. split; [done|by apply eqb_prop].
Qed.

Lemma basis_at_alphabet cs url_safe c :
  is_byte c -> cs = false \/ (c < 128)%Z ->
  exists v, basis_at cs (basis_of url_safe) c = Some v /\ (v =? 77)%Z = negb (base64_char url_safe c).
Proof.
  intros Hc Hcs. unfold basis_at, char_index. unfold is_byte in Hc.
  assert (cs && (128 <=? c)%Z = false) as -> by (destruct Hcs as [-> |Hcs]; [done|]; rewrite (proj2 (Z.leb_gt 128 c)) by lia; by destruct cs).
  rewrite (proj2 (Z.ltb_lt c 256)) by lia. by apply basis_alphabet.
Qed.

Lemma scan_alphabet cs url_safe s n :
  is_bytes s -> cs = false \/ Forall (fun c => c < 128)%Z (take_while not_padding s) ->
  scan cs (basis_of url_safe) s n
  = Returns (if forallb (base64_char url_safe) (take_while not_padding s)
             then Some (n + length (take_while not_padding s)) else None).
Proof.
  intros Hs. revert n. induction Hs as [|c s Hc _ IH]; intros n Hcs; cbn [scan take_while] in *.
  { cbn. by rewrite Nat.add_0_r. }
  unfold not_padding at 1 in Hcs. unfold not_padding at 1 3. destruct (c =? PADDING)%Z; cbn [negb forallb length] in *.
  { by rewrite Nat.add_0_r. }
  destruct (basis_at_alphabet cs url_safe c Hc) as (v & -> & ->).
  { destruct Hcs as [|Hcs]; [by left|right]. by apply Forall_cons in Hcs as [? _]. }
  destruct (base64_char url_safe c); cbn [negb andb]; [|done]. rewrite IH; [by rewrite Nat.add_succ_r|].
  destruct Hcs as [|Hcs]; [by left|right]. by apply Forall_cons in Hcs as [_ ?].
Qed.

(** Three bytes from every four characters, and one or two from the rest. *)
Lemma decode_loop_length cs basis fuel s len result :
  len < fuel -> len mod 4 <> 1 -> length (decode_loop cs basis fuel s len result) = length result + len * 6 / 8.
Proof.
  revert s len result. induction fuel as [|fuel IH]; intros s len result Hf Hm; [lia|]. cbn [decode_loop].
  destruct (Nat.ltb_spec 3 len) as [H3|H3].
  - rewrite IH, length_app; [|lia|replace len with (len - 4 + 1 * 4) in Hm by lia; by rewrite Nat.Div0.mod_add in Hm].
    cbn [length]. replace (len * 6) with ((len - 4) * 6 + 3 * 8) by lia. rewrite Nat.div_add by lia. lia.
  - destruct len as [|[|[|[|len]]]]; cbn in Hm |- *; rewrite ?length_app; cbn [length]; lia.
Qed.

(** C36: The decoder looks at the characters before the first ['='] only, and accepts exactly the alphabet of
    RFC 4648 asked for with a count that is not one more than a multiple of four: then it answers six bits per
    character, cut to whole bytes, and otherwise that the text is not valid.  Where [char] is signed this is for
    ASCII text. *)
Theorem decode_base64_domain cs s url_safe :
  is_bytes s ->
  let p := take_while not_padding s in
  cs = false \/ Forall (fun c => c < 128)%Z p ->
  if forallb (base64_char url_safe) p && negb (length p mod 4 =? 1)
  then exists d, decode_base64 cs s url_safe = Returns (Some d) /\ length d = length p * 6 / 8
  else decode_base64 cs s url_safe = Returns None.
Proof.
  intros Hs p Hcs. unfold decode_base64. rewrite scan_alphabet by done. fold p.
  destruct (forallb (base64_char url_safe) p); [|done]. cbn [Nat.add andb].
  destruct (Nat.eqb_spec (length p mod 4) 1) as [E|E]; cbn [negb]; [done|].
  eexists. split; [reflexivity|]. rewrite decode_loop_length by lia. done.
Qed.

Lemma decode_base64_domain_witness :
  (exists d, decode_base64 true (str "AAEC/w==") false = Returns (Some d) /\ length d = 4) /\
  decode_base64 false (str "AA C/w==") false = Returns None.
Proof.
  split.
  - apply (decode_base64_domain true (str "AAEC/w==") false); [apply str_bytes|right; by repeat constructor].
  - apply (decode_base64_domain false (str "AA C/w==") false); [apply str_bytes|by left].
Defined.

(** Where [char] is signed, a code above 127 after valid characters indexes the table out of
    its bounds. *)
Theorem decode_base64_signed_oob gs c rest url_safe :
  Forall (fun i => 0 <= i < 64)%Z gs -> (128 <= c < 256)%Z ->
  decode_base64 true (table_chars url_safe gs ++ c :: rest) url_safe = Throws OutOfBounds.
Proof.
  intros His Hc. unfold decode_base64. rewrite scan_table by done. cbn [scan].
  rewrite (proj2 (Z.eqb_neq c PADDING)) by (unfold PADDING; lia).
  unfold basis_at, char_index. rewrite (proj2 (Z.leb_le 128 c)) by lia. cbn [andb].
  assert (u64 (c - 256) = c - 256 + 2 ^ 64)%Z as ->.
  { unfold u64, wrap. symmetry. apply Z.mod_unique_pos with (q := (-1)%Z); lia. }
  by rewrite (proj2 (Z.ltb_ge _ _)) by lia.
Qed.
