(* ===== verification/Cesu8.v ===== *)
(** * CESU-8 conversion: [common/cesu8.cpp]

    Both functions are one pass over the bytes with a small decoder state; each is a step function
    on its state record, folded over the input. *)

From S2P Require Import StringView.

Section Machine.
Local Open Scope Z_scope.

Definition is_continuation (c : Z) : bool := Z.land c 0xc0 =? 0x80.

(** ** Length of the converted string *)

Record len_state := LenState {
  current_char_len : Z;
  len_remaining : Z;
  len_i : Z
}.

(** The second half of the loop body: a byte that starts a character. *)
Definition len_lead (c : Z) (st : len_state) : len_state :=
  if Z.land c 0x80 =? 0 then LenState (current_char_len st) (len_remaining st) (len_i st + 1)
  else if Z.land c 0xe0 =? 0xc0 then LenState 1 1 (len_i st)
  else if Z.land c 0xf0 =? 0xe0 then LenState 1 2 (len_i st)
  else if Z.land c 0xf8 =? 0xf0 then LenState 1 3 (len_i st)
  else LenState (current_char_len st) 0 (len_i st + 3).

Definition len_step (st : len_state) (c : Z) : len_state :=
  if 0 <? len_remaining st then
    if is_continuation c then
      let ccl := current_char_len st + 1 in
      let rem := len_remaining st - 1 in
      if rem =? 0 then
        let ccl := if ccl =? 4 then 6 else ccl in
        LenState ccl rem (len_i st + ccl)
      else LenState ccl rem (len_i st)
    else len_lead c (LenState (current_char_len st) 0 (len_i st + 3))
  else len_lead c st.

Definition cesu8_len (utf8 : bytes) : Z := len_i (fold_left len_step utf8 (LenState 0 0 0)).

(** ** Conversion *)

Record conv_state := ConvState {
  utf_chars_remaining : Z;
  current_uchar : Z;
  modified_utf : bytes
}.

Definition replacement_char : bytes := [0xef; 0xbf; 0xbd].

(** The bytes pushed when the last continuation byte completes a character. *)
Definition push_uchar (u : Z) : bytes :=
  if u <=? 0x7ff then
    [u8 (0xc0 + Z.land (Z.shiftr u 6) 0x1f); u8 (0x80 + Z.land u 0x3f)]
  else if u <=? 0xffff then
    [u8 (0xe0 + Z.land (Z.shiftr u 12) 0x0f); u8 (0x80 + Z.land (Z.shiftr u 6) 0x3f);
     u8 (0x80 + Z.land u 0x3f)]
  else
    [0xed; u8 (0xa0 + Z.land (Z.shiftr u 16 - 1) 0x0f); u8 (0x80 + Z.land (Z.shiftr u 10) 0x3f);
     0xed; u8 (0xb0 + Z.land (Z.shiftr u 6) 0x0f); u8 (0x80 + Z.land (Z.shiftr u 0) 0x3f)].

Definition conv_lead (c : Z) (st : conv_state) : conv_state :=
  let out := modified_utf st in
  if Z.land c 0x80 =? 0 then ConvState (utf_chars_remaining st) (current_uchar st) (out ++ [c])
  else if Z.land c 0xe0 =? 0xc0 then ConvState 1 (Z.land c 0x1f) out
  else if Z.land c 0xf0 =? 0xe0 then ConvState 2 (Z.land c 0x0f) out
  else if Z.land c 0xf8 =? 0xf0 then ConvState 3 (Z.land c 0x07) out
  else ConvState 0 (current_uchar st) (out ++ replacement_char).

Definition conv_step (st : conv_state) (c : Z) : conv_state :=
  if 0 <? utf_chars_remaining st then
    if is_continuation c then
      let u := Z.lor (Z.shiftl (current_uchar st) 6) (Z.land c 0x3f) in
      let rem := utf_chars_remaining st - 1 in
      ConvState rem u (if rem =? 0 then modified_utf st ++ push_uchar u else modified_utf st)
    else conv_lead c (ConvState 0 (current_uchar st) (modified_utf st ++ replacement_char))
  else conv_lead c st.

Definition utf8_to_cesu8 (utf8 : bytes) : bytes :=
  modified_utf (fold_left conv_step utf8 (ConvState 0 0 [])).

(** ** Reference encodings *)

Definition utf8_2 (u : Z) : bytes := [0xc0 + u / 64; 0x80 + u mod 64].
Definition utf8_3 (u : Z) : bytes := [0xe0 + u / 4096; 0x80 + u / 64 mod 64; 0x80 + u mod 64].
Definition utf8_4 (u : Z) : bytes :=
  [0xf0 + u / 262144; 0x80 + u / 4096 mod 64; 0x80 + u / 64 mod 64; 0x80 + u mod 64].

(** UTF-8 of a code point. *)
Definition utf8_encode (u : Z) : bytes :=
  if u <? 0x80 then [u] else if u <? 0x800 then utf8_2 u
  else if u <? 0x10000 then utf8_3 u else utf8_4 u.

(** CESU-8 of a code point: a supplementary one is its UTF-16 surrogate pair, each half encoded on
    three bytes. *)
Definition cesu8_encode (u : Z) : bytes :=
  if u <? 0x10000 then utf8_encode u
  else utf8_3 (0xd800 + (u - 0x10000) / 1024) ++ utf8_3 (0xdc00 + (u - 0x10000) mod 1024).

Definition code_point (u : Z) : Prop := 0 <= u <= 0x10ffff.

(** ** The room reserved for the result is enough *)

(** The two machines read the same characters: they have the same number of bytes left to read,
    and the bytes read so far account for the length already counted. *)
Definition sim (ls : len_state) (cs : conv_state) : Prop :=
  len_remaining ls = utf_chars_remaining cs /\ 0 <= len_remaining ls <= 3 /\
  Z.of_nat (length (modified_utf cs)) <= len_i ls /\
  (0 < len_remaining ls ->
     2 <= current_char_len ls + len_remaining ls <= 4 /\ 0 <= current_uchar cs /\
     current_uchar cs < 2 ^ (6 * current_char_len ls + (5 - (current_char_len ls + len_remaining ls - 2)) - 6) /\
     1 <= current_char_len ls).

Lemma land_bits c k : 0 <= k -> 0 <= Z.land c (Z.ones k) < 2 ^ k.
Proof. intros. rewrite Z.land_ones by done. apply Z.mod_pos_bound. lia. Qed.

Lemma sim_lead c ls cs :
  sim ls cs -> len_remaining ls = 0 -> sim (len_lead c ls) (conv_lead c cs).
Proof.
  intros (Hr & Hb & Hl & _) H0. unfold len_lead, conv_lead.
  repeat case_match; unfold sim; cbn [len_remaining utf_chars_remaining modified_utf len_i
    current_char_len current_uchar]; rewrite ?length_app; cbn [length replacement_char];
    repeat split; try lia; try (intros; lia).
  - apply (land_bits c 5). lia.
  - apply (land_bits c 5). lia.
  - apply (land_bits c 4). lia.
  - apply (land_bits c 4). lia.
  - apply (land_bits c 3). lia.
  - apply (land_bits c 3). lia.
Qed.

Lemma push_uchar_length u :
  Z.of_nat (length (push_uchar u)) = (if u <=? 0x7ff then 2 else if u <=? 0xffff then 3 else 6).
Proof. unfold push_uchar. by repeat case_match. Qed.

Lemma uchar_next u c n :
  0 <= n -> 0 <= u < 2 ^ n ->
  0 <= Z.lor (Z.shiftl u 6) (Z.land c 0x3f) < 2 ^ (n + 6).
Proof.
  intros Hn Hu. pose proof (land_bits c 6 ltac:(lia)) as Hc. change (Z.ones 6) with 0x3f in Hc.
  apply lor_range; [lia| |].
  - rewrite Z.shiftl_mul_pow2, Z.pow_add_r by lia. nia.
  - rewrite Z.pow_add_r by lia. pose proof (Z.pow_pos_nonneg 2 n). nia.
Qed.

Lemma sim_step ls cs c : sim ls cs -> sim (len_step ls c) (conv_step cs c).
Proof.
  intros (Hr & Hb & Hl & Hp). unfold len_step, conv_step. rewrite <- Hr.
  destruct (Z.ltb_spec 0 (len_remaining ls)) as [Hpos|Hz].
  - destruct (Hp Hpos) as (Hs & Hu0 & Hu & Hc1). clear Hp.
    destruct (is_continuation c) eqn:Hc.
    + set (n := 6 * current_char_len ls + (5 - (current_char_len ls + len_remaining ls - 2)) - 6) in *.
      destruct (uchar_next (current_uchar cs) c n) as [Hn0 Hn]; [lia|lia|].
      set (u := Z.lor (Z.shiftl (current_uchar cs) 6) (Z.land c 63)) in *. clearbody u.
      destruct (Z.eqb_spec (len_remaining ls - 1) 0) as [E|E]; unfold sim;
        cbn [len_remaining utf_chars_remaining modified_utf len_i current_char_len current_uchar].
      * rewrite length_app, Nat2Z.inj_add, push_uchar_length.
        split; [lia|]. split; [lia|]. split; [|lia].
        assert (n = 5 * current_char_len ls) as En by lia. rewrite En in Hn. clear En n Hu.
        assert (current_char_len ls = 1 \/ current_char_len ls = 2 \/ current_char_len ls = 3) as Hk by lia.
        destruct Hk as [Hk | [Hk | Hk]]; rewrite Hk in *; simpl in *; repeat (case_match; bool_to_prop); lia.
      * split; [lia|]. split; [lia|]. split; [lia|]. intros _. split; [lia|]. split; [done|].
        split; [|lia]. eapply Z.lt_le_trans; [done|]. apply Z.pow_le_mono_r; lia.
    + apply sim_lead; [|done]. unfold sim. cbn [len_remaining utf_chars_remaining modified_utf len_i].
      rewrite length_app. cbn [length replacement_char]. repeat split; intros; lia.
  - apply sim_lead; [|lia]. unfold sim. auto.
Qed.

Lemma sim_fold s ls cs : sim ls cs -> sim (fold_left len_step s ls) (fold_left conv_step s cs).
Proof. revert ls cs. induction s as [|c s IH]; intros; cbn [fold_left]; [done|]. by apply IH, sim_step. Qed.

(** The converted string never needs more room than [cesu8_len] announces. *)
Theorem utf8_to_cesu8_length s : Z.of_nat (length (utf8_to_cesu8 s)) <= cesu8_len s.
Proof.
  apply (sim_fold s (LenState 0 0 0) (ConvState 0 0 [])).
  unfold sim. cbn. repeat split; intros; lia.
Qed.

(** ** Well-formed input *)

Lemma lead_class c :
  is_byte c ->
  (c < 0x80 -> Z.land c 0x80 = 0) /\
  (0xc0 <= c < 0xe0 -> Z.land c 0x80 <> 0 /\ Z.land c 0xe0 = 0xc0 /\ Z.land c 0x1f = c - 0xc0) /\
  (0xe0 <= c < 0xf0 -> Z.land c 0x80 <> 0 /\ Z.land c 0xe0 <> 0xc0 /\ Z.land c 0xf0 = 0xe0 /\
                       Z.land c 0x0f = c - 0xe0) /\
  (0xf0 <= c < 0xf8 -> Z.land c 0x80 <> 0 /\ Z.land c 0xe0 <> 0xc0 /\ Z.land c 0xf0 <> 0xe0 /\
                       Z.land c 0xf8 = 0xf0 /\ Z.land c 0x07 = c - 0xf0) /\
  (0x80 <= c < 0xc0 -> Z.land c 0xc0 = 0x80 /\ Z.land c 0x3f = c - 0x80) /\
  (Z.land c 0x80 = 0 -> c < 0x80).
Proof. by_range. Qed.

Lemma conv_cont b rem u out :
  0 < rem -> 0 <= b < 64 ->
  conv_step (ConvState rem u out) (0x80 + b)
  = ConvState (rem - 1) (u * 64 + b)
      (if rem - 1 =? 0 then out ++ push_uchar (u * 64 + b) else out).
Proof.
  intros Hr Hb. destruct (lead_class (0x80 + b)) as (_ & _ & _ & _ & Hc & _); [unfold is_byte; lia|].
  destruct Hc as [Hc1 Hc2]; [lia|]. unfold conv_step, is_continuation.
  cbn [utf_chars_remaining current_uchar modified_utf].
  rewrite (proj2 (Z.ltb_lt 0 rem)), Hc1, Z.eqb_refl, Hc2 by done.
  replace (0x80 + b - 0x80) with b by lia. by rewrite (lor_low u b 6) by lia.
Qed.

Lemma conv_start c u out rem u' :
  (0xc0 <= c < 0xe0 /\ rem = 1 /\ u' = c - 0xc0) \/ (0xe0 <= c < 0xf0 /\ rem = 2 /\ u' = c - 0xe0) \/
  (0xf0 <= c < 0xf8 /\ rem = 3 /\ u' = c - 0xf0) ->
  conv_step (ConvState 0 u out) c = ConvState rem u' out.
Proof.
  intros H. destruct (lead_class c) as (_ & H1 & H2 & H3 & _); [unfold is_byte; lia|].
  unfold conv_step, conv_lead. cbn [utf_chars_remaining Z.ltb Z.compare modified_utf].
  destruct H as [(Hc & -> & ->) | [(Hc & -> & ->) | (Hc & -> & ->)]].
  - destruct (H1 Hc) as (Ha & Hb & ->). rewrite (proj2 (Z.eqb_neq _ _) Ha), (proj2 (Z.eqb_eq _ _) Hb). done.
  - destruct (H2 Hc) as (Ha & Hb & Hd & ->). rewrite (proj2 (Z.eqb_neq _ _) Ha), (proj2 (Z.eqb_neq _ _) Hb),
      (proj2 (Z.eqb_eq _ _) Hd). done.
  - destruct (H3 Hc) as (Ha & Hb & Hd & He & ->). rewrite (proj2 (Z.eqb_neq _ _) Ha),
      (proj2 (Z.eqb_neq _ _) Hb), (proj2 (Z.eqb_neq _ _) Hd), (proj2 (Z.eqb_eq _ _) He). done.
Qed.

Lemma u8_small x : 0 <= x < 256 -> u8 x = x.
Proof. apply u8_id. Qed.

Ltac div_lia := Z.to_euclidean_division_equations; lia.

Lemma push_uchar_cesu8 u : code_point u -> 0x80 <= u -> push_uchar u = cesu8_encode u.
Proof.
  unfold code_point. intros Hc Hu. unfold push_uchar, cesu8_encode, utf8_encode, utf8_2, utf8_3.
  change 0x1f with (Z.ones 5). change 0x3f with (Z.ones 6). change 0x0f with (Z.ones 4).
  rewrite ?Z.land_ones, ?Z.shiftr_div_pow2 by done. cbn [Z.pow Z.pow_pos Pos.iter Z.mul Pos.mul].
  rewrite ?Z.div_1_r.
  destruct (Z.leb_spec u 0x7ff); [|destruct (Z.leb_spec u 0xffff)].
  - rewrite (proj2 (Z.ltb_lt u 0x10000)), (proj2 (Z.ltb_ge u 0x80)), (proj2 (Z.ltb_lt u 0x800)) by lia.
    repeat f_equal; rewrite u8_small; div_lia.
  - rewrite (proj2 (Z.ltb_lt u 0x10000)), (proj2 (Z.ltb_ge u 0x80)), (proj2 (Z.ltb_ge u 0x800)) by lia.
    repeat f_equal; rewrite u8_small; div_lia.
  - rewrite (proj2 (Z.ltb_ge u 0x10000)) by lia. cbn [app].
    repeat f_equal; rewrite ?u8_small; div_lia.
Qed.

Lemma conv_utf8 u w out :
  code_point u ->
  exists w', fold_left conv_step (utf8_encode u) (ConvState 0 w out) = ConvState 0 w' (out ++ cesu8_encode u).
Proof.
  intros Hu. pose proof Hu as Hu'. unfold code_point in Hu'. unfold utf8_encode.
  destruct (Z.ltb_spec u 0x80) as [H1|H1]; [|destruct (Z.ltb_spec u 0x800) as [H2|H2];
    [|destruct (Z.ltb_spec u 0x10000) as [H3|H3]]].
  - exists w. cbn [fold_left]. unfold conv_step, conv_lead.
    cbn [utf_chars_remaining Z.ltb Z.compare modified_utf current_uchar].
    destruct (lead_class u) as (Hl & _); [unfold is_byte; lia|]. rewrite (Hl H1). cbn.
    unfold cesu8_encode, utf8_encode. by rewrite (proj2 (Z.ltb_lt u 0x10000)), (proj2 (Z.ltb_lt u 0x80)) by lia.
  - exists u. unfold utf8_2. cbn [fold_left].
    rewrite (conv_start _ _ _ 1 (u / 64)) by div_lia.
    rewrite conv_cont by div_lia. replace (u / 64 * 64 + u mod 64) with u by div_lia.
    by rewrite (push_uchar_cesu8 u) by (done || lia).
  - exists u. unfold utf8_3. cbn [fold_left].
    rewrite (conv_start _ _ _ 2 (u / 4096)) by div_lia.
    rewrite !conv_cont by div_lia.
    replace ((u / 4096 * 64 + u / 64 mod 64) * 64 + u mod 64) with u by div_lia.
    by rewrite (push_uchar_cesu8 u) by (done || lia).
  - exists u. unfold utf8_4. cbn [fold_left].
    rewrite (conv_start _ _ _ 3 (u / 262144)) by div_lia.
    rewrite !conv_cont by div_lia.
    replace (((u / 262144 * 64 + u / 4096 mod 64) * 64 + u / 64 mod 64) * 64 + u mod 64) with u by div_lia.
    by rewrite (push_uchar_cesu8 u) by (done || lia).
Qed.

(** C37: Well-formed UTF-8 is converted code point by code point to CESU-8. *)
Theorem utf8_to_cesu8_code_points us :
  Forall code_point us ->
  utf8_to_cesu8 (flat_map utf8_encode us) = flat_map cesu8_encode us.
Proof.
  intros Hus. unfold utf8_to_cesu8.
  enough (forall w out, exists w', fold_left conv_step (flat_map utf8_encode us) (ConvState 0 w out)
                                   = ConvState 0 w' (out ++ flat_map cesu8_encode us)) as Hgen.
  { by destruct (Hgen 0 []) as [w' ->]. }
  induction Hus as [|u us Hu _ IH]; intros w out; cbn [flat_map].
  - exists w. cbn. by rewrite app_nil_r.
  - rewrite fold_left_app. destruct (conv_utf8 u w out Hu) as [w1 ->].
    destruct (IH w1 (out ++ cesu8_encode u)) as [w2 ->]. exists w2. by rewrite <- app_assoc.
Qed.

Lemma utf8_to_cesu8_code_points_witness :
  utf8_to_cesu8 (flat_map utf8_encode [0x41; 0xe9; 0x20ac; 0x1f600])
  = flat_map cesu8_encode [0x41; 0xe9; 0x20ac; 0x1f600].
Proof. apply utf8_to_cesu8_code_points. repeat constructor; done. Defined.

(** ** Any input *)

Lemma push_uchar_low u : Forall (fun b => 0 <= b < 0xf0) (push_uchar u).
Proof.
  assert (forall b x k, 0 <= b -> 0 <= k -> b + 2 ^ k <= 0xf0 ->
            0 <= u8 (b + Z.land x (Z.ones k)) < 0xf0) as Hu.
  { intros b x k Hb Hk Hs. pose proof (land_bits x k Hk). rewrite u8_small; lia. }
  unfold push_uchar. change 0x1f with (Z.ones 5). change 0x3f with (Z.ones 6). change 0x0f with (Z.ones 4).
  repeat case_match; rewrite !Forall_cons; split_and!; try lia; try (apply Hu; simpl; lia); constructor.
Qed.

(** Whatever the input, the result holds bytes below [0xf0] only: no four-byte sequence, which
    Java's decoder does not read. *)
Theorem utf8_to_cesu8_no_four_byte s :
  is_bytes s -> Forall (fun b => 0 <= b < 0xf0) (utf8_to_cesu8 s).
Proof.
  unfold utf8_to_cesu8. intros Hs.
  enough (forall st, Forall (fun b => 0 <= b < 0xf0) (modified_utf st) ->
            Forall (fun b => 0 <= b < 0xf0) (modified_utf (fold_left conv_step s st))) as H
    by (apply H; constructor).
  assert (Forall (fun b => 0 <= b < 0xf0) replacement_char) as Hrep by (repeat constructor; lia).
  assert (forall c st, is_byte c -> Forall (fun b => 0 <= b < 0xf0) (modified_utf st) ->
            Forall (fun b => 0 <= b < 0xf0) (modified_utf (conv_lead c st))) as Hlead.
  { intros c st Hc Hst. unfold conv_lead.
    repeat (case_match; bool_to_prop); cbn [modified_utf]; try done; apply Forall_app; split; try done.
    constructor; [|constructor]. destruct (lead_class c Hc) as (_ & _ & _ & _ & _ & Hlt).
    unfold is_byte in Hc. specialize (Hlt ltac:(done)). lia. }
  induction Hs as [|c s Hc _ IH]; intros st Hst; cbn [fold_left]; [done|]. apply IH.
  unfold conv_step. repeat case_match; cbn [modified_utf]; try (apply Hlead; [done|]); try done;
    cbn [modified_utf]; apply Forall_app; split; try done. apply push_uchar_low.
Qed.
End Machine.
