(* ===== verification/Error.v ===== *)
(** * Errors and results: [common/include/common/error.h]

    An [Error<Enum>] keeps the place it was made at, a code, a message and the error it was caused
    by; [Result<R, Enum>] is a value or such an error. *)

From S2P Require Import StringView Utils.

Record SourceLocation := MkLocation { func_name : bytes; line : Z }.

(** The customisation point a code enumeration implements. *)
Class ErrorCodeToString (Enum : Type) := code_to_string : Enum -> bytes.

(** What the chain of causes keeps of an error of any code type (the [ErrorBase] interface). *)
Inductive ErrorBase : Type :=
| MkErrorBase (source_location : SourceLocation) (code_string message : bytes) (next : option ErrorBase).

Record ErrorImpl (Enum : Type) := MkError {
  m_source_location : SourceLocation;
  m_value : Enum;
  m_message : bytes;
  m_next_error : option ErrorBase
}.
Arguments MkError {Enum}.
Arguments m_source_location {Enum}.
Arguments m_value {Enum}.
Arguments m_message {Enum}.
Arguments m_next_error {Enum}.

Section ErrorImpl.
Context {Enum : Type} `{ErrorCodeToString Enum}.

Definition to_base (e : ErrorImpl Enum) : ErrorBase :=
  MkErrorBase (m_source_location e) (code_to_string (m_value e)) (m_message e) (m_next_error e).

Definition make_error (loc : SourceLocation) (value : Enum) (next : option ErrorBase) : ErrorImpl Enum :=
  MkError loc value [] next.

Definition make_error_msg (loc : SourceLocation) (value : Enum) (message : bytes)
    (next : option ErrorBase) : ErrorImpl Enum :=
  MkError loc value message next.
End ErrorImpl.

Fixpoint base_str (e : ErrorBase) : bytes :=
  match e with
  | MkErrorBase loc code msg next =>
      str "Error at " ++ func_name loc ++ str ":" ++ fmt_dec (line loc)
      ++ (if bool_decide (code = []) then [] else str ": " ++ code)
      ++ (if bool_decide (msg = []) then [] else str ": " ++ msg)
      ++ match next with None => [] | Some n => [10%Z] ++ str "Caused by: " ++ base_str n end
  end.

Fixpoint base_pretty_str (e : ErrorBase) : bytes :=
  match e with
  | MkErrorBase _ code msg next =>
      (if bool_decide (code = []) then [] else code)
      ++ (if bool_decide (msg = []) then [] else str ": " ++ msg)
      ++ match next with None => [] | Some n => str ". " ++ base_pretty_str n end
  end.

Definition error_str {Enum} `{ErrorCodeToString Enum} (e : ErrorImpl Enum) : bytes :=
  base_str (to_base e).

Definition error_pretty_str {Enum} `{ErrorCodeToString Enum} (e : ErrorImpl Enum) : bytes :=
  base_pretty_str (to_base e).

(** ** Results *)

Inductive Result (R Enum : Type) : Type :=
| RValue (r : R)
| RError (e : ErrorImpl Enum).
Arguments RValue {R Enum} r.
Arguments RError {R Enum} e.

Definition has_value {R Enum} (x : Result R Enum) : bool :=
  match x with RValue _ => true | RError _ => false end.

Definition has_error {R Enum} (x : Result R Enum) : bool := negb (has_value x).

(** ** Names of functions *)

(** [rfind(needle, pos)]: the last occurrence that starts at or before [pos]. *)
Fixpoint rfind_sub_upto (needle : bytes) (pos : nat) (s : bytes) : option nat :=
  if has_prefix needle (drop pos s) then Some pos
  else match pos with O => None | S pos' => rfind_sub_upto needle pos' s end.

Definition rfind_sub (needle : bytes) (pos : option nat) (s : bytes) : option nat :=
  rfind_sub_upto needle (Nat.min (default (length s) pos) (length s)) s.

Definition pretty_func (pretty_function func : bytes) : bytes :=
  let e := find_index (Z.eqb 40) pretty_function in
  match rfind_sub func e pretty_function with
  | None | Some 0 => func
  | Some start =>
      match rfind_sub (str " ") (Some start) pretty_function with
      | None => take (default (length pretty_function) e) pretty_function
      | Some start => substr (start + 1) (default (length pretty_function) e - start - 1) pretty_function
      end
  end.

Example pretty_func_method :
  pretty_func (str "static ag::Result<int> ag::CidrRange::get(std::string_view)") (str "get")
  = str "ag::CidrRange::get".
Proof. reflexivity. Qed.

(** The text of an error is never empty: it always names the place it was made at. *)
Lemma error_str_nonempty {Enum} `{ErrorCodeToString Enum} (e : ErrorImpl Enum) : error_str e <> [].
Proof. by destruct e. Qed.

(** The chain of causes, the error itself first. *)
Fixpoint causes (e : ErrorBase) : list (bytes * bytes) :=
  match e with
  | MkErrorBase _ code msg next =>
      (code, msg) :: match next with None => [] | Some n => causes n end
  end.

(** What [pretty_str] shows of one error of the chain. *)
Definition pretty_one (cm : bytes * bytes) : bytes :=
  cm.1 ++ (if bool_decide (cm.2 = []) then [] else str ": " ++ cm.2).

(** The user-facing text of an error is the texts of the chain of causes, in order. *)
Theorem base_pretty_str_causes e :
  base_pretty_str e = join (map pretty_one (causes e)) (str ". ").
Proof.
  revert e. fix IH 1. intros [loc code msg [n|]]; cbn [base_pretty_str causes map].
  - rewrite IH. destruct n as [loc' code' msg' next']. cbn [causes map]. rewrite join_cons.
    unfold pretty_one at 3. cbn [fst snd]. rewrite <- app_assoc. f_equal.
    case_bool_decide; congruence.
  - cbn [join join_loop]. unfold pretty_one. cbn [fst snd]. rewrite app_nil_r. f_equal.
    case_bool_decide; congruence.
Qed.
