(* ===== verification/NetUtils.v ===== *)
(** * Host and port texts: [split_host_port] and [join_host_port] of [common/net_utils.cpp]

    The text of an endpoint is [host], [host:port], [[host]] or [[host]:port], where only the bracketed
    forms can give a port to a host that has colons of its own. *)

From S2P Require Import StringView Utils Error.

Inductive NetUtilsError :=
| AE_INVALID_IF_INDEX
| AE_UNSUPPORTED_FAMILY
| AE_BIND_ERROR
| AE_INVALID_IF_NAME
| AE_IPV6_PORT_EMPTY
| AE_IPV6_MISSING_RIGHT_BRACKET
| AE_IPV6_MISSING_BRACKETS
| AE_IPV4_PORT_EMPTY.

#[export] Instance net_utils_error_string : ErrorCodeToString NetUtilsError := fun e =>
  match e with
  | AE_INVALID_IF_INDEX => str "if_indextoname() error"
  | AE_UNSUPPORTED_FAMILY => str "Unsupported socket family"
  | AE_BIND_ERROR => str "Failed to bind"
  | AE_INVALID_IF_NAME => str "Invalid interface name"
  | AE_IPV6_PORT_EMPTY => str "Port after colon is empty in IPv6 address"
  | AE_IPV6_MISSING_RIGHT_BRACKET => str "IPv6 address contains `[` but not contains `]`"
  | AE_IPV6_MISSING_BRACKETS => str "IPv6 address not in square brackets"
  | AE_IPV4_PORT_EMPTY => str "Port after colon is empty in IPv4 address"
  end.

Section HostPort.
(** Place the compiler writes into an error. *)
Context (loc : SourceLocation).

Definition split_host_port (address_string : bytes) (require_ipv6_addr_in_square_brackets require_non_empty_port : bool)
    : Result (bytes * bytes) NetUtilsError :=
  if bool_decide (head address_string = Some (chr "[")) then
    match find_sub (str "]:") address_string with
    | Some pos =>
        let port := drop (pos + 2) address_string in
        if require_non_empty_port && bool_decide (port = []) then RError (make_error loc AE_IPV6_PORT_EMPTY None)
        else RValue (substr 1 (pos - 1) address_string, port)
    | None =>
        if bool_decide (last address_string = Some (chr "]"))
        then RValue (substr 1 (length address_string - 2) address_string, [])
        else RError (make_error loc AE_IPV6_MISSING_RIGHT_BRACKET None)
    end
  else
    match find_index (Z.eqb (chr ":")) address_string with
    | Some pos =>
        if negb (bool_decide (rfind_index (Z.eqb (chr ":")) address_string = Some pos)) then
          if require_ipv6_addr_in_square_brackets then RError (make_error loc AE_IPV6_MISSING_BRACKETS None)
          else RValue (address_string, [])
        else
          let port := drop (pos + 1) address_string in
          if require_non_empty_port && bool_decide (port = []) then RError (make_error loc AE_IPV4_PORT_EMPTY None)
          else RValue (take pos address_string, port)
    | None => RValue (address_string, [])
    end.
End HostPort.

Definition join_host_port (host port : bytes) : bytes :=
  match find_index (Z.eqb (chr ":")) host with
  | Some _ => str "[" ++ host ++ str "]:" ++ port
  | None => host ++ str ":" ++ port
  end.

(** [evutil_inet_ntop] for the two families. *)
Definition addr_to_str (ntop4 ntop6 : bytes -> option bytes) (v : bytes) : bytes :=
  if length v =? 4 then default [] (ntop4 v)
  else if length v =? 16 then default [] (ntop6 v)
  else [].

Definition EAGAIN : Z := 11.
Definition EWOULDBLOCK : Z := 11.
Definition socket_error_is_eagain (err : Z) : bool := (err =? EAGAIN)%Z || (err =? EWOULDBLOCK)%Z.

(** ** Facts on one colon *)

Lemma find_eqb_None c (s : bytes) : find_index (Z.eqb c) s = None <-> c ∉ s.
Proof.
  rewrite find_index_None, Forall_forall. setoid_rewrite Z.eqb_neq. split; [|intros Hc x Hx ->; done].
  intros H Hc. by apply (H c).
Qed.

Lemma find_eqb_first c (l r : bytes) : c ∉ l -> find_index (Z.eqb c) (l ++ c :: r) = Some (length l).
Proof.
  intros Hl. rewrite find_index_app, (proj2 (find_eqb_None c l) Hl). cbn. rewrite Z.eqb_refl. cbn. f_equal. lia.
Qed.

Lemma rfind_eqb_last c (l r : bytes) : c ∉ r -> rfind_index (Z.eqb c) (l ++ c :: r) = Some (length l).
Proof.
  intros Hr. apply rfind_index_Some. exists c. rewrite list_lookup_middle by done. split; [done|].
  split; [apply Z.eqb_refl|]. replace (S (length l)) with (length (l ++ [c])) by (rewrite length_app; cbn; lia).
  replace (l ++ c :: r) with ((l ++ [c]) ++ r) by (by rewrite <- app_assoc). rewrite drop_app_length.
  apply Forall_forall. intros x Hx. apply Z.eqb_neq. by intros ->.
Qed.

Lemma rfind_eqb_Some c (s : bytes) i :
  rfind_index (Z.eqb c) s = Some i -> exists l r, s = l ++ c :: r /\ length l = i /\ c ∉ r.
Proof.
  intros (x & Hx & Hp & Hf)%rfind_index_Some. apply Z.eqb_eq in Hp as <-. exists (take i s), (drop (S i) s).
  rewrite <- (drop_S _ _ _ Hx), take_drop. pose proof (lookup_lt_Some _ _ _ Hx). split; [done|].
  rewrite length_take. split; [lia|]. intros Hin. rewrite Forall_forall in Hf. specialize (Hf _ Hin).
  by rewrite Z.eqb_refl in Hf.
Qed.

(** ** What splitting means *)

(** The texts of an endpoint with this host and port. *)
Definition endpoint_text (host port s : bytes) : Prop :=
  (s = host /\ port = []) \/ s = host ++ str ":" ++ port \/
  (s = str "[" ++ host ++ str "]" /\ port = []) \/ s = str "[" ++ host ++ str "]:" ++ port.

Lemma bracketed s : head s = Some (chr "[") -> s <> [] /\ exists t, s = chr "[" :: t.
Proof. destruct s as [|c t]; [done|]. intros [= ->]. eauto. Qed.

Lemma split_bracketed loc s rb rp :
  head s = Some (chr "[") ->
  match split_host_port loc s rb rp with
  | RValue (h, p) => endpoint_text h p s /\ (rp = true -> ~ (p = [] /\ s = str "[" ++ h ++ str "]:"))
  | RError e =>
      (m_value e = AE_IPV6_PORT_EMPTY /\ rp = true /\ exists h, s = str "[" ++ h ++ str "]:") \/
      (m_value e = AE_IPV6_MISSING_RIGHT_BRACKET /\ last s <> Some (chr "]"))
  end.
Proof.
  intros Hh. unfold split_host_port. rewrite bool_decide_true by done. destruct (bracketed s Hh) as (_ & t & ->).
  destruct (find_sub (str "]:") (chr "[" :: t)) as [pos|] eqn:E.
  - pose proof (find_sub_Some _ _ _ E) as (Hl & Hp & _). apply has_prefix_spec in Hp as [port Hd].
    destruct pos as [|pos]; [by destruct t|]. cbn [drop length] in Hd, Hl. change (length (str "]:")) with 2 in Hl.
    assert (t = take pos t ++ str "]:" ++ port) as Et by (rewrite <- Hd; by rewrite take_drop).
    assert (drop (S pos + 2) (chr "[" :: t) = port) as ->.
    { replace (S pos + 2) with (S (pos + 2)) by lia. cbn [drop]. rewrite <- drop_drop, Hd. done. }
    assert (substr 1 (S pos - 1) (chr "[" :: t) = take pos t) as ->.
    { unfold substr. cbn [drop]. rewrite drop_0. f_equal. lia. }
    set (h := take pos t) in *. clearbody h. subst t. cbn [app].
    destruct (rp && bool_decide (port = [])) eqn:Er.
    + apply andb_true_iff in Er as [-> ->%bool_decide_eq_true]. left. split; [done|]. split; [done|]. by exists h.
    + split; [by right; right; right|]. intros -> [-> _]. by rewrite bool_decide_true in Er.
  - case_bool_decide as El; [|by right].
    destruct (chr "[" :: t) as [|x t'] eqn:Et using rev_ind; [done|]. clear IHt'.
    rewrite last_snoc in El. injection El as ->.
    destruct t' as [|y t']; [by injection Et|]. injection Et as <- ->.
    unfold substr. cbn [app drop length]. rewrite length_app. cbn [length]. rewrite drop_0.
    replace (S (length t' + 1) - 2) with (length t') by lia. rewrite take_app_length.
    split; [by right; right; left|]. intros _ [_ Hs]. injection Hs as Hs. by apply app_inv_head in Hs.
Qed.

Lemma split_plain loc s rb rp :
  head s <> Some (chr "[") ->
  match split_host_port loc s rb rp with
  | RValue (h, p) => endpoint_text h p s /\ (rp = true -> ~ (p = [] /\ s = h ++ str ":"))
  | RError e =>
      (m_value e = AE_IPV4_PORT_EMPTY /\ rp = true /\ exists h, s = h ++ str ":") \/
      (m_value e = AE_IPV6_MISSING_BRACKETS /\ rb = true /\ chr ":" ∈ s)
  end.
Proof.
  intros Hh. unfold split_host_port. rewrite bool_decide_false by done.
  assert (forall l : bytes, l <> l ++ str ":") as Hne.
  { intros l Hl. apply (f_equal length) in Hl. rewrite length_app in Hl. cbn in Hl. lia. }
  destruct (find_index (Z.eqb (chr ":")) s) as [pos|] eqn:E.
  2:{ split; [by left|]. intros _ [_ Hs]. by apply Hne in Hs. }
  apply find_index_split in E as (l & x & r & -> & <- & <-%Z.eqb_eq & Hl).
  case_bool_decide as Er; cbn [negb].
  - replace (drop (length l + 1) (l ++ chr ":" :: r)) with r.
    2:{ rewrite drop_app_ge by lia. by replace (length l + 1 - length l) with 1 by lia. }
    destruct (rp && bool_decide (r = [])) eqn:Ep.
    + apply andb_true_iff in Ep as [-> ->%bool_decide_eq_true]. left. split; [done|]. split; [done|]. by exists l.
    + rewrite take_app_length. split; [by right; left|]. intros -> [-> _]. by rewrite bool_decide_true in Ep.
  - destruct rb; [right; split; [done|]; split; [done|set_solver]|]. split; [by left|]. intros _ [_ Hs]. by apply Hne in Hs.
Qed.

(** The text of a host followed by a colon and an empty port, in the form the first character calls for. *)
Definition empty_port_text (host s : bytes) : bytes :=
  if bool_decide (head s = Some (chr "[")) then str "[" ++ host ++ str "]:" else host ++ str ":".

(** Splitting an endpoint text loses nothing: the text is one of the four forms of the host and
    port it returns, and no port is returned empty after a colon when one is required.  The text is
    refused only for an empty port that is required, an opening bracket without a closing one, or a
    bare host with colons where brackets are required. *)
Theorem split_host_port_sound loc s rb rp :
  match split_host_port loc s rb rp with
  | RValue (h, p) => endpoint_text h p s /\ (rp = true -> ~ (p = [] /\ s = empty_port_text h s))
  | RError e =>
      match m_value e with
      | AE_IPV6_PORT_EMPTY | AE_IPV4_PORT_EMPTY => rp = true /\ exists h, s = empty_port_text h s
      | AE_IPV6_MISSING_RIGHT_BRACKET => head s = Some (chr "[") /\ last s <> Some (chr "]")
      | AE_IPV6_MISSING_BRACKETS => rb = true /\ head s <> Some (chr "[") /\ chr ":" ∈ s
      | _ => False
      end
  end.
Proof.
  unfold empty_port_text. case_bool_decide as Hh.
  - pose proof (split_bracketed loc s rb rp Hh) as Hs.
    destruct (split_host_port loc s rb rp) as [[h p]|e]; [done|]. by destruct Hs as [[-> ?]|[-> ?]].
  - pose proof (split_plain loc s rb rp Hh) as Hs.
    destruct (split_host_port loc s rb rp) as [[h p]|e]; [done|]. by destruct Hs as [[-> ?]|(-> & ? & ?)].
Qed.

(** Hosts and ports a joined text gives back. *)
Definition plain_host (host : bytes) : Prop := (chr "[" ∉ host) /\ (chr "]" ∉ host).

Definition joinable (host port : bytes) : Prop := plain_host host /\ (chr ":" ∈ host \/ (chr ":" ∉ port)).

#[export] Instance joinable_dec host port : Decision (joinable host port).
Proof. unfold joinable, plain_host. apply _. Defined.

Lemma split_join loc host port rb rp :
  joinable host port -> (rp = true -> port <> []) ->
  split_host_port loc (join_host_port host port) rb rp = RValue (host, port).
Proof.
  intros [[Hl Hr] Hc] Hp. unfold join_host_port, split_host_port.
  assert (rp && bool_decide (port = []) = false) as Ep
    by (destruct rp; [|done]; by rewrite bool_decide_false by auto).
  destruct (find_index (Z.eqb (chr ":")) host) as [i|] eqn:E.
  - rewrite bool_decide_true by done.
    replace (str "[" ++ host ++ str "]:" ++ port) with ((chr "[" :: host) ++ str "]:" ++ port) by done.
    change (str "]:") with (chr "]" :: [chr ":"]). rewrite find_sub_app.
    2:{ constructor; [done|]. apply Forall_forall. by intros x Hx ->. }
    cbn [length]. rewrite drop_app_ge by (cbn; lia). cbn [length].
    replace (S (length host) + 2 - S (length host)) with 2 by lia. cbn [app drop]. rewrite drop_0, Ep.
    unfold substr. cbn [drop]. rewrite drop_0. replace (S (length host) - 1) with (length host) by lia.
    by rewrite take_app_length.
  - apply find_eqb_None in E. destruct Hc as [Hc|Hc]; [done|]. change (str ":" ++ port) with (chr ":" :: port).
    rewrite bool_decide_false by (destruct host; [done|]; intros [= ->]; set_solver).
    rewrite find_eqb_first, rfind_eqb_last by done. rewrite bool_decide_true by done. cbn [negb].
    rewrite drop_app_ge by lia. replace (length host + 1 - length host) with 1 by lia. cbn [drop].
    by rewrite drop_0, Ep, take_app_length.
Qed.

(** Splitting a joined endpoint gives back its host and port, whatever the requirements: for an
    IPv6 host, which is bracketed, and for a name or an IPv4 address. *)
Theorem join_host_port_roundtrip loc host port rb rp :
  joinable host port -> (rp = true -> port <> []) ->
  split_host_port loc (join_host_port host port) rb rp = RValue (host, port).
Proof. apply split_join. Qed.

Lemma join_host_port_roundtrip_witness :
  let loc := MkLocation [] 0 in
  split_host_port loc (join_host_port (str "::1") (str "53")) true true = RValue (str "::1", str "53") /\
  split_host_port loc (join_host_port (str "example.org") (str "443")) true true = RValue (str "example.org", str "443").
Proof.
  split; apply join_host_port_roundtrip; try done; by apply (bool_decide_eq_true (joinable _ _)).
Defined.
