(* ===== verification/SocketAddress.v ===== *)
(** * Socket addresses: [common/socket_address.cpp]

    The storage is the 28 bytes of a [sockaddr_in6] of Linux on a little-endian machine: the family in
    two bytes, the port in network order, then either the IPv4 address or flow label, IPv6 address and
    scope.  Every operation reads and writes these bytes as the source does through its casts. *)

From S2P Require Import StringView Utils Error NetUtils.

Definition AF_UNSPEC : Z := 0.
Definition AF_INET : Z := 2.
Definition AF_INET6 : Z := 10.

Definition SIZEOF_IN : nat := 16.
Definition SIZEOF_IN6 : nat := 28.

Definition IPV4_SIZE : nat := 4.
Definition IPV6_SIZE : nat := 16.

(** Offsets of the fields. *)
Definition PORT_OFFSET : nat := 2.
Definition SIN_ADDR_OFFSET : nat := 4.
Definition SIN6_ADDR_OFFSET : nat := 8.

Abbreviation SocketAddressStorage := bytes.

Definition SocketAddress : Type := SocketAddressStorage.

Definition ss_zero : SocketAddressStorage := replicate SIZEOF_IN6 0%Z.

(** [memcpy(&ss + pos, data, data.size())]. *)
Definition write_at (pos : nat) (data : bytes) (ss : bytes) : bytes :=
  take pos ss ++ data ++ drop (pos + length data) ss.

Fixpoint memcmp (n : nat) (a b : bytes) : Z :=
  match n, a, b with
  | S n', x :: a', y :: b' => if (x =? y)%Z then memcmp n' a' b' else (x - y)%Z
  | _, _, _ => 0%Z
  end.

(** The [uint16_t] at the start, little endian. *)
Definition sa_family (ss : bytes) : Z :=
  match ss with
  | a :: b :: _ => (a + 256 * b)%Z
  | _ => AF_UNSPEC
  end.

Definition family_bytes (family : Z) : bytes := [(family mod 256)%Z; (family / 256)%Z].

Definition htons_bytes (port : Z) : bytes := [(port / 256)%Z; (port mod 256)%Z].

Definition ntohs_at (pos : nat) (ss : bytes) : Z :=
  match drop pos ss with
  | a :: b :: _ => (256 * a + b)%Z
  | _ => 0%Z
  end.

Definition c_socklen (ss : bytes) : nat :=
  if (sa_family ss =? AF_INET6)%Z then SIZEOF_IN6 else if (sa_family ss =? AF_INET)%Z then SIZEOF_IN else 0.

Definition sa_ltb (this other : SocketAddress) : bool := (memcmp (c_socklen this) this other <? 0)%Z.
Definition sa_eqb (this other : SocketAddress) : bool := (memcmp (c_socklen this) this other =? 0)%Z.
Definition sa_neqb (this other : SocketAddress) : bool := negb (sa_eqb this other).

(** ** Construction *)

(** The constructor from a [sockaddr] pointer, the null pointer being [None]. *)
Definition sa_of_sockaddr (addr : option bytes) : SocketAddress :=
  match addr with
  | Some a => write_at 0 (take (c_socklen a) a) ss_zero
  | None => ss_zero
  end.

Definition make_sockaddr_storage (addr : bytes) (port : Z) : SocketAddressStorage :=
  if length addr =? IPV6_SIZE then
    write_at SIN6_ADDR_OFFSET addr (write_at PORT_OFFSET (htons_bytes port) (write_at 0 (family_bytes AF_INET6) ss_zero))
  else if length addr =? IPV4_SIZE then
    write_at SIN_ADDR_OFFSET addr (write_at PORT_OFFSET (htons_bytes port) (write_at 0 (family_bytes AF_INET) ss_zero))
  else ss_zero.

Definition sa_of_bytes (addr : bytes) (port : Z) : SocketAddress := make_sockaddr_storage addr port.

Inductive IpAddress := NoAddress | Ipv4 (a : bytes) | Ipv6 (a : bytes).

Definition sa_of_variant (addr : IpAddress) (port : Z) : SocketAddress :=
  match addr with
  | Ipv4 a | Ipv6 a => make_sockaddr_storage a port
  | NoAddress => ss_zero
  end.

Section Text.
(** [evutil_inet_pton] for the two families; [getaddrinfo] for a numeric IPv6 host, which answers the
    bytes of a [sockaddr_in6]; [getnameinfo] with a numeric host. *)
Context (inet_pton4 inet_pton6 : bytes -> option bytes).
Context (getaddrinfo : bytes -> option bytes).
Context (getnameinfo_host : bytes -> option bytes).
Context (loc : SourceLocation).

Definition INET6_ADDRSTRLEN : nat := 46.

(** The text up to the first NUL, as a C function reads it. *)
Definition c_string (s : bytes) : bytes := take_while (fun c => negb (c =? 0)%Z) s.

Definition is_bracket (c : Z) : bool := (c =? chr "[")%Z || (c =? chr "]")%Z.

Definition make_sockaddr_storage_str (numeric_host : bytes) (port : Z) : SocketAddressStorage :=
  if INET6_ADDRSTRLEN - 1 <? length numeric_host then ss_zero
  else
    let p := c_string numeric_host in
    match inet_pton4 p with
    | Some ip => make_sockaddr_storage ip port
    | None =>
        match inet_pton6 p with
        | Some ip => make_sockaddr_storage ip port
        | None =>
            if forallb (fun c => negb (is_bracket c)) numeric_host then
              match getaddrinfo p with
              | Some ai_addr => write_at PORT_OFFSET (htons_bytes port) (write_at 0 ai_addr ss_zero)
              | None => ss_zero
              end
            else ss_zero
        end
    end.

Definition sa_of_host_port (numeric_host : bytes) (port : Z) : SocketAddress :=
  make_sockaddr_storage_str numeric_host port.

Definition sa_of_string (numeric_host_port : bytes) : SocketAddress :=
  match split_host_port loc numeric_host_port false false with
  | RError _ => ss_zero
  | RValue (first, second) =>
      let port := to_integer false 16 10 second in
      if bool_decide (port = None) && negb (bool_decide (second = [])) then ss_zero
      else sa_of_host_port first (default 0%Z port)
  end.

(** ** Reading *)

Definition addr (ss : SocketAddress) : bytes :=
  if (sa_family ss =? AF_INET)%Z then substr SIN_ADDR_OFFSET IPV4_SIZE ss
  else if (sa_family ss =? AF_INET6)%Z then substr SIN6_ADDR_OFFSET IPV6_SIZE ss
  else [].

Definition IPV4_MAPPED_PREFIX : bytes := [0; 0; 0; 0; 0; 0; 0; 0; 0; 0; 0xff; 0xff]%Z.

Definition is_ipv4_mapped (ss : SocketAddress) : bool :=
  (sa_family ss =? AF_INET6)%Z
  && (memcmp (length IPV4_MAPPED_PREFIX) (drop SIN6_ADDR_OFFSET ss) IPV4_MAPPED_PREFIX =? 0)%Z.

Definition addr_unmapped (ss : SocketAddress) : bytes :=
  if negb (is_ipv4_mapped ss) then addr ss
  else substr (SIN6_ADDR_OFFSET + length IPV4_MAPPED_PREFIX) IPV4_SIZE ss.

Definition addr_variant (ss : SocketAddress) : IpAddress :=
  if (sa_family ss =? AF_INET)%Z then Ipv4 (substr SIN_ADDR_OFFSET IPV4_SIZE ss)
  else if (sa_family ss =? AF_INET6)%Z then Ipv6 (substr SIN6_ADDR_OFFSET IPV6_SIZE ss)
  else NoAddress.

Definition port (ss : SocketAddress) : Z :=
  if (sa_family ss =? AF_INET6)%Z then ntohs_at PORT_OFFSET ss
  else if (sa_family ss =? AF_INET)%Z then ntohs_at PORT_OFFSET ss
  else 0%Z.

Definition host_str (ipv6_brackets : bool) (ss : SocketAddress) : bytes :=
  let host := default [] (getnameinfo_host (take (c_socklen ss) ss)) in
  if (sa_family ss =? AF_INET6)%Z && ipv6_brackets then str "[" ++ host ++ str "]" else host.

(** [getnameinfo] with a numeric service writes the decimal port of an address of a known family. *)
Definition sa_str (ss : SocketAddress) : bytes :=
  let serv := if c_socklen ss =? 0 then str "0" else fmt_dec (port ss) in
  host_str true ss ++ str ":" ++ serv.

Definition sa_valid (ss : SocketAddress) : bool := negb (sa_family ss =? AF_UNSPEC)%Z.
Definition is_ipv6 (ss : SocketAddress) : bool := (sa_family ss =? AF_INET6)%Z.
Definition is_ipv4 (ss : SocketAddress) : bool := (sa_family ss =? AF_INET)%Z || is_ipv4_mapped ss.

(** ** Family casts *)

Definition to_ipv4_unmapped (ss : SocketAddress) : SocketAddress :=
  if (sa_family ss =? AF_INET)%Z then ss
  else if negb (is_ipv4_mapped ss) then ss_zero
  else sa_of_bytes (drop (length IPV4_MAPPED_PREFIX) (addr ss)) (port ss).

Definition to_ipv4_mapped (ss : SocketAddress) : SocketAddress :=
  if (sa_family ss =? AF_INET6)%Z then ss
  else if negb (sa_family ss =? AF_INET)%Z then ss_zero
  else sa_of_bytes (IPV4_MAPPED_PREFIX ++ addr ss) (port ss).

Definition socket_family_cast (family : Z) (ss : SocketAddress) : SocketAddress :=
  if (family =? AF_INET)%Z then to_ipv4_unmapped ss
  else if (family =? AF_INET6)%Z then to_ipv4_mapped ss
  else ss_zero.

Definition set_port (p : Z) (ss : SocketAddress) : SocketAddress :=
  if (sa_family ss =? AF_INET)%Z then write_at PORT_OFFSET (htons_bytes p) ss
  else if (sa_family ss =? AF_INET6)%Z then write_at PORT_OFFSET (htons_bytes p) ss
  else ss.

(** [ntohl] of the IPv4 address. *)
Definition ntohl_addr (ss : SocketAddress) : Z :=
  match drop SIN_ADDR_OFFSET ss with
  | a :: b :: c :: d :: _ => (16777216 * a + 65536 * b + 256 * c + d)%Z
  | _ => 0%Z
  end.

Definition INADDR_LOOPBACK : Z := 0x7f000001.
Definition INADDR_ANY : Z := 0.
Definition LOOPBACK_MASK : Z := 0xff000000.
Definition in6addr_loopback : bytes := replicate 15 0%Z ++ [1%Z].
Definition in6addr_any : bytes := replicate 16 0%Z.

(** The branch for [AF_INET], which the branch for mapped addresses calls again. *)
Definition is_loopback4 (ss : SocketAddress) : bool :=
  (Z.land INADDR_LOOPBACK LOOPBACK_MASK =? Z.land (ntohl_addr ss) LOOPBACK_MASK)%Z.

Definition is_loopback (ss : SocketAddress) : bool :=
  if (sa_family ss =? AF_INET)%Z then is_loopback4 ss
  else if (sa_family ss =? AF_INET6)%Z then
    if negb (is_ipv4_mapped ss) then (memcmp IPV6_SIZE (drop SIN6_ADDR_OFFSET ss) in6addr_loopback =? 0)%Z
    else is_loopback4 (to_ipv4_unmapped ss)
  else false.

Definition is_any4 (ss : SocketAddress) : bool := (INADDR_ANY =? ntohl_addr ss)%Z.

Definition is_any (ss : SocketAddress) : bool :=
  if (sa_family ss =? AF_INET)%Z then is_any4 ss
  else if (sa_family ss =? AF_INET6)%Z then
    if negb (is_ipv4_mapped ss) then (memcmp IPV6_SIZE (drop SIN6_ADDR_OFFSET ss) in6addr_any =? 0)%Z
    else is_any4 (to_ipv4_unmapped ss)
  else false.

(** [std::hash<SocketAddress>], over the hash of a byte string. *)
Definition sa_hash (hash_bytes : bytes -> Z) (ss : SocketAddress) : Z := hash_bytes (take (c_socklen ss) ss).
End Text.

(** ** The layout of constructed addresses *)

Lemma storage4 a p :
  length a = 4 -> sa_of_bytes a p = [2; 0; p / 256; p mod 256]%Z ++ a ++ replicate 20 0%Z.
Proof. intros Ha. by destruct a as [|? [|? [|? [|? [|? ?]]]]]. Qed.

Lemma storage6 a p :
  length a = 16 -> sa_of_bytes a p = [10; 0; p / 256; p mod 256; 0; 0; 0; 0]%Z ++ a ++ replicate 4 0%Z.
Proof. intros Ha. do 16 (destruct a as [|? a]; [done|]). by destruct a. Qed.

Lemma storage_other a p : length a <> 4 -> length a <> 16 -> sa_of_bytes a p = ss_zero.
Proof.
  intros H4 H16. unfold sa_of_bytes, make_sockaddr_storage, IPV6_SIZE, IPV4_SIZE.
  by rewrite !(proj2 (Nat.eqb_neq _ _)) by done.
Qed.

Lemma port_bytes p : (256 * (p / 256) + p mod 256)%Z = p.
Proof. symmetry. apply Z.div_mod. lia. Qed.

Lemma fields4 a p :
  length a = 4 ->
  let s := sa_of_bytes a p in
  sa_family s = AF_INET /\ addr s = a /\ addr_variant s = Ipv4 a /\ port s = p /\ c_socklen s = SIZEOF_IN.
Proof.
  intros Ha s. unfold s. rewrite storage4 by done. destruct a as [|? [|? [|? [|? [|? ?]]]]]; try done.
  repeat (split; [done|]). split; [|done]. cbn. apply port_bytes.
Qed.

Lemma fields6 a p :
  length a = 16 ->
  let s := sa_of_bytes a p in
  sa_family s = AF_INET6 /\ addr s = a /\ addr_variant s = Ipv6 a /\ port s = p /\ c_socklen s = SIZEOF_IN6.
Proof.
  intros Ha s. unfold s. rewrite storage6 by done. do 16 (destruct a as [|? a]; [done|]). destruct a; [|done].
  repeat (split; [done|]). split; [|done]. cbn. apply port_bytes.
Qed.

(** A constructed address has the family that the number of its bytes calls for, gives back these
    bytes and the port, and [set_port] is construction with the other port; any other number of bytes
    makes an invalid address. *)
Theorem sockaddr_fields a p q :
  let s := sa_of_bytes a p in
  if (length a =? 4) || (length a =? 16) then
    sa_valid s = true /\ is_ipv6 s = (length a =? 16) /\ addr s = a /\ port s = p /\
    sa_of_variant (addr_variant s) p = s /\ set_port q s = sa_of_bytes a q
  else sa_valid s = false /\ addr s = [] /\ port s = 0%Z.
Proof.
  intros s. destruct (Nat.eqb_spec (length a) 4) as [H4|H4]; [|destruct (Nat.eqb_spec (length a) 16) as [H16|H16]]; cbn [orb].
  - destruct (fields4 a p H4) as (Hf & Ha & Hv & Hp & _). fold s in Hf, Ha, Hv, Hp.
    unfold sa_valid, is_ipv6. rewrite Hf, H4, Ha, Hv, Hp. repeat (split; [done|]).
    unfold set_port. rewrite Hf. unfold s. rewrite !storage4 by done. done.
  - destruct (fields6 a p H16) as (Hf & Ha & Hv & Hp & _). fold s in Hf, Ha, Hv, Hp.
    unfold sa_valid, is_ipv6. rewrite Hf, Ha, Hv, Hp. repeat (split; [done|]).
    unfold set_port. rewrite Hf. unfold s. rewrite !storage6 by done. done.
  - unfold s. by rewrite storage_other by done.
Qed.

(** ** Order *)

Lemma memcmp_eq n a b : n <= length a -> n <= length b -> memcmp n a b = 0%Z <-> take n a = take n b.
Proof.
  revert a b. induction n as [|n IH]; intros [|x a] [|y b] Ha Hb; cbn in *; try lia; try done.
  destruct (Z.eqb_spec x y) as [->|Hne]; [rewrite IH by lia; split; congruence|]. split; [lia|congruence].
Qed.

Lemma memcmp_flip n a b : memcmp n b a = (- memcmp n a b)%Z.
Proof.
  revert a b. induction n as [|n IH]; intros [|x a] [|y b]; cbn; try done.
  rewrite Z.eqb_sym. destruct (x =? y)%Z; [apply IH|lia].
Qed.

Lemma memcmp_trans n a b c :
  n <= length a -> n <= length b -> n <= length c ->
  (memcmp n a b <= 0)%Z -> (memcmp n b c <= 0)%Z ->
  (memcmp n a c <= memcmp n a b)%Z \/ (memcmp n a c <= memcmp n b c)%Z.
Proof.
  revert a b c. induction n as [|n IH]; intros [|x a] [|y b] [|z c] Ha Hb Hc; cbn in *; try lia.
  destruct (Z.eqb_spec x y), (Z.eqb_spec y z), (Z.eqb_spec x z); try lia.
  apply IH; lia.
Qed.

(** An address the class can hold: its size, and a family it knows. *)
Definition sa_wf (ss : SocketAddress) : Prop :=
  length ss = SIZEOF_IN6 /\ is_bytes ss /\ (sa_family ss = AF_INET \/ sa_family ss = AF_INET6).

Lemma family_head ss : sa_wf ss -> exists t, ss = sa_family ss :: 0%Z :: t.
Proof.
  intros (Hl & Hb & Hf). destruct ss as [|x [|y t]]; [done..|]. exists t. unfold is_bytes in Hb.
  rewrite !Forall_cons in Hb. unfold is_byte, sa_family, AF_INET, AF_INET6 in *.
  assert (y = 0%Z) as -> by lia. by rewrite Z.mul_0_r, Z.add_0_r.
Qed.

Lemma socklen_pos ss : sa_wf ss -> 2 <= c_socklen ss <= length ss.
Proof.
  intros (Hl & _ & Hf). unfold c_socklen. rewrite Hl. unfold SIZEOF_IN, SIZEOF_IN6. destruct Hf as [-> | ->]; cbn; lia.
Qed.

(** The comparison of addresses of two families is that of the families. *)
Lemma memcmp_families a b :
  sa_wf a -> sa_wf b -> sa_family a <> sa_family b -> memcmp (c_socklen a) a b = (sa_family a - sa_family b)%Z.
Proof.
  intros Ha Hb Hne. pose proof (socklen_pos a Ha) as [Hn _]. destruct (family_head a Ha) as [t Ea], (family_head b Hb) as [u Eb].
  destruct (c_socklen a) as [|n]; [lia|]. rewrite Ea, Eb at 1. cbn [memcmp]. by rewrite (proj2 (Z.eqb_neq _ _)) by done.
Qed.

Lemma same_family_socklen a b : sa_family a = sa_family b -> c_socklen a = c_socklen b.
Proof. unfold c_socklen. by intros ->. Qed.

Lemma sa_eqb_iff a b :
  sa_wf a -> sa_wf b -> sa_eqb a b = true <-> sa_family a = sa_family b /\ take (c_socklen a) a = take (c_socklen b) b.
Proof.
  intros Ha Hb. unfold sa_eqb. rewrite Z.eqb_eq. destruct (decide (sa_family a = sa_family b)) as [Hf|Hf].
  - rewrite memcmp_eq, (same_family_socklen a b Hf); [tauto|by apply socklen_pos|].
    rewrite (same_family_socklen a b Hf). by apply socklen_pos.
  - rewrite memcmp_families by done. split; [lia|tauto].
Qed.

Lemma sa_ltb_trans a b c :
  sa_wf a -> sa_wf b -> sa_wf c -> sa_ltb a b = true -> sa_ltb b c = true -> sa_ltb a c = true.
Proof.
  intros Ha Hb Hc. unfold sa_ltb. rewrite !Z.ltb_lt.
  destruct (decide (sa_family a = sa_family b)) as [Hab|Hab], (decide (sa_family b = sa_family c)) as [Hbc|Hbc].
  - pose proof (same_family_socklen _ _ Hab) as E1. pose proof (same_family_socklen _ _ Hbc) as E2.
    rewrite <- E1. intros H1 H2. pose proof (socklen_pos a Ha). pose proof (socklen_pos b Hb). pose proof (socklen_pos c Hc).
    destruct (memcmp_trans (c_socklen a) a b c); lia.
  - rewrite (memcmp_families b c), (memcmp_families a c) by (done || congruence). lia.
  - rewrite (memcmp_families a b), (memcmp_families a c) by (done || congruence). lia.
  - rewrite (memcmp_families a b), (memcmp_families b c) by done. intros H1 H2.
    rewrite (memcmp_families a c); [lia|done|done|]. lia.
Qed.

Lemma memcmp_socklen_flip a b : sa_wf a -> sa_wf b -> memcmp (c_socklen b) b a = (- memcmp (c_socklen a) a b)%Z.
Proof.
  intros Ha Hb. destruct (decide (sa_family a = sa_family b)) as [Hf|Hf].
  - rewrite (same_family_socklen a b Hf). apply memcmp_flip.
  - rewrite !memcmp_families by done. lia.
Qed.

(** On addresses of a known family [operator==] is an equivalence that the hash respects, and
    [operator<] is a strict total order with it as equality, across families too. *)
Theorem sa_order hash_bytes a b c :
  sa_wf a -> sa_wf b -> sa_wf c ->
  sa_eqb a a = true /\ sa_eqb a b = sa_eqb b a /\
  (sa_eqb a b = true -> sa_eqb b c = true -> sa_eqb a c = true) /\
  (sa_eqb a b = true -> sa_hash hash_bytes a = sa_hash hash_bytes b) /\
  (sa_ltb a b = true -> sa_ltb b c = true -> sa_ltb a c = true) /\
  (sa_eqb a b = negb (sa_ltb a b) && negb (sa_ltb b a)) /\ (sa_ltb a b && sa_ltb b a = false).
Proof.
  intros Ha Hb Hc. pose proof (memcmp_socklen_flip a b Ha Hb) as Hflip.
  split; [by apply sa_eqb_iff|]. split; [unfold sa_eqb; rewrite Hflip; apply eq_true_iff_eq; rewrite !Z.eqb_eq; lia|].
  rewrite !sa_eqb_iff by done. split; [intros [-> ->] [-> ->]; done|]. split; [unfold sa_hash; by intros [_ ->]|].
  split; [by apply sa_ltb_trans|]. unfold sa_eqb, sa_ltb. rewrite Hflip.
  set (m := memcmp (c_socklen a) a b). clearbody m.
  destruct (Z.eqb_spec m 0), (Z.ltb_spec m 0), (Z.ltb_spec (- m) 0); try lia; done.
Qed.

Definition local4 : SocketAddress := sa_of_bytes [127; 0; 0; 1]%Z 53.
Definition local6 : SocketAddress := sa_of_bytes in6addr_loopback 53.

#[export] Instance sa_wf_dec ss : Decision (sa_wf ss).
Proof. unfold sa_wf. apply _. Defined.

Lemma sa_order_witness :
  sa_ltb local4 local6 = true /\ sa_eqb local4 local6 = sa_eqb local6 local4.
Proof.
  split; [by vm_compute|].
  apply (sa_order (fun _ => 0%Z) local4 local6 local4); by apply (bool_decide_eq_true (sa_wf _)).
Defined.

(** An address without a family compares equal to every address, and not the other way round. *)
Lemma unspecified_equals_all ss : sa_eqb ss_zero ss = true /\ sa_eqb local4 ss_zero = false.
Proof. done. Qed.

(** ** Family casts *)

(** The IPv4 address of the last bytes of a mapped address. *)
Lemma mapped_storage a p :
  length a = 4 ->
  let m := sa_of_bytes (IPV4_MAPPED_PREFIX ++ a) p in
  is_ipv4_mapped m = true /\ addr m = IPV4_MAPPED_PREFIX ++ a /\ addr_unmapped m = a /\ port m = p /\
  to_ipv4_unmapped m = sa_of_bytes a p.
Proof.
  intros Ha m. destruct (fields6 (IPV4_MAPPED_PREFIX ++ a) p) as (Hf & Hadd & _ & Hp & _); [by rewrite length_app, Ha|].
  fold m in Hf, Hadd, Hp. assert (is_ipv4_mapped m = true) as Hm.
  { unfold m. rewrite storage6 by (by rewrite length_app, Ha). by destruct a as [|? [|? [|? [|? [|? ?]]]]]. }
  split; [done|]. split; [done|]. split; [|split; [done|]].
  - unfold addr_unmapped. rewrite Hm. unfold m. rewrite storage6 by (by rewrite length_app, Ha).
    by destruct a as [|? [|? [|? [|? [|? ?]]]]].
  - unfold to_ipv4_unmapped. by rewrite Hf, Hm, Hadd, Hp.
Qed.

(** The class of an IPv4 address, from its bytes. *)
Lemma class4 a p :
  length a = 4 -> is_bytes a ->
  is_loopback (sa_of_bytes a p) = bool_decide (head a = Some 127%Z) /\
  is_any (sa_of_bytes a p) = bool_decide (a = [0; 0; 0; 0]%Z).
Proof.
  intros Ha Hb. unfold is_loopback, is_any, is_loopback4, is_any4. rewrite storage4 by done.
  destruct a as [|x [|y [|z [|w [|? ?]]]]]; try done. cbn [app sa_family drop ntohl_addr SIN_ADDR_OFFSET].
  change (2 + 256 * 0 =? AF_INET)%Z with true. cbn [ntohl_addr drop app SIN_ADDR_OFFSET head].
  unfold is_bytes, is_byte in Hb. rewrite !Forall_cons in Hb. unfold ntohl_addr, SIN_ADDR_OFFSET. cbn [drop app].
  split; apply eq_true_iff_eq; rewrite bool_decide_eq_true, Z.eqb_eq.
  - change (Z.land INADDR_LOOPBACK LOOPBACK_MASK) with (127 * 2 ^ 24)%Z.
    assert (Z.land (16777216 * x + 65536 * y + 256 * z + w) LOOPBACK_MASK = x * 2 ^ 24)%Z as ->.
    { set (n := (65536 * y + 256 * z + w)%Z). assert (0 <= n < 2 ^ 24)%Z as Hn by (unfold n; lia).
      replace (16777216 * x + 65536 * y + 256 * z + w)%Z with (x * 2 ^ 24 + n)%Z by (unfold n; lia).
      change LOOPBACK_MASK with (Z.shiftl (Z.ones 8) 24).
      rewrite <- (lor_low x n 24), <- Z.shiftl_mul_pow2 by lia. apply Z.bits_inj'. intros i Hi.
      rewrite Z.land_spec, Z.lor_spec, !Z.shiftl_spec by done. destruct (Z.ltb_spec i 24).
      - by rewrite (Z.testbit_neg_r x), (Z.testbit_neg_r (Z.ones 8)), andb_false_r by lia.
      - rewrite (proj1 (bits_range 24 n ltac:(lia) ltac:(lia)) ltac:(lia) i) by done. rewrite orb_false_r.
        rewrite Z.testbit_ones_nonneg by lia. destruct (Z.ltb_spec (i - 24) 8); [apply andb_true_r|].
        rewrite andb_false_r. symmetry. apply (proj1 (bits_range 8 x ltac:(lia) ltac:(lia))); lia. }
    split; [intros H; f_equal; lia|intros [= ->]; lia].
  - split; [|by intros [= -> -> -> ->]]. unfold INADDR_ANY. intros H.
    assert (x = 0 /\ y = 0 /\ z = 0 /\ w = 0)%Z as (-> & -> & -> & ->) by lia. done.
Qed.

Lemma mapped_class a p :
  length a = 4 -> is_bytes a ->
  let m := socket_family_cast AF_INET6 (sa_of_bytes a p) in
  m = sa_of_bytes (IPV4_MAPPED_PREFIX ++ a) p /\
  is_loopback m = bool_decide (head a = Some 127%Z) /\ is_any m = bool_decide (a = [0; 0; 0; 0]%Z).
Proof.
  intros Ha Hb m. destruct (fields4 a p Ha) as (Hf & Hadd & _ & Hp & _).
  assert (m = sa_of_bytes (IPV4_MAPPED_PREFIX ++ a) p) as Em.
  { unfold m, socket_family_cast, to_ipv4_mapped. change (AF_INET6 =? AF_INET)%Z with false.
    change (AF_INET6 =? AF_INET6)%Z with true. cbv iota. by rewrite Hf, Hadd, Hp. }
  split; [done|]. destruct (mapped_storage a p Ha) as (Hm & _ & _ & _ & Hback). rewrite <- Em in Hm, Hback.
  destruct (fields6 (IPV4_MAPPED_PREFIX ++ a) p) as (Hf6 & _); [by rewrite length_app, Ha|]. rewrite <- Em in Hf6.
  destruct (class4 a p Ha Hb) as [Hlo Hany]. unfold is_loopback, is_any in *. rewrite Hf6, Hm, Hback.
  rewrite Hf in Hlo, Hany. change (AF_INET6 =? AF_INET)%Z with false. change (AF_INET6 =? AF_INET6)%Z with true.
  change (AF_INET =? AF_INET)%Z with true in Hlo, Hany. cbn [negb]. by rewrite Hlo, Hany.
Qed.

(** Casting an IPv4 address to IPv6 gives a mapped address with the same IPv4 bytes and port, of
    the same class (loopback, any), and casting it back gives the original; the class of an IPv4
    address is that of its bytes. *)
Theorem family_cast_roundtrip a p :
  length a = 4 -> is_bytes a ->
  let s := sa_of_bytes a p in let m := socket_family_cast AF_INET6 s in
  is_ipv4_mapped m = true /\ is_ipv4 m = true /\ is_ipv6 m = true /\ addr_unmapped m = a /\ port m = p /\
  socket_family_cast AF_INET m = s /\ socket_family_cast AF_INET6 m = m /\ socket_family_cast AF_INET s = s /\
  is_loopback m = bool_decide (head a = Some 127%Z) /\ is_loopback s = bool_decide (head a = Some 127%Z) /\
  is_any m = bool_decide (a = [0; 0; 0; 0]%Z) /\ is_any s = bool_decide (a = [0; 0; 0; 0]%Z).
Proof.
  intros Ha Hb s m. destruct (fields4 a p Ha) as (Hf & _ & _ & _ & _). fold s in Hf.
  destruct (mapped_class a p Ha Hb) as (Em & Hlo6 & Hany6). fold s m in Em, Hlo6, Hany6.
  destruct (mapped_storage a p Ha) as (Hm & _ & Hu & Hmp & Hback). rewrite <- Em in Hm, Hu, Hmp, Hback. fold s in Hback.
  destruct (fields6 (IPV4_MAPPED_PREFIX ++ a) p) as (Hf6 & _); [by rewrite length_app, Ha|]. rewrite <- Em in Hf6.
  destruct (class4 a p Ha Hb) as [Hlo Hany]. fold s in Hlo, Hany.
  unfold is_ipv4, is_ipv6, socket_family_cast, to_ipv4_mapped. change (AF_INET6 =? AF_INET)%Z with false.
  change (AF_INET6 =? AF_INET6)%Z with true. change (AF_INET =? AF_INET)%Z with true. cbv iota.
  rewrite Hm, Hf6, Hu, Hmp, Hback, Hlo, Hany, Hlo6, Hany6. repeat (split; [done|]).
  split; [unfold to_ipv4_unmapped; by rewrite Hf|done].
Qed.

Lemma family_cast_roundtrip_witness :
  let m := socket_family_cast AF_INET6 local4 in is_loopback m = true /\ socket_family_cast AF_INET m = local4.
Proof.
  destruct (family_cast_roundtrip [127; 0; 0; 1]%Z 53) as (_ & _ & _ & _ & _ & Hb & _ & _ & Hl & _);
    [done|by apply (bool_decide_eq_true (is_bytes _))|].
  split; [exact Hl|exact Hb].
Defined.

(** ** Text *)

(** An address of the network: IPv4, or IPv6 with the four bytes of its scope, which are zero when it has none. *)
Inductive Peer := Peer4 (a : bytes) | Peer6 (a scope : bytes).

Definition no_scope : bytes := replicate 4 0%Z.

Definition peer_ok (peer : Peer) : Prop :=
  match peer with Peer4 a => length a = 4 | Peer6 a scope => length a = 16 /\ length scope = 4 end.

(** Its [sockaddr_in], or its [sockaddr_in6] without a flow label, as the system gives it. *)
Definition sockaddr (peer : Peer) (p : Z) : bytes :=
  match peer with
  | Peer4 a => [2; 0; p / 256; p mod 256]%Z ++ a ++ replicate 8 0%Z
  | Peer6 a scope => [10; 0; p / 256; p mod 256; 0; 0; 0; 0]%Z ++ a ++ scope
  end.

(** What the C library documents of the text of one address: [getnameinfo] writes the numeric form, colons tell the
    families apart, and the form is read back by [inet_pton] for its own family only, or with a scope, which
    [inet_pton] refuses, by [getaddrinfo], which leaves the port zero. *)
Definition numeric_text (pton4 pton6 gai host : bytes -> option bytes) (peer : Peer) (p : Z) (text : bytes) : Prop :=
  host (sockaddr peer p) = Some text /\
  length text < INET6_ADDRSTRLEN /\ Forall (fun c => c <> 0%Z /\ is_bracket c = false) text /\
  match peer with
  | Peer4 a => pton4 text = Some a /\ chr ":" ∉ text
  | Peer6 a scope =>
      pton4 text = None /\ chr ":" ∈ text /\
      if decide (scope = no_scope) then pton6 text = Some a
      else pton6 text = None /\ gai text = Some (sockaddr peer 0)
  end.

Lemma c_string_id s : Forall (fun c => c <> 0%Z /\ is_bracket c = false) s -> c_string s = s.
Proof.
  unfold c_string. induction 1 as [|c s [Hc _] _ IH]; [done|]. cbn [take_while].
  rewrite (proj2 (Z.eqb_neq _ _) Hc). cbn [negb]. by rewrite IH.
Qed.

Lemma digits_no_colon p : (0 <= p)%Z -> chr ":" ∉ fmt_dec p.
Proof.
  intros Hp Hin. destruct (fmt_dec_digits p Hp) as [Hd _]. rewrite Forall_forall in Hd. by specialize (Hd _ Hin).
Qed.

Lemma held4 a p : length a = 4 -> sa_of_sockaddr (Some (sockaddr (Peer4 a) p)) = sa_of_bytes a p.
Proof. intros Ha. rewrite storage4 by done. by destruct a as [|? [|? [|? [|? [|? ?]]]]]. Qed.

Lemma held6 a scope p :
  length a = 16 -> length scope = 4 -> sa_of_sockaddr (Some (sockaddr (Peer6 a scope) p)) = sockaddr (Peer6 a scope) p.
Proof.
  intros Ha Hs. do 16 (destruct a as [|? a]; [done|]). destruct a; [|done].
  by destruct scope as [|? [|? [|? [|? [|? ?]]]]].
Qed.

Lemma held6_bytes a p : length a = 16 -> sockaddr (Peer6 a no_scope) p = sa_of_bytes a p.
Proof. intros Ha. by rewrite storage6. Qed.

(** The fields of a held address. *)
Lemma held_fields peer p :
  peer_ok peer ->
  let s := sa_of_sockaddr (Some (sockaddr peer p)) in
  sa_family s = match peer with Peer4 _ => AF_INET | Peer6 _ _ => AF_INET6 end /\ port s = p /\
  take (c_socklen s) s = sockaddr peer p.
Proof.
  destruct peer as [a|a scope]; intros Hok s.
  - unfold s. rewrite held4 by done. destruct (fields4 a p Hok) as (Hf & _ & _ & Hp & Hl). split; [done|]. split; [done|].
    rewrite Hl, storage4 by done. by destruct a as [|? [|? [|? [|? [|? ?]]]]].
  - destruct Hok as [Ha Hs]. unfold s. rewrite held6 by done. do 16 (destruct a as [|? a]; [done|]). destruct a; [|done].
    destruct scope as [|? [|? [|? [|? [|? ?]]]]]; try done. split; [done|]. split; [apply port_bytes|done].
Qed.

(** [getaddrinfo] gives the address with the port zero, and the port is written into it. *)
Lemma port_written a scope p :
  length a = 16 -> length scope = 4 ->
  write_at PORT_OFFSET (htons_bytes p) (write_at 0 (sockaddr (Peer6 a scope) 0) ss_zero) = sockaddr (Peer6 a scope) p.
Proof.
  intros Ha Hs. do 16 (destruct a as [|? a]; [done|]). destruct a; [|done].
  by destruct scope as [|? [|? [|? [|? [|? ?]]]]].
Qed.

(** C38: Parsing the text of an address with its port gives the address back: for an IPv4 address, an IPv6 address
    and an IPv6 address with a scope, as the system gave it in a [sockaddr] without a flow label, and whose numeric
    text, shorter than the buffers of the code, the C library writes and reads back as documented.  Without a scope
    it is the address constructed from the bytes. *)
Theorem sockaddr_text_roundtrip pton4 pton6 gai host loc peer p text :
  peer_ok peer -> (0 <= p < 65536)%Z -> numeric_text pton4 pton6 gai host peer p text ->
  let s := sa_of_sockaddr (Some (sockaddr peer p)) in
  sa_of_string pton4 pton6 gai loc (sa_str host s) = s /\
  match peer with Peer4 a => s = sa_of_bytes a p | Peer6 a scope => scope = no_scope -> s = sa_of_bytes a p end.
Proof.
  intros Hok Hp (Hhost & Hl & Hchars & Hpton) s. destruct (held_fields peer p Hok) as (Hf & Hpt & Htake). fold s in Hf, Hpt, Htake.
  assert (match peer with Peer4 a => s = sa_of_bytes a p | Peer6 a scope => scope = no_scope -> s = sa_of_bytes a p end) as Hs.
  { unfold s. destruct peer as [a|a scope]; [by apply held4|]. intros ->. destruct Hok. by rewrite held6, held6_bytes. }
  split; [|exact Hs].
  assert (joinable text (fmt_dec p)) as Hj.
  { assert (plain_host text) as Hpl.
    { rewrite Forall_forall in Hchars. split; intros Hin; by destruct (Hchars _ Hin) as [_ ?]. }
    split; [done|]. right. apply digits_no_colon. lia. }
  assert (sa_str host s = join_host_port text (fmt_dec p)) as ->.
  { unfold sa_str, host_str, join_host_port. rewrite Htake, Hhost, Hpt. cbn [default]. unfold c_socklen. rewrite Hf.
    destruct peer as [a|a scope].
    - by rewrite (proj2 (find_eqb_None _ _) (proj2 Hpton)).
    - destruct Hpton as (_ & Hc & _). destruct (find_index (Z.eqb (chr ":")) text) eqn:E; [|by apply find_eqb_None in E].
      change ((AF_INET6 =? AF_INET6)%Z && true) with true. change (AF_INET6 =? AF_INET6)%Z with true. change (SIZEOF_IN6 =? 0) with false.
      cbv iota. unfold id. by rewrite <- !app_assoc. }
  unfold sa_of_string. rewrite split_join by (done || intros [=]). rewrite fmt_dec_to_integer by lia.
  rewrite bool_decide_false by done. cbn [andb default]. unfold sa_of_host_port, make_sockaddr_storage_str.
  rewrite (proj2 (Nat.ltb_ge _ _)) by (unfold INET6_ADDRSTRLEN in *; lia). rewrite c_string_id by done.
  destruct peer as [a|a scope]; [by destruct Hpton as [-> _]|]. destruct Hpton as (-> & _ & Hpton).
  destruct (decide (scope = no_scope)) as [E|_]; [rewrite Hpton; symmetry; by apply Hs|]. destruct Hpton as [-> ->].
  assert (forallb (fun c => negb (is_bracket c)) text = true) as ->.
  { apply forallb_forall. intros c Hc. rewrite Forall_forall in Hchars. destruct (Hchars c) as [_ ->]; [by apply list_elem_of_In|done]. }
  destruct Hok as [Ha Hsc]. unfold s. by rewrite port_written, held6.
Qed.

Lemma sockaddr_text_roundtrip_witness :
  let fe80 : bytes := [0xfe; 0x80]%Z ++ replicate 13 0%Z ++ [1%Z] in
  let scoped := Peer6 fe80 [23; 0; 0; 0]%Z in
  let pton4 t := if bool_decide (t = str "127.0.0.1") then Some [127; 0; 0; 1]%Z else None in
  let pton6 t := if bool_decide (t = str "::1") then Some in6addr_loopback else None in
  let gai t := if bool_decide (t = str "fe80::1%23") then Some (sockaddr scoped 0) else None in
  let host ss := if length ss =? 16 then Some (str "127.0.0.1") else
    if bool_decide (drop 24 ss = no_scope) then Some (str "::1") else Some (str "fe80::1%23") in
  let loc := MkLocation [] 0 in
  let link := sa_of_sockaddr (Some (sockaddr scoped 53)) in
  sa_str host local6 = str "[::1]:53" /\ sa_str host link = str "[fe80::1%23]:53" /\
  sa_of_string pton4 pton6 gai loc (sa_str host link) = link /\
  sa_of_string pton4 pton6 gai loc (sa_str host local6) = local6 /\
  sa_of_string pton4 pton6 gai loc (sa_str host local4) = local4.
Proof.
  intros fe80 scoped pton4 pton6 gai host loc link. split; [by vm_compute|]. split; [by vm_compute|]. split; [|split].
  - refine (proj1 (sockaddr_text_roundtrip pton4 pton6 gai host loc scoped 53 (str "fe80::1%23") _ _ _)); [done|done|].
    split; [done|]. split; [by apply Nat.ltb_lt|]. split; [by repeat constructor|].
    split; [done|]. split; [by apply (bool_decide_eq_true (_ ∈ _))|]. done.
  - refine (proj1 (sockaddr_text_roundtrip pton4 pton6 gai host loc (Peer6 in6addr_loopback no_scope) 53 (str "::1") _ _ _)); [done|done|].
    split; [done|]. split; [by apply Nat.ltb_lt|]. split; [by repeat constructor|].
    split; [done|]. split; [by left|]. done.
  - refine (proj1 (sockaddr_text_roundtrip pton4 pton6 gai host loc (Peer4 [127; 0; 0; 1]%Z) 53 (str "127.0.0.1") _ _ _)); [done|done|].
    split; [done|]. split; [by apply Nat.ltb_lt|]. split; [by repeat constructor|].
    split; [done|]. by apply (bool_decide_eq_true (_ ∉ _)).
Defined.
