(* ===== verification/Wide.v ===== *)
(** * Wide strings and small conversions: [common/utils.cpp] and [utils.h]

    A wide string is its list of code units.  The converter of the standard library, [codecvt_utf8<wchar_t>], maps
    each UTF-8 character to one unit: with units of 32 bits every character has one, with units of 16 bits, on
    Windows, only those of the basic plane have.  Text that cannot be converted is an exception ([None]). *)

From S2P Require Import StringView Utils SocketAddress Cesu8.

Open Scope Z_scope.

(** The last character that a unit of [w] bits can be. *)
Definition maxcode (w : Z) : Z := Z.min 0x10ffff (2 ^ w - 1).

Definition surrogate (u : Z) : bool := (0xd800 <=? u) && (u <=? 0xdfff).

(** Characters the converter knows. *)
Definition convertible (w u : Z) : bool := (0 <=? u) && (u <=? maxcode w) && negb (surrogate u).

Definition cont (c : Z) : bool := (0x80 <=? c) && (c <=? 0xbf).

(** The converter from bytes: a shortest form of a character it knows, then the rest. *)
Fixpoint from_bytes (w : Z) (s : bytes) : option (list Z) :=
  match s with
  | [] => Some []
  | b0 :: s1 =>
      if b0 <? 0x80 then (b0 ::.) <$> from_bytes w s1
      else
        match s1 with
        | [] => None
        | b1 :: s2 =>
            if b0 <? 0xe0 then
              let u := (b0 - 0xc0) * 64 + (b1 - 0x80) in
              if cont b1 && (0x80 <=? u) && convertible w u then (u ::.) <$> from_bytes w s2 else None
            else
              match s2 with
              | [] => None
              | b2 :: s3 =>
                  if b0 <? 0xf0 then
                    let u := (b0 - 0xe0) * 4096 + (b1 - 0x80) * 64 + (b2 - 0x80) in
                    if cont b1 && cont b2 && (0x800 <=? u) && convertible w u then (u ::.) <$> from_bytes w s3 else None
                  else
                    match s3 with
                    | [] => None
                    | b3 :: s4 =>
                        let u := (b0 - 0xf0) * 262144 + (b1 - 0x80) * 4096 + (b2 - 0x80) * 64 + (b3 - 0x80) in
                        if cont b1 && cont b2 && cont b3 && (0x10000 <=? u) && convertible w u then (u ::.) <$> from_bytes w s4 else None
                    end
              end
        end
  end.

Fixpoint to_bytes (w : Z) (us : list Z) : option bytes :=
  match us with
  | [] => Some []
  | u :: us => if convertible w u then app (utf8_encode u) <$> to_bytes w us else None
  end.

(** [w] is the width of [wchar_t]. *)
Definition to_wstring (w : Z) (sv : bytes) : option (list Z) := from_bytes w sv.
Definition from_wstring (w : Z) (wsv : list Z) : option bytes := to_bytes w wsv.

(** ** Addresses as text *)

Section valid_ip.
Variable inet_pton4 inet_pton6 getaddrinfo : bytes -> option bytes.

Definition is_valid_ip4 (s : bytes) : bool :=
  let a := sa_of_host_port inet_pton4 inet_pton6 getaddrinfo s 0 in sa_valid a && (sa_family a =? AF_INET).

Definition is_valid_ip6 (s : bytes) : bool :=
  let a := sa_of_host_port inet_pton4 inet_pton6 getaddrinfo s 0 in sa_valid a && (sa_family a =? AF_INET6).
End valid_ip.

(** ** Containers *)

Section containers.
Context {A : Type}.

(** The parts of one call, each appended to the result. *)
Definition concat_parts (parts : list (list A)) : list A := fold_left (fun result p => result ++ p) parts [].

(** The address of the first element: there has to be one. *)
Definition data_from_begin (value : list A) : option nat := match value with [] => None | _ => Some 0%nat end.

(** The view of a container, from its first element on; taking the address of the first element of an empty one
    is not defined. *)
Definition make_string_view (value : list A) : option (list A) :=
  from ← data_from_begin value; Some (take (length value) (drop from value)).

(** An array of [S] elements from a pointer; reading behind them is not defined. *)
Definition to_array (S : nat) (value : list A) : option (list A) := if (length value <? S)%nat then None else Some (take S value).

Definition make_optional_if (condition : bool) (value : A) : option A := if condition then Some value else None.

Lemma concat_parts_spec parts : concat_parts parts = List.concat parts.
Proof.
  unfold concat_parts. rewrite <- (app_nil_l (List.concat parts)). generalize (@nil A).
  induction parts as [|p parts IH]; intros r; cbn [fold_left List.concat]; [by rewrite app_nil_r|]. by rewrite IH, <- app_assoc.
Qed.

(** The view is the container, when that is not empty, and has no value otherwise. *)
Lemma make_string_view_spec value : make_string_view value = if (length value =? 0)%nat then None else Some value.
Proof. destruct value as [|a value]; [done|]. change (Some (take (length (a :: value)) (a :: value)) = Some (a :: value)). by rewrite firstn_all. Qed.
End containers.

(** ** Facts *)

Lemma convertible_bounds w u : convertible w u = true -> 0 <= u <= 0x10ffff.
Proof. unfold maxcode, convertible. rewrite !andb_true_iff, !Z.leb_le. unfold maxcode. lia. Qed.

Lemma cont_mod x : cont (0x80 + x mod 64) = true.
Proof. unfold cont. rewrite andb_true_iff, !Z.leb_le. pose proof (Z.mod_pos_bound x 64). lia. Qed.

Lemma from_bytes_encode w u s : convertible w u = true -> from_bytes w (utf8_encode u ++ s) = (u ::.) <$> from_bytes w s.
Proof.
  intros Hc. pose proof (convertible_bounds w u Hc) as Hu. unfold utf8_encode.
  destruct (Z.ltb_spec u 0x80); [cbn [app from_bytes]; by rewrite (proj2 (Z.ltb_lt u 0x80))|].
  destruct (Z.ltb_spec u 0x800); [|destruct (Z.ltb_spec u 0x10000)];
    unfold utf8_2, utf8_3, utf8_4; cbn [app from_bytes]; rewrite (proj2 (Z.ltb_ge _ 0x80)) by (Z.to_euclidean_division_equations; lia).
  - rewrite (proj2 (Z.ltb_lt _ 0xe0)) by (Z.to_euclidean_division_equations; lia).
    replace ((0xc0 + u / 64 - 0xc0) * 64 + (0x80 + u mod 64 - 0x80)) with u by (Z.to_euclidean_division_equations; lia).
    cbv zeta. by rewrite cont_mod, Hc, (proj2 (Z.leb_le 0x80 u)).
  - rewrite (proj2 (Z.ltb_ge _ 0xe0)), (proj2 (Z.ltb_lt _ 0xf0)) by (Z.to_euclidean_division_equations; lia).
    replace ((0xe0 + u / 4096 - 0xe0) * 4096 + (0x80 + u / 64 mod 64 - 0x80) * 64 + (0x80 + u mod 64 - 0x80)) with u
      by (Z.to_euclidean_division_equations; lia).
    cbv zeta. by rewrite !cont_mod, Hc, (proj2 (Z.leb_le 0x800 u)).
  - rewrite (proj2 (Z.ltb_ge _ 0xe0)), (proj2 (Z.ltb_ge _ 0xf0)) by (Z.to_euclidean_division_equations; lia).
    replace ((0xf0 + u / 262144 - 0xf0) * 262144 + (0x80 + u / 4096 mod 64 - 0x80) * 4096 + (0x80 + u / 64 mod 64 - 0x80) * 64 +
             (0x80 + u mod 64 - 0x80)) with u by (Z.to_euclidean_division_equations; lia).
    cbv zeta. by rewrite !cont_mod, Hc, (proj2 (Z.leb_le 0x10000 u)).
Qed.

(** The bytes of one character, put together from their parts. *)
Lemma encode_parts (b0 b1 b2 b3 : Z) :
  cont b1 = true -> cont b2 = true -> cont b3 = true ->
  (let u := (b0 - 0xc0) * 64 + (b1 - 0x80) in 0xc0 <= b0 < 0xe0 -> 0x80 <= u -> utf8_encode u = [b0; b1]) /\
  (let u := (b0 - 0xe0) * 4096 + (b1 - 0x80) * 64 + (b2 - 0x80) in 0xe0 <= b0 < 0xf0 -> 0x800 <= u -> utf8_encode u = [b0; b1; b2]) /\
  (let u := (b0 - 0xf0) * 262144 + (b1 - 0x80) * 4096 + (b2 - 0x80) * 64 + (b3 - 0x80) in
   0xf0 <= b0 -> 0x10000 <= u -> utf8_encode u = [b0; b1; b2; b3]).
Proof.
  unfold cont. rewrite !andb_true_iff, !Z.leb_le. intros H1 H2 H3.
  cbv zeta. split_and!; intros Hb Hu;
    match goal with |- utf8_encode ?x = _ => remember x as u eqn:Eu end; unfold utf8_encode, utf8_2, utf8_3, utf8_4; rewrite (proj2 (Z.ltb_ge u 0x80)) by lia.
  - rewrite (proj2 (Z.ltb_lt u 0x800)) by lia. repeat f_equal; Z.to_euclidean_division_equations; lia.
  - rewrite (proj2 (Z.ltb_ge u 0x800)), (proj2 (Z.ltb_lt u 0x10000)) by lia. repeat f_equal; Z.to_euclidean_division_equations; lia.
  - rewrite (proj2 (Z.ltb_ge u 0x800)), (proj2 (Z.ltb_ge u 0x10000)) by lia. repeat f_equal; Z.to_euclidean_division_equations; lia.
Qed.

Lemma map_cons_some (u : Z) (r : option (list Z)) us : (u ::.) <$> r = Some us -> exists us', us = u :: us' /\ r = Some us'.
Proof. destruct r as [us'|]; [|done]. intros [= <-]. by eexists. Qed.

Lemma to_bytes_cons w u us p s : convertible w u = true -> utf8_encode u = p -> to_bytes w us = Some s -> to_bytes w (u :: us) = Some (p ++ s).
Proof. intros Hc <- Hs. cbn [to_bytes]. by rewrite Hc, Hs. Qed.

(** A conversion that did not fail can be undone: the two functions are inverse to each other. *)
Lemma to_bytes_inverse w us s : to_bytes w us = Some s -> from_bytes w s = Some us.
Proof.
  revert s. induction us as [|u us IH]; intros s Hs; cbn [to_bytes] in Hs; [by injection Hs as <-|].
  destruct (convertible w u) eqn:Hc; [|done]. destruct (to_bytes w us) as [s'|] eqn:E; [|done]. injection Hs as <-.
  by rewrite from_bytes_encode, (IH s' eq_refl).
Qed.

Lemma from_bytes_inverse w s us : 7 <= w -> is_bytes s -> from_bytes w s = Some us -> to_bytes w us = Some s.
Proof.
  intros Hw. revert us. induction s as [s IH] using (induction_ltof1 _ (@length Z)). unfold ltof in IH. intros us Hb Hs.
  destruct s as [|b0 s]; cbn [from_bytes] in Hs; [by injection Hs as <-|].
  apply Forall_cons in Hb as [Hb0 Hb]. destruct (Z.ltb_spec b0 0x80) as [H0|H0].
  { apply map_cons_some in Hs as (us' & -> & Hs). change (b0 :: s) with ([b0] ++ s).
    assert (2 ^ 7 <= 2 ^ w) by (apply Z.pow_le_mono_r; lia).
    apply to_bytes_cons; [unfold is_byte, convertible, surrogate, maxcode in *; change (2 ^ 7) with 128 in *; lia| |].
    - unfold utf8_encode. by rewrite (proj2 (Z.ltb_lt b0 0x80)).
    - apply IH; [cbn; lia|done|done]. }
  destruct s as [|b1 s]; [done|]. apply Forall_cons in Hb as [Hb1 Hb]. destruct (Z.ltb_spec b0 0xe0) as [H1|H1]; cbv zeta in Hs.
  { destruct (cont b1) eqn:C1; [|done]. destruct (Z.leb_spec 0x80 ((b0 - 192) * 64 + (b1 - 128))); [|done]. cbn [andb] in Hs.
    destruct (convertible w _) eqn:Hc; [|done]. apply map_cons_some in Hs as (us' & -> & Hs). change (b0 :: b1 :: s) with ([b0; b1] ++ s).
    apply to_bytes_cons; [done| |apply IH; [cbn; lia|done|done]].
    apply (encode_parts b0 b1 b1 b1 C1 C1 C1); [|done]. unfold cont in C1. lia. }
  destruct s as [|b2 s]; [done|]. apply Forall_cons in Hb as [Hb2 Hb]. destruct (Z.ltb_spec b0 0xf0) as [H2|H2].
  { destruct (cont b1) eqn:C1; [|done]. destruct (cont b2) eqn:C2; [|done]. destruct (Z.leb_spec 0x800 ((b0 - 224) * 4096 + (b1 - 128) * 64 + (b2 - 128))); [|done].
    cbn [andb] in Hs. destruct (convertible w _) eqn:Hc; [|done]. apply map_cons_some in Hs as (us' & -> & Hs).
    change (b0 :: b1 :: b2 :: s) with ([b0; b1; b2] ++ s).
    apply to_bytes_cons; [done| |apply IH; [cbn; lia|done|done]]. by apply (encode_parts b0 b1 b2 b2 C1 C2 C2). }
  destruct s as [|b3 s]; [done|]. apply Forall_cons in Hb as [Hb3 Hb].
  destruct (cont b1) eqn:C1; [|done]. destruct (cont b2) eqn:C2; [|done]. destruct (cont b3) eqn:C3; [|done].
  destruct (Z.leb_spec 0x10000 ((b0 - 240) * 262144 + (b1 - 128) * 4096 + (b2 - 128) * 64 + (b3 - 128))); [|done].
  cbn [andb] in Hs. destruct (convertible w _) eqn:Hc; [|done]. apply map_cons_some in Hs as (us' & -> & Hs).
  change (b0 :: b1 :: b2 :: b3 :: s) with ([b0; b1; b2; b3] ++ s).
  apply to_bytes_cons; [done| |apply IH; [cbn; lia|done|done]]. by apply (encode_parts b0 b1 b2 b3 C1 C2 C3).
Qed.

(** Text that converts to a wide string converts back to the same bytes, and a wide string that converts to
    bytes converts back to the same units, on every platform. *)
Theorem wide_roundtrip w s us : 7 <= w -> is_bytes s -> (to_wstring w s = Some us <-> from_wstring w us = Some s).
Proof. intros Hw Hb. split; [by apply from_bytes_inverse|apply to_bytes_inverse]. Qed.

Lemma wide_roundtrip_witness : to_wstring 32 [0xe2; 0x82; 0xac; 0x41] = Some [0x20ac; 0x41] <-> from_wstring 32 [0x20ac; 0x41] = Some [0xe2; 0x82; 0xac; 0x41].
Proof. apply wide_roundtrip; [lia|by repeat constructor]. Defined.

(** Text with a character above the basic plane is text everywhere but on Windows, where the conversion throws. *)
Lemma supplementary_throws u : 0x10000 <= u <= 0x10ffff -> to_wstring 32 (utf8_encode u) = Some [u] /\ to_wstring 16 (utf8_encode u) = None.
Proof.
  intros Hu. assert (H32 : convertible 32 u = true).
  { unfold convertible, surrogate. rewrite !andb_true_iff, negb_true_iff, andb_false_iff, !Z.leb_le, Z.leb_gt. change (maxcode 32) with 0x10ffff. lia. }
  assert (H16 : convertible 16 u = false).
  { unfold convertible. change (maxcode 16) with 0xffff. rewrite (proj2 (Z.leb_gt u 0xffff)) by lia. by rewrite andb_false_r. }
  unfold to_wstring. split; [rewrite <- (app_nil_r (utf8_encode u)); by rewrite from_bytes_encode|].
  pose proof (from_bytes_encode 32 u [] H32) as H. destruct (from_bytes 16 (utf8_encode u)) as [us|] eqn:E; [|done].
  assert (Hb : is_bytes (utf8_encode u)).
  { unfold utf8_encode. rewrite (proj2 (Z.ltb_ge u 0x80)), (proj2 (Z.ltb_ge u 0x800)), (proj2 (Z.ltb_ge u 0x10000)) by lia.
    repeat constructor; Z.to_euclidean_division_equations; lia. }
  apply from_bytes_inverse in E; [|lia|done]. destruct us as [|v us]; [by unfold utf8_encode in E; repeat case_match|].
  cbn [to_bytes] in E. destruct (convertible 16 v) eqn:Hv; [|done]. destruct (to_bytes 16 us) as [t|] eqn:Et; [|done]. injection E as E.
  rewrite app_nil_r, <- E in H. assert (Hv32 : convertible 32 v = true).
  { revert Hv. unfold convertible, surrogate. change (maxcode 16) with 0xffff. change (maxcode 32) with 0x10ffff. lia. }
  rewrite from_bytes_encode in H by done. apply map_cons_some in H as (us' & [= -> _] & _). congruence.
Qed.

(** ** Valid addresses *)

Section valid_ip_facts.
Variable pton4 pton6 gai : bytes -> option bytes.
(** The functions of the system give addresses of their family. *)
Hypothesis pton4_size : forall s ip, pton4 s = Some ip -> length ip = IPV4_SIZE.
Hypothesis pton6_size : forall s ip, pton6 s = Some ip -> length ip = IPV6_SIZE.
Hypothesis gai_family : forall s a, gai s = Some a -> sa_family (write_at PORT_OFFSET (htons_bytes 0) (write_at 0 a ss_zero)) = AF_INET6.

(** A text is an IPv4 address when [inet_pton] says so of its part before a zero, and never an IPv6 address too. *)
Theorem valid_ip4_iff s :
  is_valid_ip4 pton4 pton6 gai s = ((length s <=? 45)%nat && bool_decide (is_Some (pton4 (c_string s)))) /\
  is_valid_ip4 pton4 pton6 gai s && is_valid_ip6 pton4 pton6 gai s = false.
Proof.
  assert (Hfam : forall a, sa_valid a && (sa_family a =? AF_INET) = (sa_family a =? AF_INET)).
  { intros a. unfold sa_valid. destruct (Z.eqb_spec (sa_family a) AF_INET) as [->|]; [done|by rewrite andb_false_r]. }
  split.
  - unfold is_valid_ip4. cbv zeta. rewrite Hfam. unfold sa_of_host_port, make_sockaddr_storage_str. change (INET6_ADDRSTRLEN - 1)%nat with 45%nat.
    destruct (Nat.leb_spec (length s) 45) as [Hl|Hl]; [rewrite (proj2 (Nat.ltb_ge 45 _)) by done|by rewrite (proj2 (Nat.ltb_lt 45 _))].
    destruct (pton4 (c_string s)) as [ip|] eqn:E4.
    { rewrite bool_decide_true by done. fold (sa_of_bytes ip 0). destruct (fields4 ip 0 (pton4_size _ _ E4)) as [-> _]; done. }
    rewrite bool_decide_false by (by intros [? ?]). cbn [andb]. destruct (pton6 (c_string s)) as [ip|] eqn:E6.
    { fold (sa_of_bytes ip 0). destruct (fields6 ip 0 (pton6_size _ _ E6)) as [-> _]; done. }
    destruct (forallb _ s); [|done]. destruct (gai (c_string s)) as [a|] eqn:Eg; [|done]. by rewrite (gai_family _ _ Eg).
  - unfold is_valid_ip4, is_valid_ip6. cbv zeta. destruct (sa_valid _); [|done]. cbn [andb].
    destruct (Z.eqb_spec (sa_family (sa_of_host_port pton4 pton6 gai s 0)) AF_INET) as [->|]; done.
Qed.
End valid_ip_facts.
