(* ===== verification/SystemDns.v ===== *)
(** * Address texts and system DNS servers: the rest of [common/net_utils.cpp]

    [str_to_socket_address], which reads a port with [strtoll], and the two forms of
    [retrieve_system_dns_servers] for Linux: over the resolver state of glibc and over the lines of
    [/etc/resolv.conf]. *)

From S2P Require Import StringView Utils Error NetUtils SocketAddress.

(** ** [strtoll] in base ten: the value, kept within 64 bits, and what was not read *)

Definition LLONG_MIN : Z := - 2 ^ 63.
Definition LLONG_MAX : Z := 2 ^ 63 - 1.

Definition strtoll (s : bytes) : Z * bytes :=
  let s1 := drop_while isspace s in
  let '(neg, s2) :=
    match s1 with
    | c :: r => if (c =? chr "-")%Z then (true, r) else if (c =? chr "+")%Z then (false, r) else (false, s1)
    | [] => (false, [])
    end in
  match s2 with
  | c :: _ =>
      if isdigit c then
        let '(v, rest) := read_digits 10 0 s2 in
        (Z.max LLONG_MIN (Z.min LLONG_MAX (if neg then - v else v)), rest)%Z
      else (0%Z, s)
  | [] => (0%Z, s)
  end.

Definition UINT16_MAX : Z := 65535.
Definition PLAIN_DNS_PORT_NUMBER : Z := 53.
Definition AG_UNFILTERED_DNS_IPS_V4 : list bytes := [str "46.243.231.30"; str "46.243.231.31"].
Definition AG_UNFILTERED_DNS_IPS_V6 : list bytes := [str "2a10:50c0::1:ff"; str "2a10:50c0::2:ff"].

Inductive RetrieveSystemDnsError := AE_INIT.
#[export] Instance dns_error_string : ErrorCodeToString RetrieveSystemDnsError := fun _ => str "res_ninit()".

Record SystemDnsServer := MkServer { address : bytes; resolved_host : option SocketAddress }.

Record SystemDnsServers := MkServers {
  main : list SystemDnsServer;
  fallback : list bytes;
  bootstrap : list bytes
}.

(** One entry of the resolver state: the IPv4 slot, and the IPv6 address of the extension, which the
    code looks at when the slot is not of family [AF_INET]. *)
Record res_server := MkRes { nsaddr : bytes; nsaddr6 : bytes }.

Section Lookup.
Context (inet_pton4 inet_pton6 : bytes -> option bytes).
Context (getaddrinfo : bytes -> option bytes).
Context (getnameinfo_host : bytes -> option bytes).
Context (loc : SourceLocation).

Abbreviation host_port := (sa_of_host_port inet_pton4 inet_pton6 getaddrinfo).

Definition str_to_socket_address (text : bytes) : SocketAddress :=
  match split_host_port loc text false false with
  | RError _ => ss_zero
  | RValue (host_view, port_view) =>
      if bool_decide (port_view = []) then host_port host_view 0%Z
      else
        let '(port, rest) := strtoll port_view in
        if negb (bool_decide (rest = [])) || (port <? 0)%Z || (UINT16_MAX <? port)%Z then ss_zero
        else host_port host_view port
  end.

Definition UNFILTERED_IPS : list SocketAddress :=
  map (fun ip => host_port ip PLAIN_DNS_PORT_NUMBER) (AG_UNFILTERED_DNS_IPS_V4 ++ AG_UNFILTERED_DNS_IPS_V6).

(** Whether a server may be used: a valid address that is not a potential route loop. *)
Definition potential_loop (a : SocketAddress) : bool :=
  is_loopback a || existsb (fun ip => sa_eqb ip a) UNFILTERED_IPS.

(** *** glibc: [res_ninit] answers [None] when it fails *)

Definition res_address (r : res_server) : SocketAddress :=
  if (sa_family (nsaddr r) =? AF_INET)%Z then sa_of_sockaddr (Some (nsaddr r))
  else if (sa_family (nsaddr6 r) =? AF_INET6)%Z then sa_of_sockaddr (Some (nsaddr6 r))
  else ss_zero.

Fixpoint glibc_loop (rs : list res_server) (servers : SystemDnsServers) : SystemDnsServers :=
  match rs with
  | [] => servers
  | r :: rs' =>
      let a := res_address r in
      if negb (sa_valid a) then glibc_loop rs' servers
      else if potential_loop a then glibc_loop rs' servers
      else glibc_loop rs' (MkServers (main servers ++ [MkServer (host_str getnameinfo_host false a) None])
                                     (fallback servers) (bootstrap servers))
  end.

Definition retrieve_system_dns_servers (res : option (list res_server)) : Result SystemDnsServers RetrieveSystemDnsError :=
  match res with
  | None => RError (make_error loc AE_INIT None)
  | Some rs => RValue (glibc_loop rs (MkServers [] [] []))
  end.

(** *** Other systems: the lines of [/etc/resolv.conf] *)

Definition NAMESERVER : bytes := str "nameserver".

Definition conf_text (line : bytes) : bytes :=
  let line_view := if has_prefix NAMESERVER line then drop (length NAMESERVER) line else line in
  let line_view := ltrim line_view in
  take (default (length line_view) (find_index isspace line_view)) line_view.

Fixpoint conf_loop (lines : list bytes) (servers : SystemDnsServers) : SystemDnsServers :=
  match lines with
  | [] => servers
  | line :: lines' =>
      let line_view := conf_text line in
      let a := host_port line_view PLAIN_DNS_PORT_NUMBER in
      if negb (sa_valid a) then conf_loop lines' servers
      else if potential_loop a then conf_loop lines' servers
      else conf_loop lines' (MkServers (main servers ++ [MkServer line_view None]) (fallback servers) (bootstrap servers))
  end.

Definition retrieve_from_conf (lines : list bytes) : SystemDnsServers := conf_loop lines (MkServers [] [] []).

(** ** The two readings of a port agree on digits *)

Lemma digits_read s acc :
  Forall (fun c => isdigit c = true) s -> (0 <= acc)%Z -> exists v, read_digits 10 acc s = (v, []) /\ (acc <= v)%Z.
Proof.
  intros Hs. revert acc. induction Hs as [|c s Hc _ IH]; intros acc Ha; cbn [read_digits]; [by exists acc|].
  unfold digit_val. rewrite Hc. unfold isdigit in Hc. rewrite (proj2 (Z.ltb_lt (c - 48) 10)) by lia.
  destruct (IH (acc * 10 + (c - 48))%Z) as (v & Hv & Hle); [lia|]. exists v. split; [done|lia].
Qed.

(** On a port of decimal digits, or none, reading an endpoint with [str_to_socket_address] gives
    what the constructor from a string gives: the address with this port when it fits 16 bits, an
    invalid address when it does not. *)
Theorem str_to_socket_address_agrees text h p :
  split_host_port loc text false false = RValue (h, p) -> Forall (fun c => isdigit c = true) p ->
  str_to_socket_address text = sa_of_string inet_pton4 inet_pton6 getaddrinfo loc text.
Proof.
  intros E Hd. unfold str_to_socket_address, sa_of_string. rewrite E.
  destruct p as [|c p]; [done|]. rewrite !bool_decide_false by done. cbn [negb]. rewrite andb_true_r.
  pose proof Hd as Hd'. inversion Hd' as [|? ? Hc _]; subst. destruct (digits_read (c :: p) 0 Hd ltac:(lia)) as (v & Hv & Hle).
  assert (strtoll (c :: p) = (Z.min LLONG_MAX v, [])) as ->.
  { assert (isspace c = false /\ (c =? chr "-")%Z = false /\ (c =? chr "+")%Z = false) as (H1 & H2 & H3)
      by (unfold isdigit, isspace in *; change (chr "-") with 45%Z; change (chr "+") with 43%Z; lia).
    unfold strtoll. cbn [drop_while]. rewrite H1, H2, H3, Hc, Hv. f_equal. unfold LLONG_MIN, LLONG_MAX. lia. }
  assert (to_integer false 16 10 (c :: p) = if (v <=? UINT16_MAX)%Z then Some v else None) as ->.
  { unfold to_integer, from_chars. cbn [andb]. unfold digit_val. rewrite Hc.
    pose proof Hc as Hc'. unfold isdigit in Hc'. rewrite (proj2 (Z.ltb_lt (c - 48) 10)) by lia.
    fold (digit_val 10 c). rewrite Hv. unfold int_min, int_max, UINT16_MAX. rewrite (proj2 (Z.leb_le 0 v)) by lia.
    change (2 ^ 16 - 1)%Z with 65535%Z. cbn [andb]. by destruct (v <=? 65535)%Z. }
  rewrite bool_decide_true by done. cbn [negb orb]. rewrite (proj2 (Z.ltb_ge _ _)) by (unfold LLONG_MAX; lia). cbn [orb].
  unfold UINT16_MAX, LLONG_MAX. destruct (Z.leb_spec v 65535).
  - rewrite (proj2 (Z.ltb_ge _ _)) by lia. by rewrite Z.min_r by lia.
  - by rewrite (proj2 (Z.ltb_lt _ _)) by lia.
Qed.

(** ** Which servers are kept *)

Definition usable (a : SocketAddress) : bool := sa_valid a && negb (potential_loop a).

Lemma glibc_loop_main rs servers :
  main (glibc_loop rs servers)
  = main servers ++ map (fun a => MkServer (host_str getnameinfo_host false a) None) (List.filter usable (map res_address rs)).
Proof.
  revert servers. induction rs as [|r rs IH]; intros servers; cbn; [by rewrite app_nil_r|].
  assert (usable (res_address r) = sa_valid (res_address r) && negb (potential_loop (res_address r))) as -> by done.
  destruct (sa_valid (res_address r)); cbn [negb andb]; [|apply IH].
  destruct (potential_loop (res_address r)); cbn [negb]; [apply IH|]. rewrite IH. cbn. by rewrite <- app_assoc.
Qed.

Lemma conf_loop_main lines servers :
  main (conf_loop lines servers)
  = main servers ++ map (fun t => MkServer t None)
      (List.filter (fun t => usable (host_port t PLAIN_DNS_PORT_NUMBER)) (map conf_text lines)).
Proof.
  revert servers. induction lines as [|l lines IH]; intros servers; cbn; [by rewrite app_nil_r|].
  set (a := host_port (conf_text l) PLAIN_DNS_PORT_NUMBER).
  assert (usable a = sa_valid a && negb (potential_loop a)) as -> by done.
  destruct (sa_valid a); cbn [negb andb]; [|apply IH]. destruct (potential_loop a); cbn [negb]; [apply IH|]. rewrite IH. cbn. by rewrite <- app_assoc.
Qed.

Lemma conf_text_nameserver ws text rest :
  Forall (fun c => isspace c = true) ws -> text <> [] -> Forall (fun c => isspace c = false) text ->
  (rest = [] \/ exists c r, rest = c :: r /\ isspace c = true) ->
  conf_text (NAMESERVER ++ ws ++ text ++ rest) = text.
Proof.
  intros Hws Hne Ht Hr. unfold conf_text. rewrite (proj2 (has_prefix_spec _ _)) by (by eexists).
  rewrite drop_app_length, ltrim_drop_while, drop_while_app_all by done.
  destruct text as [|c text]; [done|]. inversion Ht as [|? ? Hc _]; subst. cbn [app drop_while]. rewrite Hc.
  rewrite app_comm_cons. rewrite find_index_app, (proj2 (find_index_None _ _)) by done.
  destruct Hr as [-> | (x & r & -> & Hx)]; cbn [find_index].
  - cbn. by rewrite app_nil_r, firstn_all2 by lia.
  - rewrite Hx. cbn [fmap option_fmap option_map default]. unfold id. by rewrite Nat.add_0_r, take_app_length.
Qed.

(** The address of a server the resolver lists, by family. *)
Lemma loopback_bytes a p : length a = 4 -> is_bytes a -> head a = Some 127%Z -> potential_loop (sa_of_bytes a p) = true.
Proof. intros Ha Hb Hh. unfold potential_loop. destruct (class4 a p Ha Hb) as [-> _]. by rewrite bool_decide_true. Qed.

(** The servers that are returned are, in order and without loss, the numeric texts of the listed
    addresses that are valid, are not loopback and are not one of the unfiltered AdGuard servers; so
    no IPv4 server in 127.0.0.0/8 is ever returned, mapped into IPv6 or not. *)
Theorem system_dns_servers_usable rs :
  exists servers, retrieve_system_dns_servers (Some rs) = RValue servers /\
    main servers = map (fun a => MkServer (host_str getnameinfo_host false a) None) (List.filter usable (map res_address rs)) /\
    forall a p, length a = 4 -> is_bytes a -> head a = Some 127%Z ->
      usable (sa_of_bytes a p) = false /\ usable (socket_family_cast AF_INET6 (sa_of_bytes a p)) = false.
Proof.
  eexists. split; [done|]. split; [apply (glibc_loop_main rs (MkServers [] [] []))|].
  intros a p Ha Hb Hh. unfold usable. rewrite loopback_bytes by done. split; [apply andb_false_r|].
  unfold potential_loop. destruct (mapped_class a p Ha Hb) as (_ & -> & _). rewrite bool_decide_true by done. apply andb_false_r.
Qed.

(** Of the lines of [resolv.conf] exactly those are returned, in order, whose first word after
    [nameserver] is a usable address. *)
Theorem conf_servers_usable lines :
  main (retrieve_from_conf lines)
  = map (fun t => MkServer t None)
      (List.filter (fun t => usable (host_port t PLAIN_DNS_PORT_NUMBER)) (map conf_text lines)) /\
  forall ws text rest,
    Forall (fun c => isspace c = true) ws -> text <> [] -> Forall (fun c => isspace c = false) text ->
    (rest = [] \/ exists c r, rest = c :: r /\ isspace c = true) ->
    conf_text (NAMESERVER ++ ws ++ text ++ rest) = text.
Proof. split; [apply conf_loop_main|apply conf_text_nameserver]. Qed.
End Lookup.

Lemma str_to_socket_address_agrees_witness :
  let pton4 := fun t => if bool_decide (t = str "127.0.0.1") then Some [127; 0; 0; 1]%Z else None in
  let none := fun _ : bytes => @None bytes in
  let loc := MkLocation [] 0 in
  str_to_socket_address pton4 none none loc (str "127.0.0.1:53") = local4 /\
  sa_of_string pton4 none none loc (str "127.0.0.1:53") = local4.
Proof.
  intros pton4 none loc.
  rewrite <- (str_to_socket_address_agrees pton4 none none loc (str "127.0.0.1:53") (str "127.0.0.1") (str "53"));
    [by vm_compute|done|by repeat constructor].
Defined.

(** A port with a sign or white space before it is read by [strtoll] only. *)
Lemma signed_port_differs :
  let pton4 := fun t => if bool_decide (t = str "127.0.0.1") then Some [127; 0; 0; 1]%Z else None in
  let none := fun _ : bytes => @None bytes in
  let loc := MkLocation [] 0 in
  str_to_socket_address pton4 none none loc (str "127.0.0.1: +53") = local4 /\
  sa_of_string pton4 none none loc (str "127.0.0.1: +53") = ss_zero.
Proof. by vm_compute. Qed.
