(* ===== verification/Url.v ===== *)
(** * URL paths: [common/url.cpp] *)

From S2P Require Import StringView Utils.

Definition combine_path (l r : bytes) : bytes :=
  let l := if has_suffix (str "/") l then drop 1 l else l in
  let r := if has_prefix (str "/") r then drop 1 r else r in
  l ++ str "/" ++ r.

(** Where the segments begin: after the first slash behind [//], if there is one. *)
Definition start_index (path : bytes) : nat :=
  match find_sub (str "//") path with
  | Some protocol_index =>
      let idx_to_find := if length path <? protocol_index + 2 then length path else protocol_index + 2 in
      match find_index_from (Z.eqb (chr "/")) idx_to_find path with
      | Some segments_start_idx =>
          if length path <? segments_start_idx + 1 then length path else segments_start_idx + 1
      | None => 0
      end
  | None => 0
  end.

(** The loop over the characters; [segment] is the text in [segment_builder]. *)
Fixpoint normalize_loop (index : nat) (rest : bytes) (output : list bytes) (segment : bytes) : list bytes * bytes :=
  match rest with
  | [] => (output, segment)
  | current_char :: rest' =>
      if (current_char =? chr "?")%Z || (current_char =? chr "#")%Z then (output ++ [segment ++ rest], [])
      else if negb (current_char =? chr "/")%Z || (index =? 0) then
        normalize_loop (S index) rest' output (segment ++ [current_char])
      else if bool_decide (segment = str "..") || bool_decide (segment = str ".") || bool_decide (segment = str "/.") then
        normalize_loop (S index) rest' output [current_char]
      else if has_prefix (str "/..") segment then
        normalize_loop (S index) rest' (match output with [] => [] | _ => removelast output end) [current_char]
      else normalize_loop (S index) rest' (output ++ [segment]) [current_char]
  end.

Definition normalize_path (path : bytes) : bytes :=
  match path with
  | [] => path
  | _ =>
      match find_sub (str "./") path with
      | None => path
      | Some _ =>
          let start := start_index path in
          let '(output, segment) := normalize_loop start (drop start path) [] [] in
          let output := if bool_decide (segment = []) then output else output ++ [segment] in
          combine_path (take start path) (join output [])
      end
  end.

Example normalize_tests :
  normalize_path (str "../a/b/../c/./d.html") = str "/a/c/d.html" /\
  normalize_path (str "../a/b/../../a/./c/./d.html") = str "/a/c/d.html" /\
  normalize_path [] = [] /\ normalize_path (str "/a/b/c.d") = str "/a/b/c.d".
Proof. by vm_compute. Qed.

(** ** Against the resolution of dot segments *)

(** RFC 3986: [.] is dropped, [..] drops the segment before it. *)
Definition resolve_step (done_ : list bytes) (segment : bytes) : list bytes :=
  if bool_decide (segment = str ".") then done_
  else if bool_decide (segment = str "..") then removelast done_
  else done_ ++ [segment].

Definition resolve (segments : list bytes) : list bytes := fold_left resolve_step segments [].

(** The path with these segments: each behind a slash. *)
Definition path_of (segments : list bytes) : bytes := List.concat (map (fun s => str "/" ++ s) segments).

Definition path_char (c : Z) : Prop := c <> chr "/" /\ c <> chr "?" /\ c <> chr "#".

(** A segment that is a name, [.] or [..]; names that begin with two dots are left out. *)
Definition dir_segment (s : bytes) : Prop :=
  s <> [] /\ Forall path_char s /\ (has_prefix (str "..") s = true -> s = str "..").

#[export] Instance path_char_dec c : Decision (path_char c).
Proof. unfold path_char. apply _. Defined.

#[export] Instance dir_segment_dec s : Decision (dir_segment s).
Proof. unfold dir_segment. apply _. Defined.

Lemma path_char_tests c :
  path_char c -> ((c =? chr "?")%Z || (c =? chr "#")%Z = false) /\ (c =? chr "/")%Z = false.
Proof. intros (H1 & H2 & H3). by rewrite !(proj2 (Z.eqb_neq _ _)) by done. Qed.

Lemma loop_chars s index rest output segment :
  Forall path_char s ->
  normalize_loop index (s ++ rest) output segment = normalize_loop (index + length s) rest output (segment ++ s).
Proof.
  intros Hs. revert index segment. induction Hs as [|c s Hc _ IH]; intros index segment; cbn [app normalize_loop length].
  - by rewrite Nat.add_0_r, app_nil_r.
  - destruct (path_char_tests c Hc) as [-> ->]. cbn [negb orb]. rewrite IH, <- app_assoc. cbn [app]. f_equal. lia.
Qed.

Lemma slash_segment_cases s :
  dir_segment s ->
  (bool_decide (str "/" ++ s = str "..") || bool_decide (str "/" ++ s = str ".") || bool_decide (str "/" ++ s = str "/.")
   = bool_decide (s = str ".")) /\
  has_prefix (str "/..") (str "/" ++ s) = bool_decide (s = str "..").
Proof.
  intros (Hne & Hc & Hd). split.
  - rewrite !bool_decide_false by done. cbn [orb]. apply bool_decide_ext. split; [by intros [= ->]|by intros ->].
  - apply eq_true_iff_eq. rewrite bool_decide_eq_true, has_prefix_spec. split.
    + intros [t E]. injection E as E. apply Hd, has_prefix_spec. by exists t.
    + intros ->. by exists [].
Qed.

Abbreviation slashed := (map (fun s : bytes => str "/" ++ s)).

(** Directories, each with the slash that closes it. *)
Definition dirs_text (body : list bytes) : bytes := List.concat (map (fun s => s ++ str "/") body).

Lemma path_of_dirs body file : path_of (body ++ [file]) = str "/" ++ dirs_text body ++ file.
Proof.
  unfold path_of, dirs_text. induction body as [|s body IH]; cbn [app map List.concat]; [by rewrite app_nil_r|].
  rewrite IH, <- !app_assoc. done.
Qed.

Lemma removelast_map {A B} (f : A -> B) l : removelast (map f l) = map f (removelast l).
Proof. induction l as [|x [|y l] IH]; [done..|]. cbn [map removelast] in *. by rewrite IH. Qed.

(** One directory and its closing slash, as the resolution does it. *)
Lemma loop_dir s index rest done_ :
  dir_segment s -> 0 < index ->
  normalize_loop index ((s ++ str "/") ++ rest) (slashed done_) (str "/")
  = normalize_loop (S (index + length s)) rest (slashed (resolve_step done_ s)) (str "/").
Proof.
  intros Hs Hi. destruct (slash_segment_cases s Hs) as [H1 H2]. rewrite <- app_assoc.
  destruct Hs as (_ & Hc & _). rewrite loop_chars by done. change (str "/" ++ rest) with (chr "/" :: rest). cbn [normalize_loop].
  change ((chr "/" =? chr "?")%Z || (chr "/" =? chr "#")%Z) with false. change (negb (chr "/" =? chr "/")%Z) with false.
  cbn [orb]. rewrite (proj2 (Nat.eqb_neq _ _)) by lia.
  rewrite H1, H2. unfold resolve_step. destruct (bool_decide (s = str ".")); [done|].
  destruct (bool_decide (s = str "..")).
  - rewrite <- removelast_map. by destruct (slashed done_).
  - by rewrite map_app.
Qed.

Lemma loop_dirs body index rest done_ :
  Forall dir_segment body -> 0 < index ->
  exists index', 0 < index' /\
    normalize_loop index (dirs_text body ++ rest) (slashed done_) (str "/")
    = normalize_loop index' rest (slashed (fold_left resolve_step body done_)) (str "/").
Proof.
  intros Hb. revert index done_. induction Hb as [|s body Hs _ IH]; intros index done_ Hi; [by exists index|].
  unfold dirs_text. cbn [map List.concat]. rewrite <- app_assoc, loop_dir by done. apply IH. lia.
Qed.

(** ** No double slash *)

Lemma dslash_char c l : c <> chr "/" -> find_sub (str "//") (c :: l) = S <$> find_sub (str "//") l.
Proof.
  intros Hc. cbn [find_sub]. destruct (has_prefix (str "//") (c :: l)) eqn:E; [|done].
  apply has_prefix_spec in E as [t E]. by injection E.
Qed.

Lemma dslash_chars s l : Forall path_char s -> find_sub (str "//") l = None -> find_sub (str "//") (s ++ l) = None.
Proof.
  intros Hs Hl. induction Hs as [|c s Hc _ IH]; [done|]. cbn [app]. rewrite dslash_char by apply Hc. by rewrite IH.
Qed.

Lemma dslash_slash l : head l <> Some (chr "/") -> find_sub (str "//") l = None -> find_sub (str "//") (chr "/" :: l) = None.
Proof.
  intros Hh Hl. cbn [find_sub]. destruct (has_prefix (str "//") (chr "/" :: l)) eqn:E; [|by rewrite Hl].
  apply has_prefix_spec in E as [t E]. injection E as ->. done.
Qed.

Lemma no_double_slash body file :
  Forall dir_segment body -> Forall path_char file ->
  find_sub (str "//") (str "/" ++ dirs_text body ++ file) = None.
Proof.
  intros Hb Hf. assert (head file <> Some (chr "/")) as Hhf.
  { destruct Hf as [|c file Hc _]; [done|]. intros [= E]. by destruct Hc. }
  assert (find_sub (str "//") file = None) as Hff.
  { rewrite <- (app_nil_r file). by apply dslash_chars. }
  change (str "/" ++ ?x) with (chr "/" :: x).
  enough (head (dirs_text body ++ file) <> Some (chr "/") /\ find_sub (str "//") (dirs_text body ++ file) = None) as [? ?]
    by (by apply dslash_slash).
  induction Hb as [|s body (Hne & Hc & _) _ [IHh IHf]]; [done|]. unfold dirs_text. cbn [map List.concat].
  rewrite <- !app_assoc. split.
  - destruct Hc as [|c s Hc _]; [done|]. intros [= E]. by destruct Hc.
  - apply dslash_chars; [done|]. by apply dslash_slash.
Qed.

(** ** No dot segment without [./] in the text *)

Lemma dots_seen body file :
  find_sub (str "./") (str "/" ++ dirs_text body ++ file) = None ->
  Forall (fun s => s <> str "." /\ s <> str "..") body.
Proof.
  intros Hn. apply Forall_forall. intros s Hin. apply list_elem_of_split in Hin as (l1 & l2 & ->).
  unfold dirs_text in Hn. rewrite map_app, List.concat_app in Hn. cbn [map List.concat] in Hn.
  set (pre := str "/" ++ List.concat (map (fun s => s ++ str "/") l1)).
  set (post := List.concat (map (fun s => s ++ str "/") l2) ++ file).
  assert (str "/" ++ (List.concat (map (fun s => s ++ str "/") l1) ++ (s ++ str "/")
            ++ List.concat (map (fun s => s ++ str "/") l2)) ++ file = pre ++ s ++ str "/" ++ post) as E
    by (unfold pre, post; by rewrite <- !app_assoc).
  rewrite E in Hn. split; intros ->.
  - pose proof (find_sub_None _ _ (length pre) Hn) as Hp. rewrite drop_app_length in Hp.
    by rewrite (proj2 (has_prefix_spec _ _)) in Hp by (by eexists).
  - pose proof (find_sub_None _ _ (length pre + 1) Hn) as Hp. rewrite <- drop_drop, drop_app_length in Hp.
    by rewrite (proj2 (has_prefix_spec (str "./") _)) in Hp by (by eexists).
Qed.

Lemma resolve_plain body done_ :
  Forall (fun s => s <> str "." /\ s <> str "..") body -> fold_left resolve_step body done_ = done_ ++ body.
Proof.
  intros Hb. revert done_. induction Hb as [|s body [H1 H2] _ IH]; intros done_; cbn; [by rewrite app_nil_r|].
  unfold resolve_step at 2. rewrite !bool_decide_false by done. rewrite IH. by rewrite <- app_assoc.
Qed.

Lemma join_nil l : join l [] = List.concat l.
Proof. destruct l as [|p l]; [done|]. revert p. induction l as [|q l IH]; intros p; [cbn; by rewrite app_nil_r|]. rewrite join_cons, IH. done. Qed.

(** C39: Normalising an absolute path without a query or fragment resolves its dot segments as RFC 3986 does: every
    directory [.] is dropped and, with every directory [..], the directory before it, and the rest is kept.  The
    directories are not empty and none but [..] itself begins with two dots; the last segment, which may be empty,
    is a name and not [.] or [..], which the code leaves as they are. *)
Theorem normalize_path_resolves body file :
  Forall dir_segment body -> Forall path_char file -> file <> str "." -> file <> str ".." ->
  normalize_path (path_of (body ++ [file])) = path_of (resolve (body ++ [file])).
Proof.
  intros Hb Hf Hf1 Hf2. unfold resolve at 1. rewrite fold_left_app. cbn [fold_left].
  unfold resolve_step at 1. rewrite (bool_decide_false _ Hf1), (bool_decide_false _ Hf2). rewrite !path_of_dirs. unfold normalize_path, resolve.
  destruct (str "/" ++ dirs_text body ++ file) as [|c0 s0] eqn:E0; [done|]. rewrite <- E0. clear E0 c0 s0.
  destruct (find_sub (str "./") (str "/" ++ dirs_text body ++ file)) eqn:E.
  2:{ apply dots_seen in E. by rewrite (resolve_plain body [] E). }
  unfold start_index. rewrite no_double_slash by done. rewrite drop_0, take_0.
  change (normalize_loop 0 (str "/" ++ dirs_text body ++ file) [] [])
    with (normalize_loop 1 (dirs_text body ++ file) (slashed []) (str "/")).
  destruct (loop_dirs body 1 file [] Hb) as (index & Hi & ->); [lia|].
  rewrite <- (app_nil_r file) at 1. rewrite loop_chars by done. cbn [normalize_loop].
  rewrite bool_decide_false by done. rewrite join_nil, List.concat_app. cbn [List.concat]. rewrite app_nil_r.
  set (r := fold_left resolve_step body []). rewrite <- path_of_dirs. unfold path_of. rewrite map_app, List.concat_app.
  cbn [map List.concat]. rewrite app_nil_r. unfold combine_path.
  assert (exists t, List.concat (slashed r) ++ str "/" ++ file = chr "/" :: t) as [u ->] by (destruct r; eexists; done).
  rewrite (proj2 (has_prefix_spec _ _)) by (by exists u). done.
Qed.

Lemma normalize_path_resolves_witness :
  normalize_path (str "/a/./b/../c.html") = str "/a/c.html".
Proof.
  apply (normalize_path_resolves [str "a"; str "."; str "b"; str ".."] (str "c.html")).
  - by apply (bool_decide_eq_true (Forall dir_segment _)).
  - by apply (bool_decide_eq_true (Forall path_char _)).
  - done.
  - done.
Defined.

(** With a host the first character of the prefix is lost instead of its last slash. *)
Lemma normalize_with_host :
  normalize_path (str "http://host/a/../b") = str "ttp://host//b".
Proof. by vm_compute. Qed.

(** A last segment [..] is not resolved, and a name that begins with two dots is taken for [..]. *)
Lemma normalize_leftovers :
  normalize_path (str "/a/./b/..") = str "/a/b/.." /\ normalize_path (str "/a/..x/b./c") = str "/b./c".
Proof. by vm_compute. Qed.
