(* ===== verification/TimeUtils.v ===== *)
(** * Time: [common/time_utils.cpp]

    Durations are numbers of nanoseconds; [duration_cast] to a coarser unit drops the fraction towards
    zero.  The calendar functions and [std::get_time], [std::put_time] belong to the C++ library and are
    parameters. *)

From S2P Require Import StringView Utils.

Local Open Scope Z_scope.

Definition to_micros (duration : Z) : Z := Z.quot duration 1000.
Definition to_millis (duration : Z) : Z := Z.quot duration 1000000.
Definition to_secs (duration : Z) : Z := Z.quot duration 1000000000.

Record timeval := MkTimeval { tv_sec : Z; tv_usec : Z }.

Definition timeval_from_timepoint (timepoint : Z) : timeval :=
  let micros := to_micros timepoint in MkTimeval (Z.quot micros 1000000) (Z.rem micros 1000000).

Definition duration_to_timeval (usecs : Z) : timeval :=
  let denom := 1000000 in MkTimeval (Z.quot usecs denom) (Z.rem usecs denom).

(** ** Time zones *)

Definition ALPHA_TZ_LEN : nat := 3.
Definition DIGIT_TZ_LEN : nat := 5.

Definition is_alnum (c : Z) : bool := isdigit c || islower c || isupper c.

(** The number of white-space characters before the trimmed view. *)
Definition trim_offset (s : bytes) : nat := length s - length (drop_while isspace s).

Definition validate_gmt_tz (s : bytes) : option nat :=
  let t := trim s in
  let start_offset := trim_offset s in
  let may_be_alpha_code := starts_with t (str "GMT") || starts_with t (str "UTC") in
  let may_be_digital_code :=
    negb may_be_alpha_code && (starts_with t (str "-") || starts_with t (str "+")) && starts_with (drop 1 t) (str "0000") in
  if negb may_be_alpha_code && negb may_be_digital_code then None
  else
    let len := if may_be_alpha_code then ALPHA_TZ_LEN else DIGIT_TZ_LEN in
    match t !! len with
    | Some c => if is_alnum c then None else Some (start_offset + len)%nat
    | None => Some (start_offset + len)%nat
    end.

(** ** Format strings *)

(** [{:06}]: at least six characters, zeros between the sign and the digits. *)
Definition fmt_06 (n : Z) : bytes :=
  if n <? 0 then chr "-" :: pad_zero 5 (fmt_dec (- n)) else pad_zero 6 (fmt_dec n).

Inductive inject_state := DEFAULT | AFTER_PERCENT.

(** One character of the loop; [us_string] is filled at its first use. *)
Definition inject_step (us : Z) (gmt : bool) (st : inject_state * bytes * bytes) (ch : Z) : inject_state * bytes * bytes :=
  let '(state, format_string, us_string) := st in
  let state_default fs := if (ch =? chr "%") then (AFTER_PERCENT, fs, us_string) else (DEFAULT, fs ++ [ch], us_string) in
  match state with
  | DEFAULT => state_default format_string
  | AFTER_PERCENT =>
      if (ch =? chr "f") then
        let us_string := if bool_decide (us_string = []) then fmt_06 us else us_string in
        (DEFAULT, format_string ++ us_string, us_string)
      else if (ch =? chr "%") then (DEFAULT, format_string ++ str "%%", us_string)
      else if ((ch =? chr "z") || (ch =? chr "Z")) && gmt then
        (DEFAULT, format_string ++ (if ch =? chr "z" then str "+0000" else str "GMT"), us_string)
      else state_default (format_string ++ [chr "%"])
  end.

Definition inject_microseconds_and_gmt (us : Z) (gmt : bool) (format : bytes) : bytes :=
  let '(state, format_string, _) := fold_left (inject_step us gmt) format (DEFAULT, [], []) in
  match state with
  | AFTER_PERCENT => format_string ++ [chr "%"]
  | DEFAULT => format_string
  end.

Definition DEFAULT_GMTIME_FORMAT : bytes := str "%Y-%m-%d %H:%M:%S GMT".
Definition DEFAULT_LOCALTIME_FORMAT : bytes := str "%Y-%m-%d %H:%M:%S %z".

Section Calendar.
(** The broken-down time of the C library and its functions. *)
Context {tm : Type} (tm_zero : tm).
Context (gmtime_r localtime_r : Z -> tm) (timegm : tm -> Z).
Context (put_time : tm -> bytes -> bytes).
(** [std::get_time]: the parsed time and how many characters were read, [None] for the end of the
    stream; or a failure. *)
Context (get_time : bytes -> bytes -> option (tm * option nat)).

Definition gmtime_from_system_time (timepoint : Z) : tm := gmtime_r (to_secs timepoint).
Definition system_time_from_gmtime (tm_info : tm) : Z := timegm tm_info * 1000000000.
Definition localtime_from_system_time (timepoint : Z) : tm := localtime_r (to_secs timepoint).

Definition parse_time (s format : bytes) : option nat * tm :=
  match get_time s format with
  | None => (None, tm_zero)
  | Some (tm_info, pos) => (Some (default (length s) pos), tm_info)
  end.

Definition format_time (tm_info : tm) (us : Z) (gmt : bool) (format : bytes) : bytes :=
  put_time tm_info (inject_microseconds_and_gmt us gmt format).

(** Microseconds behind the whole second. *)
Definition micros_of (time : Z) : Z := to_micros (time - to_secs time * 1000000000).

Definition format_gmtime_tm (tm_info : tm) (format : bytes) : bytes := format_time tm_info 0 true format.
Definition format_gmtime (time : Z) (format : bytes) : bytes :=
  format_time (gmtime_from_system_time time) (micros_of time) true format.
Definition format_localtime_tm (tm_info : tm) (format : bytes) : bytes := format_time tm_info 0 false format.
Definition format_localtime (time : Z) (format : bytes) : bytes :=
  format_time (localtime_from_system_time time) (micros_of time) false format.
End Calendar.

(** ** The injection against a reading of the format by conversions *)

(** A format string as text and conversions; a percent sign at the end is text. *)
Inductive token := Text (c : Z) | Conv (c : Z).

Fixpoint tokens (s : bytes) : list token :=
  match s with
  | [] => []
  | c :: s' =>
      if (c =? chr "%") then
        match s' with
        | d :: s'' => Conv d :: tokens s''
        | [] => [Text c]
        end
      else Text c :: tokens s'
  end.

(** What becomes of one token: the microseconds and the time zone of GMT are written out. *)
Definition token_text (us : Z) (gmt : bool) (t : token) : bytes :=
  match t with
  | Text c => [c]
  | Conv c =>
      if (c =? chr "f") then fmt_06 us
      else if (c =? chr "z") && gmt then str "+0000"
      else if (c =? chr "Z") && gmt then str "GMT"
      else [chr "%"; c]
  end.

Lemma fmt_06_nonempty us : fmt_06 us <> [].
Proof.
  unfold fmt_06, pad_zero. destruct (us <? 0) eqn:E; [done|]. apply Z.ltb_ge in E.
  destruct (fmt_dec_digits us E) as [_ Hne]. destruct (replicate _ _); [done|]. done.
Qed.

Lemma pair_ind (P : bytes -> Prop) :
  P [] -> (forall c, P [c]) -> (forall c d s, P s -> P (d :: s) -> P (c :: d :: s)) -> forall s, P s.
Proof.
  intros H0 H1 H2. assert (forall s, P s /\ forall c, P (c :: s)) as H; [|intros s; apply H].
  induction s as [|d s [IH1 IH2]]; split; auto.
Qed.

(** The loop from its first state: the texts of the tokens read so far, in order. *)
Lemma inject_fold us gmt s fs u :
  (u = [] \/ u = fmt_06 us) ->
  let '(state, out, _) := fold_left (inject_step us gmt) s (DEFAULT, fs, u) in
  (match state with AFTER_PERCENT => out ++ [chr "%"] | DEFAULT => out end)
  = fs ++ List.concat (map (token_text us gmt) (tokens s)).
Proof.
  revert fs u. induction s as [|c|c d s IHs IHds] using pair_ind; intros fs u Hu.
  - cbn. by rewrite app_nil_r.
  - cbn [fold_left inject_step tokens]. destruct (c =? chr "%") eqn:E; [|done]. apply Z.eqb_eq in E as ->. done.
  - cbn [fold_left]. cbn [inject_step]. destruct (c =? chr "%") eqn:E.
    + apply Z.eqb_eq in E as ->. cbn [tokens]. change (chr "%" =? chr "%") with true. cbv iota. cbn [map List.concat token_text inject_step].
      destruct (d =? chr "f") eqn:Ef.
      * assert ((if bool_decide (u = []) then fmt_06 us else u) = fmt_06 us) as ->.
        { destruct Hu as [-> | ->]; [done|]. by rewrite bool_decide_false by apply fmt_06_nonempty. }
        rewrite app_assoc. apply IHs. by right.
      * assert (forall x, (fs ++ [chr "%"]) ++ [x] = fs ++ [chr "%"; x]) as Hsn by (intros; by rewrite <- app_assoc).
        rewrite app_assoc. destruct (d =? chr "%") eqn:Ep.
        { apply Z.eqb_eq in Ep as ->. apply IHs, Hu. }
        destruct (d =? chr "z") eqn:Ez; [apply Z.eqb_eq in Ez as ->|destruct (d =? chr "Z") eqn:EZ; [apply Z.eqb_eq in EZ as ->|]];
          destruct gmt; cbn [orb andb]; first [apply IHs, Hu | rewrite Hsn; apply IHs, Hu].
    + cbn [tokens]. rewrite E. cbn [map List.concat token_text]. rewrite app_assoc. apply IHds, Hu.
Qed.

(** The format string that is handed to the C library is the given one with [%f] replaced by six
    digits of microseconds and, for GMT, [%z] by [+0000] and [%Z] by [GMT]; every other conversion,
    escaped percent signs included, and all other text is kept. *)
Theorem inject_replaces us gmt format :
  inject_microseconds_and_gmt us gmt format = List.concat (map (token_text us gmt) (tokens format)).
Proof.
  pose proof (inject_fold us gmt format [] [] ltac:(by left)) as H. unfold inject_microseconds_and_gmt.
  destruct (fold_left _ _ _) as [[state out] u]. by destruct state.
Qed.

(** ** Time zones *)

Definition gmt_codes : list bytes := [str "GMT"; str "UTC"; str "+0000"; str "-0000"].

Lemma starts_with_spec s pre : starts_with s pre = true <-> exists r, s = pre ++ r.
Proof.
  unfold starts_with, substr. rewrite drop_0, andb_true_iff, Nat.leb_le, bool_decide_eq_true. split.
  - intros [_ E]. exists (drop (length pre) s). by rewrite <- E at 1; rewrite take_drop.
  - intros [r ->]. rewrite length_app, take_app_length. split; [lia|done].
Qed.

Lemma starts_with_app pre r : starts_with (pre ++ r) pre = true.
Proof. apply starts_with_spec. by exists r. Qed.

(** The code at the start of a text, if there is one. *)
Definition tz_code (t : bytes) : option bytes :=
  List.find (fun code => starts_with t code) gmt_codes.

Lemma tz_code_spec t code : tz_code t = Some code <-> code ∈ gmt_codes /\ exists r, t = code ++ r.
Proof.
  unfold tz_code. split.
  - intros [Hin Hs]%List.find_some. split; [by apply list_elem_of_In|by apply starts_with_spec].
  - intros [Hin [r ->]]. unfold gmt_codes in *. rewrite !elem_of_cons, elem_of_nil in Hin.
    destruct Hin as [-> | [-> | [-> | [-> | []]]]]; cbn [List.find]; by rewrite ?starts_with_app.
Qed.

Lemma validate_code s :
  validate_gmt_tz s =
  match tz_code (trim s) with
  | Some code =>
      match trim s !! length code with
      | Some c => if is_alnum c then None else Some (trim_offset s + length code)%nat
      | None => Some (trim_offset s + length code)%nat
      end
  | None => None
  end.
Proof.
  unfold validate_gmt_tz, tz_code, gmt_codes. cbn [List.find]. set (t := trim s). clearbody t.
  destruct (starts_with t (str "GMT")); [done|]. destruct (starts_with t (str "UTC")); [done|]. cbn [orb negb andb].
  assert (forall c, starts_with t (c :: str "0000") = starts_with t [c] && starts_with (drop 1 t) (str "0000")) as Hc.
  { intros c. apply eq_true_iff_eq. rewrite andb_true_iff, !starts_with_spec. split.
    - intros [r ->]. split; [by eexists|]. exists r. cbn [app drop]. by rewrite drop_0.
    - intros [[r ->] [r' E]]. cbn [app drop] in E. rewrite drop_0 in E. subst r. by exists r'. }
  change (str "+0000") with (chr "+" :: str "0000"). change (str "-0000") with (chr "-" :: str "0000"). rewrite !Hc.
  change [chr "+"] with (str "+"). change [chr "-"] with (str "-").
  destruct (starts_with (drop 1 t) (str "0000")), (starts_with t (str "+")), (starts_with t (str "-")); done.
Qed.

Lemma space_not_alnum c : isspace c = true -> is_alnum c = false.
Proof. unfold isspace, is_alnum, isdigit, islower, isupper. lia. Qed.

Lemma rtrim_keep t c r : isspace c = false -> rtrim ((t ++ [c]) ++ r) = (t ++ [c]) ++ rtrim r.
Proof.
  intros Hc. rewrite !rtrim_drop_while, reverse_app, reverse_snoc.
  destruct (decide (Forall (fun x => isspace x = true) (reverse r))) as [Hr|Hr].
  - rewrite drop_while_app_all, (drop_while_all isspace (reverse r)) by done. cbn [drop_while]. rewrite Hc, reverse_cons, reverse_involutive.
    by rewrite app_nil_r.
  - assert (drop_while isspace (reverse r ++ c :: reverse t) = drop_while isspace (reverse r) ++ c :: reverse t) as ->.
    { generalize dependent (reverse r). induction l as [|x l IH]; intros Hr; [by destruct Hr|]. cbn [app drop_while].
      destruct (isspace x) eqn:Ex; [|done]. apply IH. intros Hl. apply Hr. by constructor. }
    by rewrite reverse_app, reverse_cons, reverse_involutive.
Qed.

Lemma code_ends code : code ∈ gmt_codes -> exists c0 m c1, code = (c0 :: m) ++ [c1] /\ isspace c0 = false /\ isspace c1 = false.
Proof.
  unfold gmt_codes. rewrite !elem_of_cons, elem_of_nil. intros [-> | [-> | [-> | [-> | []]]]].
  - by exists (chr "G"), (str "M"), (chr "T").
  - by exists (chr "U"), (str "T"), (chr "C").
  - by exists (chr "+"), (str "000"), (chr "0").
  - by exists (chr "-"), (str "000"), (chr "0").
Qed.

Lemma rtrim_head r c : head (rtrim r) = Some c -> head r = Some c.
Proof. destruct (rtrim_spec r) as (post & E & _). intros H. rewrite E. by destruct (rtrim r). Qed.

(** A time zone is accepted exactly when, behind white space, the text has [GMT], [UTC], [+0000] or
    [-0000] that no letter or digit follows; the answer is the position after it. *)
Theorem validate_gmt_tz_spec s n :
  validate_gmt_tz s = Some n <->
  exists pre code rest, s = pre ++ code ++ rest /\ Forall (fun c => isspace c = true) pre /\ code ∈ gmt_codes /\
    (forall c, head rest = Some c -> is_alnum c = false) /\ n = (length pre + length code)%nat.
Proof.
  rewrite validate_code. split.
  - destruct (tz_code (trim s)) as [code|] eqn:Ec; [|done]. apply tz_code_spec in Ec as [Hin [r Er]].
    intros Hn. assert ((forall c, head r = Some c -> is_alnum c = false) /\ n = (trim_offset s + length code)%nat) as [Hr ->].
    { rewrite Er, lookup_app_r, Nat.sub_diag in Hn by lia. destruct r as [|c r]; cbn in Hn; [by simplify_eq/=|].
      destruct (is_alnum c) eqn:E; [done|]. simplify_eq/=. split; [|done]. by intros ? [= <-]. }
    destruct (rtrim_spec (ltrim s)) as (post & Ep & Hpost & _). fold (trim s) in Ep.
    rewrite ltrim_drop_while in Ep. exists (take_while isspace s), code, (r ++ post).
    rewrite !app_assoc, <- (app_assoc _ code r), <- Er, <- app_assoc, <- Ep, take_drop_while.
    split; [done|]. split; [apply take_while_Forall|]. split; [done|]. split.
    + intros c Hc. destruct r as [|x r]; [|by apply Hr]. cbn [app] in Hc. apply space_not_alnum.
      destruct Hpost as [|y post Hy _]; [done|]. by injection Hc as <-.
    + unfold trim_offset. f_equal. rewrite <- (take_drop_while isspace s) at 1. rewrite length_app. lia.
  - intros (pre & code & rest & -> & Hpre & Hin & Hrest & ->). destruct (code_ends code Hin) as (c0 & m & c1 & E & H0 & H1).
    assert (drop_while isspace (pre ++ code ++ rest) = code ++ rest) as Ed.
    { rewrite drop_while_app_all by done. rewrite E. cbn [app drop_while]. by rewrite H0. }
    assert (trim (pre ++ code ++ rest) = code ++ rtrim rest) as Et.
    { unfold trim. rewrite ltrim_drop_while, Ed, E. by apply rtrim_keep. }
    assert (trim_offset (pre ++ code ++ rest) = length pre) as ->
      by (unfold trim_offset; rewrite Ed, !length_app; lia).
    rewrite Et, (proj2 (tz_code_spec _ code)) by eauto. rewrite lookup_app_r, Nat.sub_diag by lia.
    destruct (rtrim rest) as [|c r] eqn:Er; [done|]. cbn. by rewrite (Hrest c) by (apply rtrim_head; by rewrite Er).
Qed.

(** ** Seconds and microseconds *)

(** A time from the epoch on is split into whole seconds and a rest of less than a second in
    microseconds, and together they are the time in microseconds; the microseconds printed by [%f]
    are the same rest, in six digits. *)
Theorem timeval_exact t :
  0 <= t ->
  let v := timeval_from_timepoint t in
  tv_sec v * 1000000 + tv_usec v = to_micros t /\ 0 <= tv_usec v < 1000000 /\ tv_sec v = to_secs t /\
  duration_to_timeval (to_micros t) = v /\ micros_of t = tv_usec v /\ length (fmt_06 (micros_of t)) = 6%nat.
Proof.
  intros Ht v. unfold v, timeval_from_timepoint, duration_to_timeval, micros_of, to_micros, to_secs. clear v.
  rewrite (Z.quot_div_nonneg t 1000), (Z.quot_div_nonneg t 1000000000) by lia.
  assert (0 <= t / 1000) as Hm by (apply Z.div_pos; lia).
  assert (0 <= t - t / 1000000000 * 1000000000) as Hr by (Z.to_euclidean_division_equations; lia).
  cbn [tv_sec tv_usec]. rewrite !Z.quot_div_nonneg, !Z.rem_mod_nonneg by lia.
  assert ((t - t / 1000000000 * 1000000000) / 1000 = (t / 1000) mod 1000000) as E
    by (Z.to_euclidean_division_equations; lia).
  pose proof (Z.mod_pos_bound (t / 1000) 1000000 ltac:(lia)) as Hb.
  split; [Z.to_euclidean_division_equations; lia|]. split; [done|].
  split; [Z.to_euclidean_division_equations; lia|]. split; [done|]. split; [done|].
  rewrite E. unfold fmt_06, fmt_dec. rewrite (proj2 (Z.ltb_ge _ _)) by lia.
  rewrite pad_zero_fmt by (simpl; lia). done.
Qed.

Lemma timeval_exact_witness :
  tv_sec (timeval_from_timepoint 1500000001) = 1 /\ tv_usec (timeval_from_timepoint 1500000001) = 500000 /\
  0 <= tv_usec (timeval_from_timepoint 1500000001) < 1000000.
Proof. split; [done|]. split; [done|]. apply (timeval_exact 1500000001). lia. Defined.

(** Before the epoch the rest is negative, and so is what [%f] prints. *)
Lemma before_epoch : timeval_from_timepoint (- 1000) = MkTimeval 0 (- 1) /\ fmt_06 (micros_of (- 1000)) = str "-00001".
Proof. by vm_compute. Qed.
