(* ===== verification/File.v ===== *)
(** * Files: the parts of [common/file.cpp] with logic of their own

    [to_platform_flags] for Linux, and the loops of [for_each_line] and [read_line] over whatever pieces
    the system call [read] delivers. *)

From S2P Require Import StringView Utils.

(** ** Flags *)

Definition RDONLY : Z := 0x0000.
Definition WRONLY : Z := 0x0001.
Definition RDWR : Z := 0x0002.
Definition CREAT : Z := 0x0100.
Definition APPEND : Z := 0x0200.
Definition TRUNC : Z := 0x0400.

Definition O_RDONLY : Z := 0.
Definition O_WRONLY : Z := 1.
Definition O_RDWR : Z := 2.
Definition O_CREAT : Z := 0x40.
Definition O_TRUNC : Z := 0x200.
Definition O_APPEND : Z := 0x400.

Definition to_platform_flags (flags : Z) : Z :=
  let ret_val := 0%Z in
  let ret_val := if negb (Z.land flags CREAT =? 0)%Z then Z.lor ret_val O_CREAT else ret_val in
  let ret_val := if negb (Z.land flags APPEND =? 0)%Z then Z.lor ret_val O_APPEND else ret_val in
  let ret_val :=
    if negb (Z.land flags TRUNC =? 0)%Z && negb (Z.land flags 0x0003 =? RDONLY)%Z then Z.lor ret_val O_TRUNC else ret_val in
  let mode := Z.land flags 0x0003 in
  if (mode =? RDONLY)%Z then Z.lor ret_val O_RDONLY
  else if (mode =? WRONLY)%Z then Z.lor ret_val O_WRONLY
  else if (mode =? RDWR)%Z then Z.lor ret_val O_RDWR
  else ret_val.

(** ** Lines *)

(** What the calls of [read] return, in order: pieces that are not empty, then 0 or, when [failed], a
    negative number. *)
Record Reads := MkReads { chunks : list bytes; failed : bool }.

Section Lines.
Context {S : Type} (action : Z -> bytes -> S -> bool * S).

Inductive scan_result :=
| Stop (st : S)
| More (line : bytes) (line_idx : nat) (st : S).

(** The inner loop, over one piece. *)
Fixpoint scan_buffer (i : nat) (buffer : bytes) (file_idx : nat) (line : bytes) (line_idx : nat) (st : S) : scan_result :=
  match buffer with
  | [] => More line line_idx st
  | c :: buffer' =>
      if negb (is_eol c) then scan_buffer (i + 1) buffer' file_idx (line ++ [c]) line_idx st
      else
        let '(go_on, st') := action (u32 (Z.of_nat line_idx)) (trim line) st in
        if negb go_on then Stop st' else scan_buffer (i + 1) buffer' file_idx [] (file_idx + i + 1) st'
  end.

Fixpoint read_loop (rs : list bytes) (file_idx : nat) (line : bytes) (line_idx : nat) (st : S) : scan_result :=
  match rs with
  | [] => More line line_idx st
  | buffer :: rs' =>
      match scan_buffer 0 buffer file_idx line line_idx st with
      | Stop st' => Stop st'
      | More line' line_idx' st' => read_loop rs' (file_idx + length buffer) line' line_idx' st'
      end
  end.

Definition MAX_CHUNK_SIZE : nat := 64 * 1024.

(** [file_size] is [None] when [get_size] fails; a buffer of no bytes reads nothing. *)
Definition for_each_line (file_size : option nat) (reads : Reads) (st : S) : Z * S :=
  match file_size with
  | None => ((-1)%Z, st)
  | Some file_size =>
      let chunk_size := Nat.min MAX_CHUNK_SIZE file_size in
      let rs := if chunk_size =? 0 then [] else chunks reads in
      let failed := if chunk_size =? 0 then false else failed reads in
      match read_loop rs 0 [] 0 st with
      | Stop st' => (0%Z, st')
      | More line line_idx st' =>
          let st' :=
            if (Z.of_nat line_idx <? u64 (Z.of_nat file_size - 1))%Z
            then snd (action (u32 (Z.of_nat line_idx)) (trim line) st') else st' in
          (if failed then (-1)%Z else 0%Z, st')
      end
  end.
End Lines.

(** The loop of [read_line]: pieces up to the first end of line. *)
Fixpoint read_line_loop (rs : list bytes) (line : bytes) : bytes :=
  match rs with
  | [] => line
  | buffer :: rs' =>
      match find_index is_eol buffer with
      | Some i => line ++ take i buffer
      | None => read_line_loop rs' (line ++ buffer)
      end
  end.

(** [positioned] says whether [set_position] succeeded. *)
Definition read_line (positioned : bool) (reads : Reads) : option bytes :=
  if negb positioned then None else Some (trim (read_line_loop (chunks reads) [])).

(** ** Theorems *)

#[local] Arguments is_eol : simpl never.

(** Every combination of the flags is translated: the access mode alone for the low bits, creation
    and appending as asked, truncation only for a file that is opened for writing. *)
Theorem to_platform_flags_spec mode creat append trunc :
  mode ∈ [RDONLY; WRONLY; RDWR] ->
  let bit (b : bool) v := if b then v else 0%Z in
  to_platform_flags (mode + bit creat CREAT + bit append APPEND + bit trunc TRUNC)
  = ((if mode =? RDONLY then O_RDONLY else if mode =? WRONLY then O_WRONLY else O_RDWR)
     + bit creat O_CREAT + bit append O_APPEND + bit (trunc && negb (mode =? RDONLY)) O_TRUNC)%Z.
Proof.
  rewrite !elem_of_cons, elem_of_nil. intros [-> | [-> | [-> | []]]]; destruct creat, append, trunc; done.
Qed.

Lemma to_platform_flags_spec_witness :
  to_platform_flags (WRONLY + CREAT + TRUNC) = (O_WRONLY + O_CREAT + O_TRUNC)%Z /\
  to_platform_flags (RDONLY + TRUNC) = O_RDONLY.
Proof.
  split; [exact (to_platform_flags_spec WRONLY true false true ltac:(set_solver))
         |exact (to_platform_flags_spec RDONLY false false true ltac:(set_solver))].
Defined.

Section LineFacts.
Context {S : Type} (action : Z -> bytes -> S -> bool * S).

(** The loops over a whole text at once. *)
Fixpoint consume (s : bytes) (line : bytes) (line_idx : nat) (st : S) : scan_result (S := S) :=
  match s with
  | [] => More line line_idx st
  | c :: s' =>
      if negb (is_eol c) then consume s' (line ++ [c]) line_idx st
      else
        let '(go_on, st') := action (u32 (Z.of_nat line_idx)) (trim line) st in
        if negb go_on then Stop st' else consume s' [] (line_idx + length line + 1) st'
  end.

Lemma scan_consume i buffer file_idx line line_idx st :
  file_idx + i = line_idx + length line -> scan_buffer action i buffer file_idx line line_idx st = consume buffer line line_idx st.
Proof.
  revert i line line_idx st. induction buffer as [|c b IH]; intros i line line_idx st Hi; cbn; [done|].
  destruct (is_eol c); cbn [negb].
  - destruct (action _ _ st) as [[] st']; cbn [negb]; [|done]. rewrite IH by (cbn; lia). f_equal. lia.
  - apply IH. rewrite length_app. cbn. lia.
Qed.

Lemma consume_app s1 s2 line line_idx st :
  consume (s1 ++ s2) line line_idx st =
  match consume s1 line line_idx st with
  | Stop st' => Stop st'
  | More line' line_idx' st' => consume s2 line' line_idx' st'
  end.
Proof.
  revert line line_idx st. induction s1 as [|c s1 IH]; intros line line_idx st; cbn; [done|].
  destruct (is_eol c); cbn [negb]; [|apply IH]. destruct (action _ _ st) as [[] st']; cbn [negb]; [apply IH|done].
Qed.

Lemma consume_position s line line_idx st line' line_idx' st' :
  consume s line line_idx st = More line' line_idx' st' -> line_idx' + length line' = line_idx + length line + length s.
Proof.
  revert line line_idx st. induction s as [|c s IH]; intros line line_idx st; cbn.
  - intros [= <- <- _]. lia.
  - destruct (is_eol c); cbn [negb].
    + destruct (action _ _ st) as [[] st1]; cbn [negb]; [|done]. intros H%IH. cbn in H. lia.
    + intros H%IH. rewrite length_app in H. cbn in H. lia.
Qed.

Lemma read_loop_consume rs file_idx line line_idx st :
  file_idx = line_idx + length line ->
  read_loop action rs file_idx line line_idx st = consume (List.concat rs) line line_idx st.
Proof.
  revert file_idx line line_idx st. induction rs as [|b rs IH]; intros file_idx line line_idx st Hf; cbn; [done|].
  rewrite consume_app, scan_consume by lia. destruct (consume b line line_idx st) as [|line' line_idx' st'] eqn:E; [done|].
  apply IH. apply consume_position in E. lia.
Qed.

(** The lines of a text, the last one only when something follows the last end of line. *)
Lemma consume_lines s line line_idx st :
  run_lines action (text_lines line_idx line s) st =
  match consume s line line_idx st with
  | Stop st' => st'
  | More [] _ st' => st'
  | More line' line_idx' st' => snd (action (u32 (Z.of_nat line_idx')) (trim line') st')
  end.
Proof.
  revert line line_idx st. induction s as [|c s IH]; intros line line_idx st; cbn.
  - destruct line as [|x line]; cbn; [done|]. by destruct (action _ _ st) as [[] st'].
  - destruct (is_eol c); cbn [negb]; [|apply IH]. cbn [run_lines]. destruct (action _ _ st) as [[] st']; cbn [negb]; [|done].
    apply IH.
Qed.

(** What follows the last end of line. *)
Definition last_line (s : bytes) : bytes := reverse (take_while (fun c => negb (is_eol c)) (reverse s)).

Lemma last_line_snoc s c : last_line (s ++ [c]) = if is_eol c then [] else last_line s ++ [c].
Proof. unfold last_line. rewrite reverse_snoc. cbn [take_while]. destruct (is_eol c); cbn [negb]; [done|]. by rewrite reverse_cons. Qed.

Lemma consume_last s st line line_idx st' : consume s [] 0 st = More line line_idx st' -> line = last_line s.
Proof.
  revert line line_idx st'. induction s as [|c s IH] using rev_ind; intros line line_idx st'; [by intros [= <- _ _]|].
  rewrite consume_app, last_line_snoc. destruct (consume s [] 0 st) as [|l li st1] eqn:E; [done|]. cbn.
  specialize (IH l li st1 eq_refl) as ->. destruct (is_eol c); cbn [negb]; [|by intros [= <- _ _]].
  destruct (action _ _ st1) as [[] st2]; cbn [negb]; [|done]. by intros [= <- _ _].
Qed.

(** C40: However [read] cuts a file into pieces, [file::for_each_line] runs the action on exactly the
    lines, with their positions, that [utils::for_each_line] finds in the whole text, as long as the
    file is not empty and what follows the last end of line is not a single character. *)
Theorem file_lines_are_text_lines rs st :
  let s := List.concat rs in
  s <> [] -> length (last_line s) <> 1 -> (Z.of_nat (length s) < 2 ^ 63)%Z ->
  for_each_line action (Some (length s)) (MkReads rs false) st = Utils.for_each_line s action st.
Proof.
  intros s Hne Hlast Hsize. unfold Utils.for_each_line. rewrite for_each_line_loop_spec by lia. rewrite drop_0.
  rewrite consume_lines. unfold for_each_line. assert (length s <> 0) as Hl by (by intros ?%length_zero_iff_nil).
  rewrite (proj2 (Nat.eqb_neq _ _)) by (unfold MAX_CHUNK_SIZE; lia). cbn [chunks failed].
  rewrite read_loop_consume by done. fold s. destruct (consume s [] 0 st) as [|line line_idx st'] eqn:E; [done|].
  pose proof (consume_last _ _ _ _ _ E) as ->. apply consume_position in E. cbn in E.
  unfold u64. rewrite wrap_small by lia. destruct (last_line s) as [|c [|d l]] eqn:El; cbn [length] in *.
  - by rewrite (proj2 (Z.ltb_ge _ _)) by lia.
  - lia.
  - by rewrite (proj2 (Z.ltb_lt _ _)) by lia.
Qed.
End LineFacts.

Lemma file_lines_are_text_lines_witness :
  let collect := fun pos line acc => (true, acc ++ [(pos, line)]) in
  let rs := [str "a b"; [13; 10]%Z; str " c"; str "d "] in
  snd (for_each_line collect (Some 9) (MkReads rs false) []) = [(0, str "a b"); (4, []); (5, str "cd")]%Z.
Proof.
  intros collect rs. change (Some 9) with (Some (length (List.concat rs))). rewrite (file_lines_are_text_lines collect rs []); [by vm_compute|done|done|done].
Defined.

(** A last line of one character is lost, and an empty file has one empty line. *)
Lemma short_last_line :
  let collect := fun pos line acc => (true, acc ++ [(pos, line)]) in
  for_each_line collect (Some 3) (MkReads [str "a" ++ [10%Z] ++ str "b"] false) [] = (0, [(0, str "a")])%Z /\
  for_each_line collect (Some 0) (MkReads [] false) [] = (0, [(0, [])])%Z.
Proof. by vm_compute. Qed.

Lemma read_line_pieces rs line :
  read_line_loop rs line = line ++ take (default (length (List.concat rs)) (find_index is_eol (List.concat rs))) (List.concat rs).
Proof.
  revert line. induction rs as [|b rs IH]; intros line; cbn [read_line_loop List.concat]; [by rewrite app_nil_r|].
  rewrite find_index_app. destruct (find_index is_eol b) as [i|] eqn:E.
  - pose proof (find_index_lt _ _ _ E). cbn. rewrite take_app_le by lia. done.
  - rewrite IH, <- app_assoc, length_app. f_equal.
    destruct (find_index is_eol (List.concat rs)) as [j|]; cbn; by rewrite take_app_add.
Qed.

(** However [read] cuts the file, [file::read_line] gives the line of the text at the position,
    as [utils::read_line] does, for a position inside the file. *)
Theorem read_line_at s pos rs fl :
  pos < length s -> List.concat rs = drop pos s ->
  read_line true (MkReads rs fl) = Utils.read_line s pos.
Proof.
  intros Hp E. unfold read_line, Utils.read_line. rewrite (proj2 (Nat.leb_gt _ _)) by done. cbn [negb chunks].
  rewrite read_line_pieces, E. cbn [app]. do 2 f_equal. unfold substr, find_index_from.
  destruct (find_index is_eol (drop pos s)) as [i|]; cbn.
  - f_equal. lia.
  - rewrite length_drop. f_equal.
Qed.

Lemma read_line_at_witness :
  read_line true (MkReads [str "ond"; str " line" ++ [10%Z]; str "x"] false) = Some (str "ond line").
Proof.
  by rewrite (read_line_at (str "first second line" ++ [10%Z] ++ str "x") 9); [vm_compute|vm_compute; lia|].
Defined.
