(* ===== verification/FileHandles.v ===== *)
(** * File handles: the operations of [common/file.cpp]

    The calls of the C library on an open file, with its content and position, and the operations of the
    two platforms over them.  On Windows the library takes positions as a [long] of 32 bits and sizes as an
    [unsigned int].  A descriptor that is not open fails with [-1]. *)

From S2P Require Import StringView Utils File.

Definition SEEK_SET : Z := 0.
Definition SEEK_CUR : Z := 1.

Record OpenFile := MkFile { content : bytes; pos : nat; append : bool; mtime : Z }.

(** The open files by descriptor. *)
Notation Files := (gmap Z OpenFile).

Definition set_pos (p : nat) (f : OpenFile) : OpenFile := MkFile (content f) p (append f) (mtime f).

(** Bytes written at a position; a gap behind the end is filled with zeros. *)
Definition write_over (p : nat) (data c : bytes) : bytes := take p (c ++ replicate (p - length c) 0%Z) ++ data ++ drop (p + length data) c.

(** ** The C library *)

(** The count, the bytes that were put into the buffer, and the files. *)
Definition c_read (fd : Z) (size : nat) (fs : Files) : Z * bytes * Files :=
  match fs !! fd with
  | None => ((-1)%Z, [], fs)
  | Some f =>
      let data := take size (drop (pos f) (content f)) in
      (Z.of_nat (length data), data, <[fd := set_pos (pos f + length data) f]> fs)
  end.

Definition c_pread (fd : Z) (size : nat) (off : Z) (fs : Files) : Z * bytes * Files :=
  match fs !! fd with
  | None => ((-1)%Z, [], fs)
  | Some f =>
      if (off <? 0)%Z then ((-1)%Z, [], fs)
      else let data := take size (drop (Z.to_nat off) (content f)) in (Z.of_nat (length data), data, fs)
  end.

Definition c_write (fd : Z) (data : bytes) (fs : Files) : Z * Files :=
  match fs !! fd with
  | None => ((-1)%Z, fs)
  | Some f =>
      let p := if append f then length (content f) else pos f in
      (Z.of_nat (length data), <[fd := MkFile (write_over p data (content f)) (p + length data) (append f) (mtime f)]> fs)
  end.

Definition c_lseek (fd off whence : Z) (fs : Files) : Z * Files :=
  match fs !! fd with
  | None => ((-1)%Z, fs)
  | Some f =>
      let p := if (whence =? SEEK_CUR)%Z then (Z.of_nat (pos f) + off)%Z else off in
      if (p <? 0)%Z then ((-1)%Z, fs) else (p, <[fd := set_pos (Z.to_nat p) f]> fs)
  end.

(** ** Both platforms *)

Definition INVALID_HANDLE : Z := -1.

Definition is_valid (f : Z) : bool := (0 <=? f)%Z.

(** [open] of the system, given the flags of the platform and the mode of a new file. *)
Definition file_open (os_open : bytes -> Z -> Z -> Z) (path : bytes) (flags : Z) : Z := os_open path (to_platform_flags flags) 438%Z.

Definition file_close (f : Z) (fs : Files) : Files := if is_valid f then delete f fs else fs.

(** The size of an open file, and times in seconds, [0] when the system does not know. *)
Definition get_size (f : Z) (fs : Files) : Z := match fs !! f with Some o => Z.of_nat (length (content o)) | None => (-1)%Z end.
Definition get_modification_time (f : Z) (fs : Files) : Z := match fs !! f with Some o => mtime o | None => 0%Z end.
Definition get_modification_time_of_path (stat : bytes -> option Z) (path : bytes) : Z := default 0%Z (stat path).

(** ** Linux and Apple *)

(** [off_t] of 64 bits. *)
Definition i64 (x : Z) : Z := (wrap 64 (x + 2 ^ 63) - 2 ^ 63)%Z.

Definition file_read (f : Z) (size : nat) (fs : Files) : Z * bytes * Files := c_read f size fs.
Definition file_pread (f : Z) (size : nat) (p : Z) (fs : Files) : Z * bytes * Files := c_pread f size (i64 p) fs.
Definition file_write (f : Z) (buf : bytes) (fs : Files) : Z * Files := c_write f buf fs.
Definition get_position (f : Z) (fs : Files) : Z * Files := c_lseek f 0 SEEK_CUR fs.
Definition set_position (f p : Z) (fs : Files) : Z * Files := c_lseek f (i64 p) SEEK_SET fs.

(** ** Windows *)

Definition O_RDONLY_W : Z := 0.
Definition O_WRONLY_W : Z := 1.
Definition O_RDWR_W : Z := 2.
Definition O_APPEND_W : Z := 0x8.
Definition O_CREAT_W : Z := 0x100.
Definition O_TRUNC_W : Z := 0x200.
Definition O_BINARY_W : Z := 0x8000.

Definition to_platform_flags_windows (flags : Z) : Z :=
  let ret_val := 0%Z in
  let ret_val := if negb (Z.land flags CREAT =? 0)%Z then Z.lor ret_val O_CREAT_W else ret_val in
  let ret_val := if negb (Z.land flags APPEND =? 0)%Z then Z.lor ret_val O_APPEND_W else ret_val in
  let ret_val :=
    if negb (Z.land flags TRUNC =? 0)%Z && negb (Z.land flags 0x0003 =? RDONLY)%Z then Z.lor ret_val O_TRUNC_W else ret_val in
  let mode := Z.land flags 0x0003 in
  if (mode =? RDONLY)%Z then Z.lor ret_val O_RDONLY_W
  else if (mode =? WRONLY)%Z then Z.lor ret_val O_WRONLY_W
  else if (mode =? RDWR)%Z then Z.lor ret_val O_RDWR_W
  else ret_val.

Definition S_IWRITE_W : Z := 0x80.

(** The path goes to the system as a wide string. *)
Definition file_open_windows {W} (to_wstring : bytes -> W) (wopen : W -> Z -> Z -> Z) (path : bytes) (flags : Z) : Z :=
  wopen (to_wstring path) (Z.lor (to_platform_flags_windows flags) O_BINARY_W) S_IWRITE_W.

(** [_read] and [_write] refuse a size above [INT_MAX]; [_lseek] a position above [LONG_MAX]. *)
Definition w_read (fd size : Z) (fs : Files) : Z * bytes * Files :=
  if (2 ^ 31 - 1 <? size)%Z then ((-1)%Z, [], fs) else c_read fd (Z.to_nat size) fs.
Definition w_write (fd : Z) (data : bytes) (size : Z) (fs : Files) : Z * Files :=
  if (2 ^ 31 - 1 <? size)%Z then ((-1)%Z, fs) else c_write fd (take (Z.to_nat size) data) fs.
Definition w_lseek (fd off whence : Z) (fs : Files) : Z * Files :=
  let '(r, fs1) := c_lseek fd off whence fs in if (2 ^ 31 - 1 <? r)%Z then ((-1)%Z, fs) else (r, fs1).

Definition read_windows (f : Z) (size : nat) (fs : Files) : Z * bytes * Files := w_read f (u32 (Z.of_nat size)) fs.
Definition get_position_windows (f : Z) (fs : Files) : Z * Files := w_lseek f 0 SEEK_CUR fs.
Definition set_position_windows (f p : Z) (fs : Files) : Z * Files := w_lseek f (i32 p) SEEK_SET fs.

Definition pread_windows (f : Z) (size : nat) (p : Z) (fs : Files) : Z * bytes * Files :=
  let '(old_pos, fs) := get_position_windows f fs in
  let '(_, fs) := set_position_windows f p fs in
  let '(r, data, fs) := read_windows f size fs in
  let '(_, fs) := set_position_windows f (u64 old_pos) fs in
  (r, data, fs).

Definition write_windows (f : Z) (buf : bytes) (fs : Files) : Z * Files := w_write f buf (u32 (Z.of_nat (length buf))) fs.

(** [ssize] is the width of [ssize_t]; [st_size] what the system says. *)
Definition get_size_windows (ssize : Z) (st_size : option Z) : Z :=
  match st_size with
  | None => (-1)%Z
  | Some s => if (2 ^ (ssize - 1) - 1 <? u64 s)%Z then (-1)%Z else s
  end.

(** ** Facts *)

Lemma i32_small p : (0 <= p < 2 ^ 31)%Z -> i32 p = p.
Proof. intros Hp. unfold i32. rewrite wrap_small by lia. lia. Qed.

Lemma i64_small p : (0 <= p < 2 ^ 63)%Z -> i64 p = p.
Proof. intros Hp. unfold i64. rewrite wrap_small by lia. lia. Qed.

(** A seek of Windows to a position below two gigabytes. *)
Lemma w_lseek_set f p fs o :
  fs !! f = Some o -> (0 <= p < 2 ^ 31)%Z -> set_position_windows f p fs = (p, <[f := set_pos (Z.to_nat p) o]> fs).
Proof.
  intros Hf Hp. unfold set_position_windows, w_lseek, c_lseek. rewrite Hf, i32_small by lia.
  change (SEEK_SET =? SEEK_CUR)%Z with false. cbv iota. rewrite (proj2 (Z.ltb_ge p 0)) by lia.
  by rewrite (proj2 (Z.ltb_ge (2 ^ 31 - 1) p)) by lia.
Qed.

Lemma w_lseek_get f fs o : fs !! f = Some o -> (Z.of_nat (pos o) < 2 ^ 31)%Z -> get_position_windows f fs = (Z.of_nat (pos o), fs).
Proof.
  intros Hf Hp. unfold get_position_windows, w_lseek, c_lseek. rewrite Hf. change (SEEK_CUR =? SEEK_CUR)%Z with true. cbv iota.
  rewrite Z.add_0_r, (proj2 (Z.ltb_ge (Z.of_nat (pos o)) 0)), Nat2Z.id by lia.
  rewrite (proj2 (Z.ltb_ge (2 ^ 31 - 1) (Z.of_nat (pos o)))) by lia. f_equal. apply insert_id. etrans; [exact Hf|]. by destruct o.
Qed.

(** On Windows [pread] reads what it reads elsewhere and leaves the position where it was, for files below two
    gigabytes. *)
Theorem pread_windows_is_pread f size p fs o :
  fs !! f = Some o -> (0 <= p < 2 ^ 31)%Z -> (Z.of_nat (pos o) < 2 ^ 31)%Z -> (Z.of_nat size < 2 ^ 31)%Z ->
  pread_windows f size p fs = file_pread f size p fs.
Proof.
  intros Hf Hp Hpos Hs. unfold pread_windows, file_pread, c_pread.
  rewrite (w_lseek_get f fs o), (w_lseek_set f p fs o) by done. rewrite Hf, i64_small, (proj2 (Z.ltb_ge p 0)) by lia.
  unfold read_windows, w_read, c_read, u32. rewrite wrap_small, (proj2 (Z.ltb_ge (2 ^ 31 - 1) (Z.of_nat size))), Nat2Z.id by lia.
  rewrite lookup_insert_eq. cbn [set_pos pos content]. unfold u64. rewrite wrap_small by lia.
  erewrite w_lseek_set; [|apply lookup_insert_eq|lia]. f_equal.
  rewrite !insert_insert_eq. apply insert_id. etrans; [exact Hf|]. f_equal. destruct o. cbn [set_pos pos content append mtime]. by rewrite Nat2Z.id.
Qed.

Lemma pread_windows_is_pread_witness :
  let fs := {[3%Z := MkFile [1; 2; 3; 4; 5]%Z 4 false 0]} : Files in
  pread_windows 3 2 1 fs = (2%Z, [2; 3]%Z, fs) /\ pread_windows 3 2 1 fs = file_pread 3 2 1 fs.
Proof.
  intros fs. split; [by vm_compute|].
  apply (pread_windows_is_pread 3 2 1 fs (MkFile [1; 2; 3; 4; 5]%Z 4 false 0)); [reflexivity|lia|cbn; lia|lia].
Defined.

(** At the position of four gigabytes the start of the file is read instead. *)
Lemma pread_windows_wraps :
  let fs := {[3%Z := MkFile [1; 2; 3; 4; 5]%Z 4 false 0]} : Files in
  pread_windows 3 2 (2 ^ 32) fs = (2%Z, [1; 2]%Z, fs) /\ file_pread 3 2 (2 ^ 32) fs = (0%Z, [], fs).
Proof. intros fs. split; [by vm_compute|]. 
  unfold file_pread, c_pread, fs. rewrite lookup_singleton_eq, i64_small by lia. change (2 ^ 32 <? 0)%Z with false. cbv iota.
  rewrite drop_ge; [by rewrite take_nil|]. cbn [content length]. lia.
Qed.
