(* ===== verification/RotatingLog.v ===== *)
(** * Rotating log files: [common/rotating_log_to_file.cpp]

    The log writes to one file and, when a message would pass the size limit, renames [log.1] to [log.2]
    and so on, and the current file to [log.1].  The files of the directory are a map from paths to
    contents; whether the system refuses to open, write or rename is a parameter. *)

From S2P Require Import StringView Utils.

Inductive LogLevel := LOG_LEVEL_ERROR | LOG_LEVEL_WARN | LOG_LEVEL_INFO | LOG_LEVEL_DEBUG | LOG_LEVEL_TRACE | LOG_LEVEL_OTHER.

Definition level_str (level : LogLevel) : bytes :=
  match level with
  | LOG_LEVEL_ERROR => str "ERROR"
  | LOG_LEVEL_WARN => str "WARN"
  | LOG_LEVEL_INFO => str "INFO"
  | LOG_LEVEL_DEBUG => str "DEBUG"
  | LOG_LEVEL_TRACE => str "TRACE"
  | LOG_LEVEL_OTHER => str "UNKNOWN"
  end.

(** State of the [std::ofstream]; [Bad] is a stream whose last operation failed. *)
Inductive stream := Open | Closed | Bad.

Record Log := MkLog {
  m_file_max_size_bytes : nat;
  m_files_count : nat;
  m_log_file_path : bytes;
  m_file_handle : stream
}.

(** The directory, and what went to the standard log stream instead. *)
Record World := MkWorld { files : gmap bytes bytes; clog : bytes }.

(** The time of a message as text, date and microseconds, and the thread number. *)
Record Stamp := MkStamp { when : bytes; tid : bytes }.

Section Rotating.
(** Refusals of the system, as functions of the directory. *)
Context (open_denied : gmap bytes bytes -> bytes -> bool).
Context (write_denied : gmap bytes bytes -> bytes -> bool).
Context (rename_denied : gmap bytes bytes -> bytes -> bytes -> bool).

Inductive rename_error := NoSuchFile | OtherError.

(** [std::filesystem::rename]. *)
Definition rename (old new : bytes) (w : World) : option rename_error * World :=
  match files w !! old with
  | None => (Some NoSuchFile, w)
  | Some content =>
      if rename_denied (files w) old new then (Some OtherError, w)
      else (None, MkWorld (<[new := content]> (delete old (files w))) (clog w))
  end.

Definition with_handle (h : stream) (l : Log) : Log :=
  MkLog (m_file_max_size_bytes l) (m_files_count l) (m_log_file_path l) h.

Definition log_to_ofstream (formatted_message : bytes) (l : Log) (w : World) : Log * World :=
  let path := m_log_file_path l in
  match m_file_handle l with
  | Open =>
      if write_denied (files w) path then
        (with_handle Bad l, MkWorld (files w) (clog w ++ formatted_message))
      else (l, MkWorld (<[path := default [] (files w !! path) ++ formatted_message]> (files w)) (clog w))
  | _ => (with_handle Bad l, MkWorld (files w) (clog w ++ formatted_message))
  end.

(** [{:5}] of a string: padded with spaces on the right. *)
Definition pad_right (n : nat) (s : bytes) : bytes := s ++ replicate (n - length s) 32%Z.

Definition full_line (st : Stamp) (level : LogLevel) (message : bytes) : bytes :=
  when st ++ str " " ++ pad_right 5 (level_str level) ++ str " [" ++ tid st ++ str "] " ++ message ++ [10%Z].

Definition lite_line (st : Stamp) (message : bytes) : bytes := when st ++ str " " ++ message ++ [10%Z].

Definition full_log (st : Stamp) (level : LogLevel) (message : bytes) : Log -> World -> Log * World :=
  log_to_ofstream (full_line st level message).

Definition lite_log (st : Stamp) (message : bytes) : Log -> World -> Log * World :=
  log_to_ofstream (lite_line st message).

(** [strerror(errno)] after a failed open is an argument. *)
Definition open_log_file (st : Stamp) (error_text : bytes) (l : Log) (w : World) : Log * World :=
  let path := m_log_file_path l in
  if open_denied (files w) path then
    full_log st LOG_LEVEL_ERROR (str "Error opening log file: " ++ error_text) (with_handle Bad l) w
  else (with_handle Open l, MkWorld (<[path := default [] (files w !! path)]> (files w)) (clog w)).

Definition log_new (path : bytes) (max_size count : nat) (st : Stamp) (error_text : bytes) (w : World) : Log * World :=
  open_log_file st error_text (MkLog max_size count path Closed) w.

Definition rotated (l : Log) (index : nat) : bytes := m_log_file_path l ++ str "." ++ fmt_dec (Z.of_nat index).

(** The loop over the numbers from [index] down to 1: [false] with the name that could not be moved. *)
Fixpoint shift_files (l : Log) (index : nat) (w : World) : option bytes * World :=
  match index with
  | O => (None, w)
  | S index' =>
      let '(error, w') := rename (rotated l index) (rotated l (index + 1)) w in
      match error with
      | Some OtherError => (Some (rotated l index), w')
      | _ => shift_files l index' w'
      end
  end.

Definition rotate_files (st : Stamp) (error_text : bytes) (l : Log) (w : World) : bool * Log * World :=
  let last_index := m_files_count l - 1 in
  match shift_files l (last_index - 1) w with
  | (Some name, w1) =>
      let '(l2, w2) := full_log st LOG_LEVEL_ERROR (str "Error rotating log file: " ++ name) l w1 in (false, l2, w2)
  | (None, w1) =>
      let l1 := with_handle Closed l in
      let '(error, w2) := rename (m_log_file_path l) (rotated l 1) w1 in
      let '(l3, w3) := open_log_file st error_text l1 w2 in
      match error with
      | Some _ =>
          let '(l4, w4) := full_log st LOG_LEVEL_ERROR (str "Error rotating log file: " ++ m_log_file_path l) l3 w3 in
          (false, l4, w4)
      | None => (true, l3, w3)
      end
  end.

(** [tellp]: the end of a file that is appended to, or a negative number. *)
Definition tellp (l : Log) (w : World) : Z :=
  match m_file_handle l with
  | Open => Z.of_nat (length (default [] (files w !! m_log_file_path l)))
  | _ => (-1)%Z
  end.

Definition log_message (st : Stamp) (error_text : bytes) (message_size : nat) (func : Log -> World -> Log * World)
    (l : Log) (w : World) : Log * World :=
  if m_files_count l =? 0 then (l, w)
  else if m_files_count l =? 1 then func l w
  else if (0 <=? tellp l w)%Z && (tellp l w + Z.of_nat message_size <? Z.of_nat (m_file_max_size_bytes l))%Z then func l w
  else let '(_, l1, w1) := rotate_files st error_text l w in func l1 w1.

(** The two call operators. *)
Definition log_full (st : Stamp) (error_text : bytes) (level : LogLevel) (message : bytes) : Log -> World -> Log * World :=
  log_message st error_text (length message) (full_log st level message).

Definition log_lite (st : Stamp) (error_text : bytes) (message : bytes) : Log -> World -> Log * World :=
  log_message st error_text (length message) (lite_log st message).

(** A run of messages. *)
Inductive entry := Full (st : Stamp) (level : LogLevel) (message : bytes) | Lite (st : Stamp) (message : bytes).

Definition entry_text (e : entry) : bytes :=
  match e with Full st level m => full_line st level m | Lite st m => lite_line st m end.

Definition log_entry (error_text : bytes) (e : entry) : Log -> World -> Log * World :=
  match e with
  | Full st level m => log_full st error_text level m
  | Lite st m => log_lite st error_text m
  end.

Fixpoint log_all (error_text : bytes) (es : list entry) (l : Log) (w : World) : Log * World :=
  match es with
  | [] => (l, w)
  | e :: es' => let '(l1, w1) := log_entry error_text e l w in log_all error_text es' l1 w1
  end.
End Rotating.

(** ** What the files hold *)

Section NoRefusal.
Abbreviation never := (fun _ : gmap bytes bytes => fun _ : bytes => false).
Abbreviation rename' := (rename (fun _ _ _ => false)).
Abbreviation shift' := (shift_files (fun _ _ _ => false)).
Abbreviation rotate' := (rotate_files never never (fun _ _ _ => false)).
Abbreviation log_entry' := (log_entry never never (fun _ _ _ => false)).
Abbreviation log_all' := (log_all never never (fun _ _ _ => false)).

(** The current file is number 0. *)
Definition name (path : bytes) (i : nat) : bytes :=
  match i with O => path | S _ => path ++ str "." ++ fmt_dec (Z.of_nat i) end.

Definition slot (path : bytes) (w : World) (i : nat) : option bytes := files w !! name path i.

(** The files of the log are [fs], the current one first, and there are no others. *)
Definition holds (path : bytes) (w : World) (fs : list bytes) : Prop := forall i, slot path w i = fs !! i.

(** The files that are not among the first [n] of the log are as they were. *)
Definition elsewhere (path : bytes) (n : nat) (w w' : World) : Prop :=
  forall p, (forall i, i < n -> p <> name path i) -> files w' !! p = files w !! p.

(** *** The contract

    A message goes to the end of the current file while the file's size and the message's stay below the limit;
    otherwise it begins a new one, and the oldest file is dropped when there are too many.  A log of one file is
    never rotated, and a log of none takes no messages. *)

Definition message_of (e : entry) : bytes := match e with Full _ _ m | Lite _ m => m end.

Definition put (max n : nat) (fs : list bytes) (e : entry) : list bytes :=
  match n, fs with
  | O, _ | _, [] => fs
  | 1, cur :: old => (cur ++ entry_text e) :: old
  | _, cur :: old =>
      if bool_decide (length cur + length (message_of e) < max) then (cur ++ entry_text e) :: old
      else entry_text e :: take (n - 1) fs
  end.

(** The files of a log that is opened. *)
Definition opened (fs : list bytes) : list bytes := match fs with [] => [[]] | _ => fs end.

(** All that the files hold, the oldest first. *)
Definition archive (fs : list bytes) : bytes := List.concat (rev fs).

(** Only whole files are dropped, and the newest are kept. *)
Lemma put_keeps max n fs e :
  1 <= n -> fs <> [] -> exists dropped, archive fs ++ entry_text e = archive dropped ++ archive (put max n fs e) /\
    (dropped = [] \/ n <= length fs).
Proof.
  intros Hn Hfs. unfold archive. destruct n as [|[|n]], fs as [|cur old]; cbn [put]; try lia; try done.
  - exists []. split; [|by left]. cbn [rev]. rewrite !List.concat_app. cbn. by rewrite !app_nil_r, app_assoc.
  - case_bool_decide.
    + exists []. split; [|by left]. cbn [rev]. rewrite !List.concat_app. cbn. by rewrite !app_nil_r, app_assoc.
    + exists (drop (S (S n) - 1) (cur :: old)). split.
      * change (rev (entry_text e :: ?x)) with (rev x ++ [entry_text e]).
        rewrite (List.concat_app (rev (take _ _))), app_assoc, <- List.concat_app, <- rev_app_distr, take_drop. cbn. by rewrite app_nil_r.
      * destruct (decide (length (cur :: old) <= S n)); [left; apply drop_ge; cbn in *; lia|right; cbn in *; lia].
Qed.

Lemma fmt_dec_inj a b : fmt_dec (Z.of_nat a) = fmt_dec (Z.of_nat b) -> a = b.
Proof.
  intros E. set (w := (1 + Z.log2 (Z.of_nat a) + Z.log2 (Z.of_nat b))%Z).
  pose proof (Z.log2_nonneg (Z.of_nat a)). pose proof (Z.log2_nonneg (Z.of_nat b)).
  assert (forall c, c = a \/ c = b -> (0 <= Z.of_nat c < 2 ^ w)%Z) as Hw.
  { intros c Hc. split; [lia|]. destruct (decide (c = 0)) as [->|]; [apply Z.pow_pos_nonneg; lia|].
    apply (Z.log2_lt_pow2 (Z.of_nat c)); [lia|]. destruct Hc as [-> | ->]; lia. }
  pose proof (fmt_dec_to_integer w _ (Hw a ltac:(by left))) as Ha.
  pose proof (fmt_dec_to_integer w _ (Hw b ltac:(by right))) as Hb.
  rewrite E, Hb in Ha. injection Ha. lia.
Qed.

Lemma name_inj path i j : name path i = name path j -> i = j.
Proof.
  assert (forall k, path <> path ++ str "." ++ fmt_dec (Z.of_nat k)) as Hne.
  { intros k E. apply (f_equal length) in E. rewrite !length_app in E. cbn in E. lia. }
  destruct i as [|i], j as [|j]; cbn [name]; intros E; [done|by apply Hne in E|by symmetry in E; apply Hne in E|].
  apply app_inv_head, app_inv_head, fmt_dec_inj in E. done.
Qed.

Lemma slot_rename path i j w content k :
  slot path w i = Some content -> i <> j ->
  slot path (snd (rename' (name path i) (name path j) w)) k
  = if decide (k = j) then Some content else if decide (k = i) then None else slot path w k.
Proof.
  intros Hs Hij. unfold slot in *. unfold rename. rewrite Hs. cbn. destruct (decide (k = j)) as [->|Hkj].
  - by rewrite lookup_insert_eq.
  - rewrite lookup_insert_ne by (intros E; by apply name_inj in E). destruct (decide (k = i)) as [->|Hki].
    + by rewrite lookup_delete_eq.
    + by rewrite lookup_delete_ne by (intros E; by apply name_inj in E).
Qed.

Lemma slot_rename_missing path i new w : slot path w i = None -> rename' (name path i) new w = (Some NoSuchFile, w).
Proof. unfold slot, rename. by intros ->. Qed.

Lemma rename_clog old new w : clog (snd (rename' old new w)) = clog w.
Proof. unfold rename. by destruct (files w !! old). Qed.

(** Rotated files have no gap below the last one that matters. *)
Definition no_gap (path : bytes) (m : nat) (w : World) : Prop :=
  forall i, 1 <= i <= m -> slot path w i = None -> slot path w (S i) = None.

Lemma rotated_name l i : rotated l (S i) = name (m_log_file_path l) (S i).
Proof. done. Qed.

(** One turn of the loop: the file of number [S m] moves up, or there is none. *)
Lemma shift_one path m w :
  no_gap path (S m) w ->
  let w1 := snd (rename' (name path (S m)) (name path (S (S m))) w) in
  (forall k, slot path w1 k = if decide (k = S (S m)) then slot path w (S m) else if decide (k = S m) then None else slot path w k) /\
  clog w1 = clog w /\ fst (rename' (name path (S m)) (name path (S (S m))) w) <> Some OtherError.
Proof.
  intros Hg w1. unfold w1. destruct (slot path w (S m)) as [c|] eqn:E.
  - split; [intros k; rewrite (slot_rename _ _ _ _ c) by (done || lia); done|]. split; [apply rename_clog|].
    unfold slot in E. unfold rename. by rewrite E.
  - rewrite slot_rename_missing by done. cbn [fst snd]. split; [|done]. intros k.
    destruct (decide (k = S (S m))) as [->|]; [apply Hg; [lia|done]|]. by destruct (decide (k = S m)) as [->|].
Qed.

Lemma shift_spec l m w :
  let path := m_log_file_path l in
  no_gap path m w ->
  exists w', shift' l m w = (None, w') /\ clog w' = clog w /\
    (forall i, 1 <= i <= m -> slot path w' (S i) = slot path w i) /\ (1 <= m -> slot path w' 1 = None) /\
    forall k, k = 0 \/ S m < k -> slot path w' k = slot path w k.
Proof.
  intros path. revert w. induction m as [|m IH]; intros w Hg.
  { exists w. cbn. repeat (split; [done || lia|]). done. }
  destruct (shift_one path m w Hg) as (H1 & Hc1 & Hne). cbn [shift_files].
  replace (S m + 1) with (S (S m)) by lia. rewrite !rotated_name. fold path.
  destruct (rename' (name path (S m)) (name path (S (S m))) w) as [err w1] eqn:E. cbn [snd] in H1, Hc1.
  destruct (IH w1) as (w' & Ew & Hc & Ha & Hb & Hk).
  { intros i Hi. rewrite !H1. repeat (destruct (decide _)); try lia; try done. intros Hn. apply Hg; [lia|done]. }
  exists w'. split; [by destruct err as [[]|]|]. split; [congruence|]. split; [|split].
  - intros i Hi. destruct (decide (i = S m)) as [->|].
    + rewrite Hk by lia. rewrite H1. by rewrite decide_True by done.
    + rewrite Ha by lia. rewrite H1. by rewrite !decide_False by lia.
  - intros _. destruct m as [|m]; [|apply Hb; lia]. cbn in Ew. injection Ew as <-. rewrite H1.
    by rewrite decide_False, decide_True by lia.
  - intros k Hk'. rewrite Hk by lia. rewrite H1. by rewrite !decide_False by lia.
Qed.

(** What holds between messages. *)
Record log_inv (fs : list bytes) (l : Log) (w : World) : Prop := {
  i_open : m_file_handle l = Open;
  i_files : holds (m_log_file_path l) w fs;
  i_current : fs <> [];
  i_count : length fs <= Nat.max 1 (m_files_count l)
}.

Lemma holds_no_gap path w fs m : holds path w fs -> no_gap path m w.
Proof. intros H i _. rewrite !H, !lookup_ge_None. lia. Qed.

(** Renaming leaves the other files as they were. *)
Lemma rename_elsewhere old new w p : p <> old -> p <> new -> files (snd (rename' old new w)) !! p = files w !! p.
Proof.
  intros Ho Hn. unfold rename. destruct (files w !! old); [|done]. cbn. by rewrite lookup_insert_ne, lookup_delete_ne by congruence.
Qed.

Lemma shift_elsewhere l m w :
  elsewhere (m_log_file_path l) (S (S m)) w (snd (shift' l m w)).
Proof.
  revert w. induction m as [|m IH]; intros w p Hp; [done|]. cbn [shift_files].
  replace (S m + 1) with (S (S m)) by lia. rewrite !rotated_name.
  pose proof (rename_elsewhere (name (m_log_file_path l) (S m)) (name (m_log_file_path l) (S (S m))) w p (Hp (S m) ltac:(lia)) (Hp (S (S m)) ltac:(lia))) as Hr.
  destruct (rename' _ _ w) as [err w1]. cbn [snd] in Hr. rewrite <- Hr.
  destruct err as [[]|]; cbn [snd]; [|done|]; apply IH; intros i Hi; apply Hp; lia.
Qed.

Lemma rotate_spec st err fs l w :
  log_inv fs l w -> 2 <= m_files_count l ->
  exists w', rotate' st err l w = (true, l, w') /\ log_inv ([] :: take (m_files_count l - 1) fs) l w' /\ clog w' = clog w /\
    elsewhere (m_log_file_path l) (m_files_count l) w w'.
Proof.
  intros [Ho Hfs Hne Hc] H2. set (path := m_log_file_path l) in *. destruct fs as [|base old]; [done|]. clear Hne.
  destruct (m_files_count l) as [|[|n]] eqn:En; [lia..|]. cbn [Nat.max] in Hc.
  destruct (shift_spec l n w (holds_no_gap path w _ n Hfs)) as (w1 & E1 & Hc1 & Ha & _ & Hk). fold path in Ha, Hk.
  pose proof (shift_elsewhere l n w) as He1. rewrite E1 in He1. cbn [snd] in He1. fold path in He1.
  assert (slot path w1 0 = Some base) as Hb1 by (rewrite Hk by lia; apply (Hfs 0)).
  unfold rotate_files. rewrite En. replace (S (S n) - 1 - 1) with n by lia. rewrite E1. fold path.
  change path with (name path 0) at 1. rewrite (rotated_name l 0). fold path.
  pose proof (fun k => slot_rename path 0 1 w1 base k Hb1 ltac:(lia)) as Hs2.
  pose proof (rename_clog (name path 0) (name path 1) w1) as Hc2.
  pose proof (rename_elsewhere (name path 0) (name path 1) w1) as He2.
  destruct (rename' (name path 0) (name path 1) w1) as [e w2] eqn:E2. cbn [snd] in Hs2, Hc2, He2.
  assert (e = None) as -> by (unfold slot in Hb1; unfold rename in E2; rewrite Hb1 in E2; by injection E2).
  unfold open_log_file. cbn [m_log_file_path with_handle]. fold path.
  set (w3 := MkWorld (<[path := default [] (files w2 !! path)]> (files w2)) (clog w2)).
  assert (forall k, slot path w3 k = if decide (k = 0) then Some [] else if decide (k = 1) then Some base else slot path w1 k) as Hs3.
  { intros k. unfold slot, w3. cbn [files]. destruct (decide (k = 0)) as [->|Hk0].
    - cbn [name]. rewrite lookup_insert_eq. specialize (Hs2 0). cbn in Hs2. unfold slot, name in Hs2. by rewrite Hs2.
    - rewrite lookup_insert_ne by (intros E; by apply (name_inj path 0 k) in E).
      specialize (Hs2 k). unfold slot in Hs2. rewrite Hs2. destruct (decide (k = 1)); [done|]. by rewrite decide_False by done. }
  exists w3. split; [destruct l; cbn in *; by subst|]. split; [|split; [cbn; congruence|]].
  - split; [done| |done|rewrite En; cbn [length Nat.max Nat.sub]; rewrite length_take; lia]. fold path. intros [|k]; [by rewrite Hs3|].
    replace (S (S n) - 1) with (S n) by lia. change (slot path w3 (S k) = take (S n) (base :: old) !! k). destruct (decide (k <= n)) as [Hkn|Hkn].
    + rewrite lookup_take_lt by lia. rewrite <- Hfs, Hs3. cbn. destruct k as [|k]; [by rewrite Hfs|]. cbn. apply Ha. lia.
    + rewrite lookup_take_ge by lia. rewrite Hs3, !decide_False by lia. rewrite Hk, Hfs by lia. apply lookup_ge_None. lia.
  - intros p Hp. unfold w3. cbn [files]. rewrite lookup_insert_ne by (intros <-; by apply (Hp 0); [lia|]).
    rewrite He2 by (apply Hp; lia). apply He1. exact Hp.
Qed.

(** Writing at the end of the current file. *)
Lemma write_spec text cur old l w :
  log_inv (cur :: old) l w ->
  exists w', log_to_ofstream never text l w = (l, w') /\ log_inv ((cur ++ text) :: old) l w' /\ clog w' = clog w /\
    elsewhere (m_log_file_path l) 1 w w'.
Proof.
  intros [Ho Hf _ Hc]. unfold log_to_ofstream. rewrite Ho. eexists. split; [done|]. split; [|split; [done|]].
  - split; [done| |done|done]. intros [|k]; unfold slot; cbn [files name].
    + rewrite lookup_insert_eq. pose proof (Hf 0) as H0. unfold slot in H0. cbn in H0. by rewrite H0.
    + rewrite lookup_insert_ne; [apply (Hf (S k))|]. intros E. by apply (name_inj _ 0 (S k)) in E.
  - intros p Hp. cbn [files]. apply lookup_insert_ne. intros <-. by apply (Hp 0); [lia|].
Qed.

Lemma elsewhere_trans path n m w1 w2 w3 : m <= n -> elsewhere path n w1 w2 -> elsewhere path m w2 w3 -> elsewhere path n w1 w3.
Proof. intros Hm H1 H2 p Hp. rewrite H2 by (intros i Hi; apply Hp; lia). by apply H1. Qed.

Lemma elsewhere_weaken path n m w1 w2 : m <= n -> elsewhere path m w1 w2 -> elsewhere path n w1 w2.
Proof. intros Hm H p Hp. apply H. intros i Hi. apply Hp. lia. Qed.

(** One message. *)
Lemma log_entry_put err e fs l w :
  log_inv fs l w ->
  exists w', log_entry' err e l w = (l, w') /\ log_inv (put (m_file_max_size_bytes l) (m_files_count l) fs e) l w' /\
    clog w' = clog w /\ elsewhere (m_log_file_path l) (Nat.max 1 (m_files_count l)) w w'.
Proof.
  intros Hi. set (n := m_files_count l).
  assert (forall st, exists w', log_message never never (fun _ _ _ => false) st err (length (message_of e)) (log_to_ofstream never (entry_text e)) l w = (l, w') /\
    log_inv (put (m_file_max_size_bytes l) n fs e) l w' /\ clog w' = clog w /\ elsewhere (m_log_file_path l) (Nat.max 1 n) w w') as H; [|destruct e; apply H].
  intros st. unfold log_message. fold n. destruct Hi as [Ho Hf Hne Hc] eqn:Ei. destruct fs as [|cur old]; [done|]. clear Ei.
  destruct (write_spec (entry_text e) cur old l w Hi) as (w1 & E1 & Hi1 & Hc1 & He1).
  apply (elsewhere_weaken _ (Nat.max 1 n)) in He1; [|lia].
  destruct n as [|[|m]] eqn:En; cbn [Nat.eqb put]; [by exists w|by exists w1|].
  assert (tellp l w = Z.of_nat (length cur)) as ->.
  { unfold tellp. rewrite Ho. pose proof (Hf 0) as H0. unfold slot in H0. cbn in H0. by rewrite H0. }
  rewrite (proj2 (Z.leb_le 0 _)) by lia. cbn [andb]. case_bool_decide as Hs.
  - rewrite (proj2 (Z.ltb_lt _ _)) by lia. by exists w1.
  - rewrite (proj2 (Z.ltb_ge _ _)) by lia.
    destruct (rotate_spec st err (cur :: old) l w Hi) as (w2 & E2 & Hi2 & Hc2 & He2); [unfold n in En; lia|]. rewrite E2.
    destruct (write_spec (entry_text e) [] _ l w2 Hi2) as (w3 & E3 & Hi3 & Hc3 & He3).
    exists w3. split; [done|]. split; [fold n in Hi3; by rewrite En in Hi3|]. split; [congruence|].
    fold n in He2. rewrite En in He2. cbn [Nat.max]. by apply (elsewhere_trans _ _ 1 _ w2); [lia|..].
Qed.

Lemma log_all_put err es fs l w :
  log_inv fs l w ->
  exists w', log_all' err es l w = (l, w') /\ log_inv (fold_left (put (m_file_max_size_bytes l) (m_files_count l)) es fs) l w' /\
    clog w' = clog w /\ elsewhere (m_log_file_path l) (Nat.max 1 (m_files_count l)) w w'.
Proof.
  revert fs w. induction es as [|e es IH]; intros fs w Hi; cbn [log_all fold_left]; [by exists w|].
  destruct (log_entry_put err e fs l w Hi) as (w1 & -> & Hi1 & Hc1 & He1).
  destruct (IH _ w1 Hi1) as (w2 & -> & Hi2 & Hc2 & He2). exists w2. split; [done|]. split; [done|]. split; [congruence|].
  by apply (elsewhere_trans _ _ (Nat.max 1 (m_files_count l)) _ w1).
Qed.

Lemma puts_keep max n es fs :
  1 <= n -> fs <> [] -> exists dropped,
    archive fs ++ List.concat (map entry_text es) = archive dropped ++ archive (fold_left (put max n) es fs).
Proof.
  intros Hn. revert fs. induction es as [|e es IH]; intros fs Hfs; cbn [fold_left map List.concat].
  { exists []. by rewrite app_nil_r. }
  destruct (put_keeps max n fs e Hn Hfs) as (d1 & E1 & _). destruct (IH (put max n fs e)) as (d2 & E2).
  { destruct n as [|[|n]], fs; cbn [put]; try done. by case_bool_decide. }
  exists (d2 ++ d1). rewrite app_assoc, E1, <- app_assoc, E2. unfold archive. by rewrite rev_app_distr, List.concat_app, app_assoc.
Qed.

(** C32: As long as the system refuses nothing, a log opened over the files it left before, numbered without a gap
    and no more than it may keep, puts every message where its contract says: at the end of the current file while
    the file's size and the message's stay below the limit, and at the beginning of a new one otherwise, when the
    older files move up by one number and the last of them is dropped if there are too many.  A log of one file is
    never rotated.  So the files hold the end of all that was ever written, in order, and only whole files are
    missing before it; no other file of the directory changes, and nothing goes to the standard log stream. *)
Theorem log_keeps_newest path max n st err w fs es :
  holds path w fs -> length fs <= Nat.max 1 n ->
  let '(l0, w0) := log_new never never path max n st err w in
  exists w', log_all' err es l0 w0 = (l0, w') /\
    holds path w' (fold_left (put max n) es (opened fs)) /\
    elsewhere path (Nat.max 1 n) w w' /\ clog w' = clog w /\
    (1 <= n -> exists dropped,
      archive fs ++ List.concat (map entry_text es) = archive dropped ++ archive (fold_left (put max n) es (opened fs))).
Proof.
  intros Hfs Hn. unfold log_new, open_log_file. cbn [m_log_file_path].
  set (l0 := with_handle Open _). set (w0 := MkWorld _ _).
  assert (log_inv (opened fs) l0 w0) as Hi.
  { pose proof (Hfs 0) as H0. unfold slot in H0. cbn [name] in H0. split; [done| |by destruct fs|destruct fs; cbn in *; lia].
    intros [|k]; unfold slot, w0; cbn [files name].
    - rewrite lookup_insert_eq, H0. by destruct fs.
    - rewrite lookup_insert_ne by (intros E; by apply (name_inj path 0 (S k)) in E).
      etrans; [exact (Hfs (S k))|]. by destruct fs. }
  destruct (log_all_put err es (opened fs) l0 w0 Hi) as (w' & E & Hi' & Hc & He). exists w'. split; [done|].
  split; [apply Hi'|]. split; [|split; [done|]].
  - apply (elsewhere_trans _ _ (Nat.max 1 n) _ w0); [done| |done]. intros p Hp. unfold w0. cbn [files]. apply lookup_insert_ne.
    intros <-. by apply (Hp 0); [lia|].
  - intros H1. destruct (puts_keep max n es (opened fs) H1) as (d & Hd); [by destruct fs|]. exists d. rewrite <- Hd. by destruct fs.
Qed.
End NoRefusal.

Definition sample_stamp : Stamp := MkStamp (str "T") (str "1").
Definition sample_entries : list entry :=
  [Lite sample_stamp (str "one"); Lite sample_stamp (str "two"); Full sample_stamp LOG_LEVEL_INFO (str "three");
   Lite sample_stamp (str "four")].
Definition sample_log : Log := MkLog 14 2 (str "log") Open.

(** Two messages go to the first file; the third begins the next one, and the fourth drops the first. *)
Lemma log_keeps_newest_witness :
  exists w',
    log_all (fun _ _ => false) (fun _ _ => false) (fun _ _ _ => false) [] sample_entries sample_log
      (MkWorld {[ str "log" := [] ]} []) = (sample_log, w') /\
    holds (str "log") w' [str "T four" ++ [10%Z]; str "T INFO  [1] three" ++ [10%Z]].
Proof.
  assert (holds (str "log") (MkWorld ∅ []) []) as Hf by (intros i; apply lookup_empty).
  destruct (log_keeps_newest (str "log") 14 2 sample_stamp [] (MkWorld ∅ []) [] sample_entries Hf) as (w' & E & Hd & _); [cbn; lia|].
  exists w'. split; [exact E|]. exact Hd.
Defined.
