(* ===== verification/TldRegistry.v ===== *)
(** * Public suffixes: [conan/recipes/tldregistry]

    [LookupStringInFixedSet] walks a compact automaton: a node is a label, whose last character has its
    high bit set, followed by a list of offsets to its children; a return value is a label of one
    character below 32.  The automaton itself is generated by the build, so it is a parameter, and so is
    the signedness of [char]; a read outside of it is [None].  [get_tld] and [reduce_domain] use it. *)

From S2P Require Import StringView Utils.

Local Open Scope nat_scope.

Definition kDafsaNotFound : Z := -1.
Definition kDafsaFound : Z := 0.

Section Dafsa.
Context (graph : bytes) (char_signed : bool).

(** Next offset of a list: [Some None] when there is none left. *)
Definition GetNextOffset (pos : option nat) (offset : nat) : option (option (option nat * nat)) :=
  match pos with
  | None => Some None
  | Some p =>
      b0 ← graph !! p;
      '(delta, bytes_consumed) ←
        (if (Z.land b0 0x60 =? 0x60)%Z then
           b1 ← graph !! (p + 1); b2 ← graph !! (p + 2);
           Some (Z.lor (Z.lor (Z.shiftl (Z.land b0 0x1f) 16) (Z.shiftl b1 8)) b2, 3)
         else if (Z.land b0 0x60 =? 0x40)%Z then
           b1 ← graph !! (p + 1); Some (Z.lor (Z.shiftl (Z.land b0 0x1f) 8) b1, 2)
         else Some (Z.land b0 0x3f, 1));
      Some (Some (if negb (Z.land b0 0x80 =? 0)%Z then None else Some (p + bytes_consumed), offset + Z.to_nat delta))
  end.

Definition IsEOL (b : Z) : bool := negb (Z.land b 0x80 =? 0)%Z.
Definition IsMatch (b key : Z) : bool := (Z.land b 0x7f =? key)%Z.
Definition GetReturnValue (b : Z) : option Z :=
  if (Z.land b 0xe0 =? 0x80)%Z then Some (Z.land b 0x1f) else None.

Record FixedSetIncrementalLookup := MkLookup { pos_ : option nat; pos_is_label_character_ : bool }.

Definition lookup_new : FixedSetIncrementalLookup := MkLookup (Some 0) false.

(** A [char] as a number. *)
Definition char_value (c : Z) : Z := if char_signed && (128 <=? c)%Z then (c - 256)%Z else c.

(** The loop over the children: the offset of the first one whose label starts with the character.
    Every turn moves forward in the graph, which the fuel covers. *)
Fixpoint match_child (fuel : nat) (pos : option nat) (offset : nat) (input : Z) : option (option (nat * Z)) :=
  match fuel with
  | O => None
  | S f =>
      match GetNextOffset pos offset with
      | None => None
      | Some None => Some None
      | Some (Some (pos', offset')) =>
          b ← graph !! offset';
          if IsMatch b input then Some (Some (offset', b)) else match_child f pos' offset' input
      end
  end.

Definition loop_fuel : nat := S (S (length graph)).

Definition Advance (c : Z) (s : FixedSetIncrementalLookup) : option (bool * FixedSetIncrementalLookup) :=
  let input := char_value c in
  match pos_ s with
  | None => Some (false, s)
  | Some p =>
      let no_match := (false, MkLookup None false) in
      if (0x20 <=? input)%Z then
        if pos_is_label_character_ s then
          b ← graph !! p;
          if IsMatch b input then Some (true, MkLookup (Some (p + 1)) (negb (IsEOL b))) else Some no_match
        else
          r ← match_child loop_fuel (Some p) p input;
          match r with
          | Some (offset, b) => Some (true, MkLookup (Some (offset + 1)) (negb (IsEOL b)))
          | None => Some no_match
          end
      else Some no_match
  end.

Fixpoint result_child (fuel : nat) (pos : option nat) (offset : nat) : option Z :=
  match fuel with
  | O => None
  | S f =>
      match GetNextOffset pos offset with
      | None => None
      | Some None => Some kDafsaNotFound
      | Some (Some (pos', offset')) =>
          b ← graph !! offset';
          match GetReturnValue b with
          | Some value => Some value
          | None => result_child f pos' offset'
          end
      end
  end.

Definition GetResultForCurrentSequence (s : FixedSetIncrementalLookup) : option Z :=
  if pos_is_label_character_ s then
    match pos_ s with
    | Some p => b ← graph !! p; Some (default kDafsaNotFound (GetReturnValue b))
    | None => None
    end
  else result_child loop_fuel (pos_ s) (default 0 (pos_ s)).

Fixpoint lookup_loop (key : bytes) (s : FixedSetIncrementalLookup) : option Z :=
  match key with
  | [] => GetResultForCurrentSequence s
  | c :: key' =>
      '(ok, s') ← Advance c s;
      if negb ok then Some kDafsaNotFound else lookup_loop key' s'
  end.

Definition LookupStringInFixedSet (key : bytes) : option Z := lookup_loop key lookup_new.

Definition is_tld (domain : bytes) : bool := bool_decide (LookupStringInFixedSet domain = Some kDafsaFound).
End Dafsa.

(** ** Domains, over any set of suffixes *)

Section Domains.
Context (is_suffix : bytes -> bool).

Definition is_dot (c : Z) : bool := (c =? chr ".")%Z.

Fixpoint get_tld_loop (fuel : nat) (domain : bytes) : option bytes :=
  match fuel, domain with
  | S f, _ :: _ =>
      if is_suffix domain then Some domain
      else match find_index is_dot domain with
           | None => None
           | Some pos => get_tld_loop f (drop (pos + 1) domain)
           end
  | _, _ => None
  end.

Definition get_tld (domain : bytes) : option bytes := get_tld_loop (length domain) domain.

(** [domain.rfind('.', pos)]. *)
Definition rfind_dot (domain : bytes) (pos : Z) : option nat :=
  rfind_index is_dot (take (Z.to_nat (Z.min (pos + 1) (Z.of_nat (length domain)))) domain).

Fixpoint reduce_loop (n : nat) (domain : bytes) (pos : Z) : bytes :=
  match n with
  | O => drop (Z.to_nat (u64 (pos + 2))) domain
  | S n' =>
      match rfind_dot domain pos with
      | None => domain
      | Some p => reduce_loop n' domain (u64 (Z.of_nat p - 1))
      end
  end.

Definition strip_dots (domain : bytes) : bytes :=
  reverse (drop_while is_dot (reverse (drop_while is_dot domain))).

Definition reduce_domain (domain : bytes) (n : nat) : bytes :=
  let domain := strip_dots domain in
  match get_tld domain with
  | Some tld => reduce_loop n domain (u64 (Z.of_nat (length domain) - Z.of_nat (length tld) - 2))
  | None =>
      match rfind_index is_dot domain with
      | Some pos => reduce_loop n domain (u64 (Z.of_nat pos - 1))
      | None => domain
      end
  end.
End Domains.

(** ** The format of the automaton *)

(** A node of the automaton: the end of a word, with its last characters and the word's value, or a label, which
    has a last character [c], with the nodes below it. *)
Inductive Node := Value (l : bytes) (v : Z) | Branch (l : bytes) (c : Z) (kids : list Node).

Definition node_label (n : Node) : bytes := match n with Value l _ => l | Branch l c _ => l ++ [c] end.

(** The words below a list of nodes, with their values. *)
Inductive has_word : list Node -> bytes -> Z -> Prop :=
| ValueWord ns l v : Value l v ∈ ns -> has_word ns l v
| BranchWord ns l c kids w v : Branch l c kids ∈ ns -> has_word kids w v -> has_word ns (l ++ c :: w) v.

(** No two nodes under the same one begin with the same character, and one at most is a bare value. *)
Inductive distinct : list Node -> Prop :=
| Distinct ns : NoDup ((fun n => head (node_label n)) <$> ns) -> (forall l c kids, Branch l c kids ∈ ns -> distinct kids) -> distinct ns.

(** A printable character of a label. *)
Definition printable (c : Z) : Prop := (0x20 <= c < 0x80)%Z.

(** The bytes of an offset, in one, two or three bytes; the highest bit of the first one is left for the mark of
    the last offset of a list. *)
Inductive offset_code : nat -> bytes -> Prop :=
| OneByte d0 : (0 <= d0 < 64)%Z -> offset_code (Z.to_nat d0) [d0]
| TwoBytes d1 d0 : (0 <= d1 < 32)%Z -> is_byte d0 -> offset_code (Z.to_nat (d1 * 256 + d0)) [64 + d1; d0]%Z
| ThreeBytes d2 d1 d0 : (0 <= d2 < 32)%Z -> is_byte d1 -> is_byte d0 ->
    offset_code (Z.to_nat (d2 * 65536 + d1 * 256 + d0)) [96 + d2; d1; d0]%Z.

Definition marked (code : bytes) : bytes := match code with b :: bs => (128 + b)%Z :: bs | [] => [] end.

Section Format.
Context (graph : bytes).

Definition stored (p : nat) (bs : bytes) : Prop := forall i b, bs !! i = Some b -> graph !! (p + i) = Some b.

(** A node is written as its label, and the last byte of the label, or the value, is marked.  Below a label
    follows the list of the offsets of the children, each counted from the one before, the last one marked. *)
Inductive encodes_node : nat -> Node -> Prop :=
| EncodesValue o l v : stored o (l ++ [128 + v]%Z) -> Forall printable l -> (0 <= v < 32)%Z -> encodes_node o (Value l v)
| EncodesBranch o l c kids :
    stored o (l ++ [128 + c]%Z) -> Forall printable (l ++ [c]) ->
    encodes_list (o + S (length l)) (o + S (length l)) kids -> encodes_node o (Branch l c kids)
with encodes_list : nat -> nat -> list Node -> Prop :=
| EncodesLast p off d code n :
    offset_code d code -> stored p (marked code) -> encodes_node (off + d) n -> encodes_list p off [n]
| EncodesNext p off d code n ns :
    offset_code d code -> stored p code -> encodes_node (off + d) n -> encodes_list (p + length code) (off + d) ns ->
    encodes_list p off (n :: ns).

(** A graph begins with the list of the first nodes. *)
Definition encodes (ns : list Node) : Prop := encodes_list 0 0 ns.
End Format.

Section Automaton.
Context (graph : bytes) (char_signed : bool).
Abbreviation fuel := (loop_fuel graph).

Lemma stored_cons p b bs : stored graph p (b :: bs) <-> graph !! p = Some b /\ stored graph (S p) bs.
Proof.
  unfold stored. split.
  - intros H. split; [rewrite <- (Nat.add_0_r p); by apply H|]. intros i x Hx. rewrite Nat.add_succ_comm. by apply H.
  - intros [H0 H] [|i] x Hx; [rewrite Nat.add_0_r; cbn in Hx; congruence|]. rewrite <- Nat.add_succ_comm. by apply H.
Qed.

(** *** Offsets *)

(** What the first byte of an offset says: its length, its own bits, and the mark. *)
Lemma first_byte b (m : bool) : (0 <= b < 128)%Z ->
  let x := ((if m then 128 else 0) + b)%Z in
  (Z.land x 0x60 = Z.land b 0x60 /\ Z.land x 0x1f = Z.land b 0x1f) /\ (Z.land x 0x3f = Z.land b 0x3f /\ negb (Z.land x 0x80 =? 0)%Z = m).
Proof. cbv zeta. revert b. destruct m; by_range. Qed.

(** Reading an offset gives it and moves past its bytes, unless it is the last one. *)
Lemma next_offset p off d code (last : bool) :
  offset_code d code -> stored graph p (if last then marked code else code) ->
  GetNextOffset graph (Some p) off = Some (Some (if last then None else Some (p + length code), off + d)).
Proof.
  intros Hcode Hst.
  assert (exists b bs, code = b :: bs /\ (0 <= b < 128)%Z /\ graph !! p = Some ((if last then 128 else 0) + b)%Z /\ stored graph (S p) bs) as (b & bs & -> & Hb & H0 & Hbs).
  { destruct Hcode; eexists _, _; (split; [done|]); (split; [unfold is_byte in *; lia|]); destruct last; cbn [marked] in Hst; apply stored_cons in Hst as [Hp Hbs]; by rewrite Hp. }
  destruct (first_byte b last Hb) as ((F1 & F2) & F3 & F4). unfold GetNextOffset. rewrite H0. cbn [mbind option_bind]. rewrite F1, F2, F3, F4.
  inversion Hcode as [? Hd|d1 d0 H1 H2|d2 d1 d0 H1 H2 H3]; subst; clear Hcode.
  - assert (forall x, (0 <= x < 64)%Z -> ((Z.land x 0x60 =? 0x60)%Z = false /\ (Z.land x 0x60 =? 0x40)%Z = false) /\ Z.land x 0x3f = x) as Hx by by_range.
    destruct (Hx b Hd) as ((-> & ->) & ->). done.
  - assert (forall x, (0 <= x < 32)%Z -> ((Z.land (64 + x) 0x60 =? 0x60)%Z = false /\ (Z.land (64 + x) 0x60 =? 0x40)%Z = true) /\ Z.land (64 + x) 0x1f = x) as Hx by by_range.
    destruct (Hx d1 H1) as ((-> & ->) & ->). apply stored_cons in Hbs as [Hb1 _].
    rewrite Nat.add_1_r, Hb1. cbn [mbind option_bind length]. rewrite lor_low by (unfold is_byte in *; lia). done.
  - assert (forall x, (0 <= x < 32)%Z -> (Z.land (96 + x) 0x60 =? 0x60)%Z = true /\ Z.land (96 + x) 0x1f = x) as Hx by by_range.
    destruct (Hx d2 H1) as (-> & ->). apply stored_cons in Hbs as [Hb1 [Hb2 _]%stored_cons].
    replace (p + 1) with (S p) by lia. replace (p + 2) with (S (S p)) by lia. rewrite Hb1, Hb2. cbn [mbind option_bind length].
    replace (Z.lor (Z.shiftl d2 16) (Z.shiftl d1 8)) with (Z.shiftl (d2 * 2 ^ 8 + d1) 8).
    + rewrite lor_low by (unfold is_byte in *; lia). by replace ((d2 * 2 ^ 8 + d1) * 2 ^ 8)%Z with (d2 * 65536 + d1 * 256)%Z by lia.
    + rewrite <- (lor_low d2 d1 8) by (unfold is_byte in *; lia). by rewrite Z.shiftl_lor, Z.shiftl_shiftl by lia.
Qed.

(** *** Nodes *)

(** What is below a node once the first character of its label is read. *)
Definition below (n : Node) : list Node :=
  match n with
  | Value (_ :: l) v => [Value l v]
  | Branch (_ :: l) c kids => [Branch l c kids]
  | Branch [] _ kids => kids
  | Value [] _ => []
  end.

Lemma word_cons ns c w v : has_word ns (c :: w) v <-> exists n, n ∈ ns /\ head (node_label n) = Some c /\ has_word (below n) w v.
Proof.
  split.
  - intros H. remember (c :: w) as cw eqn:E. destruct H as [ns l v Hin|ns l c' kids w' v Hin Hw].
    + subst l. exists (Value (c :: w) v). split_and!; [done..|]. apply ValueWord. cbn. set_solver.
    + eexists. split; [exact Hin|]. destruct l as [|x l]; cbn in E |- *; injection E as <- <-; [done|].
      split; [done|]. eapply BranchWord; [|done]. set_solver.
  - intros (n & Hin & Hc & Hw). destruct n as [[|x l] u|[|x l] y kids]; cbn in *; [done|..]; injection Hc as ->.
    + inversion Hw as [? ? ? Hin' |? ? ? ? ? ? Hin']; subst; apply list_elem_of_singleton in Hin'; [|done]. injection Hin' as -> ->. by apply ValueWord.
    + apply (BranchWord _ [] c kids); done.
    + inversion Hw as [? ? ? Hin' |? l' ? ? w' ? Hin' Hw']; subst; apply list_elem_of_singleton in Hin'; [done|]. injection Hin' as -> -> ->.
      by apply (BranchWord _ (c :: l) y kids).
Qed.

Lemma word_nil ns v : has_word ns [] v <-> Value [] v ∈ ns.
Proof.
  split; [|by apply ValueWord]. intros H. remember [] as w eqn:E. destruct H as [ns l v Hin|ns l c kids w v Hin Hw]; [by subst|by destruct l].
Qed.

Lemma distinct_below ns n : distinct ns -> n ∈ ns -> distinct (below n).
Proof.
  intros Hd Hin. destruct Hd as [ns _ Hk]. assert (forall n', (forall l c kids, n' = Branch l c kids -> distinct kids) -> distinct [n']) as Hs.
  { intros n' Hn'. constructor; [apply NoDup_singleton|]. intros l c kids H%list_elem_of_singleton. by eapply Hn'. }
  destruct n as [[|x l] u|[|x l] y kids]; cbn.
  - constructor; [constructor|]. intros ? ? ? H. set_solver.
  - by apply Hs.
  - by eapply Hk.
  - apply Hs. intros l' c kids' [= -> -> ->]. by eapply Hk.
Qed.

Lemma distinct_same ns n n' : distinct ns -> n ∈ ns -> n' ∈ ns -> head (node_label n) = head (node_label n') -> n = n'.
Proof.
  intros Hd [i Hi]%list_elem_of_lookup [j Hj]%list_elem_of_lookup E. destruct Hd as [ns Hn _].
  assert (i = j) as ->; [|congruence]. apply (NoDup_lookup _ i j (head (node_label n)) Hn); rewrite list_lookup_fmap.
  - by rewrite Hi.
  - by rewrite Hj, E.
Qed.

(** *** States *)

(** A state of the lookup before a list of offsets, or inside a label, and the nodes the rest of the word is
    among. *)
Inductive at_state : FixedSetIncrementalLookup -> list Node -> Prop :=
| AtList p ns : encodes_list graph p p ns -> at_state (MkLookup (Some p) false) ns
| InLabel p n : encodes_node graph p n -> at_state (MkLookup (Some p) true) [n].

(** What the byte at a node says of it. *)
Definition byte_says (b : Z) (o : nat) (n : Node) : Prop :=
  match head (node_label n) with
  | Some c => printable c /\ Z.land b 0x7f = c /\ GetReturnValue b = None /\ at_state (MkLookup (Some (o + 1)) (negb (IsEOL b))) (below n)
  | None => exists v, n = Value [] v /\ (0 <= v < 32)%Z /\ Z.land b 0x7f = v /\ GetReturnValue b = Some v
  end.

Lemma plain_char c : printable c -> Z.land c 0x7f = c /\ GetReturnValue c = None /\ IsEOL c = false.
Proof.
  revert c. assert (forall c, (0 <= c < 128)%Z -> (c < 32)%Z \/ (Z.land c 0x7f = c /\ GetReturnValue c = None /\ IsEOL c = false)) as H by by_range.
  unfold printable. intros c Hc. destruct (H c); [lia|lia|done].
Qed.

Lemma marked_char c : printable c -> Z.land (128 + c) 0x7f = c /\ GetReturnValue (128 + c) = None /\ IsEOL (128 + c) = true.
Proof.
  revert c. assert (forall c, (0 <= c < 128)%Z -> (c < 32)%Z \/ (Z.land (128 + c) 0x7f = c /\ GetReturnValue (128 + c) = None /\ IsEOL (128 + c) = true)) as H by by_range.
  unfold printable. intros c Hc. destruct (H c); [lia|lia|done].
Qed.

Lemma marked_value v : (0 <= v < 32)%Z -> Z.land (128 + v) 0x7f = v /\ GetReturnValue (128 + v) = Some v.
Proof. revert v. by_range. Qed.

Lemma node_byte o n : encodes_node graph o n -> exists b, graph !! o = Some b /\ byte_says b o n.
Proof.
  destruct 1 as [o [|x l] v Hst Hl Hv|o [|x l] c kids Hst Hl Hk]; cbn [app] in Hst; apply stored_cons in Hst as [H0 Hst];
    (eexists; split; [exact H0|]); unfold byte_says; cbn [node_label head app below].
  - exists v. by destruct (marked_value v Hv).
  - inversion Hl as [|? ? Hx Hl']; subst. destruct (plain_char x Hx) as (E1 & E2 & ->). split_and!; [done..|].
    constructor. rewrite Nat.add_1_r. by constructor.
  - inversion Hl as [|? ? Hx Hl']; subst. destruct (marked_char c Hx) as (E1 & E2 & ->). split_and!; [done..|]. by constructor.
  - inversion Hl as [|? ? Hx Hl']; subst. destruct (plain_char x Hx) as (E1 & E2 & ->). split_and!; [done..|].
    constructor. rewrite Nat.add_1_r. constructor; [done..|]. by rewrite Nat.add_succ_comm.
Qed.

Lemma says_match b o n input : byte_says b o n -> (0x20 <= input)%Z -> IsMatch b input = true <-> head (node_label n) = Some input.
Proof.
  unfold byte_says, IsMatch. intros Hs Hi. rewrite Z.eqb_eq. destruct (head (node_label n)) as [c|].
  - destruct Hs as (_ & -> & _). split; congruence.
  - destruct Hs as (v & _ & Hv & -> & _). split; [lia|done].
Qed.

Lemma list_length p off ns : encodes_list graph p off ns -> p + length ns <= length graph.
Proof.
  assert (forall d code, offset_code d code -> exists b bs, code = b :: bs) as Hne by (destruct 1; by eexists _, _).
  revert p off. induction ns as [|n ns IH]; intros p off H; inversion H as [? ? d code ? Hc Hst|? ? d code ? ? Hc Hst _ Hl]; subst;
    destruct (Hne d code Hc) as (b & bs & ->); apply stored_cons in Hst as [Hp%lookup_lt_Some _]; cbn in *; [lia|].
  apply IH in Hl. cbn in Hl. lia.
Qed.

(** One turn of the loops over the children. *)
Lemma list_next p off n ns :
  encodes_list graph p off (n :: ns) ->
  exists pos' o, GetNextOffset graph (Some p) off = Some (Some (pos', o)) /\ encodes_node graph o n /\
    match ns with [] => pos' = None | _ => exists p', pos' = Some p' /\ encodes_list graph p' o ns end.
Proof.
  intros H. inversion H as [? ? d code ? Hc Hst Hn|? ? d code ? ? Hc Hst Hn Hl]; subst.
  - eexists _, _. split; [by apply (next_offset p off d code true)|]. done.
  - eexists _, _. split; [by apply (next_offset p off d code false)|]. split; [done|]. destruct ns; [by inversion Hl|]. by eexists.
Qed.

Lemma match_child_list f p off ns input :
  encodes_list graph p off ns -> length ns < f -> (0x20 <= input)%Z ->
  (exists n o b, match_child graph f (Some p) off input = Some (Some (o, b)) /\ n ∈ ns /\ byte_says b o n /\ head (node_label n) = Some input) \/
  (match_child graph f (Some p) off input = Some None /\ forall n, n ∈ ns -> head (node_label n) <> Some input).
Proof.
  revert p off ns. induction f as [|f IH]; intros p off [|n ns] Hl Hf Hi; [cbn in Hf; lia..|by inversion Hl|].
  apply list_next in Hl as (pos' & o & HN & Hn & Hrest). cbn [match_child]. rewrite HN.
  destruct (node_byte o n Hn) as (b & Hb & Hs). rewrite Hb. cbn [mbind option_bind].
  pose proof (says_match b o n input Hs Hi) as Hm. destruct (IsMatch b input).
  { left. exists n, o, b. split_and!; [done|set_solver|done|by apply Hm]. }
  assert (head (node_label n) <> Some input) as Hno by (intros E; apply Hm in E; done).
  destruct ns as [|n' ns].
  - subst pos'. right. split; [destruct f; [cbn in Hf; lia|done]|]. intros n'' ->%list_elem_of_singleton. done.
  - destruct Hrest as (p' & -> & Hl). cbn in Hf. destruct (IH p' o (n' :: ns) Hl ltac:(cbn; lia) Hi) as [(m & o' & b' & -> & Hin & ?)|[-> Hall]].
    + left. exists m, o', b'. split; [done|]. split; [set_solver|done].
    + right. split; [done|]. intros m [-> |Hm']%elem_of_cons; [done|by apply Hall].
Qed.

Lemma result_child_list f p off ns :
  encodes_list graph p off ns -> length ns < f ->
  (exists v, result_child graph f (Some p) off = Some v /\ Value [] v ∈ ns /\ (0 <= v < 32)%Z) \/
  (result_child graph f (Some p) off = Some kDafsaNotFound /\ forall v, Value [] v ∉ ns).
Proof.
  revert p off ns. induction f as [|f IH]; intros p off [|n ns] Hl Hf; [cbn in Hf; lia..|by inversion Hl|].
  apply list_next in Hl as (pos' & o & HN & Hn & Hrest). cbn [result_child]. rewrite HN.
  destruct (node_byte o n Hn) as (b & Hb & Hs). rewrite Hb. cbn [mbind option_bind]. unfold byte_says in Hs.
  destruct (head (node_label n)) as [c|] eqn:Hh.
  2:{ destruct Hs as (v & -> & Hv & _ & ->). left. exists v. split; [done|]. split; [set_solver|done]. }
  destruct Hs as (_ & _ & -> & _). assert (forall v, Value [] v <> n) as Hno by (intros v E; subst n; cbn in Hh; discriminate). destruct ns as [|n' ns].
  - subst pos'. right. split; [destruct f; [cbn in Hf; lia|done]|]. intros v E%list_elem_of_singleton. by eapply Hno.
  - destruct Hrest as (p' & -> & Hl). cbn in Hf. destruct (IH p' o (n' :: ns) Hl ltac:(cbn; lia)) as [(v & -> & Hin & ?)|[-> Hall]].
    + left. exists v. split; [done|]. split; [set_solver|done].
    + right. split; [done|]. intros v [E|Hin]%elem_of_cons; [by eapply Hno|by eapply Hall].
Qed.

Lemma head_printable o n h : encodes_node graph o n -> head (node_label n) = Some h -> printable h.
Proof. intros (b & _ & Hb)%node_byte Hh. unfold byte_says in Hb. rewrite Hh in Hb. apply Hb. Qed.

Lemma list_nodes p off ns n : encodes_list graph p off ns -> n ∈ ns -> exists o, encodes_node graph o n.
Proof.
  revert p off. induction ns as [|n' ns IH]; intros p off Hl Hin; [by apply elem_of_nil in Hin|].
  apply list_next in Hl as (pos' & o & _ & Hn & Hrest). apply elem_of_cons in Hin as [-> |Hin]; [by exists o|].
  destruct ns; [by apply elem_of_nil in Hin|]. destruct Hrest as (p' & _ & Hl). by eapply IH.
Qed.

Lemma state_printable s ns n h : at_state s ns -> n ∈ ns -> head (node_label n) = Some h -> printable h.
Proof.
  destruct 1 as [p ns Hl|p n' Hn]; intros Hin Hh.
  - destruct (list_nodes p p ns n Hl Hin) as [o Hn]. by eapply head_printable.
  - apply list_elem_of_singleton in Hin as ->. by eapply head_printable.
Qed.

(** A printable character is the same number whether [char] is signed or not. *)
Lemma char_value_printable h c : is_byte c -> printable h -> h = char_value char_signed c <-> h = c.
Proof.
  unfold printable, char_value, is_byte. intros Hc Hh.
  destruct (Z.leb_spec 128 c); rewrite ?andb_true_r, ?andb_false_r; [destruct char_signed; lia|done].
Qed.

(** Reading a character goes below the node whose label begins with it. *)
Lemma advance_below c s ns :
  is_byte c -> at_state s ns ->
  exists ok s', Advance graph char_signed c s = Some (ok, s') /\
    (if ok then exists n, n ∈ ns /\ head (node_label n) = Some c /\ at_state s' (below n)
     else forall n, n ∈ ns -> head (node_label n) <> Some c).
Proof.
  intros Hc Hs. set (input := char_value char_signed c).
  assert (forall n, n ∈ ns -> head (node_label n) = Some input <-> head (node_label n) = Some c) as Hsame.
  { intros n Hin. pose proof (fun h => state_printable s ns n h Hs Hin) as Hp. destruct (head (node_label n)) as [h|]; [|done].
    pose proof (char_value_printable h c Hc (Hp h eq_refl)). split; intros [= E]; f_equal; tauto. }
  assert ((input < 0x20)%Z -> forall n, n ∈ ns -> head (node_label n) <> Some c) as Hlow.
  { intros Hi n Hin E. apply Hsame in E; [|done]. apply (state_printable s ns n _ Hs Hin) in E. unfold printable in E. lia. }
  unfold Advance. fold input. destruct Hs as [p ns Hl|p n Hn]; cbn [pos_ pos_is_label_character_];
    (destruct (Z.leb_spec 0x20 input) as [Hi|Hi]; [|by eexists false, _; split; [done|]; apply Hlow]).
  - destruct (match_child_list fuel p p ns input Hl) as [(n & o & b & -> & Hin & Hb & Hh)|[-> Hno]]; [|done|..].
    + apply list_length in Hl. unfold loop_fuel. lia.
    + cbn [mbind option_bind]. eexists true, _. split; [done|]. exists n. split_and!; [done|by apply Hsame|].
      unfold byte_says in Hb. rewrite Hh in Hb. apply Hb.
    + cbn [mbind option_bind]. eexists false, _. split; [done|]. intros n Hin. rewrite <- Hsame by done. by apply Hno.
  - destruct (node_byte p n Hn) as (b & -> & Hb). cbn [mbind option_bind]. pose proof (says_match b p n input Hb Hi) as Hm.
    assert (n ∈ [n]) as Hin by set_solver. destruct (IsMatch b input).
    + eexists true, _. split; [done|]. exists n. assert (head (node_label n) = Some input) as Hh by (by apply Hm).
      split_and!; [done|by apply Hsame|]. unfold byte_says in Hb. rewrite Hh in Hb. apply Hb.
    + eexists false, _. split; [done|]. intros n' ->%list_elem_of_singleton. rewrite <- Hsame by done. intros E%Hm. done.
Qed.

(** The result in a state is the value of the word that ends there. *)
Lemma result_word s ns :
  at_state s ns -> distinct ns ->
  exists v, GetResultForCurrentSequence graph s = Some v /\ (v = kDafsaNotFound \/ 0 <= v < 32)%Z /\
    forall u, (0 <= u)%Z -> v = u <-> has_word ns [] u.
Proof.
  intros Hs Hd. unfold GetResultForCurrentSequence. destruct Hs as [p ns Hl|p n Hn]; cbn [pos_ pos_is_label_character_ from_option id].
  - destruct (result_child_list fuel p p ns Hl) as [(v & -> & Hin & Hv)|[-> Hno]].
    + apply list_length in Hl. unfold loop_fuel. lia.
    + exists v. split; [done|]. split; [by right|]. intros u Hu. rewrite word_nil. split; [by intros <-|]. intros Hin'.
      by injection (distinct_same ns _ _ Hd Hin Hin' eq_refl).
    + eexists. split_and!; [done|by left|]. intros u Hu. rewrite word_nil. split; [unfold kDafsaNotFound; lia|]. by intros ?%Hno.
  - destruct (node_byte p n Hn) as (b & -> & Hb). cbn [mbind option_bind]. eexists. split; [done|]. unfold byte_says in Hb.
    setoid_rewrite word_nil. setoid_rewrite list_elem_of_singleton. destruct (head (node_label n)) as [c|] eqn:Hh.
    + destruct Hb as (_ & _ & -> & _). split; [by left|]. intros u Hu. cbn. split; [unfold kDafsaNotFound; lia|]. by intros <-.
    + destruct Hb as (v & -> & Hv & _ & ->). split; [by right|]. intros u Hu. cbn. split; congruence.
Qed.

Lemma lookup_words key s ns :
  is_bytes key -> at_state s ns -> distinct ns ->
  exists v, lookup_loop graph char_signed key s = Some v /\ (v = kDafsaNotFound \/ 0 <= v < 32)%Z /\
    forall u, (0 <= u)%Z -> v = u <-> has_word ns key u.
Proof.
  intros Hk. revert s ns. induction Hk as [|c key Hc _ IH]; intros s ns Hs Hd; cbn [lookup_loop]; [by apply result_word|].
  destruct (advance_below c s ns Hc Hs) as (ok & s' & -> & Hn). cbn [mbind option_bind]. destruct ok; cbn [negb].
  - destruct Hn as (n & Hin & Hh & Hs'). destruct (IH s' (below n) Hs' (distinct_below ns n Hd Hin)) as (v & -> & Hv & Hu).
    exists v. split; [done|]. split; [done|]. intros u Hu0. rewrite Hu, word_cons by done. split; [intros Hw; by exists n|].
    intros (n' & Hin' & Hh' & Hw). by rewrite (distinct_same ns n n') by congruence.
  - eexists. split_and!; [done|by left|]. intros u Hu. rewrite word_cons. split; [unfold kDafsaNotFound; lia|].
    intros (n & Hin & Hh & _). by apply Hn in Hh.
Qed.

(** C31: On a graph written in the documented format, whose offsets take one, two or three bytes, and where no two
    nodes below the same one begin alike, every lookup of a key ends without reading outside of the graph.  It
    gives the value of the key when the key is one of the words of the graph, and [kDafsaNotFound] when it is not;
    whether [char] is signed makes no difference. *)
Theorem lookup_follows_paths ns key :
  encodes graph ns -> distinct ns -> is_bytes key ->
  exists v, LookupStringInFixedSet graph char_signed key = Some v /\ (v = kDafsaNotFound \/ 0 <= v < 32)%Z /\
    forall u, (0 <= u)%Z -> v = u <-> has_word ns key u.
Proof. intros Hg Hd Hk. apply lookup_words; [done| |done]. by constructor. Qed.
End Automaton.

(** The words [a], with value 0, and [bcd], with value 2; the offset of the first one is written in three bytes, the
    one of the second in two. *)
Definition tiny_graph : bytes := [0x60; 0; 5; 0xc0; 2; 0x61; 0x80; 0x62; 0xe3; 0x81; 0x64; 0x82]%Z.
Definition tiny_words : list Node := [Value (str "a") 0; Branch (str "b") (chr "c") [Value (str "d") 2]].

Lemma stored_check graph p bs : take (length bs) (drop p graph) = bs -> stored graph p bs.
Proof.
  intros E i b Hi. rewrite <- lookup_drop. rewrite <- E in Hi. apply lookup_lt_Some in Hi as Hlt. rewrite lookup_take_lt in Hi; [done|].
  rewrite length_take in Hlt. lia.
Qed.

Lemma tiny_encodes : encodes tiny_graph tiny_words.
Proof.
  assert (forall o l v, (0 <= v < 32)%Z -> take (length (l ++ [128 + v]%Z)) (drop o tiny_graph) = (l ++ [128 + v]%Z) ->
    Forall printable l -> encodes_node tiny_graph o (Value l v)) as Hv.
  { intros o l v Hv E Hl. constructor; [by apply stored_check|done..]. }
  apply (EncodesNext _ 0 0 5 [0x60; 0; 5]%Z).
  - apply (ThreeBytes 0 0 5); unfold is_byte; lia.
  - by apply stored_check.
  - apply Hv; [lia|done|]. repeat constructor; by vm_compute.
  - apply (EncodesLast _ 3 5 2 [0x40; 2]%Z).
    + apply (TwoBytes 0 2); unfold is_byte; lia.
    + by apply stored_check.
    + constructor; [by apply stored_check|repeat constructor; by vm_compute|].
      apply (EncodesLast _ 9 9 1 [1]%Z).
      * apply (OneByte 1). lia.
      * by apply stored_check.
      * apply Hv; [lia|done|]. repeat constructor; by vm_compute.
Qed.

Lemma tiny_distinct : distinct tiny_words.
Proof.
  constructor; [by apply (bool_decide_eq_true (NoDup _))|]. intros l c kids Hin. unfold tiny_words in Hin.
  apply elem_of_cons in Hin as [?|[= -> -> ->]%list_elem_of_singleton]; [done|]. constructor; [apply NoDup_singleton|].
  intros l' c' kids' Hin'%list_elem_of_singleton. done.
Qed.

Lemma lookup_follows_paths_witness :
  (exists v, LookupStringInFixedSet tiny_graph true (str "bcd") = Some v /\ v = 2%Z) /\
  (exists v, LookupStringInFixedSet tiny_graph true (str "bc") = Some v /\ ~ has_word tiny_words (str "bc") 2).
Proof.
  split.
  - destruct (lookup_follows_paths tiny_graph true tiny_words (str "bcd")) as (v & E & _ & Hu);
      [apply tiny_encodes|apply tiny_distinct|apply str_bytes|].
    exists v. split; [done|]. apply Hu; [lia|]. apply (BranchWord _ (str "b") (chr "c") [Value (str "d") 2]); [set_solver|].
    apply ValueWord. set_solver.
  - destruct (lookup_follows_paths tiny_graph true tiny_words (str "bc")) as (v & E & _ & Hu);
      [apply tiny_encodes|apply tiny_distinct|apply str_bytes|].
    exists v. split; [done|]. rewrite <- Hu by lia. vm_compute in E. injection E as <-. lia.
Defined.

(** ** Domains *)

Section DomainFacts.
Context (is_suffix : bytes -> bool).

(** A suffix that begins the text or follows a dot. *)
Definition label_suffix (t domain : bytes) : Prop :=
  t <> [] /\ exists pre, domain = pre ++ t /\ (pre = [] \/ last pre = Some (chr ".")).

Lemma label_suffix_next domain pos t :
  find_index is_dot domain = Some pos ->
  label_suffix t domain <-> (t = domain /\ domain <> []) \/ label_suffix t (drop (pos + 1) domain).
Proof.
  intros (l & x & r & -> & <- & Hx & Hl)%find_index_split. unfold is_dot in Hx. apply Z.eqb_eq in Hx as ->.
  rewrite drop_app_ge by lia. replace (length l + 1 - length l) with 1 by lia. cbn [drop]. rewrite drop_0. split.
  - intros (Hne & pre & E & Hpre). destruct Hpre as [-> |Hpre]; [left; by rewrite E|]. right. split; [done|].
    apply last_Some in Hpre as [pre' ->]. rewrite <- app_assoc in E. cbn [app] in E.
    assert (exists q, pre' = l ++ q /\ (q = [] \/ exists q', q = chr "." :: q')) as (q & -> & Hq).
    { clear -E Hl. revert pre' E. induction Hl as [|y l Hy _ IH]; intros [|z pre'] E; cbn [app] in E.
      - exists []. split; [done|by left].
      - injection E as <- E. exists (chr "." :: pre'). split; [done|]. right. by exists pre'.
      - injection E as -> E. by vm_compute in Hy.
      - injection E as <- E. destruct (IH _ E) as (q & -> & Hq). exists q. done. }
    rewrite <- app_assoc in E. apply app_inv_head in E. destruct Hq as [-> | [q' ->]]; cbn [app] in E; injection E as ->.
    + exists []. split; [done|by left].
    + exists (q' ++ [chr "."]). rewrite <- app_assoc. split; [done|]. right. apply last_snoc.
  - intros [[-> Hne]|(Hne & pre & -> & Hpre)]; [split; [done|]; exists []; split; [done|by left]|].
    split; [done|]. exists (l ++ chr "." :: pre). rewrite <- app_assoc. split; [done|]. right.
    destruct Hpre as [-> |[pre' ->]%last_Some]; [apply last_snoc|]. by rewrite app_comm_cons, app_assoc, last_snoc.
Qed.

Lemma label_suffix_last domain t : find_index is_dot domain = None -> label_suffix t domain <-> t = domain /\ domain <> [].
Proof.
  intros Hn. rewrite find_index_None, Forall_forall in Hn. split.
  - intros (Hne & pre & -> & [-> |[l ->]%last_Some]); [done|]. exfalso.
    specialize (Hn (chr ".")). cbn in Hn. unfold is_dot in Hn. rewrite Z.eqb_refl in Hn. discriminate Hn. set_solver.
  - intros [-> Hne]. split; [done|]. exists []. split; [done|by left].
Qed.

Lemma get_tld_loop_longest f domain :
  length domain <= f ->
  match get_tld_loop is_suffix f domain with
  | Some t => label_suffix t domain /\ is_suffix t = true /\
      forall t', label_suffix t' domain -> is_suffix t' = true -> length t' <= length t
  | None => forall t', label_suffix t' domain -> is_suffix t' = false
  end.
Proof.
  revert domain. induction f as [|f IH]; intros [|c domain] Hf; cbn [get_tld_loop].
  - intros t' (Hne & pre & E & _). destruct pre, t'; done.
  - cbn in Hf. lia.
  - intros t' (Hne & pre & E & _). destruct pre, t'; done.
  - destruct (is_suffix (c :: domain)) eqn:Es.
    + split; [split; [done|]; exists []; split; [done|by left]|]. split; [done|]. intros t' (_ & pre & E & _) _.
      rewrite E, length_app. lia.
    + destruct (find_index is_dot (c :: domain)) as [pos|] eqn:Ef.
      2:{ intros t' Ht. apply label_suffix_last in Ht as [-> _]; done. }
      pose proof (find_index_lt _ _ _ Ef) as Hlt.
      assert (length (drop (pos + 1) (c :: domain)) <= f) as Hf' by (rewrite length_drop; cbn in *; lia).
      specialize (IH _ Hf'). pose proof (fun t => label_suffix_next _ _ t Ef) as Hnext. destruct (get_tld_loop is_suffix f _) as [t|].
      * destruct IH as (H1 & H2 & H3). split; [apply Hnext; by right|]. split; [done|].
        intros t' Ht Hs. apply Hnext in Ht as [[-> _]|Ht]; [congruence|by apply H3].
      * intros t' Ht. apply Hnext in Ht as [[-> _]|Ht]; [done|by apply IH].
Qed.

(** C33: [get_tld] ends and gives the longest suffix of whole labels that is in the set, and nothing
    when no such suffix is. *)
Theorem get_tld_longest domain :
  match get_tld is_suffix domain with
  | Some t => label_suffix t domain /\ is_suffix t = true /\
      forall t', label_suffix t' domain -> is_suffix t' = true -> length t' <= length t
  | None => forall t', label_suffix t' domain -> is_suffix t' = false
  end.
Proof. by apply get_tld_loop_longest. Qed.

(** A label of a domain name. *)
Definition label (l : bytes) : Prop := l <> [] /\ Forall (fun c => is_dot c = false) l.

Abbreviation dotted ls := (join ls (str ".")) (only parsing).

Lemma join_app (a b : list bytes) d : a <> [] -> b <> [] -> join (a ++ b) d = join a d ++ d ++ join b d.
Proof.
  intros Ha Hb. induction a as [|x [|y a] IH]; [done|..].
  - destruct b as [|z b]; [done|]. cbn [app]. by rewrite join_cons.
  - change ((x :: y :: a) ++ b) with (x :: y :: (a ++ b)). rewrite !join_cons.
    change (y :: a ++ b) with ((y :: a) ++ b). rewrite IH by done. by rewrite <- !app_assoc.
Qed.

Lemma dotted_length ls : ls <> [] -> Forall label ls -> 0 < length (dotted ls).
Proof.
  intros Hne Hl. destruct Hl as [|x ls [Hx _] _]; [done|]. destruct x as [|c x]; [done|].
  destruct ls as [|y ls]; [cbn; lia|]. rewrite join_cons, length_app. cbn. lia.
Qed.

Lemma rfind_dot_join a x :
  a <> [] -> Forall (fun c => is_dot c = false) x -> rfind_index is_dot (dotted (a ++ [x])) = Some (length (dotted a)).
Proof.
  intros Ha Hx. rewrite join_app by done. apply rfind_index_Some. exists (chr ".").
  change (str "." ++ join [x] (str ".")) with (chr "." :: x). rewrite list_lookup_middle by done. split; [done|]. split; [done|].
  replace (dotted a ++ chr "." :: x) with ((dotted a ++ str ".") ++ x) by (by rewrite <- app_assoc).
  replace (S (length (dotted a))) with (length (dotted a ++ str ".")) by (rewrite length_app; cbn; lia).
  by rewrite drop_app_length.
Qed.

Lemma reduce_loop_labels n a rl :
  a <> [] -> rl <> [] -> Forall label (a ++ rl) -> (Z.of_nat (length (dotted (a ++ rl))) < 2 ^ 63)%Z ->
  reduce_loop n (dotted (a ++ rl)) (u64 (Z.of_nat (length (dotted a)) - 1)) = dotted (drop (length a - n) (a ++ rl)).
Proof.
  revert a rl. induction n as [|n IH]; intros a rl Ha Hrl Hl Hsz;
    pose proof (dotted_length a Ha (proj1 (proj1 (Forall_app _ _ _) Hl))) as Hpos;
    pose proof (join_app a rl (str ".") Ha Hrl) as Ej;
    assert (length (dotted a) <= length (dotted (a ++ rl))) as Hle by (rewrite Ej, length_app; lia);
    cbn [reduce_loop]; unfold u64 at 1; rewrite (wrap_small 64 (Z.of_nat _ - 1)) by lia.
  - unfold u64. rewrite wrap_small by lia. replace (Z.to_nat (Z.of_nat (length (dotted a)) - 1 + 2)) with (length (dotted a) + 1) by lia.
    rewrite Nat.sub_0_r, drop_app_length, Ej, drop_app_ge by lia.
    by replace (length (dotted a) + 1 - length (dotted a)) with 1 by lia.
  - unfold rfind_dot. replace (Z.to_nat _) with (length (dotted a)) by lia.
    rewrite Ej at 1. rewrite take_app_length.
    destruct a as [|x a _] using rev_ind; [done|]. clear Ha. apply Forall_app in Hl as [[Hla Hx]%Forall_app Hlr].
    inversion Hx as [|? ? [_ Hdx] _]; subst. destruct a as [|y a].
    + cbn [app join join_loop]. rewrite (proj2 (rfind_index_None _ _)) by done. done.
    + rewrite rfind_dot_join by done. rewrite length_app, <- app_assoc. cbn [length].
      rewrite (IH (y :: a) ([x] ++ rl)); [|done|done| |].
      * cbn [length]. by replace (S (length a) + 1 - S n) with (S (length a) - n) by lia.
      * rewrite !Forall_app. auto.
      * by rewrite <- app_assoc in Hsz.
Qed.

Lemma strip_dots_dotted ls : ls <> [] -> Forall label ls -> strip_dots (dotted ls) = dotted ls.
Proof.
  intros Hne Hl. assert (forall c, head (dotted ls) = Some c -> is_dot c = false) as Hh.
  { destruct Hl as [|x ls [Hx Hd] _]; [done|]. destruct Hd as [|d x Hd _]; [done|].
    intros c. destruct ls as [|y ls]; [|rewrite join_cons]; cbn; by intros [= <-]. }
  assert (forall c, last (dotted ls) = Some c -> is_dot c = false) as Ht.
  { destruct ls as [|x ls _] using rev_ind; [done|]. apply Forall_app in Hl as [_ Hl]. inversion Hl as [|? ? [Hx Hd] _]; subst.
    intros c Hc. assert (last x = Some c) as Hx'.
    { destruct ls as [|y ls]; [done|]. rewrite join_app in Hc by done. cbn [join join_loop] in Hc.
      destruct x as [|d x _] using rev_ind; [done|]. rewrite !app_assoc, last_snoc in Hc. by rewrite last_snoc. }
    apply last_Some in Hx' as [x' ->]. rewrite Forall_app, Forall_singleton in Hd. apply Hd. }
  generalize dependent (dotted ls). intros s Hh Ht. unfold strip_dots.
  assert (drop_while is_dot s = s) as -> by (destruct s as [|c s]; [done|]; cbn; by rewrite (Hh c)).
  destruct s as [|c s _] using rev_ind; [done|]. rewrite reverse_snoc. cbn [drop_while].
  rewrite (Ht c) by apply last_snoc. by rewrite reverse_cons, reverse_involutive.
Qed.

(** Reducing a domain name to [n] levels keeps its public suffix, or its last label when no suffix is
    known, and the [n] labels before it; the whole name when it has no more labels than that. *)
Theorem reduce_domain_labels hd tl n :
  hd <> [] -> tl <> [] -> Forall label (hd ++ tl) -> (Z.of_nat (length (dotted (hd ++ tl))) < 2 ^ 63)%Z ->
  get_tld is_suffix (dotted (hd ++ tl)) = Some (dotted tl) \/
  (get_tld is_suffix (dotted (hd ++ tl)) = None /\ length tl = 1) ->
  reduce_domain is_suffix (dotted (hd ++ tl)) n = dotted (drop (length hd - n) (hd ++ tl)).
Proof.
  intros Hh Ht Hl Hsz Htld. unfold reduce_domain. rewrite strip_dots_dotted by (done || by destruct hd).
  destruct Htld as [-> | [-> H1]].
  - rewrite <- reduce_loop_labels by done. f_equal. f_equal. rewrite join_app, !length_app by done. cbn. lia.
  - destruct tl as [|x [|]]; [done| |done]. rewrite rfind_dot_join; [by apply reduce_loop_labels|done|].
    apply Forall_app in Hl as [_ Hl]. by inversion Hl as [|? ? [_ ?] _]; subst.
Qed.
End DomainFacts.

Definition two_level (s : bytes) : bool := bool_decide (s = str "co.uk") || bool_decide (s = str "uk") || bool_decide (s = str "com").

Lemma reduce_domain_labels_witness :
  reduce_domain two_level (str "www.news.bbc.co.uk") 1 = str "bbc.co.uk".
Proof.
  apply (reduce_domain_labels two_level [str "www"; str "news"; str "bbc"] [str "co"; str "uk"] 1); [done|done| |done|by left].
  repeat constructor; done.
Defined.

(** A name that is itself a public suffix loses labels instead of being kept. *)
Lemma reduce_suffix_itself : reduce_domain two_level (str "co.uk") 1 = str "uk".
Proof. by vm_compute. Qed.
