(* ===== verification/Cidr.v ===== *)
(** * CIDR ranges: class [CidrRange] of [common/include/common/cidr_range.h]

    The operations work on the address and mask bytes as the source does.  The theorems read a range
    as its network prefix, a list of bits: containment is the prefix relation, a split appends one
    bit, and [exclude] computes the set difference. *)

From S2P Require Import StringView Utils Error.

Inductive CidrError := AE_IP_ADDR_TOO_LONG | AE_PARSE_NET_STRING_ERROR.

#[export] Instance cidr_error_string : ErrorCodeToString CidrError := fun e =>
  match e with
  | AE_IP_ADDR_TOO_LONG => str "Address string too long"
  | AE_PARSE_NET_STRING_ERROR => str "Failed to parse string to network address"
  end.

Definition IPV4_ADDRESS_SIZE : nat := 4.
Definition IPV6_ADDRESS_SIZE : nat := 16.
Definition INET_ADDRSTRLEN : nat := 16.
Definition INET6_ADDRSTRLEN : nat := 46.

Record CidrRange := MkCidr {
  m_address : bytes;
  m_mask : bytes;
  m_prefix_len : nat;
  m_error : bytes
}.

(** A range whose construction stopped with an error text. *)
Definition cidr_failed (error : bytes) : CidrRange := MkCidr [] [] 0 error.

(** The mask filled by [init]: whole bytes, then the significant byte. *)
Definition init_mask (n prefix_len : nat) : bytes :=
  let mask := replicate n 0%Z in
  if negb (prefix_len =? 0) then
    let sig := (prefix_len - 1) / 8 in
    let mask := fold_left (fun m i => <[i := 0xff%Z]> m) (seq 0 sig) mask in
    if sig <? n then
      let shift := (8 - (prefix_len - sig * 8)) in
      <[sig := u8 (Z.shiftl 0xff (Z.of_nat shift))]> mask
    else mask
  else mask.

(** [init(addr, prefix_len)], [prefix_len] being a [size_t]. *)
Definition init (addr : bytes) (prefix_len : Z) : CidrRange :=
  if (Z.of_nat (length addr * 8) <? prefix_len)%Z then cidr_failed (str "Invalid prefix length")
  else
    let p := Z.to_nat prefix_len in
    let mask := init_mask (length addr) p in
    MkCidr (zip_with (fun a m => u8 (Z.land a m)) addr mask) mask p [].

(** ** Parsing *)

Section Parsing.

(** [inet_pton] of the C library for the two families, [strerror(errno)] when it refuses, and the
    place the compiler writes into an error. *)
Variable inet_pton4 inet_pton6 : bytes -> option bytes.
Variable strerror : bytes.
Variable loc : SourceLocation.

(** What a C function sees of a [std::string]. *)
Definition c_str (s : bytes) : bytes := take_while (fun c => negb (c =? 0)%Z) s.

Definition get_ipv4_address_from_string (s : bytes) : Result bytes CidrError :=
  if INET_ADDRSTRLEN <=? length s then RError (make_error loc AE_IP_ADDR_TOO_LONG None)
  else
    match inet_pton4 (c_str s) with
    | Some address => RValue address
    | None => RError (make_error_msg loc AE_PARSE_NET_STRING_ERROR strerror None)
    end.

Definition get_ipv6_address_from_string (s : bytes) : Result bytes CidrError :=
  if INET6_ADDRSTRLEN <=? length s then RError (make_error loc AE_IP_ADDR_TOO_LONG None)
  else
    match inet_pton6 (c_str s) with
    | Some address => RValue address
    | None => RError (make_error_msg loc AE_PARSE_NET_STRING_ERROR strerror None)
    end.

Definition get_address_from_string (s : bytes) : Result bytes CidrError :=
  match find_index (Z.eqb (chr ".")) s with
  | Some _ =>
      match find_index (Z.eqb (chr ":")) s, rfind_index (Z.eqb (chr ":")) s with
      | None, _ | _, None => get_ipv4_address_from_string s
      | Some _, Some last_index =>
          match get_ipv4_address_from_string (drop (last_index + 1) s) with
          | RError e => RError e
          | RValue address =>
              let before := take (last_index + 1) s in
              get_ipv6_address_from_string
                (before ++ fmt_hex (Z.shiftl (address !!! 0%nat) 8 + (address !!! 1%nat))%Z
                 ++ str ":" ++ fmt_hex (Z.shiftl (address !!! 2%nat) 8 + (address !!! 3%nat))%Z)
          end
      end
  | None => get_ipv6_address_from_string s
  end.

(** [std::optional::value] on an empty optional. *)
Inductive bad_optional_access := BadOptionalAccess.

(** [CidrRange(cidr_string)]. *)
Definition cidr_of_string (cidr_string : bytes) : outcome bad_optional_access CidrRange :=
  match cidr_string with
  | [] => Returns (cidr_failed (str "Empty CIDR range string"))
  | _ =>
      let '(address_string, prefix_string) := split2_by (trim cidr_string) 47 true in
      let has_prefix_len := negb (bool_decide (prefix_string = [])) in
      match get_address_from_string address_string with
      | RError e => Returns (cidr_failed (error_str e))
      | RValue address =>
          if has_prefix_len then
            match to_integer false 64 10 prefix_string with
            | Some prefix_len => Returns (init address prefix_len)
            | None => Throws BadOptionalAccess
            end
          else Returns (init address (Z.of_nat (length address * 8)))
      end
  end.

(** [CidrRange(address_string, prefix_len)]. *)
Definition cidr_of_string_prefix (address_string : bytes) (prefix_len : Z) : CidrRange :=
  match get_address_from_string address_string with
  | RError e => cidr_failed (error_str e)
  | RValue address => init address prefix_len
  end.
End Parsing.

(** [CidrRange(address, prefix_len)] from bytes. *)
Definition cidr_of_bytes (address : bytes) (prefix_len : Z) : CidrRange := init address prefix_len.

(** ** Containment *)

(** The loop of [contains(range)] over the mask and address bytes of both ranges. *)
Fixpoint contains_range_loop (mask rmask address raddress : bytes) : bool :=
  match mask, rmask, address, raddress with
  | m :: mask', rm :: rmask', a :: address', ra :: raddress' =>
      if negb (m =? Z.land rm m)%Z then false
      else if negb (Z.land a m =? Z.land ra m)%Z then false
      else contains_range_loop mask' rmask' address' raddress'
  | _, _, _, _ => true
  end.

Definition contains_range (this range : CidrRange) : bool :=
  if negb (length (m_address range) =? length (m_address this)) then false
  else contains_range_loop (m_mask this) (m_mask range) (m_address this) (m_address range).

Fixpoint contains_address_loop (mask address other : bytes) : bool :=
  match mask, address, other with
  | m :: mask', a :: address', o :: other' =>
      if negb (Z.land a m =? Z.land o m)%Z then false
      else contains_address_loop mask' address' other'
  | _, _, _ => true
  end.

Definition contains_address (this : CidrRange) (address : bytes) : bool :=
  if negb (length address =? length (m_address this)) then false
  else contains_address_loop (m_mask this) (m_address this) address.

(** [contains(std::string_view)] for the addresses the C library parses. *)
Definition contains_string (pton4 pton6 : bytes -> option bytes) (strerror : bytes)
    (loc : SourceLocation) (this : CidrRange) (addr : bytes) : bool :=
  match get_address_from_string pton4 pton6 strerror loc addr with
  | RError _ => false
  | RValue address => contains_address this address
  end.

(** ** Splitting *)

Definition split (this : CidrRange) : option (CidrRange * CidrRange) :=
  if m_prefix_len this =? length (m_address this) * 8 then None
  else
    let new_prefix_len := m_prefix_len this + 1 in
    let sig := (new_prefix_len - 1) / 8 in
    let shift := 8 - (new_prefix_len - sig * 8) in
    let addr_left := m_address this in
    let addr_right :=
      alter (fun x => u8 (Z.lor x (u8 (Z.shiftl 1 (Z.of_nat shift))))) sig (m_address this) in
    Some (cidr_of_bytes addr_left (Z.of_nat new_prefix_len),
          cidr_of_bytes addr_right (Z.of_nat new_prefix_len)).

(** ** Order and equality *)

Fixpoint bytes_eqb (l r : bytes) : bool :=
  match l, r with
  | a :: l', b :: r' => if negb (a =? b)%Z then false else bytes_eqb l' r'
  | _, _ => true
  end.

Definition cidr_eqb (this range : CidrRange) : bool :=
  if negb (length (m_address range) =? length (m_address this)) then false
  else if negb (m_prefix_len range =? m_prefix_len this) then false
  else bytes_eqb (m_address this) (m_address range).

(** First differing byte of the addresses, if any, decides; then the prefix length. *)
Fixpoint address_compare (l r : bytes) : option bool :=
  match l, r with
  | a :: l', b :: r' => if negb (a =? b)%Z then Some (a <? b)%Z else address_compare l' r'
  | _, _ => None
  end.

Definition cidr_ltb (this range : CidrRange) : bool :=
  if negb (length (m_address this) =? length (m_address range))
  then length (m_address this) <? length (m_address range)
  else
    match address_compare (m_address this) (m_address range) with
    | Some b => b
    | None => m_prefix_len this <? m_prefix_len range
    end.

(** ** Exclusion *)

(** [std::list::sort] with [operator<]: a stable sort; equivalent elements keep their order. *)
Fixpoint sort_insert (x : CidrRange) (l : list CidrRange) : list CidrRange :=
  match l with
  | [] => [x]
  | y :: l' => if cidr_ltb y x then y :: sort_insert x l' else x :: l
  end.

Fixpoint stable_sort (l : list CidrRange) : list CidrRange :=
  match l with
  | [] => []
  | x :: l' => sort_insert x (stable_sort l')
  end.

Inductive verdict := Skip | Split | Keep.

(** The inner loop over the excluded ranges. *)
Fixpoint examine (range : CidrRange) (excluded : list CidrRange) : verdict :=
  match excluded with
  | [] => Keep
  | e :: excluded' =>
      if contains_range e range then Skip
      else if contains_range range e then Split
      else examine range excluded'
  end.

(** The [while] loop; [None] when the fuel runs out. *)
Fixpoint exclude_loop (fuel : nat) (stack done excluded : list CidrRange) : option (list CidrRange) :=
  match stack with
  | [] => Some done
  | range :: stack' =>
      match fuel with
      | O => None
      | S f =>
          match examine range excluded with
          | Skip => exclude_loop f stack' done excluded
          | Split =>
              match split range with
              | Some (l, r) => exclude_loop f (l :: r :: stack') done excluded
              | None => exclude_loop f stack' done excluded
              end
          | Keep => exclude_loop f stack' (done ++ [range]) excluded
          end
      end
  end.

(** Turns that are always enough: per original range, one plus two for every bit of every excluded
    range (a split happens only above an excluded range). *)
Definition exclude_fuel (original excluded : list CidrRange) : nat :=
  length original * S (2 * list_sum (map m_prefix_len excluded)).

Definition exclude (original excluded : list CidrRange) : option (list CidrRange) :=
  exclude_loop (exclude_fuel original excluded) (stable_sort original) [] excluded.

Definition exclude_one_one (original excluded : CidrRange) := exclude [original] [excluded].
Definition exclude_one_many (original : CidrRange) (excluded : list CidrRange) := exclude [original] excluded.
Definition exclude_many_one (original : list CidrRange) (excluded : CidrRange) := exclude original [excluded].

(** ** Accessors and text *)

Definition get_address (this : CidrRange) : bytes := m_address this.
Definition get_mask (this : CidrRange) : bytes := m_mask this.
Definition get_prefix_len (this : CidrRange) : nat := m_prefix_len this.
Definition valid (this : CidrRange) : bool := bool_decide (m_error this = []).

(** [-1] converted to [uint32_t] for an address that is not IPv4. *)
Definition to_uint32 (this : CidrRange) : Z :=
  match m_address this with
  | [a; b; c; d] => u32 (Z.shiftl a 24 + Z.shiftl b 16 + Z.shiftl c 8 + d)
  | _ => u32 (-1)
  end.

(** [inet_ntop] of the C library for the two families. *)
Definition get_address_as_string (ntop4 ntop6 : bytes -> bytes) (this : CidrRange) : bytes :=
  if negb (bool_decide (m_error this = [])) then m_error this
  else if length (m_address this) =? IPV4_ADDRESS_SIZE then ntop4 (m_address this)
  else ntop6 (m_address this).

Definition cidr_to_string (ntop4 ntop6 : bytes -> bytes) (this : CidrRange) : bytes :=
  get_address_as_string ntop4 ntop6 this ++ str "/" ++ fmt_dec (Z.of_nat (m_prefix_len this)).

(** ** Bits of an address, the most significant first *)

Definition byte_bits (b : Z) : list bool := map (Z.testbit b) [7; 6; 5; 4; 3; 2; 1; 0]%Z.
Definition bits (s : bytes) : list bool := flat_map byte_bits s.

Lemma bits_length s : length (bits s) = 8 * length s.
Proof. induction s as [|b s IH]; [done|]. cbn [bits flat_map]. rewrite length_app. cbn. fold (bits s). lia. Qed.

Lemma bits_app s t : bits (s ++ t) = bits s ++ bits t.
Proof. apply flat_map_app. Qed.

Lemma byte_bits_inj a b : is_byte a -> is_byte b -> byte_bits a = byte_bits b -> a = b.
Proof.
  intros Ha Hb H. unfold byte_bits in H. cbn [map] in H. injection H as H7 H6 H5 H4 H3 H2 H1 H0.
  apply Z.bits_inj'. intros i Hi. destruct (Z.ltb_spec i 8) as [Hlt|Hge].
  - assert (i ∈ [0; 1; 2; 3; 4; 5; 6; 7]%Z) as Hin by (rewrite !elem_of_cons; lia).
    rewrite !elem_of_cons in Hin.
    by destruct Hin as [-> | [-> | [-> | [-> | [-> | [-> | [-> | [-> | []%not_elem_of_nil]]]]]]]].
  - unfold is_byte in *.
    rewrite (proj1 (bits_range 8 a ltac:(lia) ltac:(lia)) ltac:(simpl; lia) i Hge).
    by rewrite (proj1 (bits_range 8 b ltac:(lia) ltac:(lia)) ltac:(simpl; lia) i Hge).
Qed.

Lemma bits_inj s t : is_bytes s -> is_bytes t -> length s = length t -> bits s = bits t -> s = t.
Proof.
  intros Hs. revert t. induction Hs as [|a s Ha _ IH]; intros t Ht Hl E.
  - by destruct t.
  - destruct t as [|b t]; [done|]. inversion Ht; subst. cbn [bits flat_map] in E.
    apply app_inj_1 in E as [E1 E2]; [|done]. f_equal; [by apply byte_bits_inj|].
    apply IH; [done| |done]. by injection Hl.
Qed.

Lemma byte_bits_land a m : byte_bits (Z.land a m) = zip_with andb (byte_bits a) (byte_bits m).
Proof. unfold byte_bits. cbn [map zip_with]. by rewrite !Z.land_spec. Qed.

Lemma bits_land s m :
  length s = length m -> bits (zip_with Z.land s m) = zip_with andb (bits s) (bits m).
Proof.
  revert m. induction s as [|a s IH]; intros [|b m] Hl; try done. cbn [zip_with bits flat_map].
  rewrite zip_with_app by done. by rewrite byte_bits_land, IH by (simpl in Hl; lia).
Qed.

(** The mask of [p] bits out of [n]. *)
Definition ones_mask (p n : nat) : list bool := replicate p true ++ replicate (n - p) false.

Lemma zip_andb_mask l p :
  p <= length l -> zip_with andb l (ones_mask p (length l)) = take p l ++ replicate (length l - p) false.
Proof.
  intros Hp. unfold ones_mask. rewrite <- (take_drop p l) at 1.
  rewrite zip_with_app by (rewrite length_take, length_replicate; lia). f_equal.
  - assert (length (take p l) = p) as E by (rewrite length_take; lia).
    rewrite <- E at 2. generalize (take p l). intros k. clear.
    induction k as [|b k IH]; simpl; [done|]. by rewrite andb_true_r, IH.
  - rewrite <- length_drop. generalize (drop p l). intros k. clear.
    induction k as [|b k IH]; simpl; [done|]. by rewrite andb_false_r, IH.
Qed.

Lemma byte_bits_bytes l : length l = 8 -> exists b, is_byte b /\ byte_bits b = l.
Proof.
  destruct l as [|b7 [|b6 [|b5 [|b4 [|b3 [|b2 [|b1 [|b0 [|? ?]]]]]]]]]; try done. intros _.
  exists (fold_left (fun acc b => 2 * acc + Z.b2z b) [b7; b6; b5; b4; b3; b2; b1; b0] 0)%Z.
  destruct b7, b6, b5, b4, b3, b2, b1, b0; vm_compute; split; done.
Qed.

(** Every bit string of the right length is an address. *)
Lemma bits_surj n l : length l = 8 * n -> exists s, is_bytes s /\ length s = n /\ bits s = l.
Proof.
  revert l. induction n as [|n IH]; intros l Hl.
  - exists []. destruct l; [|done]. by split; [constructor|].
  - destruct (byte_bits_bytes (take 8 l)) as (b & Hb & Eb); [rewrite length_take; lia|].
    destruct (IH (drop 8 l)) as (s & Hs & Hn & Es); [rewrite length_drop; lia|].
    exists (b :: s). split; [by constructor|]. split; [simpl; lia|].
    cbn [bits flat_map]. fold (bits s). by rewrite Eb, Es, take_drop.
Qed.

(** ** The invariant of a range *)

Record wf (r : CidrRange) : Prop := {
  wf_bytes : is_bytes (m_address r);
  wf_mask_bytes : is_bytes (m_mask r);
  wf_mask_length : length (m_mask r) = length (m_address r);
  wf_prefix : m_prefix_len r <= 8 * length (m_address r);
  wf_mask : bits (m_mask r) = ones_mask (m_prefix_len r) (8 * length (m_address r));
  wf_masked : zip_with Z.land (m_address r) (m_mask r) = m_address r
}.

(** The network prefix: the bits that every address of the range shares. *)
Definition net (r : CidrRange) : list bool := take (m_prefix_len r) (bits (m_address r)).

Lemma net_length r : wf r -> length (net r) = m_prefix_len r.
Proof. intros H. unfold net. rewrite length_take, bits_length. pose proof (wf_prefix r H). lia. Qed.

Lemma zip_u8_land (s m : bytes) :
  is_bytes s -> is_bytes m -> zip_with (fun a m => u8 (Z.land a m)) s m = zip_with Z.land s m.
Proof.
  intros Hs. revert m. induction Hs as [|a s Ha _ IH]; intros m Hm; [done|].
  destruct Hm as [|b m Hb Hm]; [done|]. simpl. rewrite IH by done. f_equal. apply u8_id.
  by apply land_byte.
Qed.

Lemma zip_land_bytes s m : is_bytes s -> is_bytes m -> is_bytes (zip_with Z.land s m).
Proof.
  intros Hs Hm. rewrite <- zip_u8_land by done. apply Forall_zip_with_snd with (P := is_byte); [|done].
  eapply Forall_impl; [exact Hs|]. intros a _ b _. apply u8_byte.
Qed.

Lemma fold_insert_replicate k n :
  k <= n ->
  fold_left (fun m i => <[i := 255%Z]> m) (seq 0 k) (replicate n 0%Z) = replicate k 255%Z ++ replicate (n - k) 0%Z.
Proof.
  induction k as [|k IH]; intros Hk; [by rewrite Nat.sub_0_r|].
  rewrite seq_S, fold_left_app, IH by lia. cbn [fold_left Nat.add].
  replace (n - k) with (S (n - S k)) by lia.
  rewrite <- (Nat.add_0_r k) at 1. rewrite <- (length_replicate k 255%Z) at 1. rewrite insert_app_r.
  cbn. by rewrite app_comm_cons, replicate_cons_app, <- app_assoc.
Qed.

Lemma sig_byte_bits k :
  1 <= k <= 8 -> byte_bits (u8 (Z.shiftl 0xff (Z.of_nat (8 - k)))) = replicate k true ++ replicate (8 - k) false.
Proof. intros. by destruct k as [|[|[|[|[|[|[|[|[|?]]]]]]]]]; try lia. Qed.

Lemma bits_replicate b k :
  bits (replicate k b) = List.concat (replicate k (byte_bits b)).
Proof. induction k as [|k IH]; [done|]. cbn. unfold bits in IH. by rewrite IH. Qed.

Lemma bits_ones k : bits (replicate k 255%Z) = replicate (8 * k) true.
Proof.
  rewrite bits_replicate. induction k as [|k IH]; [done|]. cbn [replicate List.concat]. rewrite IH.
  replace (8 * S k) with (8 + 8 * k) by lia. by rewrite replicate_add.
Qed.

Lemma bits_zeros k : bits (replicate k 0%Z) = replicate (8 * k) false.
Proof.
  rewrite bits_replicate. induction k as [|k IH]; [done|]. cbn [replicate List.concat]. rewrite IH.
  replace (8 * S k) with (8 + 8 * k) by lia. by rewrite replicate_add.
Qed.

Lemma init_mask_spec n p :
  p <= 8 * n ->
  length (init_mask n p) = n /\ is_bytes (init_mask n p) /\ bits (init_mask n p) = ones_mask p (8 * n).
Proof.
  intros Hp. unfold init_mask, ones_mask. destruct (Nat.eqb_spec p 0) as [->|Hp0]; cbn [negb].
  - rewrite length_replicate, bits_zeros, Nat.sub_0_r. split; [done|]. split; [|done].
    apply Forall_replicate. done.
  - pose proof (Nat.div_mod_eq (p - 1) 8) as Hd. pose proof (Nat.mod_upper_bound (p - 1) 8 ltac:(lia)).
    set (sig := (p - 1) / 8) in *. clearbody sig.
    rewrite (proj2 (Nat.ltb_lt sig n)) by lia. rewrite fold_insert_replicate by lia.
    replace (n - sig) with (S (n - sig - 1)) by lia.
    rewrite insert_app_r_alt by (rewrite length_replicate; lia).
    rewrite length_replicate, Nat.sub_diag. cbn [replicate insert list_insert].
    split; [rewrite length_app; cbn; rewrite !length_replicate; lia|]. split.
    + apply is_bytes_app. split; [by apply Forall_replicate|].
      constructor; [apply u8_byte|by apply Forall_replicate].
    + rewrite bits_app. cbn [bits flat_map]. rewrite bits_ones. fold (bits (replicate (n - sig - 1) 0%Z)).
      rewrite bits_zeros, sig_byte_bits by lia.
      rewrite <- app_assoc, <- replicate_add, app_assoc, <- replicate_add. f_equal; f_equal; lia.
Qed.

Lemma zip_land_idem (s m : bytes) : zip_with Z.land (zip_with Z.land s m) m = zip_with Z.land s m.
Proof.
  revert m. induction s as [|a s IH]; intros [|b m]; simpl; [done..|].
  by rewrite IH, <- Z.land_assoc, Z.land_diag.
Qed.

(** [init] builds a well-formed range with the first [p] bits of the address as its network. *)
Lemma init_spec addr p :
  is_bytes addr -> p <= 8 * length addr ->
  let r := init addr (Z.of_nat p) in
  wf r /\ net r = take p (bits addr) /\ length (m_address r) = length addr /\ m_prefix_len r = p /\
  m_error r = [].
Proof.
  intros Ha Hp. unfold init. rewrite (proj2 (Z.ltb_ge _ _)) by lia. rewrite Nat2Z.id.
  destruct (init_mask_spec (length addr) p Hp) as (Hl & Hb & Hm). rewrite zip_u8_land by done.
  assert (length (zip_with Z.land addr (init_mask (length addr) p)) = length addr) as Hz
    by (rewrite length_zip_with; lia).
  assert (bits (zip_with Z.land addr (init_mask (length addr) p))
          = take p (bits addr) ++ replicate (8 * length addr - p) false) as Hbits.
  { rewrite bits_land, Hm by done. rewrite <- bits_length. apply zip_andb_mask. rewrite bits_length. lia. }
  split; [|split; [|done]].
  - split; cbn [m_address m_mask m_prefix_len]; rewrite ?Hz; try done.
    + by apply zip_land_bytes.
    + apply zip_land_idem.
  - unfold net. cbn [m_address m_prefix_len]. rewrite Hbits.
    rewrite take_app_le by (rewrite length_take, bits_length; lia). rewrite take_take. f_equal. lia.
Qed.

Lemma init_invalid addr p :
  (Z.of_nat (8 * length addr) < p)%Z -> init addr p = cidr_failed (str "Invalid prefix length").
Proof. intros. unfold init. by rewrite (proj2 (Z.ltb_lt _ _)) by lia. Qed.

Lemma cidr_failed_wf e : wf (cidr_failed e).
Proof. split; cbn; try done; constructor. Qed.

(** The address bits are the network followed by zeros. *)
Lemma wf_bits r :
  wf r -> bits (m_address r) = net r ++ replicate (8 * length (m_address r) - m_prefix_len r) false.
Proof.
  intros [Hb _ Hl Hp Hm Hz]. rewrite <- Hz at 1. rewrite bits_land by done. rewrite Hm.
  rewrite <- bits_length. unfold net. apply zip_andb_mask. rewrite bits_length. lia.
Qed.

(** ** Containment is the prefix relation *)

Lemma zip_mask_take (s t : list bool) p :
  length s = length t -> p <= length s ->
  zip_with andb s (ones_mask p (length s)) = zip_with andb t (ones_mask p (length s)) <-> take p s = take p t.
Proof.
  intros Hl Hp. rewrite zip_andb_mask by done. rewrite Hl in *. rewrite zip_andb_mask by lia. split.
  - intros E. apply app_inj_2 in E as [E _]; [done|]. done.
  - by intros ->.
Qed.

Lemma bits_land_eq (s t m : bytes) :
  is_bytes s -> is_bytes t -> is_bytes m -> length s = length t -> length m = length s ->
  zip_with Z.land s m = zip_with Z.land t m <-> zip_with andb (bits s) (bits m) = zip_with andb (bits t) (bits m).
Proof.
  intros Hs Ht Hm Hst Hl. rewrite <- !bits_land by lia. split; [by intros ->|].
  apply bits_inj; [by apply zip_land_bytes..|]. rewrite !length_zip_with. lia.
Qed.

Lemma contains_address_loop_spec m a o :
  length a = length m -> length o = length m ->
  contains_address_loop m a o = true <-> zip_with Z.land a m = zip_with Z.land o m.
Proof.
  revert a o. induction m as [|x m IH]; intros [|y a] [|z o] Ha Ho; try done. simpl in *.
  destruct (Z.eqb_spec (Z.land y x) (Z.land z x)) as [E|E]; cbn [negb].
  - rewrite IH by lia. rewrite E. split; [by intros ->|by intros [= ->]].
  - split; [done|]. by intros [= ? _].
Qed.

Lemma contains_range_loop_spec m rm a ra :
  length rm = length m -> length a = length m -> length ra = length m ->
  contains_range_loop m rm a ra = true <->
  zip_with Z.land rm m = m /\ zip_with Z.land a m = zip_with Z.land ra m.
Proof.
  revert rm a ra. induction m as [|x m IH]; intros [|w rm] [|y a] [|z ra] Hr Ha Ho; try done. simpl in *.
  destruct (Z.eqb_spec x (Z.land w x)) as [E1|E1]; cbn [negb].
  - destruct (Z.eqb_spec (Z.land y x) (Z.land z x)) as [E|E]; cbn [negb].
    + rewrite IH by lia. rewrite E, <- E1. split.
      * by intros [-> ->].
      * by intros [[= ->] [= ->]].
    + split; [done|]. by intros [_ [= ? _]].
  - split; [done|]. intros [[= ? _] _]. congruence.
Qed.

Lemma contains_address_iff r s :
  wf r -> is_bytes s ->
  contains_address r s = true <->
  length s = length (m_address r) /\ take (m_prefix_len r) (bits s) = net r.
Proof.
  intros Hr Hs. unfold contains_address.
  destruct (Nat.eqb_spec (length s) (length (m_address r))) as [Hl|Hl]; cbn [negb]; [|naive_solver].
  destruct Hr as [Hb Hmb Hm Hp Hmask _].
  rewrite contains_address_loop_spec, bits_land_eq by (done || lia). rewrite Hmask, <- bits_length.
  rewrite zip_mask_take by (rewrite !bits_length; lia). unfold net. naive_solver.
Qed.

Lemma mask_land_iff p q n :
  p <= n -> q <= n -> zip_with andb (ones_mask q n) (ones_mask p n) = ones_mask p n <-> p <= q.
Proof.
  intros Hp Hq.
  assert (length (ones_mask q n) = n) as Hl by (unfold ones_mask; rewrite length_app, !length_replicate; lia).
  rewrite <- Hl at 2. rewrite zip_andb_mask by lia. rewrite Hl. unfold ones_mask at 2. split.
  - intros E. apply app_inj_2 in E as [E _]; [|done]. destruct (Nat.le_gt_cases p q) as [|Hlt]; [done|].
    exfalso. apply (f_equal (lookup q)) in E. rewrite lookup_replicate_2 in E by done.
    rewrite lookup_take_lt in E by done. unfold ones_mask in E.
    rewrite lookup_app_r in E by (rewrite length_replicate; lia).
    rewrite length_replicate, Nat.sub_diag, lookup_replicate_2 in E by lia. done.
  - intros Hpq. f_equal. unfold ones_mask. rewrite take_app_le by (rewrite length_replicate; lia).
    rewrite take_replicate. f_equal. lia.
Qed.

Lemma prefix_of_take {A} (l k : list A) n m :
  n <= length l -> m <= length k -> (take n l `prefix_of` take m k <-> n <= m /\ take n l = take n k).
Proof.
  intros Hn Hm. split.
  - intros [t E]. assert (n <= m) as Hnm.
    { apply (f_equal length) in E. rewrite length_app, !length_take in E. lia. }
    split; [done|]. apply (f_equal (take n)) in E. rewrite take_take in E.
    rewrite take_app_le in E by (rewrite length_take; lia). rewrite take_take in E.
    rewrite !Nat.min_l in E by lia. done.
  - intros [Hnm ->]. exists (drop n (take m k)).
    rewrite <- (take_drop n (take m k)) at 1. by rewrite take_take, Nat.min_l by lia.
Qed.

Lemma contains_range_iff a b :
  wf a -> wf b ->
  contains_range a b = true <-> length (m_address a) = length (m_address b) /\ net a `prefix_of` net b.
Proof.
  intros [Ab Ma Al Ap Am _] [Bb Mb Bl Bp Bm _]. unfold contains_range.
  destruct (Nat.eqb_spec (length (m_address b)) (length (m_address a))) as [Hl|Hl]; cbn [negb]; [|naive_solver].
  rewrite contains_range_loop_spec by lia. rewrite bits_land_eq by (done || lia).
  assert (zip_with Z.land (m_mask b) (m_mask a) = m_mask a <-> m_prefix_len a <= m_prefix_len b) as ->.
  { rewrite <- (mask_land_iff _ _ (8 * length (m_address a))) by lia. rewrite <- Am at 1 2. rewrite <- Hl, <- Bm at 1.
    rewrite <- bits_land by lia. split; [by intros ->|]. apply bits_inj; [by apply zip_land_bytes|done|].
    rewrite length_zip_with. lia. }
  rewrite Am, <- bits_length, zip_mask_take by (rewrite !bits_length; lia).
  unfold net. rewrite prefix_of_take by (rewrite bits_length; lia). naive_solver.
Qed.

(** ** A split appends one bit to the network *)

Lemma byte_bits_lor_bit x k :
  is_byte x -> k < 8 ->
  byte_bits (u8 (Z.lor x (u8 (Z.shiftl 1 (Z.of_nat (7 - k)))))) = <[k := true]> (byte_bits x).
Proof.
  intros Hx Hk. rewrite u8_id by (apply lor_byte; auto with ag).
  destruct k as [|[|[|[|[|[|[|[|?]]]]]]]]; try lia; unfold byte_bits;
    cbn [map insert list_insert]; rewrite !Z.lor_spec; cbn; by rewrite ?orb_false_r, ?orb_true_r.
Qed.

Lemma bits_alter s j k :
  is_bytes s -> j < length s -> k < 8 ->
  bits (alter (fun x => u8 (Z.lor x (u8 (Z.shiftl 1 (Z.of_nat (7 - k)))))) j s) = <[8 * j + k := true]> (bits s).
Proof.
  intros Hs Hj Hk. revert j Hj. induction Hs as [|b s Hb Hs IH]; intros j Hj; [simpl in Hj; lia|].
  destruct j as [|j].
  - cbn [alter list_alter bits flat_map]. rewrite byte_bits_lor_bit by done.
    symmetry. by apply insert_app_l.
  - cbn [alter list_alter bits flat_map]. fold (bits s). simpl in Hj.
    fold (bits (alter (fun x => u8 (Z.lor x (u8 (Z.shiftl 1 (Z.of_nat (7 - k)))))) j s)).
    rewrite IH by lia. rewrite insert_app_r_alt by (cbn; lia). do 2 f_equal. cbn. lia.
Qed.

Lemma is_bytes_alter s j f : is_bytes s -> (forall x, is_byte (f x)) -> is_bytes (alter f j s).
Proof. intros Hs Hf. apply Forall_alter; [done|]. by intros. Qed.

Lemma split_bits r :
  wf r -> m_prefix_len r < 8 * length (m_address r) ->
  exists a b, split r = Some (a, b) /\ wf a /\ wf b /\
    net a = net r ++ [false] /\ net b = net r ++ [true] /\
    length (m_address a) = length (m_address r) /\ length (m_address b) = length (m_address r).
Proof.
  intros Hr Hp. unfold split. rewrite (proj2 (Nat.eqb_neq _ _)) by lia.
  rewrite Nat.add_sub. pose proof (Nat.div_mod_eq (m_prefix_len r) 8) as Hd.
  pose proof (Nat.mod_upper_bound (m_prefix_len r) 8 ltac:(lia)) as Hm.
  set (sig := m_prefix_len r / 8) in *. set (k := m_prefix_len r mod 8) in *.
  replace (8 - (m_prefix_len r + 1 - sig * 8)) with (7 - k) by lia.
  pose proof (wf_bytes r Hr) as Hb.
  assert (length (net r) = m_prefix_len r) as Hn by (by apply net_length).
  do 2 eexists. split; [done|]. unfold cidr_of_bytes.
  destruct (init_spec (m_address r) (m_prefix_len r + 1)) as (W1 & N1 & L1 & _); [done|lia|].
  edestruct (init_spec (alter (fun x => u8 (Z.lor x (u8 (Z.shiftl 1 (Z.of_nat (7 - k)))))) sig (m_address r))
              (m_prefix_len r + 1)) as (W2 & N2 & L2 & _);
    [apply is_bytes_alter; auto with ag|rewrite length_alter; lia|].
  split; [exact W1|]. split; [exact W2|]. rewrite L1, L2, length_alter, N1, N2.
  rewrite bits_alter by (done || lia). rewrite wf_bits by done.
  replace (8 * length (m_address r) - m_prefix_len r)
    with (S (8 * length (m_address r) - m_prefix_len r - 1)) by lia. cbn [replicate].
  repeat split.
  - rewrite take_app_ge by lia. f_equal. rewrite Hn. by replace (_ + 1 - _) with 1 by lia.
  - rewrite insert_app_r_alt by lia. rewrite take_app_ge by lia. f_equal.
    rewrite Hn. replace (8 * sig + k - m_prefix_len r) with 0 by lia.
    by replace (_ + 1 - _) with 1 by lia.
Qed.

Lemma split_none r : wf r -> split r = None <-> m_prefix_len r = 8 * length (m_address r).
Proof.
  intros Hr. unfold split. destruct (Nat.eqb_spec (m_prefix_len r) (length (m_address r) * 8)); [|split; [done|lia]].
  split; [lia|done].
Qed.

(** ** Addresses of a range *)

(** The same as [contains_address_iff], with the network as a prefix of the address bits. *)
Lemma contains_address_prefix r s :
  wf r -> is_bytes s ->
  contains_address r s = true <-> length s = length (m_address r) /\ net r `prefix_of` bits s.
Proof.
  intros Hr Hs. rewrite contains_address_iff by done. pose proof (wf_prefix r Hr) as Hp.
  enough (length s = length (m_address r) ->
          take (m_prefix_len r) (bits s) = net r <-> net r `prefix_of` bits s) by naive_solver.
  intros Hl. rewrite <- (firstn_all (bits s)) at 2. unfold net.
  rewrite prefix_of_take by (rewrite bits_length; lia). rewrite bits_length.
  split; [intros ->; split; [lia|done]|by intros [_ ->]].
Qed.

(** The network address itself, and the last address, are in the range. *)
Lemma range_inhabited r t :
  wf r -> length t = 8 * length (m_address r) - m_prefix_len r ->
  exists s, is_bytes s /\ bits s = net r ++ t /\ contains_address r s = true.
Proof.
  intros Hr Ht. pose proof (wf_prefix r Hr) as Hp.
  destruct (bits_surj (length (m_address r)) (net r ++ t)) as (s & Hs & Hl & Hb).
  { rewrite length_app, net_length by done. lia. }
  exists s. repeat split; [done..|]. apply contains_address_prefix; [done..|].
  split; [done|]. rewrite Hb. by apply prefix_app_r.
Qed.

Lemma contains_trans a b c :
  wf a -> wf b -> wf c -> contains_range a b = true -> contains_range b c = true -> contains_range a c = true.
Proof.
  intros Ha Hb Hc. rewrite !contains_range_iff by done. intros [? ?] [? ?]. split; [congruence|].
  by etrans.
Qed.

Lemma contains_refl a : wf a -> contains_range a a = true.
Proof. intros Ha. rewrite contains_range_iff by done. done. Qed.

Lemma contains_prefix_len a b : wf a -> wf b -> contains_range a b = true -> m_prefix_len a <= m_prefix_len b.
Proof.
  intros Ha Hb [_ H]%contains_range_iff; [|done..]. apply prefix_length in H.
  by rewrite !net_length in H by done.
Qed.

(** Ranges that share an address are nested. *)
Lemma overlap_nested a b s :
  wf a -> wf b -> is_bytes s -> contains_address a s = true -> contains_address b s = true ->
  contains_range a b = true \/ contains_range b a = true.
Proof.
  intros Ha Hb Hs [La Pa]%contains_address_prefix [Lb Pb]%contains_address_prefix; try done.
  rewrite !contains_range_iff by done. destruct (prefix_weak_total _ _ _ Pa Pb); [left|right]; split; congruence || done.
Qed.

Lemma contains_range_address a b s :
  wf a -> wf b -> is_bytes s -> contains_range a b = true -> contains_address b s = true ->
  contains_address a s = true.
Proof.
  intros Ha Hb Hs [L P]%contains_range_iff [L' P']%contains_address_prefix; try done.
  apply contains_address_prefix; [done..|]. split; [congruence|by etrans].
Qed.

(** Containment of ranges is determined by two addresses of the inner one. *)
Lemma subset_contains a b :
  wf a -> wf b ->
  (forall s, is_bytes s -> contains_address b s = true -> contains_address a s = true) ->
  contains_range a b = true.
Proof.
  intros Ha Hb Hsub. set (n := 8 * length (m_address b) - m_prefix_len b).
  destruct (range_inhabited b (replicate n false) Hb) as (s0 & Hs0 & B0 & C0); [by rewrite length_replicate|].
  destruct (range_inhabited b (replicate n true) Hb) as (s1 & Hs1 & B1 & C1); [by rewrite length_replicate|].
  apply Hsub in C0 as [L0 P0]%contains_address_prefix; [|done..].
  apply Hsub in C1 as [_ P1]%contains_address_prefix; [|done..].
  rewrite contains_range_iff by done. rewrite B0 in P0. rewrite B1 in P1. split.
  { apply (f_equal length) in B0. rewrite bits_length, length_app, net_length, length_replicate in B0 by done.
    pose proof (wf_prefix b Hb). lia. }
  destruct (prefix_weak_total (net a) (net b) _ P0) as [|[t Ht]]; [by apply prefix_app_r|done|].
  rewrite Ht in P0, P1. apply prefix_app_inv in P0, P1. destruct t as [|x t]; [by rewrite Ht, app_nil_r|].
  exfalso. destruct n as [|n]; [by apply prefix_nil_inv in P0|].
  cbn [replicate] in P0, P1. apply prefix_cons_inv_1 in P0, P1. congruence.
Qed.

(** One range contains another exactly when every address of the second is in the first. *)
Theorem contains_range_subset a b :
  wf a -> wf b ->
  contains_range a b = true <->
  (forall s, is_bytes s -> contains_address b s = true -> contains_address a s = true).
Proof.
  intros Ha Hb. split; [|by apply subset_contains].
  intros H s Hs. by apply contains_range_address.
Qed.

Lemma split_some r a b :
  wf r -> split r = Some (a, b) ->
  m_prefix_len r < 8 * length (m_address r) /\ wf a /\ wf b /\
  net a = net r ++ [false] /\ net b = net r ++ [true] /\
  length (m_address a) = length (m_address r) /\ length (m_address b) = length (m_address r).
Proof.
  intros Hr E. pose proof (wf_prefix r Hr).
  assert (m_prefix_len r < 8 * length (m_address r)).
  { destruct (decide (m_prefix_len r = 8 * length (m_address r))) as [Hp|]; [|lia].
    apply split_none in Hp; [congruence|done]. }
  destruct (split_bits r Hr) as (a' & b' & E' & ?); [done|]. rewrite E' in E. injection E as -> ->. done.
Qed.

Lemma prefix_snoc_cases {A} (l m : list A) x :
  l ++ [x] `prefix_of` m <-> l `prefix_of` m /\ m !! length l = Some x.
Proof.
  split.
  - intros [t ->]. rewrite <- app_assoc. split; [by apply prefix_app_r|].
    by rewrite lookup_app_r, Nat.sub_diag.
  - intros [[t ->] Hx]. rewrite lookup_app_r, Nat.sub_diag in Hx by done. destruct t as [|y t]; [done|].
    injection Hx as ->. exists t. by rewrite <- app_assoc.
Qed.

Lemma split_contains r a b s :
  wf r -> split r = Some (a, b) -> is_bytes s ->
  (contains_address r s = true <-> contains_address a s = true \/ contains_address b s = true) /\
  ~ (contains_address a s = true /\ contains_address b s = true).
Proof.
  intros Hr (Hp & Ha & Hb & Na & Nb & La & Lb)%split_some Hs; [|done].
  rewrite !contains_address_prefix, Na, Nb, La, Lb, !prefix_snoc_cases, !net_length by done.
  split; [|by intros ((_ & _ & E) & (_ & _ & E')); rewrite E in E'].
  split; [|by intros [(? & ? & _)|(? & ? & _)]]. intros [Hl P].
  destruct (bits s !! m_prefix_len r) as [[]|] eqn:E; [naive_solver..|].
  apply lookup_ge_None in E. rewrite bits_length in E. lia.
Qed.

(** A range that is not a single address splits into two well-formed halves, one bit longer,
    which cover exactly its addresses and share none; a single address does not split. *)
Theorem split_partition r :
  wf r ->
  match split r with
  | Some (a, b) =>
      wf a /\ wf b /\
      m_prefix_len a = S (m_prefix_len r) /\ m_prefix_len b = S (m_prefix_len r) /\
      forall s, is_bytes s ->
        contains_address r s = xorb (contains_address a s) (contains_address b s) /\
        contains_address a s && contains_address b s = false
  | None => forall s, is_bytes s -> contains_address r s = true <-> s = m_address r
  end.
Proof.
  intros Hr. destruct (split r) as [[a b]|] eqn:E.
  - pose proof (split_some r a b Hr E) as (Hp & Ha & Hb & Na & Nb & _).
    split; [done|]. split; [done|].
    rewrite <- !net_length by done. rewrite Na, Nb, !length_app. cbn. split; [lia|]. split; [lia|].
    intros s Hs. destruct (split_contains r a b s Hr E Hs) as [H1 H2].
    destruct (contains_address r s), (contains_address a s), (contains_address b s); naive_solver.
  - apply split_none in E; [|done]. intros s Hs. rewrite contains_address_iff by done.
    unfold net. rewrite E, (firstn_all2 (bits (m_address r))) by (rewrite bits_length; lia). split.
    + intros [Hl Hb]. rewrite firstn_all2 in Hb by (rewrite bits_length; lia).
      apply bits_inj; [done|apply (wf_bytes r Hr)|done..].
    + intros ->. split; [done|]. by rewrite firstn_all2 by (rewrite bits_length; lia).
Qed.

(** ** Exclusion computes the set difference *)

(** The addresses of a list of ranges. *)
Definition covers (l : list CidrRange) (s : bytes) : Prop := Exists (fun r => contains_address r s = true) l.

Lemma examine_spec r excluded :
  match examine r excluded with
  | Skip => Exists (fun e => contains_range e r = true) excluded
  | Split => Exists (fun e => contains_range r e = true /\ contains_range e r = false) excluded
  | Keep => Forall (fun e => contains_range e r = false /\ contains_range r e = false) excluded
  end.
Proof.
  induction excluded as [|e excluded IH]; cbn [examine]; [constructor|].
  destruct (contains_range e r) eqn:E1; [by left|]. destruct (contains_range r e) eqn:E2; [by left|].
  destruct (examine r excluded); [by right..|by constructor].
Qed.

Lemma keep_disjoint r excluded s :
  wf r -> Forall wf excluded -> is_bytes s ->
  Forall (fun e => contains_range e r = false /\ contains_range r e = false) excluded ->
  contains_address r s = true -> ~ covers excluded s.
Proof.
  intros Hr He Hs Hk Hc Hx. unfold covers in Hx. rewrite Exists_exists in Hx. destruct Hx as (e & Hin & Hce).
  rewrite Forall_forall in Hk, He. destruct (Hk e Hin).
  destruct (overlap_nested r e s Hr (He e Hin) Hs Hc Hce); congruence.
Qed.

(** How many more splits an excluded range can cause below [r]. *)
Definition depth (r e : CidrRange) : nat :=
  if contains_range r e then m_prefix_len e - m_prefix_len r else 0.

Definition weight (excluded : list CidrRange) (r : CidrRange) : nat :=
  S (2 * list_sum (map (depth r) excluded)).

Definition stack_weight (excluded stack : list CidrRange) : nat :=
  list_sum (map (weight excluded) stack).

Lemma stack_weight_cons excluded r stack :
  stack_weight excluded (r :: stack) = weight excluded r + stack_weight excluded stack.
Proof. done. Qed.

Lemma split_depth r a b e :
  wf r -> wf e -> split r = Some (a, b) ->
  depth a e + depth b e + (if contains_range r e && negb (contains_range e r) then 1 else 0) <= depth r e.
Proof.
  intros Hr He (Hp & Ha & Hb & Na & Nb & La & Lb)%split_some; [|done]. unfold depth.
  pose proof (contains_prefix_len r e Hr He) as Hpl.
  assert (m_prefix_len a = S (m_prefix_len r)) as Pa
    by (rewrite <- !net_length, Na, length_app by done; cbn; lia).
  assert (m_prefix_len b = S (m_prefix_len r)) as Pb
    by (rewrite <- !net_length, Nb, length_app by done; cbn; lia).
  rewrite Pa, Pb.
  assert (contains_range a e = true -> contains_range r e = true) as Ia.
  { rewrite !contains_range_iff, Na, La by done. intros [? ?%prefix_app_l]. done. }
  assert (contains_range b e = true -> contains_range r e = true) as Ib.
  { rewrite !contains_range_iff, Nb, Lb by done. intros [? ?%prefix_app_l]. done. }
  assert (~ (contains_range a e = true /\ contains_range b e = true)) as Iab.
  { rewrite !contains_range_iff, Na, Nb, !prefix_snoc_cases by done. naive_solver congruence. }
  pose proof (contains_prefix_len e r He Hr) as Hpr.
  assert (contains_range r e = true -> m_prefix_len e = m_prefix_len r -> contains_range e r = true) as Heq.
  { rewrite !contains_range_iff by done. intros [Hl [t Ht]] E. split; [done|].
    apply (f_equal length) in Ht as Hl'. rewrite length_app, !net_length in Hl' by done.
    destruct t; [|simpl in Hl'; lia]. by rewrite Ht, app_nil_r. }
  destruct (contains_range r e) eqn:Ere, (contains_range a e), (contains_range b e), (contains_range e r);
    cbn [andb negb]; naive_solver lia.
Qed.

Lemma split_weight excluded r a b :
  wf r -> Forall wf excluded -> split r = Some (a, b) ->
  Exists (fun e => contains_range r e = true /\ contains_range e r = false) excluded ->
  weight excluded a + weight excluded b < weight excluded r.
Proof.
  intros Hr He Hs Hx. unfold weight.
  enough (list_sum (map (depth a) excluded) + list_sum (map (depth b) excluded)
          < list_sum (map (depth r) excluded)) by lia.
  assert (forall l, Forall wf l -> list_sum (map (depth a) l) + list_sum (map (depth b) l)
                    <= list_sum (map (depth r) l)) as Hle.
  { intros l Hl. induction Hl as [|e l Hwe _ IH]; [done|]. cbn [map]; rewrite ?list_sum_cons.
    pose proof (split_depth r a b e Hr Hwe Hs). lia. }
  induction Hx as [e l [E1 E2]|e l Hx IH]; apply Forall_cons in He as [Hwe Hwl]; cbn [map]; rewrite ?list_sum_cons;
    pose proof (split_depth r a b e Hr Hwe Hs) as Hd.
  - rewrite E1, E2 in Hd. cbn in Hd. specialize (Hle l Hwl). lia.
  - specialize (IH Hwl). lia.
Qed.

Lemma exclude_loop_spec fuel stack done_ excluded :
  Forall wf stack -> Forall wf done_ -> Forall wf excluded -> stack_weight excluded stack <= fuel ->
  exists res, exclude_loop fuel stack done_ excluded = Some res /\ Forall wf res /\
    forall s, is_bytes s -> covers res s <-> covers done_ s \/ (covers stack s /\ ~ covers excluded s).
Proof.
  revert stack done_. induction fuel as [|fuel IH]; intros [|r stack] done_ Hst Hd He Hw.
  1,3: exists done_; split; [done|]; split; [done|]; intros s _; unfold covers; rewrite Exists_nil; naive_solver.
  { unfold stack_weight, weight in Hw. cbn in Hw. lia. }
  apply Forall_cons in Hst as [Hr Hst]. cbn [exclude_loop]. pose proof (examine_spec r excluded) as Hx.
  rewrite stack_weight_cons in Hw.
  assert (0 < weight excluded r) as Hpos by (unfold weight; lia).
  destruct (examine r excluded).
  - destruct (IH stack done_) as (res & E & Hres & Hc); [done..|lia|]. exists res. split; [done|]. split; [done|].
    intros s Hs. rewrite Hc by done. unfold covers. rewrite Exists_cons.
    enough (contains_address r s = true -> Exists (fun e => contains_address e s = true) excluded) by tauto.
    intros Hcs. rewrite Exists_exists in Hx. destruct Hx as (e & Hin & Hce). apply Exists_exists. exists e. split; [done|].
    apply (contains_range_address e r s); [|done..]. by apply (proj1 (Forall_forall _ _) He).
  - destruct (split r) as [[a b]|] eqn:E.
    + pose proof (split_weight excluded r a b Hr He E Hx).
      destruct (split_some r a b Hr E) as (_ & Ha & Hb & _).
      destruct (IH (a :: b :: stack) done_) as (res & E' & Hres & Hc);
        [by rewrite !Forall_cons|done..|rewrite !stack_weight_cons; lia|].
      exists res. split; [done|]. split; [done|]. intros s Hs. rewrite Hc by done.
      destruct (split_contains r a b s Hr E Hs). unfold covers. rewrite !Exists_cons. tauto.
    + exfalso. apply Exists_exists in Hx as (e & Hin & E1 & E2).
      pose proof (proj1 (Forall_forall _ _) He e Hin) as Hwe. apply split_none in E; [|done].
      apply contains_range_iff in E1 as [Hl Hpre]; [|done..].
      pose proof (prefix_length _ _ Hpre) as Hlen. rewrite !net_length in Hlen by done.
      pose proof (wf_prefix e Hwe). rewrite <- not_true_iff_false, contains_range_iff in E2 by done.
      apply E2. split; [done|]. rewrite (prefix_length_eq _ _ Hpre); [done|]. rewrite !net_length by done. lia.
  - destruct (IH stack (done_ ++ [r])) as (res & E & Hres & Hc);
      [done|by apply Forall_app; split; [|constructor]|done|lia|].
    exists res. split; [done|]. split; [done|]. intros s Hs. rewrite Hc by done.
    pose proof (keep_disjoint r excluded s Hr He Hs Hx). unfold covers in *.
    rewrite Exists_app, !Exists_cons, Exists_nil. tauto.
Qed.

Lemma sort_insert_perm x l : sort_insert x l ≡ₚ x :: l.
Proof.
  induction l as [|y l IH]; [done|]. cbn [sort_insert]. destruct (cidr_ltb y x); [|done].
  rewrite IH. apply Permutation_swap.
Qed.

Lemma stable_sort_perm l : stable_sort l ≡ₚ l.
Proof. induction l as [|x l IH]; [done|]. cbn [stable_sort]. by rewrite sort_insert_perm, IH. Qed.

Lemma exclude_fuel_enough original excluded :
  stack_weight excluded (stable_sort original) <= exclude_fuel original excluded.
Proof.
  unfold stack_weight, exclude_fuel.
  assert (forall l, list_sum (map (weight excluded) l)
                    <= length l * S (2 * list_sum (map m_prefix_len excluded))) as H.
  { induction l as [|r l IH]; [done|]. cbn [map length]. rewrite list_sum_cons. unfold weight at 1.
    enough (list_sum (map (depth r) excluded) <= list_sum (map m_prefix_len excluded)) by lia.
    clear. induction excluded as [|e l IH]; [done|]. cbn [map]; rewrite ?list_sum_cons. unfold depth at 1.
    destruct (contains_range r e); lia. }
  rewrite <- (Permutation_length (stable_sort_perm original)). apply H.
Qed.

(** C2: [exclude] ends, and the ranges it returns are well formed and cover exactly the addresses of
    the original ranges that no excluded range contains. *)
Theorem exclude_difference original excluded :
  Forall wf original -> Forall wf excluded ->
  exists result, exclude original excluded = Some result /\ Forall wf result /\
    forall s, is_bytes s -> covers result s <-> covers original s /\ ~ covers excluded s.
Proof.
  intros Ho He. destruct (exclude_loop_spec (exclude_fuel original excluded) (stable_sort original) [] excluded)
    as (res & E & Hres & Hc); [by rewrite stable_sort_perm|constructor|done|apply exclude_fuel_enough|].
  exists res. split; [done|]. split; [done|]. intros s Hs. rewrite Hc by done.
  unfold covers. rewrite Exists_nil, (stable_sort_perm original). tauto.
Qed.

(** ** The order: address size, then the first address as a number, then the prefix length *)

Fixpoint bits_val (l : list bool) : Z :=
  match l with
  | [] => 0
  | b :: l' => (Z.b2z b * 2 ^ Z.of_nat (length l') + bits_val l')%Z
  end.

Definition lo (r : CidrRange) : Z := bits_val (bits (m_address r)).

(** Number of addresses of the range. *)
Definition span (r : CidrRange) : Z := (2 ^ Z.of_nat (8 * length (m_address r) - m_prefix_len r))%Z.
Definition hi (r : CidrRange) : Z := (lo r + span r)%Z.

Lemma bits_val_range l : (0 <= bits_val l < 2 ^ Z.of_nat (length l))%Z.
Proof.
  induction l as [|b l IH]; [simpl; lia|]. cbn [bits_val length].
  rewrite Nat2Z.inj_succ, Z.pow_succ_r by lia. destruct b; cbn [Z.b2z]; lia.
Qed.

Lemma bits_val_app l m : bits_val (l ++ m) = (bits_val l * 2 ^ Z.of_nat (length m) + bits_val m)%Z.
Proof.
  induction l as [|b l IH]; [done|]. cbn [bits_val app]. rewrite IH, length_app, Nat2Z.inj_add, Z.pow_add_r by lia.
  ring.
Qed.

Lemma bits_val_inj l m : length l = length m -> bits_val l = bits_val m -> l = m.
Proof.
  revert m. induction l as [|b l IH]; intros [|c m] Hl E; try done. cbn [bits_val] in E.
  injection Hl as Hl. pose proof (bits_val_range l). pose proof (bits_val_range m). rewrite <- Hl in *.
  assert (b = c) as -> by (destruct b, c; cbn [Z.b2z] in E; lia || done). f_equal. apply IH; [done|lia].
Qed.

Lemma bits_val_zeros n : bits_val (replicate n false) = 0%Z.
Proof. induction n as [|n IH]; [done|]. cbn [replicate bits_val]. rewrite IH. done. Qed.

Lemma byte_bits_val b : is_byte b -> bits_val (byte_bits b) = b.
Proof. by_range. Qed.

Lemma bits_val_cons b s :
  is_byte b -> bits_val (bits (b :: s)) = (b * 2 ^ Z.of_nat (8 * length s) + bits_val (bits s))%Z.
Proof. intros. cbn [bits flat_map]. fold (bits s). by rewrite bits_val_app, byte_bits_val, bits_length. Qed.

Lemma address_compare_val l r :
  is_bytes l -> is_bytes r -> length l = length r ->
  match address_compare l r with
  | Some b => b = (bits_val (bits l) <? bits_val (bits r))%Z /\ bits_val (bits l) <> bits_val (bits r)
  | None => l = r
  end.
Proof.
  intros Hl. revert r. induction Hl as [|a l Ha Hl IH]; intros r Hr E.
  { by destruct r. }
  destruct r as [|b r]; [done|]. apply Forall_cons in Hr as [Hb Hr]. injection E as E.
  cbn [address_compare]. rewrite !bits_val_cons by done. rewrite <- E.
  pose proof (bits_val_range (bits l)). pose proof (bits_val_range (bits r)). rewrite bits_length in *.
  rewrite <- E in *. set (w := (2 ^ Z.of_nat (8 * length l))%Z) in *.
  destruct (Z.eqb_spec a b) as [->|Hab]; cbn [negb].
  - specialize (IH r Hr E). destruct (address_compare l r) as [c|]; [|by rewrite IH].
    destruct IH as [-> ?]. split; [|lia]. apply eq_true_iff_eq. rewrite !Z.ltb_lt. lia.
  - split; [|nia]. apply eq_true_iff_eq. rewrite !Z.ltb_lt. nia.
Qed.

Lemma lo_inj a b : wf a -> wf b -> length (m_address a) = length (m_address b) -> lo a = lo b -> m_address a = m_address b.
Proof.
  intros Ha Hb Hl E. apply bits_inj; [apply (wf_bytes a Ha)|apply (wf_bytes b Hb)|done|].
  apply bits_val_inj; [|done]. rewrite !bits_length. lia.
Qed.

Lemma cidr_ltb_iff a b :
  wf a -> wf b ->
  cidr_ltb a b = true <->
  length (m_address a) < length (m_address b) \/
  length (m_address a) = length (m_address b) /\
    ((lo a < lo b)%Z \/ lo a = lo b /\ m_prefix_len a < m_prefix_len b).
Proof.
  intros Ha Hb. unfold cidr_ltb.
  destruct (Nat.eqb_spec (length (m_address a)) (length (m_address b))) as [Hl|Hl]; cbn [negb].
  - pose proof (address_compare_val _ _ (wf_bytes a Ha) (wf_bytes b Hb) Hl) as Hc.
    destruct (address_compare _ _) as [c|].
    + destruct Hc as [-> Hne]. rewrite Z.ltb_lt. unfold lo. lia.
    + rewrite Nat.ltb_lt. unfold lo. rewrite Hc. lia.
  - rewrite Nat.ltb_lt. lia.
Qed.

Lemma bytes_eqb_iff l r : length l = length r -> bytes_eqb l r = true <-> l = r.
Proof.
  revert r. induction l as [|a l IH]; intros [|b r] Hl; try done. injection Hl as Hl. cbn [bytes_eqb].
  destruct (Z.eqb_spec a b) as [->|]; cbn [negb]; [rewrite IH by done|]; naive_solver congruence.
Qed.

Lemma cidr_eqb_iff a b :
  cidr_eqb a b = true <-> m_address a = m_address b /\ m_prefix_len a = m_prefix_len b.
Proof.
  unfold cidr_eqb. destruct (Nat.eqb_spec (length (m_address b)) (length (m_address a))) as [Hl|Hl]; cbn [negb];
    [|naive_solver congruence].
  destruct (Nat.eqb_spec (m_prefix_len b) (m_prefix_len a)); cbn [negb]; [|naive_solver congruence].
  rewrite bytes_eqb_iff by done. naive_solver.
Qed.

(** Containment as inclusion of address intervals. *)
Lemma contains_interval a b :
  wf a -> wf b -> contains_range a b = true ->
  length (m_address a) = length (m_address b) /\ m_prefix_len a <= m_prefix_len b /\ (lo a <= lo b)%Z /\ (hi b <= hi a)%Z.
Proof.
  intros Ha Hb H. pose proof (contains_prefix_len a b Ha Hb H) as Hp.
  apply contains_range_iff in H as [Hl [t Ht]]; [|done..]. split; [done|]. split; [done|].
  pose proof (f_equal length Ht) as Hlt. rewrite length_app, !net_length in Hlt by done.
  unfold hi, span, lo. rewrite (wf_bits a Ha), (wf_bits b Hb), Ht, !bits_val_app, !bits_val_zeros, !length_replicate.
  rewrite <- Hl. pose proof (wf_prefix b Hb) as Hpb. rewrite <- Hl in Hpb.
  set (n := 8 * length (m_address a)) in *.
  replace (n - m_prefix_len a) with (length t + (n - m_prefix_len b)) by lia.
  rewrite Nat2Z.inj_add, Z.pow_add_r by lia. pose proof (bits_val_range t).
  set (w := (2 ^ Z.of_nat (n - m_prefix_len b))%Z) in *.
  assert (0 < w)%Z by (subst w; apply Z.pow_pos_nonneg; lia). nia.
Qed.

Lemma span_pos r : (0 < span r)%Z.
Proof. unfold span. apply Z.pow_pos_nonneg; lia. Qed.

Lemma lo_net r :
  wf r -> lo r = (bits_val (net r) * span r)%Z.
Proof. intros Hr. unfold lo, span. by rewrite (wf_bits r Hr), bits_val_app, bits_val_zeros, length_replicate, Z.add_0_r. Qed.

(** Ranges of one size that are not nested are apart. *)
Lemma interval_disjoint a b :
  wf a -> wf b -> length (m_address a) = length (m_address b) -> m_prefix_len a <= m_prefix_len b ->
  contains_range a b = false -> (hi b <= lo a \/ hi a <= lo b)%Z.
Proof.
  intros Ha Hb Hl Hp Hc.
  set (k := take (m_prefix_len a) (net b)). set (m := drop (m_prefix_len a) (net b)).
  assert (net b = k ++ m) as Enb by (unfold k, m; by rewrite take_drop).
  assert (length k = m_prefix_len a) as Hk by (unfold k; rewrite length_take, net_length by done; lia).
  assert (length m = m_prefix_len b - m_prefix_len a) as Hm by (unfold m; rewrite length_drop, net_length by done; lia).
  assert (bits_val k <> bits_val (net a)) as Hne.
  { intros E. apply bits_val_inj in E; [|by rewrite net_length].
    rewrite <- not_true_iff_false, contains_range_iff in Hc by done. apply Hc. split; [done|].
    rewrite <- E, Enb. by apply prefix_app_r. }
  pose proof (bits_val_range m) as Hv. pose proof (wf_prefix b Hb) as Hpb.
  assert (span a = 2 ^ Z.of_nat (length m) * span b)%Z as Hs.
  { unfold span. rewrite <- Z.pow_add_r by lia. f_equal. lia. }
  pose proof (span_pos b). unfold hi. rewrite !lo_net, Enb, bits_val_app, Hs by done.
  set (w := (2 ^ Z.of_nat (length m))%Z) in *. set (x := span b) in *.
  set (K := bits_val k) in *. set (N := bits_val (net a)) in *. set (M := bits_val m) in *. clearbody w x K N M.
  destruct (Z.lt_total K N) as [|[|]]; [left|done|right].
  - assert (K * w + M + 1 <= N * w)%Z by nia. nia.
  - assert (N * w + w <= K * w + M)%Z by nia. nia.
Qed.

Lemma contains_not_ltb a b : wf a -> wf b -> contains_range a b = true -> cidr_ltb b a = false.
Proof.
  intros Ha Hb H. apply not_true_iff_false. rewrite cidr_ltb_iff by done.
  apply contains_interval in H; [|done..]. lia.
Qed.

(** Concrete ranges for the examples. *)
Lemma wf_init addr p :
  bool_decide (is_bytes addr) = true -> (p <=? 8 * length addr) = true -> wf (init addr (Z.of_nat p)).
Proof. intros Ha%bool_decide_eq_true Hp%Nat.leb_le. by destruct (init_spec addr p) as [W _]. Qed.

Definition net10 : CidrRange := init [10; 0; 0; 0]%Z 8%Z.
Definition net10_1 : CidrRange := init [10; 1; 2; 3]%Z 16%Z.
Definition host10 : CidrRange := init [10; 1; 9; 9]%Z 32%Z.

Lemma wf_net10 : wf net10.
Proof. by apply (wf_init _ 8). Qed.

Lemma wf_net10_1 : wf net10_1.
Proof. by apply (wf_init _ 16). Qed.

Lemma wf_host10 : wf host10.
Proof. by apply (wf_init _ 32). Qed.

#[export] Hint Resolve wf_net10 wf_net10_1 wf_host10 : ag.

Lemma contains_range_subset_witness :
  contains_range net10 net10_1 = true /\ contains_range net10_1 net10 = false /\
  contains_address net10 [10; 1; 200; 3]%Z = true.
Proof.
  split; [by vm_compute|]. split; [by vm_compute|].
  destruct (contains_range_subset net10 net10_1 wf_net10 wf_net10_1) as [H _].
  apply H; [by vm_compute| |by vm_compute].
  apply (bool_decide_eq_true (is_bytes [10; 1; 200; 3]%Z)). by vm_compute.
Defined.

Lemma split_partition_witness :
  is_Some (split net10) /\ split host10 = None /\
  (forall s, is_bytes s -> contains_address host10 s = true <-> s = [10; 1; 9; 9]%Z).
Proof.
  split; [eexists; by vm_compute|]. split; [by vm_compute|].
  pose proof (split_partition host10 wf_host10) as H. destruct (split host10) eqn:E; [by vm_compute in E|]. exact H.
Defined.

Lemma exclude_difference_witness :
  exists result, exclude [net10] [net10_1] = Some result /\
    ~ covers result [10; 1; 0; 7]%Z /\ length result = 8.
Proof.
  destruct (exclude_difference [net10] [net10_1]) as (result & E & _ & H).
  { rewrite !Forall_cons, Forall_nil. auto 8 with ag. }
  { rewrite !Forall_cons, Forall_nil. auto 8 with ag. }
  exists result. split; [done|]. split.
  - intros Hc. apply H in Hc as [_ Hc].
    + apply Hc. apply Exists_exists. exists net10_1. split; [by left|by vm_compute].
    + apply (bool_decide_eq_true (is_bytes [10; 1; 0; 7]%Z)). by vm_compute.
  - assert (length <$> exclude [net10] [net10_1] = Some 8) as E' by (by vm_compute). rewrite E in E'. by injection E'.
Defined.

(** [operator<] is a strict total order with [operator==] as its equality, and a range never comes
    after one it contains. *)
Theorem cidr_ltb_total_order a b c :
  wf a -> wf b -> wf c ->
  cidr_ltb a a = false /\
  (cidr_ltb a b = true -> cidr_ltb b c = true -> cidr_ltb a c = true) /\
  (cidr_ltb a b = false -> cidr_ltb b a = false -> cidr_eqb a b = true) /\
  (cidr_eqb a b = true -> cidr_ltb a b = false) /\
  (contains_range a b = true -> cidr_ltb b a = false).
Proof.
  intros Ha Hb Hc. rewrite cidr_eqb_iff, <- !not_true_iff_false, !cidr_ltb_iff by done.
  split; [lia|]. split; [lia|]. split; [|split].
  - intros H1 H2. assert (length (m_address a) = length (m_address b)) by lia.
    split; [apply lo_inj; [done..|lia]|lia].
  - intros [E ->]. unfold lo. rewrite E. lia.
  - intros H. apply contains_interval in H; [|done..]. lia.
Qed.

Lemma cidr_ltb_total_order_witness :
  cidr_ltb net10 net10_1 = true /\ cidr_ltb net10_1 host10 = true /\ cidr_ltb net10 host10 = true.
Proof.
  split; [by vm_compute|]. split; [by vm_compute|].
  by apply (cidr_ltb_total_order net10 net10_1 host10 wf_net10 wf_net10_1 wf_host10).
Defined.

(** A valid prefix length gives a well-formed range with the first bits of the address as its
    network and the rest cleared; a longer one gives the error text and no address. *)
Theorem init_network addr p :
  is_bytes addr -> (0 <= p)%Z ->
  if (p <=? Z.of_nat (8 * length addr))%Z
  then valid (init addr p) = true /\ wf (init addr p) /\ length (m_address (init addr p)) = length addr /\
       bits (m_address (init addr p))
       = take (Z.to_nat p) (bits addr) ++ replicate (8 * length addr - Z.to_nat p) false
  else valid (init addr p) = false /\ init addr p = cidr_failed (str "Invalid prefix length").
Proof.
  intros Ha Hp. destruct (Z.leb_spec p (Z.of_nat (8 * length addr))).
  - destruct (init_spec addr (Z.to_nat p)) as (W & N & L & P & E); [done|lia|]. rewrite Z2Nat.id in * by lia.
    split; [unfold valid; by rewrite E|]. split; [done|]. split; [done|].
    by rewrite wf_bits, N, L, P by done.
  - by rewrite init_invalid by lia.
Qed.

Lemma init_network_witness :
  valid (init [10; 1; 2; 3]%Z 16%Z) = true /\ valid (init [10; 1; 2; 3]%Z 33%Z) = false.
Proof.
  assert (is_bytes [10; 1; 2; 3]%Z) as Hb by (by apply (bool_decide_eq_true (is_bytes [10; 1; 2; 3]%Z))).
  split; [exact (proj1 (init_network [10; 1; 2; 3]%Z 16%Z Hb ltac:(lia)))
         |exact (proj1 (init_network [10; 1; 2; 3]%Z 33%Z Hb ltac:(lia)))].
Defined.

(** [to_uint32] is the address as a number for an IPv4 range and [2^32 - 1] otherwise. *)
Theorem to_uint32_value r :
  wf r -> to_uint32 r = (if length (m_address r) =? 4 then lo r else (2 ^ 32 - 1)%Z).
Proof.
  intros Hr. pose proof (wf_bytes r Hr) as Hb. unfold to_uint32, lo.
  pose proof (bits_val_range (bits (m_address r))) as Hv. rewrite bits_length in Hv. revert Hb Hv.
  destruct (m_address r) as [|a [|b [|c [|d [|? ?]]]]]; try (intros; reflexivity).
  unfold is_bytes; rewrite !Forall_cons. intros (Ha & Hb & Hc & Hd & _). rewrite !bits_val_cons by done.
  cbn [bits flat_map bits_val length Nat.eqb]. intros Hv. rewrite !Z.shiftl_mul_pow2 by lia.
  unfold u32. rewrite wrap_small; simpl in *; lia.
Qed.

(** ** Text *)

(** A valid well-formed range is determined by its address and prefix length. *)
Lemma init_idempotent r :
  wf r -> m_error r = [] -> init (m_address r) (Z.of_nat (m_prefix_len r)) = r.
Proof.
  intros Hr He. pose proof (wf_prefix r Hr) as Hp.
  destruct (init_mask_spec (length (m_address r)) (m_prefix_len r) Hp) as (Hl & Hb & Hm).
  assert (init_mask (length (m_address r)) (m_prefix_len r) = m_mask r) as E.
  { apply bits_inj; [done|apply (wf_mask_bytes r Hr)|rewrite Hl; symmetry; apply (wf_mask_length r Hr)|].
    by rewrite Hm, (wf_mask r Hr). }
  unfold init. rewrite (proj2 (Z.ltb_ge _ _)) by lia. rewrite Nat2Z.id, E.
  rewrite zip_u8_land, (wf_masked r Hr) by (apply (wf_bytes r Hr) || apply (wf_mask_bytes r Hr)).
  destruct r; cbn in *. by subst.
Qed.

Lemma c_str_id s : Forall (fun c => c <> 0%Z) s -> c_str s = s.
Proof.
  unfold c_str. induction 1 as [|c s Hc _ IH]; [done|]. cbn [take_while].
  rewrite (proj2 (Z.eqb_neq _ _) Hc). cbn [negb]. by rewrite IH.
Qed.

(** A character of an IPv4 address, or of the groups of an IPv6 address. *)
Definition address_char (v6 : bool) (c : Z) : bool :=
  if v6 then bool_decide (is_Some (digit_val 16 c)) || (c =? chr ":")%Z else isdigit c || (c =? chr ".")%Z.

(** A group of an IPv6 address: one to four hexadecimal digits, and their value. *)
Definition hex_digit (c : Z) : option Z :=
  (fun i => Z.of_nat (if i <? 16 then i else i - 6)) <$> find_index (Z.eqb c) (str "0123456789abcdefABCDEF").

Fixpoint hex_value (acc : Z) (h : bytes) : option Z :=
  match h with
  | [] => Some acc
  | c :: h => match hex_digit c with Some d => hex_value (acc * 16 + d)%Z h | None => None end
  end.

Definition hex_group (h : bytes) (v : Z) : Prop := 1 <= length h <= 4 /\ hex_value 0 h = Some v.

Lemma digit_val_hex c d : digit_val 16 c = Some d -> hex_digit c = Some d.
Proof.
  assert (forall c, (0 <= c < 128)%Z -> digit_val 16 c = None \/ hex_digit c = digit_val 16 c) as H by (clear; by_range).
  intros Hd. assert (0 <= c < 128)%Z as Hc.
  { unfold digit_val, isdigit, islower, isupper in Hd. repeat case_match; simplify_eq/=; lia. }
  destruct (H c Hc); congruence.
Qed.

Lemma read_hex_value acc h v :
  Forall (fun c => is_Some (digit_val 16 c)) h -> read_digits 16 acc h = (v, []) -> hex_value acc h = Some v.
Proof.
  intros Hh. revert acc. induction Hh as [|c h [d Hd] _ IH]; intros acc Hr; cbn [hex_value read_digits] in *; [congruence|].
  rewrite Hd in Hr. rewrite (digit_val_hex c d Hd). by apply IH.
Qed.

Lemma fmt_hex_group v : (0 <= v < 2 ^ 16)%Z -> hex_group (fmt_hex v) v.
Proof.
  intros Hv. destruct (fmt_num_read false 16 v) as (Hall & Hne & Hr); [lia..|]. fold (fmt_hex v) in *. split; [|by apply read_hex_value].
  destruct (pad_zero_digits 4 (S (Z.to_nat (Z.log2 v))) false 16 v) as [Hl _]; [lia..|]. fold (fmt_num false 16 v) in Hl.
  fold (fmt_hex v) in Hl. destruct (fmt_hex v); cbn in *; [done|lia].
Qed.

Section TextRoundtrip.
Context (pton4 pton6 : bytes -> option bytes) (ntop4 ntop6 : bytes -> bytes).
Context (strerror : bytes) (loc : SourceLocation).

(** What the C library documents of [inet_ntop] and [inet_pton] at one address.  The text of an IPv4 address is
    digits and dots, and is read back. *)
Definition text4_ok (address text : bytes) : Prop :=
  pton4 text = Some address /\ chr "." ∈ text /\ length text < INET_ADDRSTRLEN /\
  Forall (fun c => address_char false c = true) text.

(** The text of an IPv6 address is groups and colons, and is read back, *)
Definition plain6_ok (address text : bytes) : Prop :=
  pton6 text = Some address /\ text <> [] /\ length text < INET6_ADDRSTRLEN /\
  Forall (fun c => address_char true c = true) text.

(** or its last two groups are written as an IPv4 address [a.b.c.d], and the text with these groups in hexadecimal
    is read back as well. *)
Definition mixed6_ok (address text : bytes) : Prop :=
  exists before quad a b c d,
    text = before ++ str ":" ++ quad /\ is_bytes [a; b; c; d] /\ text4_ok [a; b; c; d] quad /\
    Forall (fun c => address_char true c = true) before /\ length before <= 30 /\
    forall h1 h2, hex_group h1 (256 * a + b) -> hex_group h2 (256 * c + d) ->
      pton6 (before ++ str ":" ++ h1 ++ str ":" ++ h2) = Some address.

Definition text_ok (r : CidrRange) : Prop :=
  if length (m_address r) =? 4 then text4_ok (m_address r) (ntop4 (m_address r))
  else plain6_ok (m_address r) (ntop6 (m_address r)) \/ mixed6_ok (m_address r) (ntop6 (m_address r)).

Lemma address_char_class v6 c :
  address_char v6 c = true ->
  isspace c = false /\ c <> chr "/" /\ c <> 0%Z /\ (v6 = true -> c <> chr ".") /\ (v6 = false -> c <> chr ":").
Proof.
  unfold address_char. change (chr "/") with 47%Z. change (chr ".") with 46%Z. change (chr ":") with 58%Z.
  assert (isspace c = false <-> c <> 32%Z /\ ~ (9 <= c <= 13)%Z) as -> by (unfold isspace; lia).
  destruct v6; rewrite orb_true_iff, Z.eqb_eq; [|unfold isdigit; lia].
  rewrite bool_decide_eq_true. intros [[d Hd]|Hc]; [|lia].
  unfold digit_val, isdigit, islower, isupper in Hd. repeat case_match; simplify_eq/=; lia.
Qed.

Lemma without_char v6 s x :
  Forall (fun c => address_char v6 c = true) s -> (forall c, address_char v6 c = true -> c <> x) -> find_index (Z.eqb x) s = None.
Proof. intros Hs Hx. apply find_index_None. eapply Forall_impl; [exact Hs|]. intros c Hc%Hx. by apply Z.eqb_neq, not_eq_sym. Qed.

Lemma with_char s x : x ∈ s -> exists i, find_index (Z.eqb x) s = Some i.
Proof.
  intros Hx. destruct (find_index (Z.eqb x) s) as [i|] eqn:E; [by exists i|]. rewrite find_index_None, Forall_forall in E.
  specialize (E _ Hx). by rewrite Z.eqb_refl in E.
Qed.

Lemma read_text4 address text : text4_ok address text -> get_ipv4_address_from_string pton4 strerror loc text = RValue address.
Proof.
  intros (Hp & _ & Hlen & Hall). unfold get_ipv4_address_from_string. rewrite (proj2 (Nat.leb_gt _ _)) by done.
  rewrite c_str_id; [by rewrite Hp|]. eapply Forall_impl; [exact Hall|]. intros c Hc%address_char_class; naive_solver.
Qed.

Lemma read_text6 address text :
  Forall (fun c => address_char true c = true) text -> length text < INET6_ADDRSTRLEN -> pton6 text = Some address ->
  get_ipv6_address_from_string pton6 strerror loc text = RValue address.
Proof.
  intros Hall Hlen Hp. unfold get_ipv6_address_from_string. rewrite (proj2 (Nat.leb_gt _ _)) by done.
  rewrite c_str_id; [by rewrite Hp|]. eapply Forall_impl; [exact Hall|]. intros c Hc%address_char_class; naive_solver.
Qed.

Lemma fmt_hex_chars v : (0 <= v)%Z -> Forall (fun c => address_char true c = true) (fmt_hex v).
Proof.
  intros Hv. destruct (fmt_num_read false 16 v) as (Hall & _); [lia..|]. eapply Forall_impl; [exact Hall|].
  intros c Hc. unfold address_char. by rewrite bool_decide_true.
Qed.

(** The text in mixed form, read by way of its hexadecimal form. *)
Lemma read_mixed address text : mixed6_ok address text -> get_address_from_string pton4 pton6 strerror loc text = RValue address.
Proof.
  intros (before & quad & a & b & c & d & -> & Hb & Hq & Hbefore & Hlen & Hp). pose proof Hq as (_ & Hdot & _ & Hqc).
  apply Forall_cons in Hb as [Ha [Hb [Hc [Hd _]%Forall_cons]%Forall_cons]%Forall_cons]. unfold is_byte in *.
  unfold get_address_from_string. destruct (with_char (before ++ str ":" ++ quad) (chr ".")) as [i ->]; [set_solver|].
  destruct (with_char (before ++ str ":" ++ quad) (chr ":")) as [j ->]; [apply elem_of_app; right; by left|].
  rewrite (proj2 (rfind_index_Some _ _ (length before))).
  2:{ exists (chr ":"). change (str ":" ++ quad) with (chr ":" :: quad). rewrite list_lookup_middle by done. split; [done|].
      split; [apply Z.eqb_refl|]. rewrite drop_app_ge by lia. replace (S (length before) - length before) with 1 by lia.
      cbn [drop]. rewrite drop_0. eapply Forall_impl; [exact Hqc|]. intros x Hx%address_char_class. apply Z.eqb_neq. naive_solver. }
  assert (before ++ str ":" ++ quad = (before ++ str ":") ++ quad) as -> by (by rewrite app_assoc).
  replace (length before + 1) with (length (before ++ str ":")) by (rewrite length_app; done).
  rewrite drop_app_length, take_app_length, (read_text4 _ _ Hq). cbn [lookup_total list_lookup_total].
  rewrite !Z.shiftl_mul_pow2 by lia.
  replace (a * 2 ^ 8 + b)%Z with (256 * a + b)%Z by lia. replace (c * 2 ^ 8 + d)%Z with (256 * c + d)%Z by lia.
  destruct (fmt_hex_group (256 * a + b)) as [Hl1 Hv1]; [lia|]. destruct (fmt_hex_group (256 * c + d)) as [Hl2 Hv2]; [lia|].
  apply read_text6.
  - rewrite !Forall_app. split; [split; [done|by apply Forall_singleton]|].
    split; [apply fmt_hex_chars; lia|]. split; [by apply Forall_singleton|apply fmt_hex_chars; lia].
  - rewrite !length_app. cbn. unfold INET6_ADDRSTRLEN. lia.
  - rewrite <- app_assoc. by apply Hp.
Qed.

Lemma get_address_from_text r :
  text_ok r -> m_error r = [] ->
  get_address_from_string pton4 pton6 strerror loc (get_address_as_string ntop4 ntop6 r) = RValue (m_address r).
Proof.
  intros Ht He. unfold get_address_as_string. rewrite He, bool_decide_true by done. cbn [negb].
  unfold text_ok in Ht. change IPV4_ADDRESS_SIZE with 4. destruct (length (m_address r) =? 4); [|destruct Ht as [Ht|Ht]].
  - unfold get_address_from_string. pose proof Ht as (_ & Hdot & _ & Hall). destruct (with_char _ _ Hdot) as [i ->].
    rewrite (without_char false _ (chr ":") Hall); [by apply read_text4|]. intros c Hc%address_char_class. naive_solver.
  - unfold get_address_from_string. destruct Ht as (Hp & _ & Hlen & Hall).
    rewrite (without_char true _ (chr ".") Hall); [by apply read_text6|]. intros c Hc%address_char_class. naive_solver.
  - by apply read_mixed.
Qed.

Lemma text_chars r :
  text_ok r -> m_error r = [] ->
  Forall (fun c => isspace c = false /\ c <> chr "/") (get_address_as_string ntop4 ntop6 r).
Proof.
  intros Ht He. unfold get_address_as_string. rewrite He, bool_decide_true by done. cbn [negb].
  assert (forall v6 s, Forall (fun c => address_char v6 c = true) s -> Forall (fun c => isspace c = false /\ c <> chr "/") s) as Hs.
  { intros v6 s Hs. eapply Forall_impl; [exact Hs|]. intros c Hc%address_char_class. naive_solver. }
  unfold text_ok in Ht. change IPV4_ADDRESS_SIZE with 4. destruct (length (m_address r) =? 4); [eapply Hs, Ht|].
  destruct Ht as [Ht|(before & quad & a & b & c & d & -> & _ & Hq & Hb & _)]; [eapply Hs, Ht|].
  rewrite !Forall_app. split; [by eapply Hs|]. split; [|eapply Hs, Hq]. by apply Forall_singleton.
Qed.

(** C34: Parsing the printed form of a valid range gives the range back, for IPv4 addresses, for IPv6 addresses
    written in groups, and for IPv6 addresses whose last two groups the C library writes as an IPv4 address, as in
    [::ffff:1.2.3.4], as long as [inet_pton] reads what [inet_ntop] writes, and for the mixed form the same text
    with the two groups in hexadecimal. *)
Theorem cidr_string_roundtrip r :
  wf r -> m_error r = [] -> (Z.of_nat (length (m_address r)) < 2 ^ 60)%Z -> text_ok r ->
  cidr_of_string pton4 pton6 strerror loc (cidr_to_string ntop4 ntop6 r) = Returns r.
Proof.
  intros Hr He Hsz Ht. pose proof (get_address_from_text r Ht He) as Hget. pose proof (text_chars r Ht He) as Htext.
  unfold cidr_to_string, cidr_of_string. set (text := get_address_as_string ntop4 ntop6 r) in *.
  destruct (fmt_dec_digits (Z.of_nat (m_prefix_len r))) as [Hdig Hne]; [lia|].
  apply Forall_and in Htext as [Hsp Hslash].
  assert (Forall (fun c => isspace c = false) (fmt_dec (Z.of_nat (m_prefix_len r)))) as Hsd.
  { eapply Forall_impl; [exact Hdig|]. intros c. unfold isdigit, isspace. cbn. lia. }
  destruct (text ++ str "/" ++ fmt_dec (Z.of_nat (m_prefix_len r))) as [|c0 s0] eqn:E.
  { by apply app_eq_nil in E as [_ E]. }
  rewrite <- E. clear E c0 s0. rewrite no_space_trim.
  2:{ apply Forall_app. split; [done|]. by constructor. }
  change (str "/" ++ ?x) with (chr "/" :: x).
  change (split2_by ?s 47 true) with (split2_by s (chr "/") true). rewrite split2_by_first; [|apply chr_byte|done].
  rewrite !no_space_trim by done. rewrite Hget. rewrite bool_decide_false by done. cbn [negb].
  pose proof (wf_prefix r Hr). rewrite fmt_dec_to_integer by lia. by rewrite init_idempotent.
Qed.
End TextRoundtrip.

(** A prefix length that is not a number leaves the constructor by an exception, whatever the address. *)
Lemma cidr_of_string_bad_prefix pton4 pton6 strerror loc text prefix_text address :
  Forall (fun c => isspace c = false /\ c <> chr "/") text -> text <> [] ->
  Forall (fun c => isspace c = false) prefix_text -> prefix_text <> [] ->
  get_address_from_string pton4 pton6 strerror loc text = RValue address ->
  to_integer false 64 10 prefix_text = None ->
  cidr_of_string pton4 pton6 strerror loc (text ++ str "/" ++ prefix_text) = Throws BadOptionalAccess.
Proof.
  intros Htext Hne Hp Hpne Hget Hint. unfold cidr_of_string.
  destruct (text ++ str "/" ++ prefix_text) as [|c0 s0] eqn:E; [by apply app_eq_nil in E as [_ E]|].
  rewrite <- E. clear E c0 s0. apply Forall_and in Htext as [Hs Hd]. rewrite no_space_trim.
  2:{ apply Forall_app. split; [done|]. by constructor. }
  change (str "/" ++ ?x) with (chr "/" :: x).
  change (split2_by ?s 47 true) with (split2_by s (chr "/") true).
  rewrite split2_by_first by (done || apply chr_byte). rewrite !no_space_trim by done.
  by rewrite Hget, bool_decide_false, Hint.
Qed.

(** An [inet_pton] for the addresses of the form [::ffff:x:y]. *)
Definition pton_mapped (s : bytes) : option bytes :=
  let groups := drop 7 s in
  i ← find_index (Z.eqb (chr ":")) groups;
  x ← hex_value 0 (take i groups); y ← hex_value 0 (drop (i + 1) groups);
  Some (replicate 10 0%Z ++ [255; 255; x / 256; x mod 256; y / 256; y mod 256]%Z).

Lemma hex_no_colon acc h v : hex_value acc h = Some v -> Forall (fun c => (chr ":" =? c)%Z = false) h.
Proof.
  revert acc. induction h as [|c h IH]; intros acc Hh; cbn [hex_value] in Hh; [constructor|].
  destruct (hex_digit c) eqn:E; [|done]. constructor; [|by eapply IH]. apply Z.eqb_neq. intros <-. by vm_compute in E.
Qed.

Lemma pton_mapped_groups a b c d h1 h2 :
  is_bytes [a; b; c; d] -> hex_group h1 (256 * a + b) -> hex_group h2 (256 * c + d) ->
  pton_mapped (str "::ffff" ++ str ":" ++ h1 ++ str ":" ++ h2) = Some (replicate 10 0%Z ++ [255; 255; a; b; c; d]%Z).
Proof.
  intros Hb [_ H1] [_ H2]. unfold pton_mapped. rewrite app_assoc, drop_app_ge by (cbn; lia).
  change (drop (7 - length (str "::ffff" ++ str ":")) ?x) with (drop 0 x). rewrite drop_0.
  rewrite (proj2 (find_index_Some _ _ (length h1))).
  2:{ exists (chr ":"). change (str ":" ++ h2) with (chr ":" :: h2). rewrite list_lookup_middle, take_app_length by done.
      split; [done|]. split; [done|]. by eapply hex_no_colon. }
  cbn [mbind option_bind]. rewrite take_app_length, H1. cbn [mbind option_bind].
  assert (drop (length h1 + 1) (h1 ++ str ":" ++ h2) = h2) as ->.
  { rewrite drop_app_ge by lia. by replace (length h1 + 1 - length h1) with 1 by lia. }
  rewrite H2. cbn [mbind option_bind]. unfold is_bytes in Hb. rewrite !Forall_cons in Hb. unfold is_byte in Hb.
  do 3 f_equal. repeat f_equal; Z.to_euclidean_division_equations; lia.
Qed.

Definition mapped : CidrRange := init (replicate 10 0%Z ++ [255; 255; 1; 2; 3; 4]%Z) 128%Z.

Lemma cidr_string_roundtrip_witness :
  (let ntop (_ : bytes) : bytes := str "10.1.9.9" in
   let pton (_ : bytes) : option bytes := Some [10; 1; 9; 9]%Z in
   cidr_to_string ntop ntop host10 = str "10.1.9.9/32" /\
   cidr_of_string pton pton [] (MkLocation [] 0) (cidr_to_string ntop ntop host10) = Returns host10) /\
  (let ntop (_ : bytes) : bytes := str "::ffff:1.2.3.4" in
   let pton (_ : bytes) : option bytes := Some [1; 2; 3; 4]%Z in
   cidr_to_string ntop ntop mapped = str "::ffff:1.2.3.4/128" /\
   cidr_of_string pton pton_mapped [] (MkLocation [] 0) (cidr_to_string ntop ntop mapped) = Returns mapped).
Proof.
  split; intros ntop pton; (split; [by vm_compute|]).
  - apply (cidr_string_roundtrip pton pton ntop ntop [] (MkLocation [] 0) host10); [apply wf_host10|done|by vm_compute|].
    split; [done|]. split; [by apply (bool_decide_eq_true (_ ∈ _))|]. split; [vm_compute; lia|].
    repeat constructor.
  - apply (cidr_string_roundtrip pton pton_mapped ntop ntop [] (MkLocation [] 0) mapped); [|done|by vm_compute|].
    + by apply (wf_init _ 128).
    + right. exists (str "::ffff"), (str "1.2.3.4"), 1%Z, 2%Z, 3%Z, 4%Z. split; [done|].
      split; [by apply (bool_decide_eq_true (is_bytes _))|]. split; [|split; [repeat constructor|split; [cbn; lia|]]].
      * split; [done|]. split; [by apply (bool_decide_eq_true (_ ∈ _))|]. split; [vm_compute; lia|]. repeat constructor.
      * intros h1 h2. by apply (pton_mapped_groups 1 2 3 4), (bool_decide_eq_true (is_bytes _)).
Defined.
