(* ===== verification/CidrSet.v ===== *)
(** * Sets of CIDR ranges: class [CidrRangeSet] of [common/include/common/cidr_range.h]

    The multiset is its list of elements in tree order, searched with the comparator [ModifiedLess].
    That comparator is no strict weak order on all ranges; the invariant keeps the elements pairwise
    apart, and there the searches agree with a linear scan. *)

From stdpp Require Import sorting.
From S2P Require Import StringView Utils Error Cidr.

Definition ModifiedLess (lhs rhs : CidrRange) : bool := cidr_ltb lhs rhs && negb (contains_range lhs rhs).

Abbreviation multiset := (list CidrRange).

(** Partition points of the tree: the first element not before [range], the first one after it. *)
Definition lower_bound (range : CidrRange) (m_set : multiset) : nat :=
  length (take_while (fun n => ModifiedLess n range) m_set).
Definition upper_bound (range : CidrRange) (m_set : multiset) : nat :=
  length (take_while (fun n => negb (ModifiedLess range n)) m_set).

Definition equal_range (range : CidrRange) (m_set : multiset) : nat * nat :=
  (lower_bound range m_set, upper_bound range m_set).

(** How the loop of [insert] over the equal range ends. *)
Inductive insert_end :=
| ReachedEnd                     (* every element of the range was erased *)
| Refused (rest : multiset)      (* [return false] at an element that contains the new one *)
| Spins.                         (* neither branch is taken and [it] does not move *)

Fixpoint insert_loop (range : CidrRange) (eq : multiset) : insert_end :=
  match eq with
  | [] => ReachedEnd
  | it :: eq' =>
      if contains_range range it then insert_loop range eq'
      else if contains_range it range then Refused eq
      else Spins
  end.

(** [insert]; [None] when the loop never ends.  The new element goes just before [eqr_end]. *)
Definition insert (range : CidrRange) (m_set : multiset) : option (bool * multiset) :=
  let '(eqr_begin, eqr_end) := equal_range range m_set in
  let before := take eqr_begin m_set in
  let eq := drop eqr_begin (take eqr_end m_set) in
  let after := drop eqr_end m_set in
  match insert_loop range eq with
  | ReachedEnd => Some (true, before ++ range :: after)
  | Refused rest => Some (false, before ++ rest ++ after)
  | Spins => None
  end.

Definition includes (range : CidrRange) (m_set : multiset) : bool :=
  let '(eqr_begin, eqr_end) := equal_range range m_set in
  existsb (fun n => contains_range n range) (drop eqr_begin (take eqr_end m_set)).

Definition clear (m_set : multiset) : multiset := [].
Definition size (m_set : multiset) : nat := length m_set.

(** ** The comparator is an interval order *)

(** The whole of [x] comes before the whole of [y]. *)
Definition before (x y : CidrRange) : Prop :=
  length (m_address x) < length (m_address y) \/
  length (m_address x) = length (m_address y) /\ (hi x <= lo y)%Z.

Lemma ModifiedLess_iff x y : wf x -> wf y -> ModifiedLess x y = true <-> before x y.
Proof.
  intros Hx Hy. unfold ModifiedLess, before. rewrite andb_true_iff, negb_true_iff, cidr_ltb_iff by done.
  pose proof (span_pos x). pose proof (span_pos y).
  pose proof (contains_interval x y Hx Hy) as Hxy. pose proof (contains_interval y x Hy Hx) as Hyx. split.
  - intros [[|[Hl Hlt]] Hc]; [by left|]. right. split; [done|].
    destruct (Nat.le_ge_cases (m_prefix_len x) (m_prefix_len y)) as [Hp|Hp].
    + destruct (interval_disjoint x y) as [|]; unfold hi in *; done || lia.
    + destruct (contains_range y x) eqn:E; [specialize (Hyx eq_refl); lia|].
      destruct (interval_disjoint y x) as [|]; unfold hi in *; done || lia.
  - unfold hi in *. destruct (contains_range x y); [specialize (Hxy eq_refl); lia|]. split; [lia|done].
Qed.

Lemma ModifiedLess_false x y : wf x -> wf y -> ModifiedLess x y = false <-> ~ before x y.
Proof. intros Hx Hy. rewrite <- ModifiedLess_iff by done. by rewrite not_true_iff_false. Qed.

Lemma before_irrefl x : ~ before x x.
Proof. unfold before, hi. pose proof (span_pos x). lia. Qed.

Lemma before_trans x y z : before x y -> before y z -> before x z.
Proof. unfold before, hi. pose proof (span_pos y). lia. Qed.

(** Neither is before the other: one contains the other. *)
Lemma not_before_nested x y :
  wf x -> wf y -> ~ before x y /\ ~ before y x <-> contains_range x y = true \/ contains_range y x = true.
Proof.
  intros Hx Hy. pose proof (contains_interval x y Hx Hy) as Hxy. pose proof (contains_interval y x Hy Hx) as Hyx.
  pose proof (span_pos x). pose proof (span_pos y). unfold before. split.
  - intros [H1 H2]. assert (length (m_address x) = length (m_address y)) as Hl by lia.
    destruct (contains_range x y) eqn:E1; [by left|]. destruct (contains_range y x) eqn:E2; [by right|]. exfalso.
    destruct (Nat.le_ge_cases (m_prefix_len x) (m_prefix_len y)) as [Hp|Hp];
      [destruct (interval_disjoint x y)|destruct (interval_disjoint y x)]; done || lia.
  - unfold hi in *. intros [E|E]; [specialize (Hxy E)|specialize (Hyx E)]; lia.
Qed.

(** ** The invariant: well-formed elements, each before the next ones *)

Definition inv (m_set : multiset) : Prop := Forall wf m_set /\ StronglySorted before m_set.

(** Around any range the elements fall into three runs: before it, nested with it, after it. *)
Lemma equal_range_split range m_set :
  inv m_set -> wf range ->
  exists l eq r, m_set = l ++ eq ++ r /\ lower_bound range m_set = length l /\
    upper_bound range m_set = length l + length eq /\
    Forall (fun n => before n range) l /\
    Forall (fun n => contains_range n range = true \/ contains_range range n = true) eq /\
    Forall (fun n => before range n) r.
Proof.
  intros [Hwf Hs] Hr. unfold lower_bound, upper_bound. induction Hs as [|n m_set Hs IH Hn].
  { by exists [], [], []. }
  apply Forall_cons in Hwf as [Hwn Hwf]. destruct (IH Hwf) as (l & eq & r & E & L & U & Fl & Fe & Fr).
  cbn [take_while]. destruct (ModifiedLess n range) eqn:E1.
  - apply ModifiedLess_iff in E1; [|done..].
    rewrite (proj2 (ModifiedLess_false range n Hr Hwn)).
    2:{ intros H. exact (before_irrefl _ (before_trans _ _ _ E1 H)). }
    cbn [negb length]. exists (n :: l), eq, r. cbn [app length]. rewrite <- E, L, U. by repeat split; try constructor.
  - apply ModifiedLess_false in E1; [|done..].
    assert (Forall (fun m => ~ before m range) m_set) as Hnb.
    { eapply Forall_impl; [exact Hn|]. intros m Hm H. apply E1. by eapply before_trans. }
    assert (l = []) as ->.
    { destruct l as [|x l]; [done|]. exfalso. apply Forall_cons in Fl as [Fx _].
      rewrite E in Hnb. apply Forall_cons in Hnb as [Hx _]. done. }
    destruct (ModifiedLess range n) eqn:E2; cbn [negb length].
    + apply ModifiedLess_iff in E2; [|done..]. exists [], [], (n :: m_set).
      repeat split; try constructor; [done|]. eapply Forall_impl; [exact Hn|]. intros m Hm. by eapply before_trans.
    + apply ModifiedLess_false in E2; [|done..]. exists [], (n :: eq), r. cbn [app length].
      rewrite U. cbn in E. rewrite <- E. repeat split; try constructor; try done.
      apply not_before_nested; [done..|]. done.
Qed.

Lemma equal_range_parts range m_set l eq r :
  m_set = l ++ eq ++ r -> lower_bound range m_set = length l -> upper_bound range m_set = length l + length eq ->
  take (lower_bound range m_set) m_set = l /\
  drop (lower_bound range m_set) (take (upper_bound range m_set) m_set) = eq /\
  drop (upper_bound range m_set) m_set = r.
Proof.
  intros E -> ->. subst. rewrite take_app_length. split; [done|].
  rewrite <- length_app, app_assoc, take_app_length, !drop_app_length. done.
Qed.

(** Elements of one set do not contain each other. *)
Lemma inv_apart l n m r :
  inv (l ++ n :: m :: r) -> contains_range n m = false /\ contains_range m n = false.
Proof.
  intros [Hwf Hs]. apply StronglySorted_app_1_r in Hs. inversion Hs as [|? ? _ Hn]; subst.
  apply Forall_app in Hwf as [_ Hwf]. rewrite !Forall_cons in Hwf. rewrite Forall_cons in Hn. destruct Hwf as (Hwn & Hwm & _).
  destruct Hn as [Hn _]. pose proof (not_before_nested n m Hwn Hwm) as H.
  destruct (contains_range n m), (contains_range m n); naive_solver.
Qed.

Lemma inv_sublist (k m : multiset) : k `sublist_of` m -> inv m -> inv k.
Proof.
  intros Hsub [Hwf Hs]. split.
  - rewrite Forall_forall in *. intros x Hx. apply Hwf. by eapply elem_of_sublist.
  - induction Hsub as [|x k m Hsub IH|x k m Hsub IH]; [done| |];
      apply Forall_cons in Hwf as [_ Hwf]; inversion Hs as [|? ? Hs' Hx]; subst; [|by apply IH].
    constructor; [by apply IH|]. rewrite Forall_forall in *. intros y Hy. apply Hx. by eapply elem_of_sublist.
Qed.

(** Once one element has been found inside the new range, all the others of the run are too. *)
Lemma insert_loop_erases range l n eq r :
  inv (l ++ n :: eq ++ r) -> wf range -> contains_range range n = true ->
  Forall (fun n => contains_range n range = true \/ contains_range range n = true) eq ->
  insert_loop range eq = ReachedEnd /\ Forall (fun m => contains_range range m = true) eq.
Proof.
  intros Hinv Hr Hn. induction eq as [|m eq IH]; intros He; [done|].
  apply Forall_cons in He as [Hm He]. destruct (inv_apart l n m (eq ++ r) Hinv) as [Hnm Hmn].
  pose proof Hinv as [Hwf _]. apply Forall_app in Hwf as [Hwl Hwf]. cbn [app] in Hwf. rewrite !Forall_cons in Hwf.
  destruct Hwf as (Hwn & Hwm & Hwf).
  assert (contains_range range m = true) as Hrm.
  { destruct Hm as [Hm|]; [|done]. rewrite (contains_trans m range n) in Hmn; done. }
  cbn [insert_loop]. rewrite Hrm. destruct IH as [-> Hf]; [|done|by split; [|constructor]].
  eapply inv_sublist; [|exact Hinv]. apply sublist_app; [done|]. by apply sublist_skip, sublist_cons.
Qed.

(** At most one element can contain the new range. *)
Lemma container_alone range l n m r :
  inv (l ++ n :: m :: r) -> wf range -> contains_range n range = true ->
  contains_range m range = true \/ contains_range range m = true -> False.
Proof.
  intros Hinv Hr Hn Hm. destruct (inv_apart l n m r Hinv) as [Hnm Hmn].
  destruct Hinv as [Hwf _]. apply Forall_app in Hwf as [_ Hwf]. rewrite !Forall_cons in Hwf.
  destruct Hwf as (Hwn & Hwm & _). destruct Hm as [Hm|Hm].
  - destruct (contains_interval n range Hwn Hr Hn) as (L1 & _ & A1 & B1).
    destruct (contains_interval m range Hwm Hr Hm) as (L2 & _ & A2 & B2). pose proof (span_pos range).
    pose proof (not_before_nested n m Hwn Hwm) as Hb. rewrite Hnm, Hmn in Hb.
    assert (~ before n m /\ ~ before m n) by (unfold before, hi in *; lia). naive_solver.
  - rewrite (contains_trans n range m) in Hnm; done.
Qed.

Lemma insert_loop_spec range l eq r :
  inv (l ++ eq ++ r) -> wf range ->
  Forall (fun n => contains_range n range = true \/ contains_range range n = true) eq ->
  (insert_loop range eq = ReachedEnd /\ Forall (fun n => contains_range range n = true) eq) \/
  (insert_loop range eq = Refused eq /\
   exists n, eq = [n] /\ contains_range n range = true /\ contains_range range n = false).
Proof.
  intros Hinv Hr He. destruct eq as [|n eq]; [by left|].
  apply Forall_cons in He as [Hn He]. cbn [insert_loop]. destruct (contains_range range n) eqn:E.
  - left. destruct (insert_loop_erases range l n eq r Hinv Hr E He) as [-> Hf]. by split; [|constructor].
  - right. destruct Hn as [Hn|]; [|done]. rewrite Hn. split; [done|]. exists n. split; [|done].
    destruct eq as [|m eq]; [done|]. exfalso. apply Forall_cons in He as [Hm _].
    by eapply (container_alone range l n m (eq ++ r)).
Qed.

Lemma inv_replace range l eq r :
  inv (l ++ eq ++ r) -> wf range -> Forall (fun n => before n range) l -> Forall (fun n => before range n) r ->
  inv (l ++ range :: r).
Proof.
  intros Hinv Hr Hl Hrr. assert (inv (l ++ r)) as [Hwf Hs].
  { eapply inv_sublist; [|exact Hinv]. apply sublist_app; [done|]. by apply sublist_inserts_l. }
  split.
  - apply Forall_app in Hwf as [? ?]. apply Forall_app. by split; [|constructor].
  - clear Hwf Hinv eq. induction l as [|x l IH]; cbn [app] in *; [by constructor|].
    inversion Hs as [|? ? Hs' Hx]; subst. apply Forall_cons in Hl as [Hxr Hl].
    constructor; [by apply IH|]. apply Forall_app in Hx as [? ?]. apply Forall_app. by split; [|constructor].
Qed.

(** ** What insertion does *)

Lemma before_not_contains x y : wf x -> wf y -> before x y -> contains_range x y = false /\ contains_range y x = false.
Proof.
  intros Hx Hy H. pose proof (not_before_nested x y Hx Hy).
  destruct (contains_range x y), (contains_range y x); naive_solver.
Qed.

Lemma insert_cases range m_set :
  inv m_set -> wf range ->
  (exists m_set', insert range m_set = Some (true, m_set') /\ inv m_set' /\
     (forall x, x ∈ m_set' <-> x = range \/ x ∈ m_set /\ contains_range range x = false) /\
     (forall x, x ∈ m_set -> contains_range x range = true -> contains_range range x = true)) \/
  (insert range m_set = Some (false, m_set) /\
   exists n, n ∈ m_set /\ contains_range n range = true /\ contains_range range n = false).
Proof.
  intros Hinv Hr. destruct (equal_range_split range m_set Hinv Hr) as (l & eq & r & E & L & U & Fl & Fe & Fr).
  destruct (equal_range_parts range m_set l eq r E L U) as (E1 & E2 & E3).
  unfold insert, equal_range. rewrite E1, E2, E3. subst m_set.
  pose proof (proj1 Hinv) as Hwf. rewrite !Forall_app in Hwf. destruct Hwf as (Wl & We & Wr).
  rewrite Forall_forall in Wl, We, Wr, Fl, Fr.
  assert (forall x, x ∈ l \/ x ∈ r -> contains_range range x = false /\ contains_range x range = false) as Hout.
  { intros x [Hx|Hx]; [destruct (before_not_contains x range)|destruct (before_not_contains range x)]; auto. }
  destruct (insert_loop_spec range l eq r Hinv Hr Fe) as [[-> He]|(-> & n & -> & Hn1 & Hn2)].
  - left. eexists. split; [done|]. rewrite Forall_forall in He. split; [|split].
    + apply (inv_replace range l eq r); [done..| |]; by apply Forall_forall.
    + intros x. rewrite !elem_of_app, elem_of_cons. split.
      * intros [Hx|[->|Hx]]; [right|by left|right]; (split; [tauto|]); apply Hout; tauto.
      * intros [->|[[Hx|[Hx|Hx]] Hc]]; [tauto..| |tauto]. by rewrite He in Hc.
    + intros x. rewrite !elem_of_app. intros [Hx|[Hx|Hx]] Hc; [|by apply He|];
        destruct (Hout x); (tauto || congruence).
  - right. split; [done|]. exists n. split; [|done]. set_solver.
Qed.

(** [insert] always ends and keeps the invariant; it answers [false] and changes nothing exactly
    when an element strictly contains the range, and otherwise the new elements are the range and the
    old ones that it does not contain. *)
Theorem insert_spec range m_set :
  inv m_set -> wf range ->
  exists b m_set', insert range m_set = Some (b, m_set') /\ inv m_set' /\
    (b = false <-> exists n, n ∈ m_set /\ contains_range n range = true /\ contains_range range n = false) /\
    (b = false -> m_set' = m_set) /\
    (b = true -> forall x, x ∈ m_set' <-> x = range \/ x ∈ m_set /\ contains_range range x = false).
Proof.
  intros Hinv Hr. destruct (insert_cases range m_set Hinv Hr) as [(m & E & Hm & Hx & Hc)|(E & n & Hn)].
  - exists true, m. split; [done|]. split; [done|]. split; [|done]. split; [done|].
    intros (k & Hin & H1 & H2). rewrite (Hc k) in H2; done.
  - exists false, m_set. split; [done|]. split; [done|]. split; [|done]. split; [|done]. intros _. by exists n.
Qed.

Lemma inv_net10_1 : inv [net10_1].
Proof. split; [by apply Forall_singleton, wf_net10_1|repeat constructor]. Qed.

Lemma insert_spec_witness :
  exists m_set', insert host10 [net10_1] = Some (false, m_set') /\ m_set' = [net10_1].
Proof.
  destruct (insert_spec host10 [net10_1] inv_net10_1 wf_host10) as (b & m & E & _ & Hb & Hf & _).
  assert (b = false) as -> by (apply Hb; exists net10_1; split; [by left|by vm_compute]). eauto.
Defined.

Lemma includes_scan range m_set :
  inv m_set -> wf range -> includes range m_set = true <-> exists n, n ∈ m_set /\ contains_range n range = true.
Proof.
  intros Hinv Hr. destruct (equal_range_split range m_set Hinv Hr) as (l & eq & r & E & L & U & Fl & Fe & Fr).
  destruct (equal_range_parts range m_set l eq r E L U) as (_ & E2 & _).
  unfold includes, equal_range. rewrite E2, existsb_exists. setoid_rewrite <- list_elem_of_In.
  subst m_set. split.
  - intros (n & Hn & Hc). exists n. split; [set_solver|done].
  - intros (n & Hn & Hc). exists n. split; [|done].
    pose proof (proj1 Hinv) as Hwf. rewrite !Forall_app in Hwf. destruct Hwf as (Wl & We & Wr).
    rewrite Forall_forall in Wl, Wr, Fl, Fr. rewrite !elem_of_app in Hn. destruct Hn as [Hn|[Hn|Hn]]; [|done|].
    + destruct (before_not_contains n range); [auto..|congruence].
    + destruct (before_not_contains range n); [auto..|congruence].
Qed.

(** [includes], which looks only at the equal range of the tree, agrees with a scan of all the
    elements. *)
Theorem includes_correct range m_set :
  inv m_set -> wf range -> includes range m_set = existsb (fun n => contains_range n range) m_set.
Proof.
  intros Hinv Hr. apply eq_true_iff_eq. rewrite includes_scan, existsb_exists by done.
  by setoid_rewrite <- list_elem_of_In.
Qed.

Lemma includes_correct_witness :
  includes host10 [net10_1] = true.
Proof. rewrite (includes_correct host10 [net10_1] inv_net10_1 wf_host10). by vm_compute. Defined.

(** ** The set against its history of insertions *)

Fixpoint insert_all (ranges : list CidrRange) (m_set : multiset) : option multiset :=
  match ranges with
  | [] => Some m_set
  | range :: ranges' =>
      match insert range m_set with
      | Some (_, m_set') => insert_all ranges' m_set'
      | None => None
      end
  end.

Lemma insert_includes range m_set b m_set' q :
  inv m_set -> wf range -> wf q -> insert range m_set = Some (b, m_set') ->
  inv m_set' /\ (includes q m_set' = true <-> contains_range range q = true \/ includes q m_set = true).
Proof.
  intros Hinv Hr Hq E. pose proof (proj1 Hinv) as Hwf. rewrite Forall_forall in Hwf.
  destruct (insert_cases range m_set Hinv Hr) as [(m & E' & Hm & Hx & _)|(E' & n & Hn & Hc & _)];
    rewrite E' in E; injection E as <- <-.
  - split; [done|]. rewrite !includes_scan by done. split.
    + intros (x & Hin & Hc). apply Hx in Hin as [->|[Hin _]]; [by left|right; by exists x].
    + intros [Hc|(x & Hin & Hc)]; [exists range; split; [apply Hx; by left|done]|].
      destruct (contains_range range x) eqn:Ex; [|exists x; split; [apply Hx; auto|done]].
      exists range. split; [apply Hx; by left|]. apply (contains_trans range x q); auto.
  - split; [done|]. split; [by right|]. intros [Hrq|]; [|done]. apply includes_scan; [done..|].
    exists n. split; [done|]. apply (contains_trans n range q); auto.
Qed.

Lemma insert_all_includes ranges m_set :
  Forall wf ranges -> inv m_set ->
  exists m_set', insert_all ranges m_set = Some m_set' /\ inv m_set' /\
    forall q, wf q -> includes q m_set' = true <->
                      Exists (fun r => contains_range r q = true) ranges \/ includes q m_set = true.
Proof.
  intros Hwf. revert m_set. induction Hwf as [|r ranges Hr _ IH]; intros m_set Hinv; cbn [insert_all].
  { exists m_set. split; [done|]. split; [done|]. intros q _. rewrite Exists_nil. tauto. }
  destruct (insert r m_set) as [[b m1]|] eqn:E.
  - destruct (IH m1) as (m2 & E2 & Hinv2 & Hq); [by eapply (insert_includes r m_set b m1 r)|].
    exists m2. split; [done|]. split; [done|]. intros q Hwq. rewrite Hq, Exists_cons by done.
    rewrite (proj2 (insert_includes r m_set b m1 q Hinv Hr Hwq E)). tauto.
  - destruct (insert_cases r m_set Hinv Hr) as [(? & ? & _)|[? _]]; congruence.
Qed.

(** C29: After any sequence of insertions into an empty set, a range is included exactly when one of
    the inserted ranges contains it. *)
Theorem insert_all_refines ranges :
  Forall wf ranges ->
  exists m_set, insert_all ranges [] = Some m_set /\ inv m_set /\
    forall q, wf q -> includes q m_set = existsb (fun r => contains_range r q) ranges.
Proof.
  intros Hwf. destruct (insert_all_includes ranges [] Hwf) as (m & E & Hinv & Hq); [by split; constructor|].
  exists m. split; [done|]. split; [done|]. intros q Hwq. apply eq_true_iff_eq.
  rewrite Hq, existsb_exists, Exists_exists by done. setoid_rewrite <- list_elem_of_In. cbn. naive_solver.
Qed.

Lemma insert_all_refines_witness :
  exists m_set, insert_all [host10; net10_1; net10; host10] [] = Some m_set /\ includes host10 m_set = true.
Proof.
  destruct (insert_all_refines [host10; net10_1; net10; host10]) as (m & E & _ & Hq).
  { rewrite !Forall_cons, Forall_nil. auto 8 with ag. }
  exists m. split; [done|]. rewrite (Hq host10 wf_host10). by vm_compute.
Defined.

(** Inserting a range that is already an element answers [true]: the old copy is erased first. *)
Lemma insert_again range m_set :
  inv m_set -> range ∈ m_set ->
  includes range m_set = true /\ exists m_set', insert range m_set = Some (true, m_set').
Proof.
  intros Hinv Hin. pose proof (proj1 Hinv) as Hwf. rewrite Forall_forall in Hwf. specialize (Hwf _ Hin) as Hr.
  split; [apply includes_scan; [done..|]; exists range; split; [done|by apply contains_refl]|].
  destruct (insert_cases range m_set Hinv Hr) as [(m & E & _)|(_ & n & Hn & Hc1 & Hc2)]; [by exists m|].
  exfalso. destruct Hinv as [_ Hs]. apply list_elem_of_split in Hn as (l1 & l2 & ->).
  rewrite elem_of_app, elem_of_cons in Hin. specialize (Hwf n) as Hwn.
  assert (wf n) as Hwn' by set_solver. clear Hwn.
  assert (range = n \/ before n range \/ before range n) as [->|[Hb|Hb]].
  { clear -Hs Hin. induction l1 as [|x l1 IH]; cbn [app] in Hs; inversion Hs as [|? ? Hs' Hx]; subst;
      rewrite Forall_forall in Hx; set_solver. }
  - by rewrite contains_refl in Hc2.
  - destruct (before_not_contains n range); [done..|congruence].
  - destruct (before_not_contains range n); [done..|congruence].
Qed.
