(* ===== verification/Netlink.v ===== *)
(** * Netlink messages: the part of [linux/netlink.h] and [linux/rtnetlink.h] that
    [common/network_monitor.cpp] uses

    The kernel's messages and their attributes as bytes.  The macros of the headers walk over a buffer
    by pointer and remaining length; here a position is the data from it on, and numbers are little
    endian.  The theorems are round trips: what an encoder lays out is what the walks find. *)

From S2P Require Import StringView.

Definition NLMSG_ERROR : Z := 2.
Definition NLMSG_DONE : Z := 3.
Definition RTM_GETLINK : Z := 18.
Definition RTM_NEWADDR : Z := 20.
Definition RTM_DELADDR : Z := 21.
Definition RTM_NEWROUTE : Z := 24.
Definition RTM_DELROUTE : Z := 25.
Definition RTM_GETROUTE : Z := 26.
Definition RTA_DST : Z := 1.
Definition RTA_OIF : Z := 4.
Definition RTA_PRIORITY : Z := 6.
Definition IFLA_LINKINFO : Z := 18.
Definition IFLA_INFO_KIND : Z := 1.
Definition RTN_UNICAST : Z := 1.
Definition RT_TABLE_DEFAULT : Z := 253.
Definition RT_TABLE_MAIN : Z := 254.
Definition AF_UNSPEC : Z := 0.
Definition AF_INET : Z := 2.
Definition AF_INET6 : Z := 10.

Definition NLMSG_HDRLEN : nat := 16.
Definition SIZEOF_RTMSG : nat := 12.
Definition SIZEOF_IFINFOMSG : nat := 16.
Definition RTA_HDRLEN : nat := 4.

(** [NLMSG_ALIGN] and [RTA_ALIGN]: the next multiple of four. *)
Definition align4 (n : nat) : nat := (n + 3) / 4 * 4.

(** ** Numbers in memory *)

Fixpoint le_num (s : bytes) : Z := match s with [] => 0 | b :: s' => b + 256 * le_num s' end%Z.

Fixpoint le_bytes (n : nat) (x : Z) : bytes :=
  match n with O => [] | S n' => (x mod 256)%Z :: le_bytes n' (x / 256) end.

(** The number of [n] bytes at [off]. *)
Definition field (n off : nat) (mem : bytes) : Z := le_num (take n (drop off mem)).

(** ** Walks *)

Definition nlmsg_len (nlh : bytes) : nat := Z.to_nat (field 4 0 nlh).
Definition nlmsg_type (nlh : bytes) : Z := field 2 4 nlh.

Definition NLMSG_OK (nlh : bytes) : bool :=
  (NLMSG_HDRLEN <=? length nlh) && (NLMSG_HDRLEN <=? nlmsg_len nlh) && (nlmsg_len nlh <=? length nlh).

(** The messages of a buffer, each as the data from its header on. *)
Fixpoint nlmsgs_loop (fuel : nat) (nlh : bytes) : list bytes :=
  match fuel with
  | O => []
  | S f => if NLMSG_OK nlh then nlh :: nlmsgs_loop f (drop (align4 (nlmsg_len nlh)) nlh) else []
  end.

Definition nlmsgs (buf : bytes) : list bytes := nlmsgs_loop (S (length buf)) buf.

Record rtattr := MkRtattr { rta_type : Z; rta_data : bytes }.

Definition rta_len (rta : bytes) : nat := Z.to_nat (field 2 0 rta).

Definition RTA_OK (rta : bytes) : bool :=
  (RTA_HDRLEN <=? length rta) && (RTA_HDRLEN <=? rta_len rta) && (rta_len rta <=? length rta).

Definition rta_at (rta : bytes) : rtattr := MkRtattr (field 2 2 rta) (take (rta_len rta - RTA_HDRLEN) (drop RTA_HDRLEN rta)).

(** The attributes of a region. *)
Fixpoint rtattrs_loop (fuel : nat) (rta : bytes) : list rtattr :=
  match fuel with
  | O => []
  | S f => if RTA_OK rta then rta_at rta :: rtattrs_loop f (drop (align4 (rta_len rta)) rta) else []
  end.

Definition rtattrs (region : bytes) : list rtattr := rtattrs_loop (S (length region)) region.

(** [RTM_RTA] with [RTM_PAYLOAD], [IFLA_RTA] with [IFLA_PAYLOAD]: the attributes behind a header of
    [size] bytes.  For a message that is too short the length is negative, and there are none. *)
Definition message_attrs (size : nat) (nlh : bytes) : list rtattr :=
  let start := NLMSG_HDRLEN + align4 size in rtattrs (take (nlmsg_len nlh - start) (drop start nlh)).

(** ** Building messages *)

Definition encode_nlmsghdr (len : nat) (type flags seq : Z) : bytes :=
  le_bytes 4 (Z.of_nat len) ++ le_bytes 2 type ++ le_bytes 2 flags ++ le_bytes 4 seq ++ le_bytes 4 0.

Definition pad4 (s : bytes) : bytes := s ++ replicate (align4 (length s) - length s) 0%Z.

Definition encode_attr (a : rtattr) : bytes :=
  pad4 (le_bytes 2 (Z.of_nat (RTA_HDRLEN + length (rta_data a))) ++ le_bytes 2 (rta_type a) ++ rta_data a).

Definition encode_attrs (l : list rtattr) : bytes := List.concat (map encode_attr l).

Definition encode_message (type flags seq : Z) (body : bytes) : bytes :=
  pad4 (encode_nlmsghdr (NLMSG_HDRLEN + length body) type flags seq ++ body).

(** ** Facts *)

Lemma align4_le n : n <= align4 n < n + 4.
Proof. unfold align4. pose proof (Nat.div_mod (n + 3) 4). pose proof (Nat.mod_upper_bound (n + 3) 4). lia. Qed.

Lemma align4_idem n : align4 (align4 n) = align4 n.
Proof.
  unfold align4 at 1 3. f_equal. unfold align4. rewrite Nat.div_add_l by lia. change (3 / 4) with 0. lia.
Qed.

Lemma le_bytes_length n x : length (le_bytes n x) = n.
Proof. revert x. induction n; intros x; cbn; auto. Qed.

Lemma le_bytes_bytes n x : is_bytes (le_bytes n x).
Proof. revert x. induction n; intros x; constructor; [unfold is_byte; pose proof (Z.mod_pos_bound x 256); lia|apply IHn]. Qed.

Lemma le_num_bytes n x : (0 <= x < 256 ^ Z.of_nat n)%Z -> le_num (le_bytes n x) = x.
Proof.
  revert x. induction n as [|n IH]; intros x Hx; [cbn in *; lia|]. cbn [le_bytes le_num].
  rewrite IH; [pose proof (Z.div_mod x 256); lia|]. rewrite Nat2Z.inj_succ, Z.pow_succ_r in Hx by lia.
  split; [apply Z.div_pos; lia|apply Z.div_lt_upper_bound; lia].
Qed.

Lemma le_num_range s : is_bytes s -> (0 <= le_num s < 256 ^ Z.of_nat (length s))%Z.
Proof.
  induction 1 as [|b s Hb _ IH]; cbn [le_num length]; [lia|]. unfold is_byte in Hb.
  rewrite Nat2Z.inj_succ, Z.pow_succ_r by lia. lia.
Qed.

(** A number laid out behind [pre]. *)
Lemma field_app n off pre x post :
  length pre = off -> (0 <= x < 256 ^ Z.of_nat n)%Z -> field n off (pre ++ le_bytes n x ++ post) = x.
Proof.
  intros <- Hx. unfold field. rewrite drop_app_length, take_app_le by (rewrite le_bytes_length; lia).
  rewrite take_ge by (rewrite le_bytes_length; lia). by apply le_num_bytes.
Qed.

Lemma field_start n x post : (0 <= x < 256 ^ Z.of_nat n)%Z -> field n 0 (le_bytes n x ++ post) = x.
Proof. by apply (field_app n 0 []). Qed.

Lemma pad4_length s : length (pad4 s) = align4 (length s).
Proof. unfold pad4. rewrite length_app, length_replicate. pose proof (align4_le (length s)). lia. Qed.

(** Fuel does not matter once it is more than the data. *)
Lemma rtattrs_fuel f g rta : length rta < f -> length rta < g -> rtattrs_loop f rta = rtattrs_loop g rta.
Proof.
  revert g rta. induction f as [|f IH]; intros [|g] rta Hf Hg; try lia. cbn [rtattrs_loop].
  destruct (RTA_OK rta) eqn:E; [|done]. f_equal. unfold RTA_OK in E. bool_to_prop.
  destruct E as [[E1 E2] E3]. unfold RTA_HDRLEN in *. pose proof (align4_le (rta_len rta)).
  apply IH; rewrite length_drop; lia.
Qed.

Lemma nlmsgs_fuel f g nlh : length nlh < f -> length nlh < g -> nlmsgs_loop f nlh = nlmsgs_loop g nlh.
Proof.
  revert g nlh. induction f as [|f IH]; intros [|g] nlh Hf Hg; try lia. cbn [nlmsgs_loop].
  destruct (NLMSG_OK nlh) eqn:E; [|done]. f_equal. unfold NLMSG_OK in E. bool_to_prop.
  destruct E as [[E1 E2] E3]. unfold NLMSG_HDRLEN in *. pose proof (align4_le (nlmsg_len nlh)).
  apply IH; rewrite length_drop; lia.
Qed.

Lemma rtattrs_eq rta :
  rtattrs rta = if RTA_OK rta then rta_at rta :: rtattrs (drop (align4 (rta_len rta)) rta) else [].
Proof.
  unfold rtattrs at 1. cbn [rtattrs_loop]. destruct (RTA_OK rta) eqn:E; [|done]. f_equal.
  unfold RTA_OK in E. bool_to_prop. destruct E as [[E1 E2] E3]. unfold RTA_HDRLEN in *. pose proof (align4_le (rta_len rta)).
  apply rtattrs_fuel; rewrite length_drop; lia.
Qed.

Lemma nlmsgs_eq nlh :
  nlmsgs nlh = if NLMSG_OK nlh then nlh :: nlmsgs (drop (align4 (nlmsg_len nlh)) nlh) else [].
Proof.
  unfold nlmsgs at 1. cbn [nlmsgs_loop]. destruct (NLMSG_OK nlh) eqn:E; [|done]. f_equal.
  unfold NLMSG_OK in E. bool_to_prop. destruct E as [[E1 E2] E3]. unfold NLMSG_HDRLEN in *. pose proof (align4_le (nlmsg_len nlh)).
  apply nlmsgs_fuel; rewrite length_drop; lia.
Qed.

Definition attr_ok (a : rtattr) : Prop := (0 <= rta_type a < 2 ^ 16)%Z /\ (Z.of_nat (RTA_HDRLEN + length (rta_data a)) < 2 ^ 16)%Z.

Lemma encode_attr_length a : length (encode_attr a) = align4 (RTA_HDRLEN + length (rta_data a)).
Proof. unfold encode_attr. by rewrite pad4_length, !length_app, !le_bytes_length. Qed.

Lemma encode_attr_walk a rest :
  attr_ok a ->
  let mem := encode_attr a ++ rest in
  RTA_OK mem = true /\ rta_at mem = a /\ drop (align4 (rta_len mem)) mem = rest.
Proof.
  intros [Ht Hl] mem. set (n := RTA_HDRLEN + length (rta_data a)) in *.
  pose proof (encode_attr_length a) as Hlen. fold n in Hlen.
  assert (rta_len mem = n) as Hr.
  { unfold rta_len, mem, encode_attr, pad4. rewrite <- !app_assoc. rewrite field_start by lia. lia. }
  assert (field 2 2 mem = rta_type a) as Htype.
  { unfold mem, encode_attr, pad4. rewrite <- !app_assoc. by apply field_app; [apply le_bytes_length|]. }
  pose proof (align4_le n). unfold RTA_HDRLEN in *. split; [|split].
  - unfold RTA_OK. rewrite Hr. unfold mem. rewrite length_app, Hlen. unfold RTA_HDRLEN.
    rewrite !(proj2 (Nat.leb_le _ _)) by lia. done.
  - unfold rta_at. rewrite Htype, Hr. destruct a as [t d]. cbn [rta_type rta_data] in *. f_equal.
    unfold mem, encode_attr, pad4. cbn [rta_type rta_data]. rewrite <- !app_assoc. rewrite app_assoc.
    rewrite drop_app_length' by (by rewrite length_app, !le_bytes_length).
    rewrite take_app_length'; [done|]. unfold n, RTA_HDRLEN. lia.
  - rewrite Hr. unfold mem. by rewrite drop_app_length'.
Qed.

(** The walk over attributes finds what was laid out, whatever the lengths. *)
Lemma rtattrs_encode l : Forall attr_ok l -> rtattrs (encode_attrs l) = l.
Proof.
  induction 1 as [|a l Ha _ IH]; [done|]. unfold encode_attrs. cbn [map List.concat]. fold (encode_attrs l).
  destruct (encode_attr_walk a (encode_attrs l) Ha) as (E1 & E2 & E3). rewrite rtattrs_eq, E1, E2, E3. by rewrite IH.
Qed.

Lemma align4_add a b : align4 (align4 a + b) = align4 a + align4 b.
Proof. unfold align4. rewrite <- Nat.add_assoc, Nat.div_add_l by lia. lia. Qed.

Lemma encode_attrs_aligned l : align4 (length (encode_attrs l)) = length (encode_attrs l).
Proof.
  induction l as [|a l IH]; [done|]. unfold encode_attrs in *. cbn [map List.concat]. rewrite length_app.
  by rewrite encode_attr_length, align4_add, IH.
Qed.

(** ** Messages *)

(** A message by its type, the fixed header of its kind and its attributes. *)
Record nlmsg := MkNlmsg { msg_type : Z; msg_flags : Z; msg_seq : Z; msg_head : bytes; msg_attrs : list rtattr }.

Definition encode_nlmsg (m : nlmsg) : bytes :=
  encode_message (msg_type m) (msg_flags m) (msg_seq m) (msg_head m ++ encode_attrs (msg_attrs m)).

Definition nlmsg_fits (m : nlmsg) : Prop :=
  (0 <= msg_type m < 2 ^ 16)%Z /\ align4 (length (msg_head m)) = length (msg_head m) /\ Forall attr_ok (msg_attrs m) /\
  (Z.of_nat (NLMSG_HDRLEN + length (msg_head m ++ encode_attrs (msg_attrs m))) < 2 ^ 32)%Z.

(** What the accessors see of an encoded message with more data behind it. *)
Lemma encode_nlmsg_walk m rest :
  nlmsg_fits m ->
  let mem := encode_nlmsg m ++ rest in
  NLMSG_OK mem = true /\ nlmsg_type mem = msg_type m /\ take (length (msg_head m)) (drop NLMSG_HDRLEN mem) = msg_head m /\
  message_attrs (length (msg_head m)) mem = msg_attrs m /\ drop (align4 (nlmsg_len mem)) mem = rest.
Proof.
  intros (Ht & Ha & Hattrs & Hl) mem. set (body := msg_head m ++ encode_attrs (msg_attrs m)) in *. set (n := NLMSG_HDRLEN + length body) in *.
  set (hdr := encode_nlmsghdr n (msg_type m) (msg_flags m) (msg_seq m)).
  assert (length hdr = NLMSG_HDRLEN) as Hh by (unfold hdr, encode_nlmsghdr; by rewrite !length_app, !le_bytes_length).
  assert (align4 n = n) as Hn.
  { unfold n, body. rewrite length_app. change NLMSG_HDRLEN with (align4 16). rewrite align4_add. f_equal.
    by rewrite <- Ha, align4_add, encode_attrs_aligned. }
  assert (mem = hdr ++ body ++ rest) as Hmem.
  { unfold mem, encode_nlmsg, encode_message, pad4. fold body n hdr. rewrite length_app, Hh. fold n. rewrite Hn, Nat.sub_diag.
    cbn [replicate]. by rewrite app_nil_r, <- app_assoc. }
  assert (nlmsg_len mem = n) as Hlen.
  { rewrite Hmem. unfold nlmsg_len, hdr, encode_nlmsghdr. rewrite <- !app_assoc, field_start by lia. lia. }
  assert (drop NLMSG_HDRLEN mem = body ++ rest) as Hd by (rewrite Hmem; by apply drop_app_length').
  split; [|split; [|split; [|split]]].
  - unfold NLMSG_OK. rewrite Hlen, Hmem, !length_app, Hh. unfold n. rewrite !(proj2 (Nat.leb_le _ _)) by lia. done.
  - rewrite Hmem. unfold nlmsg_type, hdr, encode_nlmsghdr. rewrite <- !app_assoc. by apply field_app; [apply le_bytes_length|].
  - rewrite Hd. unfold body. rewrite <- app_assoc. by apply take_app_length.
  - unfold message_attrs. rewrite Ha, Hlen, <- drop_drop, Hd. unfold body. rewrite <- app_assoc, drop_app_length.
    rewrite take_app_length'; [by apply rtattrs_encode|]. unfold n, body. rewrite length_app. lia.
  - rewrite Hlen, Hn, Hmem, app_assoc. apply drop_app_length'. by rewrite length_app, Hh.
Qed.

(** The walk over messages finds each message that was laid out, at its place. *)
Lemma nlmsgs_encode l :
  Forall nlmsg_fits l ->
  Forall2 (fun mem m => nlmsg_type mem = msg_type m /\ take (length (msg_head m)) (drop NLMSG_HDRLEN mem) = msg_head m /\
    message_attrs (length (msg_head m)) mem = msg_attrs m)
    (nlmsgs (List.concat (map encode_nlmsg l))) l.
Proof.
  induction 1 as [|m l Hm _ IH]; [constructor|]. cbn [map List.concat].
  destruct (encode_nlmsg_walk m (List.concat (map encode_nlmsg l)) Hm) as (E1 & E2 & E3 & E4 & E5).
  rewrite nlmsgs_eq, E1, E5. by constructor.
Qed.
