(* ===== verification/RoutingTable.v ===== *)
(** * The routing table of the network monitor: [LinuxRoutingTable] of [common/network_monitor.cpp]

    The kernel's routes arrive as netlink messages, in a dump and then one by one.  The table keeps them
    sorted, by family, and caches the interface of the best default route.  The state monad's failure is
    a read behind the data that was received.  What the system answers is an argument of each
    operation: the names of interfaces and the replies to requests. *)

From S2P Require Import StringView Utils Error Cidr Netlink StateMonad.

(** ** Routes *)

Record RouteEntry := MkRoute { prefix : CidrRange; if_index : Z; metric : Z }.

(** [operator<]: the longer prefix first, then the lower metric. *)
Definition route_ltb (this other : RouteEntry) : bool :=
  if negb (get_prefix_len (prefix this) =? get_prefix_len (prefix other))
  then get_prefix_len (prefix other) <? get_prefix_len (prefix this)
  else (metric this <? metric other)%Z.

Definition is_default_route (r : RouteEntry) : bool := get_prefix_len (prefix r) =? 0.

(** What one attribute does to the address, the interface and the metric read so far. *)
Definition route_attr (addr_len : nat) (acc : bytes * Z * Z) (rta : rtattr) : bytes * Z * Z :=
  let '(dst_addr, oif, prio) := acc in
  let data := rta_data rta in
  if (rta_type rta =? RTA_DST)%Z then
    (if addr_len <=? length data then take addr_len data else dst_addr, oif, prio)
  else if (rta_type rta =? RTA_OIF)%Z then
    (dst_addr, if 4 <=? length data then field 4 0 data else oif, prio)
  else if (rta_type rta =? RTA_PRIORITY)%Z then
    (dst_addr, oif, if 4 <=? length data then field 4 0 data else prio)
  else acc.

(** The entry, nothing for a message of no interest; [None] when the header lies behind the data. *)
Definition parse_route_msg (nlh : bytes) : option (option RouteEntry) :=
  rtm_type ← nlh !! 23;
  rtm_table ← nlh !! 20;
  rtm_family ← nlh !! 16;
  rtm_dst_len ← nlh !! 17;
  if negb (rtm_type =? RTN_UNICAST)%Z then Some None
  else if negb (rtm_table =? RT_TABLE_MAIN)%Z && negb (rtm_table =? RT_TABLE_DEFAULT)%Z then Some None
  else
    let addr_len := if (rtm_family =? AF_INET)%Z then IPV4_ADDRESS_SIZE else IPV6_ADDRESS_SIZE in
    let '(dst_addr, oif, prio) := fold_left (route_attr addr_len) (message_attrs SIZEOF_RTMSG nlh) ([], 0%Z, 0%Z) in
    let dst_addr := if bool_decide (dst_addr = []) then replicate addr_len 0%Z else dst_addr in
    let p := cidr_of_bytes dst_addr rtm_dst_len in
    if negb (valid p) then Some None else Some (Some (MkRoute p oif prio)).

(** ** The table *)

Record RoutingTable := MkTable {
  m_routes_v4 : list RouteEntry;
  m_routes_v6 : list RouteEntry;
  m_prev_default_v4 : option Z;
  m_prev_default_v6 : option Z;
  m_default_changed : bool;
  m_ignore_tun : bool;
  m_query_fd : Z;
  m_ignored_interfaces : gset bytes
}.

Definition table_new : RoutingTable := MkTable [] [] None None false false (-1) ∅.

Definition set_routes (v4 v6 : list RouteEntry) (t : RoutingTable) : RoutingTable :=
  MkTable v4 v6 (m_prev_default_v4 t) (m_prev_default_v6 t) (m_default_changed t) (m_ignore_tun t) (m_query_fd t) (m_ignored_interfaces t).
Definition set_defaults (v4 v6 : option Z) (t : RoutingTable) : RoutingTable :=
  MkTable (m_routes_v4 t) (m_routes_v6 t) v4 v6 true (m_ignore_tun t) (m_query_fd t) (m_ignored_interfaces t).
Definition set_query_fd (fd : Z) (t : RoutingTable) : RoutingTable :=
  MkTable (m_routes_v4 t) (m_routes_v6 t) (m_prev_default_v4 t) (m_prev_default_v6 t) (m_default_changed t) (m_ignore_tun t) fd
    (m_ignored_interfaces t).

Definition set_ignore_tun_interfaces (ignore : bool) (t : RoutingTable) : RoutingTable :=
  MkTable (m_routes_v4 t) (m_routes_v6 t) (m_prev_default_v4 t) (m_prev_default_v6 t) (m_default_changed t) ignore (m_query_fd t)
    (m_ignored_interfaces t).
Definition add_ignored_interface (name : bytes) (t : RoutingTable) : RoutingTable :=
  MkTable (m_routes_v4 t) (m_routes_v6 t) (m_prev_default_v4 t) (m_prev_default_v6 t) (m_default_changed t) (m_ignore_tun t) (m_query_fd t)
    ({[name]} ∪ m_ignored_interfaces t).
Definition clear_ignored_interfaces (t : RoutingTable) : RoutingTable :=
  MkTable (m_routes_v4 t) (m_routes_v6 t) (m_prev_default_v4 t) (m_prev_default_v6 t) (m_default_changed t) (m_ignore_tun t) (m_query_fd t) ∅.

(** What the system answers: the name of an interface, and the data received for a request that was
    sent on the query socket, nothing when sending or receiving failed. *)
Record System := MkSystem { if_indextoname : Z -> option bytes; query : bytes -> option bytes }.

Definition getlink_request (index : Z) : bytes :=
  encode_nlmsghdr (NLMSG_HDRLEN + SIZEOF_IFINFOMSG) RTM_GETLINK 1 1 ++
  le_bytes 4 AF_UNSPEC ++ le_bytes 4 index ++ le_bytes 8 0.

(** The first kind a linkinfo attribute carries. *)
Definition info_kind (nested : list rtattr) : option bytes :=
  match List.find (fun a => (rta_type a =? IFLA_INFO_KIND)%Z) nested with
  | None => None
  | Some a =>
      let data := rta_data a in
      Some (if bool_decide (last data = Some 0%Z) then removelast data else data)
  end.

Fixpoint first_kind (attrs : list rtattr) : bytes :=
  match attrs with
  | [] => []
  | a :: attrs' =>
      if (rta_type a =? IFLA_LINKINFO)%Z then
        match info_kind (rtattrs (rta_data a)) with Some kind => kind | None => first_kind attrs' end
      else first_kind attrs'
  end.

Definition get_interface_kind (sys : System) (netlink_fd index : Z) : bytes :=
  if (netlink_fd <? 0)%Z then []
  else
    match query sys (getlink_request index) with
    | None => []
    | Some nlh =>
        if negb (NLMSG_OK nlh) || (nlmsg_type nlh =? NLMSG_ERROR)%Z then []
        else first_kind (message_attrs SIZEOF_IFINFOMSG nlh)
    end.

Definition is_interface_ignored (sys : System) (t : RoutingTable) (index : Z) : bool :=
  if (index =? 0)%Z then false
  else
    match if_indextoname sys index with
    | None => false
    | Some name =>
        if bool_decide (name ∈ m_ignored_interfaces t) then true
        else m_ignore_tun t && (0 <=? m_query_fd t)%Z && bool_decide (get_interface_kind sys (m_query_fd t) index = str "tun")
    end.

Definition eligible (sys : System) (t : RoutingTable) (r : RouteEntry) : bool :=
  is_default_route r && negb (if_index r =? 0)%Z && negb (is_interface_ignored sys t (if_index r)).

Definition find_default_route (sys : System) (t : RoutingTable) (routes : list RouteEntry) : option Z :=
  if_index <$> List.find (eligible sys t) routes.

(** [socket] answers a descriptor or a negative number. *)
Definition init_query_socket (socket : Z) (t : RoutingTable) : bool * RoutingTable :=
  if (0 <=? m_query_fd t)%Z then (true, t)
  else if (socket <? 0)%Z then (false, set_query_fd socket t) else (true, set_query_fd socket t).

Definition close_query_socket (t : RoutingTable) : RoutingTable :=
  if (0 <=? m_query_fd t)%Z then set_query_fd (-1) t else t.

Definition get_default_if_index (t : RoutingTable) : option Z :=
  match m_prev_default_v4 t with Some i => Some i | None => m_prev_default_v6 t end.

Definition get_default_if_name (sys : System) (t : RoutingTable) : bytes :=
  match get_default_if_index t with
  | None => []
  | Some i => if (i =? 0)%Z then [] else default [] (if_indextoname sys i)
  end.

Definition has_default_changed_and_reset (t : RoutingTable) : bool * RoutingTable :=
  (m_default_changed t,
   MkTable (m_routes_v4 t) (m_routes_v6 t) (m_prev_default_v4 t) (m_prev_default_v6 t) false (m_ignore_tun t) (m_query_fd t)
     (m_ignored_interfaces t)).

(** ** Changes *)

Section Table.

(** [std::sort]: some sorted permutation. *)
Context (sort : list RouteEntry -> list RouteEntry).

Definition sort_and_update_cache (sys : System) (t : RoutingTable) : RoutingTable :=
  let t := set_routes (sort (m_routes_v4 t)) (sort (m_routes_v6 t)) t in
  let new_default_v4 := find_default_route sys t (m_routes_v4 t) in
  let new_default_v6 := find_default_route sys t (m_routes_v6 t) in
  if bool_decide (new_default_v4 = m_prev_default_v4 t) && bool_decide (new_default_v6 = m_prev_default_v6 t) then t
  else set_defaults new_default_v4 new_default_v6 t.

(** The routes of the family of an address, changed. *)
Definition update_routes (addr_size : nat) (f : list RouteEntry -> list RouteEntry) (t : RoutingTable) : RoutingTable :=
  if addr_size =? IPV4_ADDRESS_SIZE then set_routes (f (m_routes_v4 t)) (m_routes_v6 t) t
  else set_routes (m_routes_v4 t) (f (m_routes_v6 t)) t.

Definition same_route (entry r : RouteEntry) : bool := cidr_eqb (prefix r) (prefix entry) && (if_index r =? if_index entry)%Z.

Definition put_route (entry : RouteEntry) (routes : list RouteEntry) : list RouteEntry :=
  match find_index (same_route entry) routes with
  | Some i => <[i := entry]> routes
  | None => routes ++ [entry]
  end.

Definition drop_route (entry : RouteEntry) (routes : list RouteEntry) : list RouteEntry :=
  List.filter (fun r => negb (same_route entry r)) routes.

Definition handle_route (f : RouteEntry -> list RouteEntry -> list RouteEntry) (sys : System) (nlh : bytes) : M RoutingTable unit := fun t =>
  match parse_route_msg nlh with
  | None => None
  | Some None => Some (tt, t)
  | Some (Some entry) =>
      Some (tt, sort_and_update_cache sys (update_routes (length (get_address (prefix entry))) (f entry) t))
  end.

Definition handle_new_route := handle_route put_route.
Definition handle_del_route := handle_route drop_route.

(** The routing messages of the switch in [changed_handler]. *)
Definition route_message (sys : System) (nlh : bytes) : M RoutingTable unit :=
  if (nlmsg_type nlh =? RTM_NEWROUTE)%Z then handle_new_route sys nlh
  else if (nlmsg_type nlh =? RTM_DELROUTE)%Z then handle_del_route sys nlh
  else mret tt.

Fixpoint route_messages (sys : System) (msgs : list bytes) : M RoutingTable unit :=
  match msgs with [] => mret tt | nlh :: msgs' => route_message sys nlh;; route_messages sys msgs' end.

(** ** The dump *)

Definition getroute_request : bytes :=
  encode_nlmsghdr (NLMSG_HDRLEN + SIZEOF_RTMSG) RTM_GETROUTE 0x301 1 ++
  [AF_UNSPEC; 0; 0; 0; RT_TABLE_MAIN; 0; 0; 0]%Z ++ le_bytes 4 0.

(** What the messages of one buffer bring: the end, an error, or more to come, with the routes. *)
Inductive dumped := DumpDone (v4 v6 : list RouteEntry) | DumpError | DumpMore (v4 v6 : list RouteEntry).

Fixpoint reload_messages (msgs : list bytes) (v4 v6 : list RouteEntry) : option dumped :=
  match msgs with
  | [] => Some (DumpMore v4 v6)
  | nlh :: msgs' =>
      if (nlmsg_type nlh =? NLMSG_DONE)%Z then Some (DumpDone v4 v6)
      else if (nlmsg_type nlh =? NLMSG_ERROR)%Z then Some DumpError
      else if (nlmsg_type nlh =? RTM_NEWROUTE)%Z then
        match parse_route_msg nlh with
        | None => None
        | Some None => reload_messages msgs' v4 v6
        | Some (Some entry) =>
            if length (get_address (prefix entry)) =? IPV4_ADDRESS_SIZE
            then reload_messages msgs' (v4 ++ [entry]) v6 else reload_messages msgs' v4 (v6 ++ [entry])
        end
      else reload_messages msgs' v4 v6
  end.

(** [recvs] is what [recv] answers, call by call; at its end the socket times out, which is an error. *)
Fixpoint reload_loop (recvs : list (option bytes)) (v4 v6 : list RouteEntry) : option dumped :=
  match recvs with
  | [] | None :: _ => Some DumpError
  | Some buf :: recvs' =>
      match reload_messages (nlmsgs buf) v4 v6 with
      | Some (DumpMore v4' v6') => reload_loop recvs' v4' v6'
      | r => r
      end
  end.

(** [sent] is whether the request could be sent. *)
Definition reload (sys : System) (sent : bool) (recvs : list (option bytes)) : M RoutingTable bool := fun t =>
  if (m_query_fd t <? 0)%Z || negb sent then Some (false, t)
  else
    match reload_loop recvs [] [] with
    | None => None
    | Some (DumpDone v4 v6) => Some (true, sort_and_update_cache sys (set_routes v4 v6 t))
    | Some _ => Some (false, t)
    end.
End Table.
