(* ===== verification/RoutingTableFacts.v ===== *)
(** * The routing table of the network monitor: what it keeps

    Theorems on [RoutingTable.v].  A table is read as a map from the key of a route, which is its prefix
    and its interface, to its metric; the messages of the kernel are changes of that map, and the cached
    default is the best default route of it. *)

From stdpp Require Import sorting.
From S2P Require Import StringView Utils Error Cidr Netlink StateMonad RoutingTable.

(** ** Order *)

Definition route_le (a b : RouteEntry) : Prop := route_ltb b a = false.

Lemma route_le_metric a b :
  route_le a b -> is_default_route a = true -> is_default_route b = true -> (metric a <= metric b)%Z.
Proof.
  unfold route_le, route_ltb, is_default_route. intros H Ha Hb. bool_to_prop. rewrite Ha, Hb in H. cbn in H. bool_to_prop. lia.
Qed.

(** Insertion sort is one of the sorts. *)
Fixpoint insert_route (r : RouteEntry) (l : list RouteEntry) : list RouteEntry :=
  match l with [] => [r] | x :: l' => if route_ltb x r then x :: insert_route r l' else r :: l end.

Definition insertion_sort (l : list RouteEntry) : list RouteEntry := fold_right insert_route [] l.

Lemma insert_route_perm r l : insert_route r l ≡ₚ r :: l.
Proof. induction l as [|x l IH]; cbn; [done|]. destruct (route_ltb x r); [|done]. rewrite IH. constructor. Qed.

Lemma insertion_sort_perm l : insertion_sort l ≡ₚ l.
Proof. induction l as [|r l IH]; cbn; [done|]. by rewrite insert_route_perm, IH. Qed.

Lemma route_le_trans a b c : route_le a b -> route_le b c -> route_le a c.
Proof.
  unfold route_le, route_ltb. intros H1 H2.
  repeat match goal with |- context [?x =? ?y] => destruct (Nat.eqb_spec x y) | H : context [?x =? ?y] |- _ => destruct (Nat.eqb_spec x y) end;
    cbn [negb] in *; bool_to_prop; try lia; rewrite ?Nat.ltb_ge, ?Z.ltb_ge; lia.
Qed.

Lemma insert_route_sorted r l : StronglySorted route_le l -> StronglySorted route_le (insert_route r l).
Proof.
  induction 1 as [|x l Hs IH Hx]; cbn [insert_route]; [by repeat constructor|]. destruct (route_ltb x r) eqn:E.
  - constructor; [done|]. rewrite insert_route_perm. constructor; [|done].
    unfold route_le, route_ltb in *. destruct (Nat.eqb_spec (get_prefix_len (prefix x)) (get_prefix_len (prefix r))) as [Ee|Ee];
      cbn [negb] in *; bool_to_prop.
    + rewrite Ee, Nat.eqb_refl. cbn. apply Z.ltb_ge. lia.
    + destruct (Nat.eqb_spec (get_prefix_len (prefix r)) (get_prefix_len (prefix x))); [lia|]. cbn. apply Nat.ltb_ge. lia.
  - constructor; [by constructor|]. constructor; [exact E|]. apply (Forall_impl _ _ _ Hx). intros y. by apply route_le_trans.
Qed.

Lemma insertion_sort_sorted l : StronglySorted route_le (insertion_sort l).
Proof. induction l as [|r l IH]; [constructor|]. by apply insert_route_sorted. Qed.

(** ** Routes as a map *)

Definition key (r : RouteEntry) : bytes * nat * Z := (m_address (prefix r), m_prefix_len (prefix r), if_index r).

Definition abs (l : list RouteEntry) : gmap (bytes * nat * Z) Z := list_to_map ((fun r => (key r, metric r)) <$> l).

Definition distinct (l : list RouteEntry) : Prop := NoDup (key <$> l).

Lemma same_route_iff e r : same_route e r = true <-> key r = key e.
Proof.
  unfold same_route, key. rewrite andb_true_iff, cidr_eqb_iff, Z.eqb_eq. destruct e as [p i m], r as [p' i' m']. cbn. naive_solver congruence.
Qed.

Lemma distinct_perm l k : l ≡ₚ k -> distinct l -> distinct k.
Proof. intros Hp. unfold distinct. by rewrite Hp. Qed.

Lemma abs_lookup l k m : distinct l -> abs l !! k = Some m <-> exists r, r ∈ l /\ key r = k /\ metric r = m.
Proof.
  intros Hd. unfold abs. rewrite <- elem_of_list_to_map; [|by rewrite <- list_fmap_compose].
  rewrite list_elem_of_fmap. split; [intros (r & [= -> ->] & Hr); by exists r|intros (r & Hr & <- & <-); by exists r].
Qed.

Lemma abs_perm l k : distinct l -> l ≡ₚ k -> abs l = abs k.
Proof.
  intros Hd Hp. apply map_eq. intros x. apply option_eq. intros m. rewrite !abs_lookup by (done || by apply (distinct_perm l)).
  by setoid_rewrite Hp.
Qed.

Lemma distinct_key l r r' : distinct l -> r ∈ l -> r' ∈ l -> key r = key r' -> r = r'.
Proof.
  intros Hd (i & Hi)%list_elem_of_lookup (j & Hj)%list_elem_of_lookup E.
  assert (i = j) as -> by (apply (NoDup_lookup _ i j (key r) Hd); rewrite list_lookup_fmap; [by rewrite Hi|by rewrite Hj, E]).
  congruence.
Qed.

Lemma put_route_spec e l :
  distinct l -> distinct (put_route e l) /\ forall r, r ∈ put_route e l <-> r = e \/ (r ∈ l /\ key r <> key e).
Proof.
  intros Hd. unfold put_route. destruct (find_index (same_route e) l) as [i|] eqn:Ei.
  - apply find_index_Some in Ei as (x & Hx & Hs & _). apply same_route_iff in Hs. pose proof (lookup_lt_Some _ _ _ Hx).
    split.
    + unfold distinct. rewrite list_fmap_insert, list_insert_id; [done|]. by rewrite list_lookup_fmap, Hx, <- Hs.
    + intros r. rewrite list_elem_of_lookup. split.
      * intros (j & Hj). destruct (decide (i = j)) as [->|Hij].
        { rewrite list_lookup_insert_eq in Hj by done. left. congruence. }
        rewrite list_lookup_insert_ne in Hj by done. right. split; [by apply (list_elem_of_lookup_2 _ j)|].
        intros E. apply Hij. apply (NoDup_lookup _ i j (key e) Hd); rewrite list_lookup_fmap; [by rewrite Hx, <- Hs|by rewrite Hj, <- E].
      * intros [->|[Hr Hne]]; [exists i; by apply list_lookup_insert_eq|]. apply list_elem_of_lookup in Hr as (j & Hj). exists j.
        rewrite list_lookup_insert_ne; [done|]. intros <-. congruence.
  - apply find_index_None in Ei. rewrite Forall_forall in Ei.
    assert (forall r, r ∈ l -> key r <> key e) as Hne.
    { intros r Hr E. apply same_route_iff in E. specialize (Ei r Hr). cbn in Ei. congruence. }
    split.
    + unfold distinct. rewrite fmap_app. apply NoDup_app. split; [done|]. split; [|apply NoDup_singleton].
      intros k Hk Hk'. apply list_elem_of_fmap in Hk as (r & -> & Hr). apply list_elem_of_singleton in Hk'. by apply (Hne r Hr).
    + intros r. rewrite elem_of_app, list_elem_of_singleton. naive_solver.
Qed.

Lemma drop_route_spec e l r : r ∈ drop_route e l <-> r ∈ l /\ key r <> key e.
Proof.
  unfold drop_route. rewrite !list_elem_of_In, filter_In, negb_true_iff. rewrite <- (same_route_iff e r). destruct (same_route e r); naive_solver.
Qed.

Lemma drop_route_distinct e l : distinct l -> distinct (drop_route e l).
Proof.
  unfold distinct, drop_route. induction l as [|x l IH]; [done|]. cbn. intros [Hx Hl]%NoDup_cons.
  destruct (negb _); [|by apply IH]. cbn. apply NoDup_cons. split; [|by apply IH]. intros Hk. apply Hx.
  apply list_elem_of_fmap in Hk as (r & -> & Hr). apply list_elem_of_fmap. exists r. split; [done|].
  apply list_elem_of_In. apply list_elem_of_In in Hr. by apply filter_In in Hr as [? _].
Qed.

Lemma abs_put e l : distinct l -> abs (put_route e l) = <[key e := metric e]> (abs l).
Proof.
  intros Hd. destruct (put_route_spec e l Hd) as [Hd' He]. apply map_eq. intros k. apply option_eq. intros m.
  rewrite abs_lookup, lookup_insert_Some by done. rewrite abs_lookup by done. setoid_rewrite He. naive_solver.
Qed.

Lemma abs_drop e l : distinct l -> abs (drop_route e l) = delete (key e) (abs l).
Proof.
  intros Hd. apply map_eq. intros k. apply option_eq. intros m. rewrite abs_lookup by (by apply drop_route_distinct).
  rewrite lookup_delete_Some, abs_lookup by done. setoid_rewrite drop_route_spec. naive_solver.
Qed.

(** ** Parsing *)

Definition family_size (r : RouteEntry) : nat := length (m_address (prefix r)).

Definition good (n : nat) (r : RouteEntry) : Prop := wf (prefix r) /\ family_size r = n.

Lemma rtattrs_bytes region : is_bytes region -> Forall (fun a => is_bytes (rta_data a)) (rtattrs region).
Proof.
  unfold rtattrs. generalize (S (length region)) as fuel. intros fuel. revert region.
  induction fuel as [|fuel IH]; intros region Hb; cbn [rtattrs_loop]; [constructor|]. destruct (RTA_OK region); [|constructor].
  constructor; [cbn; auto with ag|]. apply IH. auto with ag.
Qed.

Lemma route_attrs_dst addr_len l acc :
  Forall (fun a => is_bytes (rta_data a)) l -> (acc.1.1 = [] \/ is_bytes acc.1.1 /\ length acc.1.1 = addr_len) ->
  let acc' := fold_left (route_attr addr_len) l acc in acc'.1.1 = [] \/ is_bytes acc'.1.1 /\ length acc'.1.1 = addr_len.
Proof.
  intros Hl. revert acc. induction Hl as [|a l Ha _ IH]; intros acc Hacc; [done|]. cbn [fold_left]. apply IH.
  destruct acc as [[d o] p]. cbn [fst] in *. unfold route_attr. repeat case_match; cbn [fst]; try done. bool_to_prop.
  right. split; [auto with ag|]. by apply length_take_le.
Qed.

(** What is parsed is a well-formed range of one of the two families. *)
Lemma parse_good nlh e :
  is_bytes nlh -> parse_route_msg nlh = Some (Some e) -> good IPV4_ADDRESS_SIZE e \/ good IPV6_ADDRESS_SIZE e.
Proof.
  intros Hb. unfold parse_route_msg. destruct (nlh !! 23) as [ty|]; [|done]. destruct (nlh !! 20) as [tab|]; [|done].
  destruct (nlh !! 16) as [fam|]; [|done]. destruct (nlh !! 17) as [dl|] eqn:Edl; [|done]. cbn [mbind option_bind].
  destruct (negb _); [done|]. destruct (negb _ && _); [done|].
  set (n := if (fam =? AF_INET)%Z then IPV4_ADDRESS_SIZE else IPV6_ADDRESS_SIZE).
  destruct (fold_left _ _ _) as [[d o] p] eqn:Ef.
  assert (d = [] \/ is_bytes d /\ length d = n) as Hd.
  { pose proof (route_attrs_dst n (message_attrs SIZEOF_RTMSG nlh) ([], 0%Z, 0%Z)) as H. rewrite Ef in H. apply H; [|by left].
    apply rtattrs_bytes. auto with ag. }
  set (a := if bool_decide (d = []) then replicate n 0%Z else d).
  assert (is_bytes a /\ length a = n) as [Hab Han].
  { unfold a. case_bool_decide as E; [|by destruct Hd]. split; [|apply length_replicate]. apply Forall_replicate. by split. }
  destruct (valid _) eqn:Ev; cbn [negb]; [|done]. intros [= <-].
  assert (good n (MkRoute (cidr_of_bytes a dl) o p)) as Hg.
  { unfold cidr_of_bytes in *. assert (is_byte dl) as Hdl by (by apply (Forall_lookup_1 _ _ _ _ Hb Edl)). unfold is_byte in Hdl.
    destruct (decide (Z.to_nat dl <= 8 * length a)) as [Hle|Hgt].
    - destruct (init_spec a (Z.to_nat dl) Hab Hle) as (Hw & _ & Hl & _). rewrite Z2Nat.id in * by lia. split; [done|].
      unfold family_size. cbn. by rewrite Hl.
    - rewrite init_invalid in Ev by lia. done. }
  unfold n in Hg. destruct (fam =? AF_INET)%Z; auto.
Qed.

(** ** The invariant of a table *)

Record routes_ok (n : nat) (l : list RouteEntry) : Prop := {
  ok_distinct : distinct l;
  ok_good : Forall (good n) l;
  ok_sorted : StronglySorted route_le l
}.

Record table_ok (t : RoutingTable) : Prop := {
  ok_v4 : routes_ok IPV4_ADDRESS_SIZE (m_routes_v4 t);
  ok_v6 : routes_ok IPV6_ADDRESS_SIZE (m_routes_v6 t)
}.

(** The cached defaults are those of the table. *)
Definition cached (sys : System) (t : RoutingTable) : Prop :=
  m_prev_default_v4 t = find_default_route sys t (m_routes_v4 t) /\ m_prev_default_v6 t = find_default_route sys t (m_routes_v6 t).

(** A change the kernel tells: a route is there, or it is gone. *)
Inductive Change := Announced (r : RouteEntry) | Withdrawn (r : RouteEntry).

(** What it means for the map of one family. *)
Definition apply_change (n : nat) (m : gmap (bytes * nat * Z) Z) (c : Change) : gmap (bytes * nat * Z) Z :=
  match c with
  | Announced r => if family_size r =? n then <[key r := metric r]> m else m
  | Withdrawn r => if family_size r =? n then delete (key r) m else m
  end.

(** A message by its type, as the monitor receives it. *)
Definition change_of (nlh : bytes) : option (list Change) :=
  if (nlmsg_type nlh =? RTM_NEWROUTE)%Z then (fun o => match o with Some e => [Announced e] | None => [] end) <$> parse_route_msg nlh
  else if (nlmsg_type nlh =? RTM_DELROUTE)%Z then (fun o => match o with Some e => [Withdrawn e] | None => [] end) <$> parse_route_msg nlh
  else Some [].

(** A default route that may be used, as an entry of the map. *)
Definition usable (sys : System) (t : RoutingTable) (k : bytes * nat * Z) : bool :=
  (k.1.2 =? 0) && negb (k.2 =? 0)%Z && negb (is_interface_ignored sys t k.2).

(** The interface [o] is the one of the best usable default route, or there is none. *)
Definition best_default (sys : System) (t : RoutingTable) (m : gmap (bytes * nat * Z) Z) (o : option Z) : Prop :=
  match o with
  | Some i => exists k p, m !! k = Some p /\ k.2 = i /\ usable sys t k = true /\
      forall k' p', m !! k' = Some p' -> usable sys t k' = true -> (p <= p')%Z
  | None => forall k' p', m !! k' = Some p' -> usable sys t k' = false
  end.

Lemma best_default_ext sys t t' m o :
  (forall i, is_interface_ignored sys t' i = is_interface_ignored sys t i) -> best_default sys t' m o -> best_default sys t m o.
Proof.
  intros Ig. assert (forall k, usable sys t' k = usable sys t k) as Hu by (intros k; unfold usable; by rewrite Ig).
  destruct o as [i|]; cbn; [intros (k & p & ? & ? & ? & Hm); exists k, p|intros Hm; intros k' p']; rewrite <- Hu; [|by apply Hm].
  split; [done|]. split; [done|]. split; [done|]. intros k' p'. rewrite <- Hu. apply Hm.
Qed.

Lemma find_split {A} (f : A -> bool) l x :
  List.find f l = Some x -> exists l1 l2, l = l1 ++ x :: l2 /\ f x = true /\ Forall (fun y => f y = false) l1.
Proof.
  induction l as [|y l IH]; [done|]. cbn. destruct (f y) eqn:E.
  - intros [= <-]. by exists [], l.
  - intros H. destruct (IH H) as (l1 & l2 & -> & Hx & Hl). exists (y :: l1), l2. split; [done|]. split; [done|]. by constructor.
Qed.

Lemma find_default_best sys t n l : routes_ok n l -> best_default sys t (abs l) (find_default_route sys t l).
Proof.
  intros [Hd _ Hs]. unfold find_default_route. assert (forall r, eligible sys t r = usable sys t (key r)) as He by done.
  destruct (List.find (eligible sys t) l) as [r|] eqn:Ef; cbn.
  - apply find_split in Ef as (l1 & l2 & -> & Hr & Hl1). exists (key r), (metric r).
    split; [apply abs_lookup; [done|]; exists r; split; [set_solver|done]|]. split; [done|]. split; [by rewrite <- He|].
    intros k' p' Hk' Hu. apply abs_lookup in Hk' as (r' & Hr' & <- & <-); [|done]. rewrite <- He in Hu.
    apply elem_of_app in Hr' as [Hr'|Hr']; [rewrite Forall_forall in Hl1; specialize (Hl1 r' Hr'); cbn in Hl1; congruence|].
    apply elem_of_cons in Hr' as [->|Hr']; [lia|]. apply StronglySorted_app_1_r in Hs. inversion Hs as [|? ? _ Hf]; subst.
    unfold eligible in *. bool_to_prop. apply route_le_metric; [|tauto..]. rewrite Forall_forall in Hf. by apply Hf.
  - intros k' p' Hk'. apply abs_lookup in Hk' as (r' & Hr' & <- & <-); [|done]. rewrite <- He.
    apply (find_none _ _ Ef). by apply list_elem_of_In.
Qed.

Section Table.
Context (sort : list RouteEntry -> list RouteEntry).
Context (sort_perm : forall l, sort l ≡ₚ l) (sort_sorted : forall l, StronglySorted route_le (sort l)).

Lemma sort_ok n l : distinct l -> Forall (good n) l -> routes_ok n (sort l) /\ abs (sort l) = abs l.
Proof.
  intros Hd Hg. split; [split|].
  - by apply (distinct_perm l).
  - by rewrite sort_perm.
  - apply sort_sorted.
  - symmetry. by apply abs_perm.
Qed.

(** After an update the table is in order and the cache is right. *)
Lemma update_cache_spec sys t :
  distinct (m_routes_v4 t) -> distinct (m_routes_v6 t) ->
  Forall (good IPV4_ADDRESS_SIZE) (m_routes_v4 t) -> Forall (good IPV6_ADDRESS_SIZE) (m_routes_v6 t) ->
  let t' := sort_and_update_cache sort sys t in
  table_ok t' /\ cached sys t' /\ abs (m_routes_v4 t') = abs (m_routes_v4 t) /\ abs (m_routes_v6 t') = abs (m_routes_v6 t) /\
  (forall i, is_interface_ignored sys t' i = is_interface_ignored sys t i) /\
  m_default_changed t' = m_default_changed t || negb (bool_decide (m_prev_default_v4 t' = m_prev_default_v4 t) &&
    bool_decide (m_prev_default_v6 t' = m_prev_default_v6 t)).
Proof.
  intros D4 D6 G4 G6 t'. destruct (sort_ok _ _ D4 G4) as [O4 A4]. destruct (sort_ok _ _ D6 G6) as [O6 A6].
  unfold t', sort_and_update_cache. set (t1 := set_routes _ _ t).
  destruct (bool_decide _ && bool_decide _) eqn:E.
  - apply andb_true_iff in E as [E4%bool_decide_eq_true E6%bool_decide_eq_true]. cbn in E4, E6.
    split; [by split|]. split; [by split|]. do 3 (split; [done|]). rewrite !bool_decide_true by done. cbn. by rewrite orb_false_r.
  - split; [by split|]. split; [by split|]. do 3 (split; [done|]). cbn. cbn in E. rewrite E. by rewrite orb_true_r.
Qed.
(** The defaults are those of before, or the change is marked. *)
Definition noticed (t t' : RoutingTable) : Prop :=
  m_default_changed t' = true \/ (m_default_changed t' = m_default_changed t /\
    m_prev_default_v4 t' = m_prev_default_v4 t /\ m_prev_default_v6 t' = m_prev_default_v6 t).

Lemma noticed_trans a b c : noticed a b -> noticed b c -> noticed a c.
Proof. unfold noticed. intros [H1|(H1 & H2 & H3)] [H4|(H4 & H5 & H6)]; auto; [left|right]; intuition congruence. Qed.

(** What a step does to the table, in terms of the maps. *)
Definition table_step (sys : System) (cs : list Change) (t t' : RoutingTable) : Prop :=
  table_ok t' /\ (cached sys t -> cached sys t') /\ (forall i, is_interface_ignored sys t' i = is_interface_ignored sys t i) /\
  noticed t t' /\
  abs (m_routes_v4 t') = fold_left (apply_change IPV4_ADDRESS_SIZE) cs (abs (m_routes_v4 t)) /\
  abs (m_routes_v6 t') = fold_left (apply_change IPV6_ADDRESS_SIZE) cs (abs (m_routes_v6 t)).

Lemma table_step_refl sys t : table_ok t -> table_step sys [] t t.
Proof. intros H. split; [done|]. split; [done|]. split; [done|]. split; [by right|done]. Qed.

Lemma table_step_trans sys a b t1 t2 t3 :
  table_step sys a t1 t2 -> table_step sys b t2 t3 -> table_step sys (a ++ b) t1 t3.
Proof.
  intros (_ & C1 & I1 & N1 & A1 & B1) (O2 & C2 & I2 & N2 & A2 & B2). split; [done|]. split; [auto|].
  split; [intros i; by rewrite I2, I1|]. split; [by apply (noticed_trans _ t2)|]. rewrite !fold_left_app. split; congruence.
Qed.

(** A change of the routes of one family that is a change [c] of its map. *)
Lemma update_step sys f e c t :
  table_ok t -> good IPV4_ADDRESS_SIZE e \/ good IPV6_ADDRESS_SIZE e ->
  (forall n l, good n e -> distinct l -> Forall (good n) l ->
     distinct (f l) /\ Forall (good n) (f l) /\ abs (f l) = apply_change n (abs l) c) ->
  (forall n m, family_size e <> n -> apply_change n m c = m) ->
  table_step sys [c] t (sort_and_update_cache sort sys (update_routes (length (get_address (prefix e))) f t)).
Proof.
  intros [[D4 G4 S4] [D6 G6 S6]] He Hf Hother. change (length (get_address (prefix e))) with (family_size e).
  set (t1 := update_routes (family_size e) f t).
  assert (distinct (m_routes_v4 t1) /\ distinct (m_routes_v6 t1) /\
    Forall (good IPV4_ADDRESS_SIZE) (m_routes_v4 t1) /\ Forall (good IPV6_ADDRESS_SIZE) (m_routes_v6 t1) /\
    abs (m_routes_v4 t1) = apply_change IPV4_ADDRESS_SIZE (abs (m_routes_v4 t)) c /\
    abs (m_routes_v6 t1) = apply_change IPV6_ADDRESS_SIZE (abs (m_routes_v6 t)) c) as (D4' & D6' & G4' & G6' & A4 & A6).
  { unfold t1, update_routes. destruct He as [He|He]; rewrite (proj2 He); cbn.
    - destruct (Hf _ _ He D4 G4) as (? & ? & ?). rewrite (Hother IPV6_ADDRESS_SIZE) by (by rewrite (proj2 He)). done.
    - destruct (Hf _ _ He D6 G6) as (? & ? & ?). rewrite (Hother IPV4_ADDRESS_SIZE) by (by rewrite (proj2 He)). done. }
  destruct (update_cache_spec sys t1 D4' D6' G4' G6') as (Ok & Ca & B4 & B6 & Ig & Ch). fold t1.
  assert (forall i, is_interface_ignored sys t1 i = is_interface_ignored sys t i) as Ig1 by (intros i; unfold t1, update_routes; by case_match).
  assert (m_default_changed t1 = m_default_changed t /\ m_prev_default_v4 t1 = m_prev_default_v4 t /\ m_prev_default_v6 t1 = m_prev_default_v6 t)
    as (E1 & E2 & E3) by (unfold t1, update_routes; by case_match).
  split; [done|]. split; [done|]. split; [intros i; by rewrite Ig|]. split.
  - unfold noticed. set (t2 := sort_and_update_cache sort sys t1) in *. rewrite Ch, E1, <- E2, <- E3. destruct (m_default_changed t); [by left|]. cbn [orb].
    destruct (bool_decide _ && bool_decide _) eqn:E; [|by left]. right. by apply andb_true_iff in E as [?%bool_decide_eq_true ?%bool_decide_eq_true].
  - cbn [fold_left]. by rewrite B4, B6, A4, A6.
Qed.

Lemma route_message_step sys nlh cs t :
  table_ok t -> is_bytes nlh -> change_of nlh = Some cs ->
  exists t', route_message sort sys nlh t = Some (tt, t') /\ table_step sys cs t t'.
Proof.
  intros Ht Hb. unfold change_of, route_message, handle_new_route, handle_del_route, handle_route.
  destruct (_ =? RTM_NEWROUTE)%Z; [|destruct (_ =? RTM_DELROUTE)%Z].
  3: intros [= <-]; exists t; split; [done|by apply table_step_refl].
  all: destruct (parse_route_msg nlh) as [[e|]|] eqn:Ep; cbn; try done; intros [= <-]; eexists; (split; [done|]);
    try (by apply table_step_refl); apply update_step; [done|by apply (parse_good nlh)| |].
  - intros n l Hg Hd Hl. destruct (put_route_spec e l Hd) as [Hd' He]. split; [done|]. split.
    + apply Forall_forall. intros r Hr. apply He in Hr as [->|[Hr _]]; [done|]. rewrite Forall_forall in Hl. by apply Hl.
    + rewrite abs_put by done. cbn. by rewrite (proj2 Hg), Nat.eqb_refl.
  - intros n m Hn. cbn. by rewrite (proj2 (Nat.eqb_neq _ _) Hn).
  - intros n l Hg Hd Hl. split; [by apply drop_route_distinct|]. split.
    + apply Forall_forall. intros r Hr. apply drop_route_spec in Hr as [Hr _]. rewrite Forall_forall in Hl. by apply Hl.
    + rewrite abs_drop by done. cbn. by rewrite (proj2 Hg), Nat.eqb_refl.
  - intros n m Hn. cbn. by rewrite (proj2 (Nat.eqb_neq _ _) Hn).
Qed.

Lemma route_messages_step sys msgs css t :
  table_ok t -> Forall is_bytes msgs -> Forall2 (fun nlh cs => change_of nlh = Some cs) msgs css ->
  exists t', route_messages sort sys msgs t = Some (tt, t') /\ table_step sys (List.concat css) t t'.
Proof.
  intros Ht Hb Hc. revert t Ht. induction Hc as [|nlh cs msgs css Hn _ IH]; intros t Ht.
  { exists t. split; [done|by apply table_step_refl]. }
  apply Forall_cons in Hb as [Hb1 Hb2]. destruct (route_message_step sys nlh cs t Ht Hb1 Hn) as (t1 & E1 & S1).
  destruct (IH Hb2 t1 (proj1 S1)) as (t2 & E2 & S2). exists t2. cbn [route_messages]. unfold mbind, M_bind. rewrite E1.
  split; [done|]. by apply (table_step_trans sys cs (List.concat css) t t1).
Qed.

(** C15: The table refines a map from prefix and interface to metric, for each family: every message of
    the kernel that announces or withdraws a route changes the map at its key and nowhere else,
    whatever the order and the repetitions; the tables stay sorted and free of duplicates. *)
Theorem routing_table_refines sys msgs css t :
  table_ok t -> Forall is_bytes msgs -> Forall2 (fun nlh cs => change_of nlh = Some cs) msgs css ->
  exists t', route_messages sort sys msgs t = Some (tt, t') /\ table_ok t' /\
    abs (m_routes_v4 t') = fold_left (apply_change IPV4_ADDRESS_SIZE) (List.concat css) (abs (m_routes_v4 t)) /\
    abs (m_routes_v6 t') = fold_left (apply_change IPV6_ADDRESS_SIZE) (List.concat css) (abs (m_routes_v6 t)).
Proof.
  intros Ht Hb Hc. destruct (route_messages_step sys msgs css t Ht Hb Hc) as (t' & E & Ok & _ & _ & _ & A4 & A6). by exists t'.
Qed.

(** The cached default of each family is the usable default route with the lowest metric among the
    routes announced and not withdrawn, or nothing when there is none; when it changes, the change is
    marked for the monitor. *)
Theorem default_route_is_best sys msgs css t :
  table_ok t -> cached sys t -> Forall is_bytes msgs -> Forall2 (fun nlh cs => change_of nlh = Some cs) msgs css ->
  exists t', route_messages sort sys msgs t = Some (tt, t') /\
    best_default sys t (fold_left (apply_change IPV4_ADDRESS_SIZE) (List.concat css) (abs (m_routes_v4 t))) (m_prev_default_v4 t') /\
    best_default sys t (fold_left (apply_change IPV6_ADDRESS_SIZE) (List.concat css) (abs (m_routes_v6 t))) (m_prev_default_v6 t') /\
    (get_default_if_index t' <> get_default_if_index t -> m_default_changed t' = true).
Proof.
  intros Ht Hca Hb Hc. destruct (route_messages_step sys msgs css t Ht Hb Hc) as (t' & E & [O4 O6] & Ca & Ig & No & A4 & A6).
  exists t'. split; [done|]. destruct (Ca Hca) as [C4 C6]. rewrite <- A4, <- A6, C4, C6.
  pose proof (fun m o => best_default_ext sys t t' m o Ig) as Hbest.
  split; [by apply Hbest, (find_default_best _ _ _ _ O4)|]. split; [by apply Hbest, (find_default_best _ _ _ _ O6)|].
  destruct No as [No|(_ & E4 & E6)]; [done|]. intros Hne. destruct Hne. unfold get_default_if_index. by rewrite E4, E6.
Qed.

(** ** The dump *)

(** A route of the kernel's: its destination, which table it is in and what kind of route it is, the interface and
    priority with zero for none, the rest of the header, and the attributes in the order they are written in. *)
Record KernelRoute := MkKernelRoute {
  kr_v4 : bool;
  kr_dst : bytes;
  kr_len : nat;
  kr_table : Z;
  kr_type : Z;
  kr_oif : Z;
  kr_prio : Z;
  kr_src_len : Z;
  kr_tos : Z;
  kr_protocol : Z;
  kr_scope : Z;
  kr_flags : Z;
  kr_attrs : list rtattr
}.

(** What rtnetlink writes of it: no destination for a default route, no interface and no priority when they are zero. *)
Definition kernel_attrs (k : KernelRoute) : list rtattr :=
  (if kr_len k =? 0 then [] else [MkRtattr RTA_DST (kr_dst k)]) ++
  (if (kr_oif k =? 0)%Z then [] else [MkRtattr RTA_OIF (le_bytes 4 (kr_oif k))]) ++
  (if (kr_prio k =? 0)%Z then [] else [MkRtattr RTA_PRIORITY (le_bytes 4 (kr_prio k))]).

(** A message about it. *)
Definition kernel_msg (type : Z) (k : KernelRoute) : nlmsg :=
  MkNlmsg type 2 1
    ([(if kr_v4 k then AF_INET else AF_INET6); Z.of_nat (kr_len k); kr_src_len k; kr_tos k; kr_table k; kr_protocol k; kr_scope k; kr_type k]
     ++ le_bytes 4 (kr_flags k))
    (kr_attrs k).

Definition route_msg (k : KernelRoute) : nlmsg := kernel_msg RTM_NEWROUTE k.

Definition done_msg : nlmsg := MkNlmsg NLMSG_DONE 2 1 (le_bytes 4 0) [].

Definition kr_size (k : KernelRoute) : nat := if kr_v4 k then IPV4_ADDRESS_SIZE else IPV6_ADDRESS_SIZE.

(** The entry that stands for it: unicast routes of the main and the default table have one. *)
Definition entry_of (k : KernelRoute) : option RouteEntry :=
  if (kr_type k =? RTN_UNICAST)%Z && ((kr_table k =? RT_TABLE_MAIN)%Z || (kr_table k =? RT_TABLE_DEFAULT)%Z) then
    Some (MkRoute (cidr_of_bytes (if kr_len k =? 0 then replicate (kr_size k) 0%Z else kr_dst k) (Z.of_nat (kr_len k))) (kr_oif k) (kr_prio k))
  else None.

(** An attribute of another kind: a gateway, a preferred source, the number of the table. *)
Definition other_attr (a : rtattr) : Prop := rta_type a <> RTA_DST /\ rta_type a <> RTA_OIF /\ rta_type a <> RTA_PRIORITY.

(** Numbers and lengths are in range, the attributes are those of the route and others, in any order, and the message
    fits its length field. *)
Record kernel_fits (k : KernelRoute) : Prop := {
  kf_dst : is_bytes (kr_dst k) /\ length (kr_dst k) = kr_size k;
  kf_len : kr_len k <= 8 * kr_size k;
  kf_oif : (0 <= kr_oif k < 2 ^ 32)%Z;
  kf_prio : (0 <= kr_prio k < 2 ^ 32)%Z;
  kf_head : Forall is_byte [kr_src_len k; kr_tos k; kr_table k; kr_protocol k; kr_scope k; kr_type k];
  kf_attrs : exists more, kr_attrs k ≡ₚ kernel_attrs k ++ more /\ Forall other_attr more;
  kf_attr : Forall (fun a => attr_ok a /\ is_bytes (rta_data a)) (kr_attrs k);
  kf_total : (Z.of_nat (NLMSG_HDRLEN + SIZEOF_RTMSG + length (encode_attrs (kr_attrs k))) < 2 ^ 32)%Z
}.

Lemma kernel_msg_fits type k : (0 <= type < 2 ^ 16)%Z -> kernel_fits k -> nlmsg_fits (kernel_msg type k).
Proof.
  intros Ht Hk. split; [done|]. split; [done|]. split; [eapply Forall_impl; [apply Hk|]; by intros a []|].
  pose proof (kf_total k Hk) as Hl. rewrite length_app. change (length (msg_head (kernel_msg type k))) with SIZEOF_RTMSG.
  cbn [msg_attrs kernel_msg]. lia.
Qed.

(** What is read off the attributes depends on those of each kind only. *)
Definition attrs_of (t : Z) (l : list rtattr) : list rtattr := filter (fun a => rta_type a = t) l.

Definition read_dst (n : nat) (d : bytes) (a : rtattr) : bytes := if n <=? length (rta_data a) then take n (rta_data a) else d.
Definition read_num (x : Z) (a : rtattr) : Z := if 4 <=? length (rta_data a) then field 4 0 (rta_data a) else x.

Lemma fold_route_attr n l d o p :
  fold_left (route_attr n) l (d, o, p) =
    (fold_left (read_dst n) (attrs_of RTA_DST l) d, fold_left read_num (attrs_of RTA_OIF l) o, fold_left read_num (attrs_of RTA_PRIORITY l) p).
Proof.
  revert d o p. induction l as [|a l IH]; intros d o p; [done|]. cbn [fold_left]. unfold attrs_of. rewrite !filter_cons. unfold route_attr at 2.
  unfold RTA_DST, RTA_OIF, RTA_PRIORITY in *.
  destruct (Z.eqb_spec (rta_type a) 1) as [->|N1]; [rewrite decide_True, !decide_False by done; by rewrite IH|].
  destruct (Z.eqb_spec (rta_type a) 4) as [->|N4]; [rewrite decide_False, decide_True, decide_False by done; by rewrite IH|].
  destruct (Z.eqb_spec (rta_type a) 6) as [->|N6]; [rewrite !decide_False, decide_True by done; by rewrite IH|].
  rewrite !decide_False by done. by rewrite IH.
Qed.

Lemma attrs_of_kernel k t l :
  kernel_fits k -> t = RTA_DST \/ t = RTA_OIF \/ t = RTA_PRIORITY ->
  attrs_of t (kernel_attrs k) = l -> length l <= 1 -> attrs_of t (kr_attrs k) = l.
Proof.
  intros Hk Ht <- Hl. destruct (kf_attrs k Hk) as (more & Hp & Hm).
  assert (attrs_of t (kr_attrs k) ≡ₚ attrs_of t (kernel_attrs k)) as E.
  { unfold attrs_of. rewrite Hp, filter_app. enough (filter (fun a => rta_type a = t) more = []) as -> by (by rewrite app_nil_r).
    clear -Hm Ht. induction Hm as [|a more (H1 & H2 & H3) _ IH]; [done|]. rewrite filter_cons, decide_False; [done|]. naive_solver congruence. }
  destruct (attrs_of t (kernel_attrs k)) as [|a [|]]; [by apply Permutation_nil_r in E|by apply Permutation_singleton_r in E|cbn in Hl; lia].
Qed.

Lemma lookup_head {A} (mem : list A) n k i x : take k (drop n mem) !! i = Some x -> mem !! (n + i) = Some x.
Proof. intros H. rewrite <- lookup_drop. by apply lookup_take_Some in H as [? _]. Qed.

Lemma field_num x : (0 <= x < 2 ^ 32)%Z -> field 4 0 (le_bytes 4 x) = x.
Proof. intros Hx. rewrite <- (app_nil_r (le_bytes 4 x)). apply field_start. cbn. lia. Qed.

(** The attributes of a route, as they are read. *)
Lemma kernel_attrs_read k :
  kernel_fits k ->
  fold_left (route_attr (kr_size k)) (kr_attrs k) ([], 0%Z, 0%Z) = (if kr_len k =? 0 then [] else kr_dst k, kr_oif k, kr_prio k).
Proof.
  intros Hk. destruct (kf_dst k Hk) as [_ Hd]. pose proof (field_num _ (kf_oif k Hk)) as Ho. pose proof (field_num _ (kf_prio k Hk)) as Hp.
  rewrite fold_route_attr.
  rewrite (attrs_of_kernel k RTA_DST (if kr_len k =? 0 then [] else [MkRtattr RTA_DST (kr_dst k)])) by
    (tauto || (unfold attrs_of, kernel_attrs; by repeat case_match) || (case_match; cbn; lia)).
  rewrite (attrs_of_kernel k RTA_OIF (if (kr_oif k =? 0)%Z then [] else [MkRtattr RTA_OIF (le_bytes 4 (kr_oif k))])) by
    (tauto || (unfold attrs_of, kernel_attrs; by repeat case_match) || (case_match; cbn; lia)).
  rewrite (attrs_of_kernel k RTA_PRIORITY (if (kr_prio k =? 0)%Z then [] else [MkRtattr RTA_PRIORITY (le_bytes 4 (kr_prio k))])) by
    (tauto || (unfold attrs_of, kernel_attrs; by repeat case_match) || (case_match; cbn; lia)).
  f_equal; [f_equal|].
  - destruct (kr_len k =? 0); cbn; [done|]. unfold read_dst. cbn [rta_data]. rewrite (proj2 (Nat.leb_le _ _)), take_ge by lia. done.
  - destruct (Z.eqb_spec (kr_oif k) 0) as [->|_]; cbn [fold_left]; [done|]. unfold read_num. cbn [rta_data]. rewrite le_bytes_length. done.
  - destruct (Z.eqb_spec (kr_prio k) 0) as [->|_]; cbn [fold_left]; [done|]. unfold read_num. cbn [rta_data]. rewrite le_bytes_length. done.
Qed.

(** The entry of a route is what the message about it is parsed to. *)
Lemma parse_kernel type k mem :
  kernel_fits k -> take SIZEOF_RTMSG (drop NLMSG_HDRLEN mem) = msg_head (kernel_msg type k) ->
  message_attrs SIZEOF_RTMSG mem = msg_attrs (kernel_msg type k) -> parse_route_msg mem = Some (entry_of k).
Proof.
  intros Hk Hh Ha. unfold parse_route_msg.
  assert (forall i x, msg_head (kernel_msg type k) !! i = Some x -> mem !! (16 + i) = Some x) as Hat
    by (intros i x Hx; apply (lookup_head mem 16 12); change 16 with NLMSG_HDRLEN; change 12 with SIZEOF_RTMSG; by rewrite Hh).
  rewrite (Hat 7 _ eq_refl : mem !! 23 = Some (kr_type k)). rewrite (Hat 4 _ eq_refl : mem !! 20 = Some (kr_table k)).
  rewrite (Hat 0 _ eq_refl : mem !! 16 = Some (if kr_v4 k then AF_INET else AF_INET6)).
  rewrite (Hat 1 _ eq_refl : mem !! 17 = Some (Z.of_nat (kr_len k))). cbn [mbind option_bind]. unfold entry_of.
  destruct (kr_type k =? RTN_UNICAST)%Z; cbn [negb andb]; [|done].
  rewrite <- negb_orb. destruct ((kr_table k =? RT_TABLE_MAIN)%Z || (kr_table k =? RT_TABLE_DEFAULT)%Z); cbn [negb]; [|done].
  replace (if ((if kr_v4 k then AF_INET else AF_INET6) =? AF_INET)%Z then IPV4_ADDRESS_SIZE else IPV6_ADDRESS_SIZE) with (kr_size k)
    by (unfold kr_size; by destruct (kr_v4 k)).
  rewrite Ha. cbn [msg_attrs kernel_msg]. rewrite kernel_attrs_read by done. cbn zeta iota.
  destruct (kf_dst k Hk) as [Hb Hd]. pose proof (kf_len k Hk) as Hlen.
  assert (0 < kr_size k) as Hpos by (unfold kr_size, IPV4_ADDRESS_SIZE, IPV6_ADDRESS_SIZE; case_match; lia).
  set (dst := if kr_len k =? 0 then replicate (kr_size k) 0%Z else kr_dst k).
  replace (if bool_decide ((if kr_len k =? 0 then [] else kr_dst k) = []) then _ else _) with dst.
  2:{ unfold dst. destruct (kr_len k =? 0); [by rewrite bool_decide_true|]. rewrite bool_decide_false; [done|].
      intros E. rewrite E in Hd. cbn in Hd. lia. }
  assert (is_bytes dst /\ length dst = kr_size k) as [Db Dl].
  { unfold dst. destruct (kr_len k =? 0); [|done]. split; [by apply Forall_replicate|apply length_replicate]. }
  destruct (init_spec dst (kr_len k) Db) as (_ & _ & _ & _ & He); [lia|]. unfold cidr_of_bytes, valid. by rewrite He.
Qed.

Lemma entry_good k e :
  kernel_fits k -> entry_of k = Some e -> good (kr_size k) e.
Proof.
  intros Hk. unfold entry_of. case_match; [|done]. intros [= <-]. destruct (kf_dst k Hk) as [Hb Hd]. pose proof (kf_len k Hk) as Hlen.
  set (dst := if kr_len k =? 0 then replicate (kr_size k) 0%Z else kr_dst k).
  assert (is_bytes dst /\ length dst = kr_size k) as [Db Dl].
  { unfold dst. destruct (kr_len k =? 0); [|done]. split; [by apply Forall_replicate|apply length_replicate]. }
  destruct (init_spec dst (kr_len k) Db) as (Hw & _ & Hl & _ & _); [lia|]. split; [done|]. unfold family_size. cbn [prefix]. by rewrite <- Dl.
Qed.

Definition is_v4 (e : RouteEntry) : bool := family_size e =? IPV4_ADDRESS_SIZE.

(** The entries of a dump, by family. *)
Definition entries (l : list KernelRoute) : list RouteEntry := omap entry_of l.

Lemma reload_messages_routes mems l tl v4 v6 :
  Forall kernel_fits l ->
  Forall2 (fun mem m => nlmsg_type mem = msg_type m /\ take (length (msg_head m)) (drop NLMSG_HDRLEN mem) = msg_head m /\
    message_attrs (length (msg_head m)) mem = msg_attrs m) mems (map route_msg l) ->
  reload_messages (mems ++ tl) v4 v6 =
  reload_messages tl (v4 ++ List.filter is_v4 (entries l)) (v6 ++ List.filter (fun e => negb (is_v4 e)) (entries l)).
Proof.
  intros Hl. revert mems v4 v6. induction Hl as [|k l Hk _ IH]; intros mems v4 v6 H2; cbn [map] in H2.
  { apply Forall2_nil_inv_r in H2 as ->. cbn. by rewrite !app_nil_r. }
  apply Forall2_cons_inv_r in H2 as (mem & mems' & (Ht & Hh & Ha) & H2 & ->). cbn [app reload_messages].
  rewrite Ht. cbn [msg_type route_msg kernel_msg]. change (RTM_NEWROUTE =? NLMSG_DONE)%Z with false.
  change (RTM_NEWROUTE =? NLMSG_ERROR)%Z with false. change (RTM_NEWROUTE =? RTM_NEWROUTE)%Z with true. cbn iota.
  rewrite (parse_kernel RTM_NEWROUTE k mem Hk Hh Ha). unfold entries. cbn [omap list_omap]. destruct (entry_of k) as [e|] eqn:Ee; [|by rewrite IH].
  change (length (get_address (prefix e)) =? IPV4_ADDRESS_SIZE) with (is_v4 e). cbn [List.filter].
  destruct (is_v4 e); cbn [negb]; rewrite IH by done; by rewrite <- app_assoc.
Qed.

Definition dump (l : list KernelRoute) : bytes := List.concat (map encode_nlmsg (map route_msg l)).

Lemma routes_fit l : Forall kernel_fits l -> Forall nlmsg_fits (map route_msg l).
Proof. intros H. apply Forall_fmap. apply (Forall_impl _ _ _ H). intros k Hk. by apply kernel_msg_fits. Qed.

Lemma reload_loop_chunks chunks l rest v4 v6 :
  Forall (Forall kernel_fits) chunks -> Forall kernel_fits l ->
  reload_loop (map (fun c => Some (dump c)) chunks ++ Some (dump l ++ encode_nlmsg done_msg) :: rest) v4 v6 =
  Some (DumpDone (v4 ++ List.filter is_v4 (entries (List.concat chunks ++ l)))
    (v6 ++ List.filter (fun e => negb (is_v4 e)) (entries (List.concat chunks ++ l)))).
Proof.
  intros Hc Hl. revert v4 v6. induction Hc as [|c chunks Hc _ IH]; intros v4 v6.
  - cbn [map app reload_loop List.concat].
    assert (Forall nlmsg_fits (map route_msg l ++ [done_msg])) as Hf.
    { apply Forall_app. split; [by apply routes_fit|]. repeat constructor; vm_compute; done. }
    pose proof (nlmsgs_encode _ Hf) as H2. rewrite map_app, concat_app in H2. cbn [map List.concat] in H2. rewrite app_nil_r in H2.
    fold (dump l) in H2. apply Forall2_app_inv_r in H2 as (m1 & m2 & H1 & H2 & ->).
    apply Forall2_cons_inv_r in H2 as (md & m3 & (Ht & _) & H3 & ->). rewrite (reload_messages_routes m1 l _ v4 v6 Hl H1).
    cbn [reload_messages]. rewrite Ht. done.
  - cbn [map app reload_loop List.concat]. pose proof (nlmsgs_encode _ (routes_fit c Hc)) as H2. fold (dump c) in H2.
    pose proof (reload_messages_routes _ c [] v4 v6 Hc H2) as E. rewrite app_nil_r in E. rewrite E. cbn [reload_messages].
    rewrite IH. unfold entries. rewrite <- (app_assoc c), (omap_app _ c), !List.filter_app. by rewrite <- !app_assoc.
Qed.

Lemma filter_split (L : list RouteEntry) : List.filter is_v4 L ++ List.filter (fun e => negb (is_v4 e)) L ≡ₚ L.
Proof.
  induction L as [|e L IH]; [done|]. cbn. destruct (is_v4 e); cbn; [by rewrite IH|]. rewrite <- Permutation_middle. by rewrite IH.
Qed.

Lemma sort_forall (f : RouteEntry -> bool) L : Forall (fun e => f e = true) (sort (List.filter f L)).
Proof. rewrite sort_perm. apply Forall_forall. intros e. rewrite list_elem_of_In, filter_In. by intros [_ ?]. Qed.

Lemma reload_table sys chunks l rest t :
  (0 <= m_query_fd t)%Z -> Forall (Forall kernel_fits) chunks -> Forall kernel_fits l ->
  reload sort sys true (map (fun c => Some (dump c)) chunks ++ Some (dump l ++ encode_nlmsg done_msg) :: rest) t =
  Some (true, sort_and_update_cache sort sys (set_routes (List.filter is_v4 (entries (List.concat chunks ++ l)))
    (List.filter (fun e => negb (is_v4 e)) (entries (List.concat chunks ++ l))) t)).
Proof. intros Hq Hc Hl. unfold reload. rewrite (proj2 (Z.ltb_ge _ _) Hq). cbn [orb negb]. by rewrite reload_loop_chunks. Qed.

(** C22: A dump of the kernel's is loaded as it was written: whatever routes it has and whatever way they are spread over
    buffers, [reload] answers true, and the table holds exactly the entries of the unicast routes of the main and the
    default table, each with its prefix, interface and metric, sorted in each family; the cached defaults are those of the
    table.  The messages are those of rtnetlink: a default route comes without a destination, a route without interface or
    priority comes without that attribute, other attributes may stand between them, in any order.  Numbers have
    the width of their fields, addresses the length of their family, and messages are not longer than their length
    field can say. *)
Theorem reload_dump sys chunks l rest t :
  (0 <= m_query_fd t)%Z -> Forall (Forall kernel_fits) chunks -> Forall kernel_fits l ->
  exists t', reload sort sys true (map (fun c => Some (dump c)) chunks ++ Some (dump l ++ encode_nlmsg done_msg) :: rest) t = Some (true, t') /\
    m_routes_v4 t' ++ m_routes_v6 t' ≡ₚ omap entry_of (List.concat chunks ++ l) /\
    Forall (fun e => is_v4 e = true) (m_routes_v4 t') /\ Forall (fun e => is_v4 e = false) (m_routes_v6 t') /\
    StronglySorted route_le (m_routes_v4 t') /\ StronglySorted route_le (m_routes_v6 t') /\ cached sys t'.
Proof.
  intros Hq Hc Hl. rewrite reload_table by done. set (L := entries _). set (v4 := List.filter is_v4 L). set (v6 := List.filter _ L).
  eexists. split; [done|]. set (t' := sort_and_update_cache sort sys (set_routes v4 v6 t)).
  assert (m_routes_v4 t' = sort v4 /\ m_routes_v6 t' = sort v6 /\ cached sys t') as (-> & -> & Hca).
  { unfold t', sort_and_update_cache. cbn zeta. destruct (bool_decide _ && bool_decide _) eqn:E; [|done].
    apply andb_true_iff in E as [E4%bool_decide_eq_true E6%bool_decide_eq_true]. done. }
  split; [rewrite !sort_perm; apply filter_split|]. split; [apply sort_forall|]. split; [|split; [apply sort_sorted|split; [apply sort_sorted|done]]].
  eapply Forall_impl; [apply (sort_forall (fun e => negb (is_v4 e)))|]. intros e. by rewrite negb_true_iff.
Qed.
End Table.

(** ** Examples *)

Definition sample_system : System :=
  MkSystem (fun i => if (i =? 2)%Z then Some (str "eth0") else if (i =? 3)%Z then Some (str "wlan0") else None) (fun _ => None).

(** A unicast route of the main table with the attributes of its own only. *)
Definition plain_route (v4 : bool) (dst : bytes) (len : nat) (oif prio : Z) : KernelRoute :=
  let k := MkKernelRoute v4 dst len RT_TABLE_MAIN RTN_UNICAST oif prio 0 0 3 0 0 [] in
  MkKernelRoute v4 dst len RT_TABLE_MAIN RTN_UNICAST oif prio 0 0 3 0 0 (kernel_attrs k).

Definition default_route (i m : Z) : KernelRoute := plain_route true [0; 0; 0; 0]%Z 0 i m.
Definition lan_route (i m : Z) : KernelRoute := plain_route true [192; 168; 0; 0]%Z 16 i m.

Definition default_v4 (i m : Z) : RouteEntry := MkRoute (cidr_of_bytes [0; 0; 0; 0]%Z 0) i m.
Definition lan (i m : Z) : RouteEntry := MkRoute (cidr_of_bytes [192; 168; 0; 0]%Z 16) i m.

(** A route to the host itself, which is in the local table, between a gateway and the number of the table. *)
Definition local_route : KernelRoute :=
  MkKernelRoute true [10; 0; 0; 1]%Z 32 255 2 2 0 0 0 2 254 0
    [MkRtattr 15 (le_bytes 4 255); MkRtattr RTA_DST [10; 0; 0; 1]%Z; MkRtattr 7 [10; 0; 0; 1]%Z; MkRtattr RTA_OIF (le_bytes 4 2)].

(** A default route of IPv6 with its gateway and the number of the table. *)
Definition gateway_route : KernelRoute :=
  MkKernelRoute false (replicate 16 0%Z) 0 RT_TABLE_MAIN RTN_UNICAST 2 1024 0 0 3 0 0
    [MkRtattr 15 (le_bytes 4 254); MkRtattr RTA_PRIORITY (le_bytes 4 1024); MkRtattr 5 (replicate 16 1%Z); MkRtattr RTA_OIF (le_bytes 4 2)].

Definition withdrawal (k : KernelRoute) : nlmsg := kernel_msg RTM_DELROUTE k.

Definition announcement (k : KernelRoute) : bytes := encode_nlmsg (route_msg k).

Lemma table_new_ok : table_ok table_new.
Proof. repeat constructor. Qed.

Definition sample_messages : list bytes :=
  [announcement (default_route 2 100); announcement (lan_route 3 0); announcement (default_route 3 50); announcement (default_route 2 20);
   encode_nlmsg (withdrawal (lan_route 3 0))].
Definition sample_changes : list (list Change) :=
  [[Announced (default_v4 2 100)]; [Announced (lan 3 0)]; [Announced (default_v4 3 50)]; [Announced (default_v4 2 20)]; [Withdrawn (lan 3 0)]].

Lemma sample_bytes : Forall is_bytes sample_messages.
Proof. apply (bool_decide_eq_true (Forall is_bytes sample_messages)). vm_compute. reflexivity. Qed.

Lemma sample_changes_of : Forall2 (fun nlh cs => change_of nlh = Some cs) sample_messages sample_changes.
Proof. do 5 (apply Forall2_cons; split; [vm_compute; reflexivity|]). apply Forall2_nil. done. Qed.

Lemma routing_table_refines_witness :
  exists t', route_messages insertion_sort sample_system sample_messages table_new = Some (tt, t') /\ table_ok t' /\
    abs (m_routes_v4 t') = {[ key (default_v4 2 0) := 20%Z; key (default_v4 3 0) := 50%Z ]}.
Proof.
  destruct (routing_table_refines insertion_sort insertion_sort_perm insertion_sort_sorted sample_system sample_messages sample_changes
    table_new table_new_ok sample_bytes sample_changes_of) as (t' & E & Ok & A4 & _).
  exists t'. split; [exact E|]. split; [exact Ok|]. rewrite A4. apply map_eq. intros k. vm_compute. done.
Defined.

Lemma default_route_is_best_witness :
  exists t', route_messages insertion_sort sample_system sample_messages table_new = Some (tt, t') /\
    get_default_if_index t' = Some 2%Z /\ m_default_changed t' = true.
Proof.
  destruct (default_route_is_best insertion_sort insertion_sort_perm insertion_sort_sorted sample_system sample_messages sample_changes
    table_new table_new_ok ltac:(split; reflexivity) sample_bytes sample_changes_of) as (t' & E & _ & _ & Hc).
  exists t'. split; [exact E|]. assert (get_default_if_index t' = Some 2%Z) as Hd.
  { vm_compute in E. injection E as <-. reflexivity. }
  split; [exact Hd|]. apply Hc. rewrite Hd. discriminate.
Defined.

(** Decides the conditions on a route, given its other attributes. *)
Definition kernel_fits_b (k : KernelRoute) (more : list rtattr) : bool :=
  bool_decide (is_bytes (kr_dst k)) && (length (kr_dst k) =? kr_size k) && (kr_len k <=? 8 * kr_size k) &&
  (0 <=? kr_oif k)%Z && (kr_oif k <? 2 ^ 32)%Z && (0 <=? kr_prio k)%Z && (kr_prio k <? 2 ^ 32)%Z &&
  bool_decide (Forall is_byte [kr_src_len k; kr_tos k; kr_table k; kr_protocol k; kr_scope k; kr_type k]) &&
  bool_decide (Forall other_attr more) && bool_decide (Forall (fun a => attr_ok a /\ is_bytes (rta_data a)) (kr_attrs k)) &&
  (Z.of_nat (NLMSG_HDRLEN + SIZEOF_RTMSG + length (encode_attrs (kr_attrs k))) <? 2 ^ 32)%Z.

Lemma kernel_fits_dec k more : kr_attrs k ≡ₚ kernel_attrs k ++ more -> kernel_fits_b k more = true -> kernel_fits k.
Proof.
  intros Hp H. unfold kernel_fits_b in H. bool_to_prop. destruct H as [[[[[[[[[[H1 H2] H3] H4] H5] H6] H7] H8] H9] H10] H11].
  split; [split; [exact (bool_decide_eq_true_1 _ H1)|done]|done|done|done|exact (bool_decide_eq_true_1 _ H8)| | |done].
  - exists more. split; [done|exact (bool_decide_eq_true_1 _ H9)].
  - exact (bool_decide_eq_true_1 _ H10).
Qed.

Lemma sample_kernel_fits : Forall kernel_fits [default_route 2 100; lan_route 3 7; default_route 3 50; local_route; gateway_route].
Proof.
  repeat apply Forall_cons_2; [..|by apply Forall_nil].
  - by apply (kernel_fits_dec _ []).
  - by apply (kernel_fits_dec _ []).
  - by apply (kernel_fits_dec _ []).
  - apply (kernel_fits_dec _ [MkRtattr 15 (le_bytes 4 255); MkRtattr 7 [10; 0; 0; 1]%Z]); [|by vm_compute].
    etrans; [apply perm_swap|]. apply perm_skip. symmetry. apply (Permutation_cons_append [_; _]).
  - apply (kernel_fits_dec _ [MkRtattr 15 (le_bytes 4 254); MkRtattr 5 (replicate 16 1%Z)]); [|by vm_compute].
    etrans; [apply perm_swap|]. etrans; [|apply perm_swap]. apply perm_skip. symmetry. apply (Permutation_cons_append [_; _]).
Qed.

Lemma reload_dump_witness :
  exists t', reload insertion_sort sample_system true
      [Some (dump [default_route 2 100; local_route; lan_route 3 7]); Some (dump [gateway_route; default_route 3 50] ++ encode_nlmsg done_msg)]
      (set_query_fd 5 table_new) = Some (true, t') /\
    m_routes_v4 t' = [lan 3 7; default_v4 3 50; default_v4 2 100] /\
    m_routes_v6 t' = [MkRoute (cidr_of_bytes (replicate 16 0%Z) 0) 2 1024].
Proof.
  destruct (reload_dump insertion_sort insertion_sort_perm insertion_sort_sorted sample_system [[default_route 2 100; local_route; lan_route 3 7]]
    [gateway_route; default_route 3 50] [] (set_query_fd 5 table_new)) as (t' & E & _).
  - vm_compute. discriminate.
  - pose proof sample_kernel_fits as H. rewrite !Forall_cons in H. rewrite !Forall_cons, ?Forall_nil. tauto.
  - pose proof sample_kernel_fits as H. rewrite !Forall_cons in H. rewrite !Forall_cons, ?Forall_nil. tauto.
  - exists t'. split; [exact E|]. vm_compute in E. injection E as <-. split; reflexivity.
Defined.

(** The kernel tells two routes apart by their metric, the table does not: of two defaults through one
    interface that were loaded, the withdrawal of one removes both, and no default is left.  The theorems on
    the monitor are for dumps without such pairs. *)
Lemma withdrawal_removes_both :
  (r ← reload insertion_sort sample_system true [Some (dump [default_route 2 100; default_route 2 200] ++ encode_nlmsg done_msg)] (set_query_fd 5 table_new);
   r' ← route_messages insertion_sort sample_system [encode_nlmsg (withdrawal (default_route 2 200))] r.2;
   Some (m_routes_v4 r.2, m_routes_v4 r'.2, get_default_if_index r'.2))
  = Some ([default_v4 2 100; default_v4 2 200], [], None).
Proof. vm_compute. reflexivity. Qed.
