(* ===== verification/NetworkMonitor.v ===== *)
(** * The network monitor on Linux: [NetworkMonitorImpl] of [common/network_monitor.cpp]

    The monitor listens for the kernel's messages, keeps the routing table of [RoutingTable.v] up to
    date with them and reports a change of the default interface to its owner.  When the table could
    not be loaded it asks the command [ip] instead ([exec_with_output] of [common/utils.h]).  The state
    monad's failure is a read behind the data that was received.  What the system answers is an
    argument of each operation.  The owner's handler is what it is called with; it does not call back. *)

From stdpp Require Import sorting.
From S2P Require Import StringView Utils Error Cidr Netlink StateMonad RoutingTable RoutingTableFacts.

(** ** Commands *)

Inductive ExecError := EE_POPEN | EE_PCLOSE.

Record ExecResult := MkExecResult { output : bytes; status : Z }.

Definition WEXITSTATUS (ret : Z) : Z := Z.land (Z.shiftr ret 8) 0xff.

(** A started command: what each [fread] brings, and what [pclose] answers. *)
Record Pipe := MkPipe { freads : list bytes; pclose : Z }.

Fixpoint read_pipe (freads : list bytes) (output : bytes) : bytes :=
  match freads with
  | [] | [] :: _ => output
  | buf :: freads' => read_pipe freads' (output ++ buf)
  end.

Definition exec_with_output (loc : SourceLocation) (popen : bytes -> option Pipe) (cmd : bytes) : Result ExecResult ExecError :=
  match popen (cmd ++ str " 2>&1") with
  | None => RError (make_error loc EE_POPEN None)
  | Some pipe =>
      let output := read_pipe (freads pipe) [] in
      if (-1 =? pclose pipe)%Z then RError (make_error loc EE_PCLOSE None)
      else RValue (MkExecResult output (WEXITSTATUS (pclose pipe)))
  end.

(** ** The monitor *)

Record Monitor := MkMonitor {
  m_if_name : bytes;
  m_monitor_event : bool;
  m_monitor_sock_fd : Z;
  m_routing_table : RoutingTable;
  m_netlink_available : bool;
  m_cmd_handler : bool;
  (** the calls of the handler so far *)
  reports : list (bytes * bool)
}.

Definition monitor_new (has_handler : bool) : Monitor := MkMonitor [] false (-1) table_new false has_handler [].

Definition set_if_name (name : bytes) (m : Monitor) : Monitor :=
  MkMonitor name (m_monitor_event m) (m_monitor_sock_fd m) (m_routing_table m) (m_netlink_available m) (m_cmd_handler m) (reports m).
Definition set_monitor_event (e : bool) (m : Monitor) : Monitor :=
  MkMonitor (m_if_name m) e (m_monitor_sock_fd m) (m_routing_table m) (m_netlink_available m) (m_cmd_handler m) (reports m).
Definition set_monitor_sock_fd (fd : Z) (m : Monitor) : Monitor :=
  MkMonitor (m_if_name m) (m_monitor_event m) fd (m_routing_table m) (m_netlink_available m) (m_cmd_handler m) (reports m).
Definition set_routing_table (t : RoutingTable) (m : Monitor) : Monitor :=
  MkMonitor (m_if_name m) (m_monitor_event m) (m_monitor_sock_fd m) t (m_netlink_available m) (m_cmd_handler m) (reports m).
Definition set_netlink_available (b : bool) (m : Monitor) : Monitor :=
  MkMonitor (m_if_name m) (m_monitor_event m) (m_monitor_sock_fd m) (m_routing_table m) b (m_cmd_handler m) (reports m).

Definition report (name : bytes) (is_connected : bool) (m : Monitor) : Monitor :=
  MkMonitor (m_if_name m) (m_monitor_event m) (m_monitor_sock_fd m) (m_routing_table m) (m_netlink_available m) (m_cmd_handler m)
    (if m_cmd_handler m then reports m ++ [(name, is_connected)] else reports m).

Definition is_running (m : Monitor) : bool := m_monitor_event m.

Definition close_socket (m : Monitor) : Monitor :=
  let m := set_routing_table (close_query_socket (m_routing_table m)) m in
  if negb (m_monitor_sock_fd m =? -1)%Z then set_monitor_sock_fd (-1) m else m.

(** What [socket], [fcntl] twice and [bind] answer. *)
Record SocketCalls := MkSocketCalls { socket : Z; getfl : Z; setfl : Z; bind_ : Z }.

Definition create_socket (c : SocketCalls) (m : Monitor) : bool * Monitor :=
  let m := set_monitor_sock_fd (socket c) m in
  if (socket c <? 0)%Z then (false, m)
  else if (getfl c =? -1)%Z then (false, close_socket m)
  else if (setfl c =? -1)%Z then (false, close_socket m)
  else if (bind_ c <? 0)%Z then (false, close_socket m)
  else (true, m).

Definition CMD : bytes := str "ip -o route show to default".

(** The word behind the first [dev]. *)
Fixpoint word_after (w : bytes) (parts : list bytes) : bytes :=
  match parts with
  | [] => []
  | p :: parts' => if bool_decide (p = w) then default [] (head parts') else word_after w parts'
  end.

Definition get_default_interface (sys : System) (loc : SourceLocation) (popen : bytes -> option Pipe) (m : Monitor) : bytes :=
  if m_netlink_available m then get_default_if_name sys (m_routing_table m)
  else
    match exec_with_output loc popen CMD with
    | RError _ => []
    | RValue result => word_after (str "dev") (split_by (output result) (chr " ") false true)
    end.

Definition handle_network_change (new_if_name : bytes) (is_satisfied : bool) (m : Monitor) : Monitor :=
  if negb is_satisfied then set_if_name [] (report [] false m)
  else if negb (bool_decide (m_if_name m = new_if_name)) then set_if_name new_if_name (report new_if_name true m)
  else m.

Section Monitor.
Context (sort : list RouteEntry -> list RouteEntry) (loc : SourceLocation).

Definition init_routing_table (sys : System) (query_socket : Z) (sent : bool) (recvs : list (option bytes)) : M Monitor bool := fun m =>
  if (m_monitor_sock_fd m <? 0)%Z then Some (false, m)
  else
    let '(ok, t) := init_query_socket query_socket (m_routing_table m) in
    if negb ok then Some (false, set_routing_table t m)
    else
      match reload sort sys sent recvs t with
      | None => None
      | Some (false, t) => Some (false, set_routing_table t m)
      | Some (true, t) =>
          let t := (has_default_changed_and_reset t).2 in
          Some (true, set_netlink_available true (set_routing_table t m))
      end.

(** [event_new] answers an event or nothing. *)
Definition start (sys : System) (ev_base : bool) (c : SocketCalls) (query_socket : Z) (sent : bool) (recvs : list (option bytes))
    (event_new : bool) : M Monitor unit := fun m =>
  if is_running m then Some (tt, m)
  else if negb ev_base then Some (tt, m)
  else
    let '(ok, m) := create_socket c m in
    if negb ok then Some (tt, m)
    else
      match init_routing_table sys query_socket sent recvs m with
      | None => None
      | Some (_, m) => Some (tt, set_monitor_event event_new m)
      end.

Definition stop (m : Monitor) : Monitor :=
  if negb (is_running m) then m
  else set_if_name [] (close_socket (set_monitor_event false m)).

(** One message of the switch; the boolean is [addr_changed]. *)
Definition monitor_message (sys : System) (nlh : bytes) (addr_changed : bool) : M Monitor bool := fun m =>
  let type := nlmsg_type nlh in
  if (type =? RTM_NEWADDR)%Z || (type =? RTM_DELADDR)%Z then Some (true, m)
  else if negb (m_netlink_available m) then Some (addr_changed, m)
  else
    match route_message sort sys nlh (m_routing_table m) with
    | None => None
    | Some (_, t) => Some (addr_changed, set_routing_table t m)
    end.

Fixpoint monitor_messages (sys : System) (msgs : list bytes) (addr_changed : bool) : M Monitor bool :=
  match msgs with
  | [] => mret addr_changed
  | nlh :: msgs' => b ← monitor_message sys nlh addr_changed; monitor_messages sys msgs' b
  end.

Definition tell_default (sys : System) (m : Monitor) : Monitor :=
  let new_if_name := get_default_if_name sys (m_routing_table m) in
  handle_network_change new_if_name (negb (bool_decide (new_if_name = []))) m.

(** What follows the loop over the messages. *)
Definition after_messages (sys : System) (popen : bytes -> option Pipe) (addr_changed : bool) (m : Monitor) : Monitor :=
  if m_netlink_available m then
    if addr_changed then tell_default sys m
    else
      let '(changed, t) := has_default_changed_and_reset (m_routing_table m) in
      let m := set_routing_table t m in
      if changed then tell_default sys m else m
  else if addr_changed then
    let new_if_name := get_default_interface sys loc popen m in
    handle_network_change new_if_name (negb (bool_decide (new_if_name = []))) m
  else m.

(** [recvmsg] answers data or fails. *)
Definition changed_handler (sys : System) (popen : bytes -> option Pipe) (recvmsg : option bytes) : M Monitor unit :=
  match recvmsg with
  | None => mret tt
  | Some buf =>
      addr_changed ← monitor_messages sys (nlmsgs buf) false;
      modify (after_messages sys popen addr_changed)
  end.

(** What the event loop brings, call by call: the system at that time, and the data. *)
Fixpoint handler_calls (calls : list (System * (bytes -> option Pipe) * option bytes)) : M Monitor unit :=
  match calls with
  | [] => mret tt
  | (sys, popen, recvmsg) :: calls' => changed_handler sys popen recvmsg;; handler_calls calls'
  end.
End Monitor.

(** ** Reports *)

(** A sequence of reports that makes sense when [cur] is the interface in use: a connection is to an
    interface with a name, and to another one than the one in use; [final] is in use at the end. *)
Inductive reports_from : bytes -> list (bytes * bool) -> bytes -> Prop :=
| reports_nil cur : reports_from cur [] cur
| reports_up cur name rs final : name <> [] -> name <> cur -> reports_from name rs final -> reports_from cur ((name, true) :: rs) final
| reports_down cur rs final : reports_from [] rs final -> reports_from cur (([], false) :: rs) final.

Lemma reports_from_app a rs b ss c : reports_from a rs b -> reports_from b ss c -> reports_from a (rs ++ ss) c.
Proof. induction 1; intros H2; [done|constructor; auto..]. Qed.

(** What an operation reports, as an extension of what was reported before. *)
Definition tells (m m' : Monitor) : Prop :=
  m_cmd_handler m' = true /\ exists rs, reports m' = reports m ++ rs /\ reports_from (m_if_name m) rs (m_if_name m').

Lemma tells_refl m : m_cmd_handler m = true -> tells m m.
Proof. intros H. split; [done|]. exists []. split; [by rewrite app_nil_r|constructor]. Qed.

Lemma tells_table t m : m_cmd_handler m = true -> tells m (set_routing_table t m).
Proof. intros H. split; [done|]. exists []. split; [by rewrite app_nil_r|constructor]. Qed.

Lemma tells_trans a b c : tells a b -> tells b c -> tells a c.
Proof.
  intros [_ (rs & E1 & R1)] [H (ss & E2 & R2)]. split; [done|]. exists (rs ++ ss). split; [by rewrite E2, E1, app_assoc|].
  by apply (reports_from_app _ _ (m_if_name b)).
Qed.

Lemma handle_network_change_tells name m :
  m_cmd_handler m = true ->
  let m' := handle_network_change name (negb (bool_decide (name = []))) m in
  tells m m' /\ m_if_name m' = name /\ m_routing_table m' = m_routing_table m /\ m_netlink_available m' = m_netlink_available m.
Proof.
  intros Hh. unfold handle_network_change. case_bool_decide as En; cbn [negb].
  - subst name. split; [|done]. split; [done|]. exists [([], false)]. cbn. rewrite Hh. split; [done|]. repeat constructor.
  - case_bool_decide as Ec; cbn [negb]; [split; [by apply tells_refl|done]|]. split; [|done]. split; [done|].
    exists [(name, true)]. cbn. rewrite Hh. split; [done|]. repeat constructor; done.
Qed.

(** ** What a datagram says *)

Definition datagram_changes (recvmsg : option bytes) : option (list Change) :=
  match recvmsg with None => Some [] | Some buf => List.concat (A:=Change) <$> mapM change_of (nlmsgs buf) end.

Definition received (recvmsg : option bytes) (cs : list Change) : Prop :=
  datagram_changes recvmsg = Some cs /\ match recvmsg with Some buf => is_bytes buf | None => True end.

Lemma nlmsgs_bytes buf : is_bytes buf -> Forall is_bytes (nlmsgs buf).
Proof.
  unfold nlmsgs. generalize (S (length buf)) as fuel. intros fuel. revert buf. induction fuel as [|fuel IH]; intros buf Hb; cbn [nlmsgs_loop].
  - constructor.
  - destruct (NLMSG_OK buf); [|constructor]. constructor; [done|]. apply IH. auto with ag.
Qed.

Lemma addr_no_change nlh : (nlmsg_type nlh =? RTM_NEWADDR)%Z || (nlmsg_type nlh =? RTM_DELADDR)%Z = true -> change_of nlh = Some [].
Proof. intros H. unfold change_of. apply orb_true_iff in H as [H|H]; apply Z.eqb_eq in H; by rewrite H. Qed.

Section Facts.
Context (sort : list RouteEntry -> list RouteEntry) (loc : SourceLocation).

Lemma route_message_defined sys nlh t : is_Some (change_of nlh) -> exists t', route_message sort sys nlh t = Some (tt, t').
Proof.
  unfold change_of, route_message, handle_new_route, handle_del_route, handle_route. intros [cs H]. revert H.
  destruct (_ =? RTM_NEWROUTE)%Z; [|destruct (_ =? RTM_DELROUTE)%Z; [|by exists t]].
  all: destruct (parse_route_msg nlh) as [[e|]|]; cbn; try done; intros _; by eexists.
Qed.

Lemma monitor_messages_tells sys msgs b m :
  m_cmd_handler m = true -> Forall (fun nlh => is_Some (change_of nlh)) msgs ->
  exists b' m', monitor_messages sort sys msgs b m = Some (b', m') /\ tells m m'.
Proof.
  intros Hm Hd. revert b m Hm. induction Hd as [|nlh msgs Hn _ IH]; intros b m Hm.
  { exists b, m. split; [done|by apply tells_refl]. }
  assert (exists b1 m1, monitor_message sort sys nlh b m = Some (b1, m1) /\ tells m m1) as (b1 & m1 & E & T1).
  { unfold monitor_message. cbn zeta. destruct (_ || _); [do 2 eexists; split; [done|by apply tells_refl]|].
    destruct (m_netlink_available m); cbn [negb]; [|do 2 eexists; split; [done|by apply tells_refl]].
    destruct (route_message_defined sys nlh (m_routing_table m) Hn) as [t' ->]. do 2 eexists. split; [done|by apply tells_table]. }
  destruct (IH b1 m1 (proj1 T1)) as (b2 & m2 & E2 & T2). exists b2, m2. cbn [monitor_messages]. unfold mbind, M_bind. rewrite E.
  split; [done|]. by apply (tells_trans m m1).
Qed.

Lemma after_messages_tells sys popen b m : m_cmd_handler m = true -> tells m (after_messages loc sys popen b m).
Proof.
  intros Hm. unfold after_messages, tell_default. destruct (m_netlink_available m); destruct b; try (by apply handle_network_change_tells);
    try (by apply tells_refl). cbn zeta. destruct (has_default_changed_and_reset (m_routing_table m)) as [[] t].
  - apply (tells_trans m (set_routing_table t m)); [by apply tells_table|]. by apply handle_network_change_tells.
  - by apply tells_table.
Qed.

(** Whatever datagrams arrive, the handler is called in a way its owner can rely on: a connection
    is reported only for a named interface that differs from the one reported last, and the monitor's
    interface is the one reported last, or none after a disconnection. *)
Theorem reports_make_sense calls css m :
  m_cmd_handler m = true -> Forall2 (fun c cs => datagram_changes c.2 = Some cs) calls css ->
  exists m' rs, handler_calls sort loc calls m = Some (tt, m') /\ reports m' = reports m ++ rs /\
    reports_from (m_if_name m) rs (m_if_name m').
Proof.
  intros Hm Hc. cut (exists m', handler_calls sort loc calls m = Some (tt, m') /\ tells m m').
  { intros (m' & E & _ & rs & Hr). by exists m', rs. }
  revert m Hm. induction Hc as [|[[sys popen] r] cs calls css Hr _ IH]; intros m Hm.
  { exists m. split; [done|by apply tells_refl]. }
  cbn [handler_calls]. unfold mbind, M_bind. cbn [snd] in Hr.
  assert (exists m1, changed_handler sort loc sys popen r m = Some (tt, m1) /\ tells m m1) as (m1 & -> & T1).
  { destruct r as [buf|]; unfold changed_handler; [|exists m; split; [done|by apply tells_refl]]. unfold datagram_changes in Hr.
    destruct (mapM change_of (nlmsgs buf)) as [l|] eqn:El; [|done]. apply mapM_Some in El.
    assert (Forall (fun nlh => is_Some (change_of nlh)) (nlmsgs buf)) as Hd.
    { apply (Forall2_Forall_l _ _ _ _ El), Forall_true. intros y x Hx. by exists y. }
    destruct (monitor_messages_tells sys (nlmsgs buf) false m Hm Hd) as (b & m1 & E1 & T1).
    unfold mbind, M_bind. rewrite E1. eexists. split; [done|]. apply (tells_trans m m1); [done|].
    apply after_messages_tells, T1. }
  destruct (IH m1 (proj1 T1)) as (m2 & E2 & T2). exists m2. split; [done|]. by apply (tells_trans m m1).
Qed.

(** ** Following the default route *)

Context (sort_perm : forall l, sort l ≡ₚ l) (sort_sorted : forall l, StronglySorted route_le (sort l)).

(** The connection a report tells of. *)
Definition report_of (name : bytes) : bytes * bool := (name, negb (bool_decide (name = []))).

(** What the owner was told since [r0]: the default as it is, once it was told anything; until then the default has been [idx0]
    and no change waits to be told. *)
Definition told_default (sys : System) (idx0 : option Z) (r0 : list (bytes * bool)) (told : bool) (m : Monitor) : Prop :=
  exists rs, reports m = r0 ++ rs /\
    if told then m_if_name m = get_default_if_name sys (m_routing_table m) /\ last rs = Some (report_of (m_if_name m))
    else rs = [] /\ m_if_name m = [] /\ m_default_changed (m_routing_table m) = false /\ get_default_if_index (m_routing_table m) = idx0.

(** The monitor knows the routes and the owner the default. *)
Record synced (sys : System) (idx0 : option Z) (r0 : list (bytes * bool)) (told : bool) (m : Monitor) : Prop := {
  syn_available : m_netlink_available m = true;
  syn_handler : m_cmd_handler m = true;
  syn_table : table_ok (m_routing_table m);
  syn_cached : cached sys (m_routing_table m);
  syn_told : told_default sys idx0 r0 told m
}.

Lemma monitor_messages_step sys msgs css b m :
  m_netlink_available m = true -> table_ok (m_routing_table m) -> Forall is_bytes msgs ->
  Forall2 (fun nlh cs => change_of nlh = Some cs) msgs css ->
  exists b' t', monitor_messages sort sys msgs b m = Some (b', set_routing_table t' m) /\
    table_step sys (List.concat css) (m_routing_table m) t'.
Proof.
  intros Ha Ht Hb Hc. revert b m Ha Ht. induction Hc as [|nlh cs msgs css Hn _ IH]; intros b m Ha Ht.
  { exists b, (m_routing_table m). split; [by destruct m|by apply table_step_refl]. }
  apply Forall_cons in Hb as [Hb1 Hb2]. cbn [monitor_messages]. unfold mbind, M_bind, monitor_message. cbn zeta.
  destruct (_ || _) eqn:Ea.
  - pose proof (addr_no_change nlh Ea). assert (cs = []) as -> by congruence. by apply IH.
  - rewrite Ha. cbn [negb]. destruct (route_message_step sort sort_perm sort_sorted sys nlh cs (m_routing_table m) Ht Hb1 Hn) as (t1 & -> & S1).
    destruct (IH Hb2 b (set_routing_table t1 m) Ha (proj1 S1)) as (b' & t' & -> & S2).
    exists b', t'. split; [done|]. by apply (table_step_trans sys cs (List.concat css) (m_routing_table m) t1).
Qed.

(** The data of two monitors that decide about defaults is the same. *)
Definition same_data (t t' : RoutingTable) : Prop :=
  m_routes_v4 t' = m_routes_v4 t /\ m_routes_v6 t' = m_routes_v6 t /\ m_prev_default_v4 t' = m_prev_default_v4 t /\
  m_prev_default_v6 t' = m_prev_default_v6 t /\ m_ignore_tun t' = m_ignore_tun t /\ m_query_fd t' = m_query_fd t /\
  m_ignored_interfaces t' = m_ignored_interfaces t.

Lemma after_messages_data sys popen b m :
  same_data (m_routing_table m) (m_routing_table (after_messages loc sys popen b m)) /\
  m_netlink_available (after_messages loc sys popen b m) = m_netlink_available m.
Proof.
  assert (forall name ok m0, m_routing_table (handle_network_change name ok m0) = m_routing_table m0 /\
    m_netlink_available (handle_network_change name ok m0) = m_netlink_available m0) as Hh
    by (intros; unfold handle_network_change; by repeat case_match).
  unfold after_messages, tell_default, has_default_changed_and_reset. cbn zeta.
  destruct (m_netlink_available m) eqn:Ea, b, (m_default_changed (m_routing_table m));
    rewrite ?(proj1 (Hh _ _ _)), ?(proj2 (Hh _ _ _)); cbn; rewrite ?Ea; done.
Qed.

Definition is_addr (nlh : bytes) : bool := (nlmsg_type nlh =? RTM_NEWADDR)%Z || (nlmsg_type nlh =? RTM_DELADDR)%Z.

Lemma monitor_messages_flag sys msgs b m b' m' :
  monitor_messages sort sys msgs b m = Some (b', m') -> b' = b || existsb is_addr msgs.
Proof.
  revert b m. induction msgs as [|nlh msgs IH]; intros b m; cbn [monitor_messages existsb].
  - intros [= <- _]. by rewrite orb_false_r.
  - unfold mbind, M_bind, monitor_message. cbn zeta. change ((_ =? RTM_NEWADDR)%Z || (_ =? RTM_DELADDR)%Z) with (is_addr nlh).
    destruct (is_addr nlh); [intros ->%IH; cbn; by rewrite orb_true_r|].
    destruct (negb _); [by intros ->%IH|]. destruct (route_message _ _ _ _) as [[u t]|]; [|done]. by intros ->%IH.
Qed.

(** Telling the default is always news to an owner that was told nothing. *)
Lemma tell_default_told sys idx0 r0 told m :
  m_cmd_handler m = true ->
  (exists rs, reports m = r0 ++ rs /\ if told : bool then last rs = Some (report_of (m_if_name m)) else rs = [] /\ m_if_name m = []) ->
  told_default sys idx0 r0 true (tell_default sys m).
Proof.
  intros Hh (rs & Hr & Ht). unfold told_default, tell_default. set (name := get_default_if_name sys (m_routing_table m)).
  destruct (handle_network_change_tells name m Hh) as (_ & En & Et & _). cbn zeta in En, Et. rewrite En, Et. fold name.
  unfold handle_network_change. case_bool_decide as E1; cbn [negb].
  - exists (rs ++ [([], false)]). cbn. rewrite Hh, Hr, <- app_assoc. split; [done|]. split; [done|]. rewrite last_snoc, E1. done.
  - case_bool_decide as E2; cbn [negb].
    + exists rs. split; [done|]. split; [done|]. destruct told; [by rewrite <- E2|]. destruct Ht as [_ Ht]. congruence.
    + exists (rs ++ [(name, true)]). cbn. rewrite Hh, Hr, <- app_assoc. split; [done|]. split; [done|].
      rewrite last_snoc. unfold report_of. by rewrite bool_decide_false.
Qed.

Lemma told_default_sys sys sys' idx0 r0 told m : sys = sys' -> told_default sys idx0 r0 told m -> told_default sys' idx0 r0 told m.
Proof. by intros ->. Qed.

(** After the messages of a datagram the owner knows the default again, and was told it if there was an address change. *)
Lemma after_messages_synced sys popen b cs m t' idx0 r0 told :
  synced sys idx0 r0 told m -> table_step sys cs (m_routing_table m) t' ->
  exists told', synced sys idx0 r0 told' (after_messages loc sys popen b (set_routing_table t' m)) /\ (told || b = true -> told' = true).
Proof.
  intros [Ha Hh Ht Hc (rs & Hr & Hn)] (Ok & Ca & _ & No & _). set (m1 := set_routing_table t' m).
  destruct (after_messages_data sys popen b m1) as [(D1 & D2 & D3 & D4 & D5 & D6 & D7) Dav].
  pose proof (after_messages_tells sys popen b m1 Hh) as [Th _].
  set (m2 := after_messages loc sys popen b m1) in *.
  assert (forall l, find_default_route sys (m_routing_table m2) l = find_default_route sys t' l) as Hf.
  { intros l. unfold find_default_route, eligible, is_interface_ignored. by rewrite D5, D6, D7. }
  assert (forall told', told_default sys idx0 r0 told' m2 -> synced sys idx0 r0 told' m2) as Hsync.
  { intros told' Hto. split; [by rewrite Dav|done|split; rewrite ?D1, ?D2; apply Ok| |done].
    unfold cached. rewrite D1, D2, D3, D4, !Hf. by apply Ca. }
  assert (forall m0, m_cmd_handler m0 = true -> reports m0 = reports m -> m_if_name m0 = m_if_name m -> told_default sys idx0 r0 true (tell_default sys m0)) as Htell.
  { intros m0 Hh0 E1 E2. apply (tell_default_told sys idx0 r0 told); [done|]. exists rs. rewrite E1, E2. split; [done|].
    destruct told; [apply Hn|split; apply Hn]. }
  unfold m2, after_messages, has_default_changed_and_reset in *. change (m_netlink_available m1) with (m_netlink_available m) in *. rewrite Ha in *.
  destruct b; [exists true; split; [apply Hsync, Htell; done|done]|].
  destruct (m_default_changed (m_routing_table m1)) eqn:Ed; [exists true; split; [apply Hsync, Htell; done|done]|].
  exists told. split; [|by rewrite orb_false_r]. apply Hsync. exists rs. split; [done|].
  destruct No as [No|(_ & E4 & E6)]; [change (m_default_changed t' = false) in Ed; congruence|].
  destruct told; unfold get_default_if_name, get_default_if_index in *; cbn; rewrite E4, E6; [exact Hn|].
  destruct Hn as (H1 & H2 & _ & H4). by split_and!.
Qed.

Lemma handler_synced sys popen r cs m idx0 r0 told :
  synced sys idx0 r0 told m -> received r cs ->
  exists m' told', changed_handler sort loc sys popen r m = Some (tt, m') /\ synced sys idx0 r0 told' m' /\
    (told || match r with Some buf => existsb is_addr (nlmsgs buf) | None => false end = true -> told' = true) /\
    (forall i, is_interface_ignored sys (m_routing_table m') i = is_interface_ignored sys (m_routing_table m) i) /\
    abs (m_routes_v4 (m_routing_table m')) = fold_left (apply_change IPV4_ADDRESS_SIZE) cs (abs (m_routes_v4 (m_routing_table m))) /\
    abs (m_routes_v6 (m_routing_table m')) = fold_left (apply_change IPV6_ADDRESS_SIZE) cs (abs (m_routes_v6 (m_routing_table m))).
Proof.
  intros Hs [Hr Hb]. destruct r as [buf|]; [|injection Hr as <-; exists m, told; rewrite orb_false_r; done].
  unfold changed_handler, datagram_changes in *.
  destruct (mapM change_of (nlmsgs buf)) as [l|] eqn:El; [|done]. injection Hr as <-. apply mapM_Some in El.
  destruct (monitor_messages_step sys (nlmsgs buf) l false m (syn_available _ _ _ _ _ Hs) (syn_table _ _ _ _ _ Hs) (nlmsgs_bytes buf Hb) El) as (b & t' & E & St).
  unfold mbind, M_bind. rewrite E. apply monitor_messages_flag in E as ->.
  destruct (after_messages_synced sys popen (false || existsb is_addr (nlmsgs buf)) (List.concat l) m t' idx0 r0 told Hs St) as (told' & Hs' & Hto).
  eexists _, told'. split; [done|]. split; [done|]. split; [done|].
  destruct (after_messages_data sys popen (false || existsb is_addr (nlmsgs buf)) (set_routing_table t' m)) as [(D1 & D2 & D3 & D4 & D5 & D6 & D7) _].
  destruct St as (_ & _ & Ig & _ & A4 & A6). split; [|by rewrite D1, D2].
  intros i. rewrite <- Ig. unfold is_interface_ignored. by rewrite D5, D6, D7.
Qed.

(** The name of the interface of the defaults of the two families: that of IPv4 if there is one. *)
Definition default_name (sys : System) (d4 d6 : option Z) : bytes :=
  match (match d4 with Some i => Some i | None => d6 end) with
  | Some i => if (i =? 0)%Z then [] else default [] (if_indextoname sys i)
  | None => []
  end.

(** ** What the kernel sends *)

(** A message of the groups the monitor listens to: a route comes or goes, an address comes or goes, or something else. *)
Inductive KernelMsg := KNewRoute (k : KernelRoute) | KDelRoute (k : KernelRoute) | KAddress (m : nlmsg) | KOther (m : nlmsg).

Definition to_nlmsg (km : KernelMsg) : nlmsg :=
  match km with KNewRoute k => kernel_msg RTM_NEWROUTE k | KDelRoute k => kernel_msg RTM_DELROUTE k | KAddress m | KOther m => m end.

Definition bytes_in (m : nlmsg) : Prop := is_bytes (msg_head m) /\ Forall (fun a => is_bytes (rta_data a)) (msg_attrs m).

Definition kernel_msg_ok (km : KernelMsg) : Prop :=
  match km with
  | KNewRoute k | KDelRoute k => kernel_fits k
  | KAddress m => nlmsg_fits m /\ bytes_in m /\ (msg_type m = RTM_NEWADDR \/ msg_type m = RTM_DELADDR)
  | KOther m => nlmsg_fits m /\ bytes_in m /\ msg_type m ∉ [RTM_NEWROUTE; RTM_DELROUTE; RTM_NEWADDR; RTM_DELADDR]
  end.

Definition is_address (km : KernelMsg) : bool := match km with KAddress _ => true | _ => false end.

(** What a message means for the routes. *)
Definition changes_of (km : KernelMsg) : list Change :=
  match km with
  | KNewRoute k => match entry_of k with Some e => [Announced e] | None => [] end
  | KDelRoute k => match entry_of k with Some e => [Withdrawn e] | None => [] end
  | _ => []
  end.

Definition datagram (l : list KernelMsg) : bytes := List.concat (map encode_nlmsg (map to_nlmsg l)).

Lemma kernel_msg_ok_fits km : kernel_msg_ok km -> nlmsg_fits (to_nlmsg km).
Proof. destruct km; cbn [to_nlmsg kernel_msg_ok]; [by apply kernel_msg_fits..|by intros []|by intros []]. Qed.

Lemma pad4_bytes s : is_bytes s -> is_bytes (pad4 s).
Proof. intros Hs. unfold pad4. apply Forall_app. split; [done|]. by apply Forall_replicate. Qed.

Lemma encode_nlmsg_bytes m : bytes_in m -> is_bytes (encode_nlmsg m).
Proof.
  intros [Hh Ha]. unfold encode_nlmsg, encode_message, encode_nlmsghdr. apply pad4_bytes. unfold is_bytes. rewrite !Forall_app.
  repeat split; try apply le_bytes_bytes; [done|]. unfold encode_attrs. induction Ha as [|a l Ha _ IH]; [constructor|]. cbn [map List.concat].
  apply Forall_app. split; [|done]. unfold encode_attr. apply pad4_bytes. unfold is_bytes. rewrite !Forall_app. repeat split; try apply le_bytes_bytes. done.
Qed.

Lemma kernel_msg_bytes type k : kernel_fits k -> bytes_in (kernel_msg type k).
Proof.
  intros Hk. split; [|eapply Forall_impl; [apply Hk|]; by intros a []]. pose proof (kf_head k Hk) as Hh. rewrite !Forall_cons in Hh.
  pose proof (kf_len k Hk) as Hl. cbn [msg_head kernel_msg]. apply Forall_app. split; [|apply le_bytes_bytes].
  rewrite !Forall_cons. split; [by destruct (kr_v4 k)|]. split; [|tauto].
  unfold kr_size, IPV4_ADDRESS_SIZE, IPV6_ADDRESS_SIZE in Hl. unfold is_byte. destruct (kr_v4 k); lia.
Qed.

Lemma datagram_bytes l : Forall kernel_msg_ok l -> is_bytes (datagram l).
Proof.
  unfold datagram. induction 1 as [|km l Hk _ IH]; [constructor|]. cbn [map List.concat]. apply Forall_app. split; [|done].
  apply encode_nlmsg_bytes. destruct km; cbn [to_nlmsg kernel_msg_ok] in *; [by apply kernel_msg_bytes..|apply Hk|apply Hk].
Qed.

(** What the monitor makes of the messages it finds in a datagram. *)
Lemma datagram_walk l :
  Forall kernel_msg_ok l ->
  Forall2 (fun mem km => change_of mem = Some (changes_of km) /\ is_addr mem = is_address km) (nlmsgs (datagram l)) l.
Proof.
  intros Hl. assert (Forall nlmsg_fits (map to_nlmsg l)) as Hf.
  { apply Forall_fmap. apply (Forall_impl _ _ _ Hl). apply kernel_msg_ok_fits. }
  pose proof (nlmsgs_encode _ Hf) as H2. fold (datagram l) in H2. apply Forall2_fmap_r in H2.
  revert Hl. revert H2. generalize (nlmsgs (datagram l)) as mems. clear. intros mems H2. induction H2 as [|mem km mems l (Ht & Hh & Ha) _ IH]; intros Hl; [constructor|].
  apply Forall_cons in Hl as [Hk Hl]. constructor; [|by apply IH]. clear IH.
  unfold change_of, is_addr. rewrite Ht. destruct km as [k|k|m|m]; cbn [to_nlmsg kernel_msg_ok changes_of is_address msg_type kernel_msg] in *.
  - rewrite (parse_kernel RTM_NEWROUTE k mem Hk Hh Ha). by destruct (entry_of k).
  - rewrite (parse_kernel RTM_DELROUTE k mem Hk Hh Ha). by destruct (entry_of k).
  - destruct Hk as (_ & _ & [-> | ->]); done.
  - destruct Hk as (_ & _ & Hk). rewrite !not_elem_of_cons in Hk. destruct Hk as (N1 & N2 & N3 & N4 & _).
    apply Z.eqb_neq in N1, N2, N3, N4. by rewrite N1, N2, N3, N4.
Qed.

(** One call of [recvmsg]: it fails, or brings a datagram. *)
Definition recv_of (d : option (list KernelMsg)) : option bytes := datagram <$> d.

Definition sent_ok (d : option (list KernelMsg)) : Prop := match d with Some l => Forall kernel_msg_ok l | None => True end.

Definition sent_changes (d : option (list KernelMsg)) : list Change := match d with Some l => List.concat (map changes_of l) | None => [] end.

Definition sent_address (d : option (list KernelMsg)) : bool := match d with Some l => existsb is_address l | None => false end.

Lemma sent_received d : sent_ok d -> received (recv_of d) (sent_changes d).
Proof.
  destruct d as [l|]; [|done]. intros Hl. split; [|by apply datagram_bytes]. cbn. apply fmap_Some. exists (map changes_of l). split; [|done].
  apply mapM_Some, Forall2_fmap_r. eapply Forall2_impl; [by apply datagram_walk|]. by intros ? ? [].
Qed.

Lemma sent_flag d : sent_ok d -> match recv_of d with Some buf => existsb is_addr (nlmsgs buf) | None => false end = sent_address d.
Proof.
  destruct d as [l|]; [|done]. intros Hl%datagram_walk. change (recv_of (Some l)) with (Some (datagram l)).
  cbn [sent_address]. revert Hl. generalize (nlmsgs (datagram l)) as mems. intros mems Hl.
  induction Hl as [|mem km mems l' [_ H] _ IH]; [done|]. cbn [existsb]. by rewrite H, IH.
Qed.

(** ** From the start on *)

Lemma handler_calls_synced sys popen ds m idx0 r0 told :
  synced sys idx0 r0 told m -> Forall sent_ok ds ->
  exists m' told', handler_calls sort loc (map (fun d => (sys, popen, recv_of d)) ds) m = Some (tt, m') /\ synced sys idx0 r0 told' m' /\
    (told || existsb sent_address ds = true -> told' = true) /\
    abs (m_routes_v4 (m_routing_table m')) = fold_left (apply_change IPV4_ADDRESS_SIZE) (List.concat (map sent_changes ds)) (abs (m_routes_v4 (m_routing_table m))) /\
    abs (m_routes_v6 (m_routing_table m')) = fold_left (apply_change IPV6_ADDRESS_SIZE) (List.concat (map sent_changes ds)) (abs (m_routes_v6 (m_routing_table m))) /\
    (forall i, is_interface_ignored sys (m_routing_table m') i = is_interface_ignored sys (m_routing_table m) i).
Proof.
  intros Hs Hd. revert m told Hs. induction Hd as [|d ds Hd _ IH]; intros m told Hs.
  { exists m, told. split; [done|]. split; [done|]. split; [by rewrite orb_false_r|done]. }
  destruct (handler_synced sys popen _ _ m idx0 r0 told Hs (sent_received d Hd)) as (m1 & t1 & E & S1 & Ht & Ig & A4 & A6).
  destruct (IH m1 t1 S1) as (m' & t' & E' & S' & Ht' & B4 & B6 & Ig'). exists m', t'. cbn [map handler_calls]. unfold mbind, M_bind. rewrite E.
  split; [done|]. split; [done|]. cbn [existsb List.concat map]. rewrite !fold_left_app, <- A4, <- A6. split; [|split; [done|split; [done|]]].
  - rewrite sent_flag in Ht by done. intros H. apply Ht'. rewrite orb_assoc in H. apply orb_true_iff in H as [H|H]; [by rewrite Ht|by rewrite H, orb_true_r].
  - intros i. by rewrite Ig', Ig.
Qed.

(** The calls that make the socket succeed. *)
Definition calls_ok (c : SocketCalls) : Prop := (0 <= socket c)%Z /\ getfl c <> (-1)%Z /\ setfl c <> (-1)%Z /\ (0 <= bind_ c)%Z.

Lemma create_socket_ok c m : calls_ok c -> create_socket c m = (true, set_monitor_sock_fd (socket c) m).
Proof.
  intros (H1 & H2 & H3 & H4). unfold create_socket. apply Z.ltb_ge in H1, H4. apply Z.eqb_neq in H2, H3. by rewrite H1, H2, H3, H4.
Qed.

Lemma entries_good l : Forall kernel_fits l -> Forall (fun e => good IPV4_ADDRESS_SIZE e \/ good IPV6_ADDRESS_SIZE e) (entries l).
Proof.
  intros Hl. apply Forall_forall. intros e (k & Hk & Ek)%list_elem_of_omap. rewrite Forall_forall in Hl. apply (entry_good k) in Ek; [|by apply Hl].
  unfold kr_size in Ek. destruct (kr_v4 k); auto.
Qed.

(** The routes of one family as a map. *)
Definition routes_of (n : nat) (l : list KernelRoute) : gmap (bytes * nat * Z) Z := abs (List.filter (fun e => family_size e =? n) (entries l)).

Lemma start_synced sys c q event_new chunks l rest m0 :
  is_running m0 = false -> m_cmd_handler m0 = true -> m_if_name m0 = [] -> calls_ok c -> (0 <= q)%Z ->
  Forall (Forall kernel_fits) chunks -> Forall kernel_fits l -> NoDup (key <$> entries (List.concat chunks ++ l)) ->
  exists m1, start sort sys true c q true (map (fun k => Some (dump k)) chunks ++ Some (dump l ++ encode_nlmsg done_msg) :: rest) event_new m0 = Some (tt, m1) /\
    synced sys (get_default_if_index (m_routing_table m1)) (reports m0) false m1 /\
    abs (m_routes_v4 (m_routing_table m1)) = routes_of IPV4_ADDRESS_SIZE (List.concat chunks ++ l) /\
    abs (m_routes_v6 (m_routing_table m1)) = routes_of IPV6_ADDRESS_SIZE (List.concat chunks ++ l).
Proof.
  intros Hrun Hh Hn Hc Hq Hchunks Hl Hd. unfold start. rewrite Hrun. cbn [negb]. rewrite create_socket_ok by done. cbn [negb].
  unfold init_routing_table. cbn [m_monitor_sock_fd set_monitor_sock_fd m_routing_table].
  rewrite (proj2 (Z.ltb_ge _ _) (proj1 Hc)). unfold init_query_socket.
  set (ok_t := if (0 <=? m_query_fd (m_routing_table m0))%Z then _ else _).
  assert (exists t, ok_t = (true, t) /\ (0 <= m_query_fd t)%Z) as (t & -> & Ht).
  { unfold ok_t. destruct (Z.leb_spec 0 (m_query_fd (m_routing_table m0))); [by eexists|]. rewrite (proj2 (Z.ltb_ge _ _) Hq). by eexists. }
  cbn [negb]. rewrite (reload_table sort sys chunks l rest t Ht Hchunks Hl). set (L := entries (List.concat chunks ++ l)) in *.
  assert (Forall (fun e => good IPV4_ADDRESS_SIZE e \/ good IPV6_ADDRESS_SIZE e) L) as HL.
  { apply entries_good, Forall_app. split; [|done]. clear -Hchunks. induction Hchunks; [constructor|]. cbn. by apply Forall_app. }
  assert (distinct (List.filter is_v4 L) /\ distinct (List.filter (fun e => negb (is_v4 e)) L)) as [D4 D6].
  { unfold distinct. rewrite <- (filter_split L), fmap_app in Hd. by apply NoDup_app in Hd as (? & _ & ?). }
  assert (Forall (good IPV4_ADDRESS_SIZE) (List.filter is_v4 L)) as G4.
  { apply Forall_forall. intros e He%list_elem_of_In. apply filter_In in He as [He Hv]. apply list_elem_of_In in He.
    rewrite Forall_forall in HL. destruct (HL e He) as [|[_ G]]; [done|]. unfold is_v4 in Hv. by rewrite G in Hv. }
  assert (Forall (good IPV6_ADDRESS_SIZE) (List.filter (fun e => negb (is_v4 e)) L)) as G6.
  { apply Forall_forall. intros e He%list_elem_of_In. apply filter_In in He as [He Hv]. apply list_elem_of_In in He.
    rewrite Forall_forall in HL. destruct (HL e He) as [[_ G]|]; [|done]. unfold is_v4 in Hv. by rewrite G in Hv. }
  set (t1 := set_routes _ _ t). destruct (update_cache_spec sort sort_perm sort_sorted sys t1 D4 D6 G4 G6) as ([O4 O6] & [C4 C6] & A4 & A6 & _).
  set (t2 := sort_and_update_cache sort sys t1) in *. eexists. split; [done|]. split; [|split].
  - split; [done|done|by split|by split|]. exists []. split; [by rewrite app_nil_r|]. by split.
  - exact A4.
  - etrans; [exact A6|]. unfold routes_of. f_equal. cbn [m_routes_v6 set_routes t1]. fold L. clear -HL. induction HL as [|e L' He _ IH]; [done|]. cbn [List.filter].
    rewrite IH. unfold is_v4. by destruct He as [[_ ->]|[_ ->]].
Qed.

(** C14: The owner of the monitor is told the default route.  Take a monitor that does not run and has no interface in use,
    a new one or one that was stopped, with an owner that listens.  It is started, its sockets can be made, and the kernel dumps its routes;
    then datagrams arrive, with routes announced and withdrawn, addresses changed and anything else, some of
    them lost.  Every call returns.  The last report since the start is then the interface of the best default
    route there is, the one of IPV4 before that of IPv6, or a disconnection when there is none or it has no name.
    Nothing is reported only while no address changed and the default is the one of the dump.  The best default route is
    the usable one with the lowest metric: of a unicast route of the main or the default table, with an interface that is not ignored.
    Routes are those of the dump, told apart by prefix and interface: an announcement replaces the route it has with that
    prefix and interface, a withdrawal removes it whatever its metric, and no two routes of the dump are alike in this.
    The names and kinds of interfaces stay as they are meanwhile. *)
Theorem monitor_follows_default sys popen c q event_new chunks l rest ds m0 :
  is_running m0 = false -> m_cmd_handler m0 = true -> m_if_name m0 = [] -> calls_ok c -> (0 <= q)%Z ->
  Forall (Forall kernel_fits) chunks -> Forall kernel_fits l -> NoDup (key <$> entries (List.concat chunks ++ l)) ->
  Forall sent_ok ds ->
  exists m1 m2 rs d4 d6,
    start sort sys true c q true (map (fun k => Some (dump k)) chunks ++ Some (dump l ++ encode_nlmsg done_msg) :: rest) event_new m0 = Some (tt, m1) /\
    handler_calls sort loc (map (fun d => (sys, popen, recv_of d)) ds) m1 = Some (tt, m2) /\
    reports m2 = reports m0 ++ rs /\
    best_default sys (m_routing_table m2)
      (fold_left (apply_change IPV4_ADDRESS_SIZE) (List.concat (map sent_changes ds)) (routes_of IPV4_ADDRESS_SIZE (List.concat chunks ++ l))) d4 /\
    best_default sys (m_routing_table m2)
      (fold_left (apply_change IPV6_ADDRESS_SIZE) (List.concat (map sent_changes ds)) (routes_of IPV6_ADDRESS_SIZE (List.concat chunks ++ l))) d6 /\
    (last rs = Some (report_of (default_name sys d4 d6)) \/
     rs = [] /\ existsb sent_address ds = false /\ exists e4 e6,
       best_default sys (m_routing_table m2) (routes_of IPV4_ADDRESS_SIZE (List.concat chunks ++ l)) e4 /\
       best_default sys (m_routing_table m2) (routes_of IPV6_ADDRESS_SIZE (List.concat chunks ++ l)) e6 /\
       default_name sys d4 d6 = default_name sys e4 e6).
Proof.
  intros Hrun Hh Hn Hc Hq Hchunks Hl Hd Hds.
  destruct (start_synced sys c q event_new chunks l rest m0 Hrun Hh Hn Hc Hq Hchunks Hl Hd) as (m1 & E1 & S1 & A4 & A6).
  destruct (handler_calls_synced sys popen ds m1 _ _ _ S1 Hds) as (m2 & told & E2 & S2 & Hto & B4 & B6 & Ig).
  destruct (syn_told _ _ _ _ _ S2) as (rs & Hr & Ht). exists m1, m2, rs, (m_prev_default_v4 (m_routing_table m2)), (m_prev_default_v6 (m_routing_table m2)).
  rewrite <- A4, <- A6, <- B4, <- B6. destruct (syn_cached _ _ _ _ _ S1) as [C4 C6]. destruct (syn_cached _ _ _ _ _ S2) as [F4 F6].
  destruct (syn_table _ _ _ _ _ S1) as [O4 O6]. destruct (syn_table _ _ _ _ _ S2) as [P4 P6].
  do 3 (split; [done|]). rewrite F4, F6. split; [by apply (find_default_best _ _ _ _ P4)|]. split; [by apply (find_default_best _ _ _ _ P6)|].
  rewrite <- F4, <- F6. change (default_name sys (m_prev_default_v4 (m_routing_table m2)) _) with (get_default_if_name sys (m_routing_table m2)).
  destruct told; [left; destruct Ht as [E ->]; by rewrite E|right]. destruct Ht as (-> & _ & _ & Hi). split; [done|].
  split; [by destruct (existsb sent_address ds); [specialize (Hto eq_refl)|]|].
  exists (m_prev_default_v4 (m_routing_table m1)), (m_prev_default_v6 (m_routing_table m1)).
  split; [|split].
  - rewrite C4. apply (best_default_ext sys _ (m_routing_table m1)); [done|]. by apply (find_default_best _ _ _ _ O4).
  - rewrite C6. apply (best_default_ext sys _ (m_routing_table m1)); [done|]. by apply (find_default_best _ _ _ _ O6).
  - change (get_default_if_name sys (m_routing_table m2) = get_default_if_name sys (m_routing_table m1)). unfold get_default_if_name. by rewrite Hi.
Qed.
End Facts.

(** ** Descriptors *)

(** What can happen to a monitor, with what the system answers each time. *)
Inductive Op :=
| OpStart (sys : System) (ev_base : bool) (c : SocketCalls) (query_socket : Z) (sent : bool) (recvs : list (option bytes)) (event_new : bool)
| OpStop
| OpChanged (sys : System) (popen : bytes -> option Pipe) (recvmsg : option bytes).

Definition event_created (o : Op) : Prop := match o with OpStart _ _ _ _ _ _ e => e = true | _ => True end.

(** The event loop calls the handler only for an event that was added. *)
Definition run_op (sort : list RouteEntry -> list RouteEntry) (loc : SourceLocation) (o : Op) : M Monitor unit :=
  match o with
  | OpStart sys ev_base c q sent recvs e => start sort sys ev_base c q sent recvs e
  | OpStop => modify stop
  | OpChanged sys popen r => fun m => if is_running m then changed_handler sort loc sys popen r m else Some (tt, m)
  end.

Definition descriptors_ok (m : Monitor) : Prop :=
  if is_running m then (0 <= m_monitor_sock_fd m)%Z else (m_monitor_sock_fd m < 0)%Z /\ (m_query_fd (m_routing_table m) < 0)%Z.

Section Descriptors.
Context (sort : list RouteEntry -> list RouteEntry) (loc : SourceLocation).

Lemma close_query_closed t : (m_query_fd (close_query_socket t) < 0)%Z.
Proof. unfold close_query_socket. destruct (Z.leb_spec 0 (m_query_fd t)); cbn; lia. Qed.

Lemma close_socket_closed m :
  (m_monitor_sock_fd (close_socket m) = -1)%Z /\ (m_query_fd (m_routing_table (close_socket m)) < 0)%Z /\
  m_monitor_event (close_socket m) = m_monitor_event m.
Proof.
  unfold close_socket. cbn [m_monitor_sock_fd set_routing_table]. pose proof (close_query_closed (m_routing_table m)).
  by destruct (Z.eqb_spec (m_monitor_sock_fd m) (-1)) as [E|E].
Qed.

Lemma create_socket_descriptors c m :
  m_monitor_event m = false -> (m_query_fd (m_routing_table m) < 0)%Z ->
  let '(ok, m') := create_socket c m in
  m_monitor_event m' = false /\ (m_query_fd (m_routing_table m') < 0)%Z /\
  (if ok then (0 <= m_monitor_sock_fd m')%Z else (m_monitor_sock_fd m' < 0)%Z).
Proof.
  intros He Hq. unfold create_socket. cbn zeta. destruct (Z.ltb_spec (socket c) 0); [done|].
  destruct (close_socket_closed (set_monitor_sock_fd (socket c) m)) as (H1 & H2 & H3). cbn in H3.
  repeat case_match; simplify_eq; rewrite ?H1, ?H3; repeat split; (done || (cbn; lia)).
Qed.

Lemma init_routing_table_descriptors sys q sent recvs m b m' :
  init_routing_table sort sys q sent recvs m = Some (b, m') -> m_monitor_sock_fd m' = m_monitor_sock_fd m.
Proof. unfold init_routing_table. intros H. repeat case_match; by simplify_eq/=. Qed.

Lemma monitor_messages_frame sys msgs b m b' m' :
  monitor_messages sort sys msgs b m = Some (b', m') ->
  m_monitor_sock_fd m' = m_monitor_sock_fd m /\ m_monitor_event m' = m_monitor_event m.
Proof.
  revert b m. induction msgs as [|nlh msgs IH]; intros b m; cbn [monitor_messages]; [by intros [= <- <-]|].
  unfold mbind, M_bind, monitor_message. repeat case_match; try done; intros H'; simplify_eq; by apply IH in H'.
Qed.

Lemma changed_handler_frame sys popen r m m' :
  changed_handler sort loc sys popen r m = Some (tt, m') ->
  m_monitor_sock_fd m' = m_monitor_sock_fd m /\ m_monitor_event m' = m_monitor_event m.
Proof.
  destruct r as [buf|]; [|by intros [= <-]]. unfold changed_handler, mbind, M_bind.
  destruct (monitor_messages sort sys (nlmsgs buf) false m) as [[b m1]|] eqn:E; [|done]. intros [= <-].
  apply monitor_messages_frame in E as [<- <-].
  unfold after_messages, tell_default, handle_network_change, has_default_changed_and_reset. by repeat case_match; simplify_eq/=.
Qed.

(** Start, stop and the handler in any order keep the descriptors straight, as long as libevent
    makes the events: a monitor that runs has its socket, and one that does not run has closed both
    the socket and the socket for queries, whichever call of a start has failed. *)
Theorem monitor_descriptors ops m m' :
  descriptors_ok m -> Forall event_created ops ->
  fold_left (fun r o => r ≫= fun p => run_op sort loc o p.2) ops (Some (tt, m)) = Some (tt, m') -> descriptors_ok m'.
Proof.
  intros Hm Ho. revert m Hm. induction Ho as [|o ops He _ IH]; intros m Hm; cbn [fold_left]; [by intros [= <-]|].
  cbn [mbind option_bind snd]. destruct (run_op sort loc o m) as [[[] m1]|] eqn:E.
  2:{ clear. by induction ops. }
  apply IH. clear IH. unfold descriptors_ok in *. destruct o as [sys ev c q sent recvs e| |sys popen r]; cbn [run_op] in E.
  - unfold start in E. destruct (is_running m) eqn:Er; [simplify_eq; by rewrite Er|]. destruct Hm as [Hs Hq].
    destruct ev; cbn [negb] in E; [|simplify_eq; by rewrite Er]. pose proof (create_socket_descriptors c m Er Hq) as Hc.
    destruct (create_socket c m) as [ok m2]. destruct Hc as (Hc1 & Hc2 & Hc3). destruct ok; cbn [negb] in E.
    + destruct (init_routing_table sort sys q sent recvs m2) as [[b m3]|] eqn:Ei; [|done]. simplify_eq.
      apply init_routing_table_descriptors in Ei. cbn in He. subst e. cbn. lia.
    + simplify_eq. unfold is_running. by rewrite Hc1.
  - injection E as <-. unfold stop. destruct (is_running m) eqn:Er; cbn [negb]; [|by rewrite Er].
    destruct (close_socket_closed (set_monitor_event false m)) as (H1 & H2 & H3). unfold is_running. cbn. rewrite H3. cbn. lia.
  - destruct (is_running m) eqn:Er; [|simplify_eq; by rewrite Er]. apply changed_handler_frame in E as [-> E].
    unfold is_running in *. by rewrite E, Er.
Qed.
End Descriptors.

(** ** Examples *)

Definition sample_loc : SourceLocation := MkLocation [] 0.

Definition no_pipe : bytes -> option Pipe := fun _ => None.

Definition addr_message : bytes := encode_nlmsg (MkNlmsg RTM_NEWADDR 0 0 (replicate 8 0%Z) []).

(** A monitor that has loaded no routes yet, and so knows no default. *)
Definition running : Monitor := MkMonitor [] true 4 (set_query_fd 5 table_new) true true [].

Definition sample_datagrams : list (option bytes) :=
  [Some (announcement (default_route 2 100) ++ announcement (lan_route 3 0)); None; Some (announcement (default_route 3 50));
   Some (encode_nlmsg (withdrawal (default_route 3 0)) ++ addr_message)].

Definition sample_datagram_changes : list (list Change) :=
  [[Announced (default_v4 2 100); Announced (lan 3 0)]; []; [Announced (default_v4 3 50)]; [Withdrawn (default_v4 3 0)]].

Lemma reports_make_sense_witness :
  exists m' rs, handler_calls insertion_sort sample_loc (map (fun r => (sample_system, no_pipe, r)) sample_datagrams) running = Some (tt, m') /\
    reports m' = rs /\ reports_from [] rs (m_if_name m') /\ rs = [(str "eth0", true); (str "wlan0", true); (str "eth0", true)].
Proof.
  destruct (reports_make_sense insertion_sort sample_loc (map (fun r => (sample_system, no_pipe, r)) sample_datagrams)
    [[Announced (default_v4 2 100); Announced (lan 3 0)]; []; [Announced (default_v4 3 50)]; [Withdrawn (default_v4 3 0)]] running eq_refl)
    as (m' & rs & E & R & F).
  - do 4 (apply Forall2_cons; split; [vm_compute; reflexivity|]). apply Forall2_nil. done.
  - exists m', rs. split; [exact E|]. split; [exact R|]. split; [exact F|]. vm_compute in E. injection E as <-. symmetry in R. exact R.
Defined.

Definition good_calls : SocketCalls := MkSocketCalls 4 0 0 0.
Definition bad_bind : SocketCalls := MkSocketCalls 4 0 0 (-1).

Definition sample_dump : list (option bytes) := [Some (dump [default_route 2 100] ++ encode_nlmsg done_msg)].

Definition sample_ops : list Op :=
  [OpStart sample_system true bad_bind 5 true [] true; OpStart sample_system true good_calls 5 true sample_dump true;
   OpChanged sample_system no_pipe (Some addr_message); OpStop].

(** Datagrams: a lower metric elsewhere, one that is lost, and the withdrawal with a changed address. *)
Definition sample_sent : list (option (list KernelMsg)) :=
  [Some [KNewRoute (lan_route 3 7); KNewRoute (default_route 3 50)]; None; Some [KDelRoute (default_route 3 0);
    KAddress (MkNlmsg RTM_NEWADDR 0 0 (replicate 8 0%Z) [])]].

Lemma monitor_follows_default_witness :
  exists m1 m2 rs,
    start insertion_sort sample_system true good_calls 5 true [Some (dump [default_route 2 100; local_route] ++ encode_nlmsg done_msg)] true (monitor_new true)
      = Some (tt, m1) /\ is_running m1 = true /\
    handler_calls insertion_sort sample_loc (map (fun d => (sample_system, no_pipe, recv_of d)) sample_sent) m1 = Some (tt, m2) /\
    reports m2 = rs /\ rs = [(str "wlan0", true); (str "eth0", true)].
Proof.
  destruct (monitor_follows_default insertion_sort sample_loc insertion_sort_perm insertion_sort_sorted sample_system no_pipe good_calls 5 true []
    [default_route 2 100; local_route] [] sample_sent (monitor_new true)) as (m1 & m2 & rs & d4 & d6 & E1 & E2 & Hr & _).
  - done.
  - done.
  - done.
  - by split_and!.
  - done.
  - constructor.
  - pose proof sample_kernel_fits as H. rewrite !Forall_cons in H. rewrite !Forall_cons, ?Forall_nil. tauto.
  - apply (bool_decide_eq_true_1 (NoDup _)). vm_compute. reflexivity.
  - assert (kernel_fits (default_route 3 0)) as Hz by by apply (kernel_fits_dec _ []).
    pose proof sample_kernel_fits as H. rewrite !Forall_cons in H. unfold sample_sent. rewrite !Forall_cons, !Forall_nil. cbn [sent_ok].
    rewrite !Forall_cons, !Forall_nil. cbn [kernel_msg_ok]. split_and!; try tauto; try by vm_compute.
    all: apply (bool_decide_eq_true_1 _); vm_compute; reflexivity.
  - exists m1, m2, rs. split; [exact E1|]. vm_compute in E1. injection E1 as <-. split; [reflexivity|]. split; [exact E2|].
    vm_compute in E2. injection E2 as <-. split; [exact Hr|]. symmetry in Hr. exact Hr.
Defined.

Lemma monitor_descriptors_witness :
  exists m', fold_left (fun r o => r ≫= fun p => run_op insertion_sort sample_loc o p.2) sample_ops (Some (tt, monitor_new true)) = Some (tt, m') /\
    descriptors_ok m' /\ reports m' = [(str "eth0", true)].
Proof.
  eexists. split; [vm_compute; reflexivity|]. split; [|reflexivity].
  apply (monitor_descriptors insertion_sort sample_loc sample_ops (monitor_new true)).
  - split; reflexivity.
  - repeat (apply Forall_cons; split; [done|]). apply Forall_nil. done.
  - vm_compute. reflexivity.
Defined.

(** ** What the code does not do *)

Definition loaded : option (unit * Monitor) := start insertion_sort sample_system true good_calls 5 true sample_dump true (monitor_new true).

(** Stopping keeps the table and the flag that it is valid: after a stop, and after a start whose dump
    fails, the default interface is still the one of the old table, and [ip] is not asked. *)
Lemma stale_default :
  (p ← loaded;
   let stopped := stop p.2 in
   q ← start insertion_sort sample_system true good_calls 5 true [None] true stopped;
   let ip : bytes -> option Pipe := fun _ => Some (MkPipe [str "default via 10.0.0.1 dev wlan0 proto dhcp"] 0) in
   Some (is_running stopped, get_default_interface sample_system sample_loc ip stopped,
         get_default_interface sample_system sample_loc ip q.2))
  = Some (false, str "eth0", str "eth0").
Proof. vm_compute. reflexivity. Qed.

(** The output of [ip] when it is asked. *)
Lemma ip_is_asked :
  get_default_interface sample_system sample_loc
    (fun cmd => if bool_decide (cmd = str "ip -o route show to default 2>&1")
                then Some (MkPipe [str "default via 10.0.0.1 "; str "dev wlan0 proto dhcp"] 0) else None) (monitor_new true) = str "wlan0".
Proof. vm_compute. reflexivity. Qed.

(** A datagram with an address change leaves the mark of a changed default: the next datagram, whatever
    it says, reports the disconnection a second time. *)
Lemma disconnected_twice :
  (p ← loaded;
   q ← handler_calls insertion_sort sample_loc
     (map (fun r => (sample_system, no_pipe, r))
       [Some addr_message; Some (encode_nlmsg (withdrawal (default_route 2 100)) ++ addr_message); Some (encode_nlmsg done_msg)]) p.2;
   Some (reports q.2)) = Some [(str "eth0", true); ([], false); ([], false)].
Proof. vm_compute. reflexivity. Qed.

(** Without an event the sockets stay open, the monitor does not run, and stopping does not close them. *)
Lemma start_without_event_leaks :
  (p ← start insertion_sort sample_system true good_calls 5 true sample_dump false (monitor_new true);
   let m := stop p.2 in Some (is_running m, m_monitor_sock_fd m, m_query_fd (m_routing_table m))) = Some (false, 4%Z, 5%Z).
Proof. vm_compute. reflexivity. Qed.
