(* ===== verification/AppleMonitor.v ===== *)
(** * The network monitor on Apple and Windows systems: [common/network_monitor.cpp]

    On Apple systems the Network framework calls a block with every new path; [start] waits for the first
    call.  The references the monitor takes are counted.  A failure ([None]) is the use of a null path,
    leaving a dispatch group that nobody is in, or waiting for ever.  What the owner is told, and the
    interface in use, are those of the [Monitor] of [NetworkMonitor.v]. *)

From S2P Require Import StringView Utils Cidr Netlink RoutingTable NetworkMonitor.

(** A path: whether its status is satisfied, and the names of its interfaces in order of preference. *)
Record Path := MkPath { satisfied : bool; interfaces : list bytes }.

Fixpoint first_interface (names : list bytes) : bytes :=
  match names with
  | [] => []
  | name :: names' => if negb (has_prefix (str "utun") name) && negb (has_prefix (str "ipsec") name) then name else first_interface names'
  end.

Definition get_interface_name (path : Path) : bytes := first_interface (interfaces path).

Record AppleMonitor := MkApple {
  base : Monitor;
  m_nw_path_monitor : bool;
  m_dispatch_queue : bool;
  m_current_path : option Path;
  m_first_update_done : bool;
  (** references to paths, to path monitors and to queues that were taken and not released; how often the
      group of the last start was entered and not left *)
  path_refs : nat;
  monitor_refs : nat;
  queue_refs : nat;
  group : nat
}.

Definition apple_new (has_handler : bool) : AppleMonitor := MkApple (monitor_new has_handler) false false None false 0 0 0 0.

Definition changed_handler_apple (m : AppleMonitor) : option AppleMonitor :=
  path ← m_current_path m;
  let is_satisfied := satisfied path in
  let new_if_name := get_interface_name path in
  let set b done := MkApple b (m_nw_path_monitor m) (m_dispatch_queue m) (m_current_path m) done
    (path_refs m) (monitor_refs m) (queue_refs m) (group m) in
  if m_first_update_done m then Some (set (handle_network_change new_if_name is_satisfied (base m)) true)
  else Some (set (set_if_name new_if_name (base m)) true).

(** The block that the framework calls. *)
Definition update_handler (path : Path) (m : AppleMonitor) : option AppleMonitor :=
  let refs := match m_current_path m with Some _ => pred (path_refs m) | None => path_refs m end in
  let m := MkApple (base m) (m_nw_path_monitor m) (m_dispatch_queue m) (Some path) (m_first_update_done m)
    (S refs) (monitor_refs m) (queue_refs m) (group m) in
  let old_first_update_done := m_first_update_done m in
  m ← changed_handler_apple m;
  if negb old_first_update_done && m_first_update_done m then
    match group m with
    | O => None
    | S n => Some (MkApple (base m) (m_nw_path_monitor m) (m_dispatch_queue m) (m_current_path m) (m_first_update_done m)
        (path_refs m) (monitor_refs m) (queue_refs m) n)
    end
  else Some m.

Definition is_running_apple (m : AppleMonitor) : bool := m_nw_path_monitor m.

(** [monitor] and [queue] tell whether the two objects can be made; [updates] are the calls of the block until
    [start] returns. *)
Definition start_apple (monitor queue : bool) (updates : list Path) (m : AppleMonitor) : option AppleMonitor :=
  if is_running_apple m then Some m
  else if negb monitor then Some m
  else if negb queue then Some m
  else
    let m := MkApple (base m) true true (m_current_path m) (m_first_update_done m) (path_refs m) (S (monitor_refs m)) (S (queue_refs m)) 1 in
    m ← foldl (fun om path => m ← om; update_handler path m) (Some m) updates;
    if (group m =? 0) then Some m else None.

Definition stop_apple (m : AppleMonitor) : AppleMonitor :=
  if negb (is_running_apple m) then m
  else MkApple (set_if_name [] (base m)) false false (m_current_path m) false (path_refs m) (monitor_refs m) (pred (queue_refs m)) (group m).

Definition get_default_interface_apple (monitor queue : bool) (updates : list Path) (m : AppleMonitor) : option (bytes * AppleMonitor) :=
  let needed_stop_monitor := negb (m_nw_path_monitor m) in
  m ← (if needed_stop_monitor then start_apple monitor queue updates m else Some m);
  path ← m_current_path m;
  let if_name := get_interface_name path in
  Some (if_name, if needed_stop_monitor then stop_apple m else m).

(** On Windows: [win_detect_active_if] and [if_indextoname], whose failure leaves the name empty. *)
Definition get_default_interface_windows (active_if : Z) (if_indextoname : Z -> option bytes) : bytes :=
  if (active_if =? 0)%Z then [] else default [] (if_indextoname active_if).

(** ** Facts *)

(** The first name that is not one of a tunnel. *)
Lemma first_interface_spec names :
  let tunnel n := has_prefix (str "utun") n || has_prefix (str "ipsec") n in
  (Forall (fun n => tunnel n = true) names /\ first_interface names = []) \/
  exists pre n post, names = pre ++ n :: post /\ Forall (fun n => tunnel n = true) pre /\ tunnel n = false /\ first_interface names = n.
Proof.
  intros tunnel. induction names as [|n names IH]; [by left|]. cbn [first_interface]. rewrite <- negb_orb. fold (tunnel n).
  destruct (tunnel n) eqn:E; cbn [negb].
  - destruct IH as [[Hall ->]|(pre & x & post & -> & Hpre & Hx & ->)]; [left; by split; [constructor|]|].
    right. exists (n :: pre), x, post. split; [done|]. split; [by constructor|done].
  - right. by exists [], n, names.
Qed.

(** While it runs the monitor keeps one reference to the current path and nobody waits. *)
Record running (m : AppleMonitor) (path : Path) : Prop := {
  run_monitor : m_nw_path_monitor m = true;
  run_path : m_current_path m = Some path;
  run_first : m_first_update_done m = true;
  run_refs : path_refs m = 1;
  run_group : group m = 0
}.

Lemma update_running m path0 path :
  running m path0 -> exists m', update_handler path m = Some m' /\ running m' path /\
    base m' = handle_network_change (get_interface_name path) (satisfied path) (base m).
Proof.
  intros [Hm Hp Hf Hr Hg]. unfold update_handler, changed_handler_apple. rewrite Hp. cbn. rewrite Hf, Hr. cbn.
  eexists. split; [reflexivity|]. split; [by split|done].
Qed.

Lemma updates_running paths m path0 :
  running m path0 ->
  exists m', foldl (fun om p => m ← om; update_handler p m) (Some m) paths = Some m' /\ running m' (default path0 (last paths)) /\
    base m' = fold_left (fun b p => handle_network_change (get_interface_name p) (satisfied p) b) paths (base m).
Proof.
  revert m path0. induction paths as [|p paths IH]; intros m path0 Hr; cbn [foldl fold_left]; [eauto|].
  destruct (update_running m path0 p Hr) as (m1 & E & Hr1 & Hb). cbn [mbind option_bind]. rewrite E, <- Hb.
  destruct (IH m1 p Hr1) as (m' & E' & Hr' & Hb'). exists m'. split; [done|]. split; [|done].
  rewrite last_cons. by destruct (last paths).
Qed.

(** What the owner should hear of a sequence of paths, [prev] being the interface it knows of. *)
Fixpoint expected (prev : bytes) (paths : list Path) : list (bytes * bool) :=
  match paths with
  | [] => []
  | p :: paths' =>
      if negb (satisfied p) then ([], false) :: expected [] paths'
      else
        let name := get_interface_name p in
        if bool_decide (name = prev) then expected prev paths' else (name, true) :: expected name paths'
  end.

Definition interface_after (prev : bytes) (paths : list Path) : bytes :=
  match last paths with None => prev | Some p => if satisfied p then get_interface_name p else [] end.

Lemma changes_reported paths b :
  m_cmd_handler b = true ->
  let b' := fold_left (fun b p => handle_network_change (get_interface_name p) (satisfied p) b) paths b in
  reports b' = reports b ++ expected (m_if_name b) paths /\ m_if_name b' = interface_after (m_if_name b) paths.
Proof.
  unfold interface_after. revert b. induction paths as [|p paths IH]; intros b Hc; cbn [fold_left expected]; [by rewrite app_nil_r|].
  rewrite last_cons. unfold handle_network_change at 2 4. destruct (satisfied p) eqn:Es; cbn [negb].
  - destruct (bool_decide_reflect (m_if_name b = get_interface_name p)) as [E|E]; cbn [negb].
    + rewrite bool_decide_eq_true_2 by done. destruct (IH b Hc) as [-> ->]. split; [done|].
      destruct (last paths); [done|]. by rewrite Es.
    + rewrite bool_decide_eq_false_2 by done. set (b1 := set_if_name _ _). destruct (IH b1 Hc) as [-> ->].
      unfold b1. cbn [set_if_name report reports m_if_name]. rewrite Hc, <- app_assoc. split; [done|].
      destruct (last paths); [done|]. by rewrite Es.
  - set (b1 := set_if_name _ _). destruct (IH b1 Hc) as [-> ->].
    unfold b1. cbn [set_if_name report reports m_if_name]. rewrite Hc, <- app_assoc. split; [done|].
    destruct (last paths); [done|]. by rewrite Es.
Qed.

(** A monitor that does not run: it keeps the last path it had, if it had one. *)
Record idle (m : AppleMonitor) : Prop := {
  idle_monitor : m_nw_path_monitor m = false;
  idle_first : m_first_update_done m = false;
  idle_refs : path_refs m = match m_current_path m with Some _ => 1 | None => 0 end;
  idle_handler : m_cmd_handler (base m) = true
}.

Lemma start_running first rest m :
  idle m ->
  exists m', start_apple true true (first :: rest) m = Some m' /\ running m' (default first (last rest)) /\
    base m' = fold_left (fun b p => handle_network_change (get_interface_name p) (satisfied p) b) rest
      (set_if_name (get_interface_name first) (base m)).
Proof.
  intros [Hm Hf Hr Hc]. unfold start_apple, is_running_apple. rewrite Hm. cbn [negb]. cbv zeta. cbn [foldl mbind option_bind].
  assert (exists m1, update_handler first (MkApple (base m) true true (m_current_path m) (m_first_update_done m)
    (path_refs m) (S (monitor_refs m)) (S (queue_refs m)) 1) = Some m1 /\ running m1 first /\
    base m1 = set_if_name (get_interface_name first) (base m)) as (m1 & -> & Hr1 & Hb1).
  { unfold update_handler, changed_handler_apple. rewrite Hf, Hr. destruct (m_current_path m); cbn; (eexists; split; [reflexivity|]; by split). }
  destruct (updates_running rest m1 first Hr1) as (m' & -> & Hr' & Hb'). cbn [mbind option_bind]. rewrite (run_group _ _ Hr'). cbn.
  exists m'. by rewrite Hb', Hb1.
Qed.

(** From a start to the stop after it: the path the start waits for, those that come before it returns and those that come later;
    or a start for which the monitor or the queue could not be made. *)
Inductive Run := Watched (first : Path) (during later : list Path) | NotStarted (monitor : bool).

Definition open_run (r : Run) (m : AppleMonitor) : option AppleMonitor :=
  match r with
  | Watched first during later =>
      m ← start_apple true true (first :: during) m; foldl (fun om p => m ← om; update_handler p m) (Some m) later
  | NotStarted monitor => start_apple monitor false [] m
  end.

Definition whole_run (m : AppleMonitor) (r : Run) : option AppleMonitor := stop_apple <$> open_run r m.

(** What the owner hears in a run. *)
Definition heard (r : Run) : list (bytes * bool) :=
  match r with Watched first during later => expected (get_interface_name first) (during ++ later) | NotStarted _ => [] end.

Lemma fold_changes_handler paths b :
  m_cmd_handler (fold_left (fun b p => handle_network_change (get_interface_name p) (satisfied p) b) paths b) = m_cmd_handler b.
Proof. revert b. induction paths as [|p paths IH]; intros b; [done|]. cbn. rewrite IH. unfold handle_network_change. by repeat case_match. Qed.

Lemma open_watched first during later m :
  idle m ->
  exists m', open_run (Watched first during later) m = Some m' /\ running m' (default first (last (during ++ later))) /\
    reports (base m') = reports (base m) ++ heard (Watched first during later) /\
    m_if_name (base m') = interface_after (get_interface_name first) (during ++ later) /\ m_cmd_handler (base m') = true.
Proof.
  intros Hm. destruct (start_running first during m Hm) as (m1 & E1 & R1 & B1).
  destruct (updates_running later m1 _ R1) as (m' & E' & R' & B'). exists m'. cbn [open_run]. rewrite E1. cbn [mbind option_bind].
  split; [done|]. rewrite B1, <- fold_left_app in B'. set (b0 := set_if_name _ (base m)) in *.
  assert (m_cmd_handler b0 = true) as Hc by apply Hm. split; [|split; [|split]].
  - rewrite last_app. destruct (last later); [done|]. by destruct (last during).
  - rewrite B'. apply (changes_reported (during ++ later) b0 Hc).
  - rewrite B'. apply (changes_reported (during ++ later) b0 Hc).
  - by rewrite B', fold_changes_handler.
Qed.

Lemma stop_idle m path : running m path -> m_cmd_handler (base m) = true -> idle (stop_apple m) /\ m_if_name (base (stop_apple m)) = [].
Proof. intros [Hm Hp Hf Hr Hg] Hc. unfold stop_apple, is_running_apple. rewrite Hm. cbn. split; [|done]. split; cbn; [done..| |done]. by rewrite Hp. Qed.

Lemma whole_run_idle m r : idle m -> exists m', whole_run m r = Some m' /\ idle m' /\ reports (base m') = reports (base m) ++ heard r.
Proof.
  intros Hm. unfold whole_run. destruct r as [first during later|monitor].
  - destruct (open_watched first during later m Hm) as (m' & -> & R & Hr & _ & Hc). exists (stop_apple m'). split; [done|].
    split; [by eapply stop_idle|]. rewrite <- Hr. unfold stop_apple. by destruct (is_running_apple m').
  - exists m. unfold open_run, start_apple, stop_apple, is_running_apple. rewrite (idle_monitor m Hm). cbn. rewrite app_nil_r.
    destruct monitor; cbn; by rewrite (idle_monitor m Hm).
Qed.

Lemma whole_runs_idle rs m :
  idle m -> exists m', foldl (fun om r => m ← om; whole_run m r) (Some m) rs = Some m' /\ idle m' /\
    reports (base m') = reports (base m) ++ List.concat (map heard rs).
Proof.
  revert m. induction rs as [|r rs IH]; intros m Hm; [exists m; by rewrite app_nil_r|]. cbn [foldl mbind option_bind].
  destruct (whole_run_idle m r Hm) as (m1 & -> & H1 & R1). destruct (IH m1 H1) as (m' & E & H' & R'). exists m'. split; [done|]. split; [done|].
  cbn [map List.concat]. by rewrite R', R1, app_assoc.
Qed.



(** ** Surprises *)

(** The state of the first path is not looked at: a start without a network is not reported. *)
Lemma first_path_unreported :
  exists m', start_apple true true [MkPath false []] (apple_new true) = Some m' /\ reports (base m') = [].
Proof. eexists. split; [reflexivity|]. vm_compute. reflexivity. Qed.

(** Neither the path monitor nor the last path is ever released. *)
Lemma stop_leaks first paths m m' :
  idle m -> start_apple true true (first :: paths) m = Some m' ->
  path_refs (stop_apple m') = 1 /\ monitor_refs (stop_apple m') = monitor_refs m'.
Proof.
  intros Hfresh E. destruct (start_running first paths m Hfresh) as (m1 & E1 & [Hm _ _ Hr _] & _). simplify_eq.
  unfold stop_apple, is_running_apple. rewrite Hm. done.
Qed.

(** A call of the block that comes after [stop], which the theorem excludes, leaves the group a second time. *)
Lemma late_update_crashes first path :
  (m ← start_apple true true [first] (apple_new true); update_handler path (stop_apple m)) = None.
Proof. done. Qed.

(** Without a path monitor or a queue there is no path to ask for its name. *)
Lemma default_interface_null_path queue updates : get_default_interface_apple false queue updates (apple_new true) = None.
Proof. done. Qed.
