(* ===== verification/RouteResolver.v ===== *)
(** * The route resolver of Apple platforms: [common/route_resolver.cpp]

    The system's routing table is read as bytes, its messages are parsed into routes, which are sorted
    with the most specific first, and the first route that matches an address gives the interface.  The
    table of each family is cached, but not in the first seconds of the resolver.  A failure ([None]) is
    a read or a write behind the data, or a walk that does not end.  What the system answers is an
    argument; of the address the resolver uses whether it is one of IPv4 and its bytes without the
    prefix of a mapped address ([is_ipv4] and [addr_unmapped]). *)

From stdpp Require Import sorting.
From S2P Require Import StringView Utils Error Cidr Netlink RoutingTable RoutingTableFacts.

Definition RTF_UP : Z := 0x1.
Definition RTF_STATIC : Z := 0x800.
Definition RTF_WASCLONED : Z := 0x20000.
Definition RTF_IFSCOPE : Z := 0x1000000.
Definition RTAX_DST : nat := 0.
Definition RTAX_NETMASK : nat := 2.
Definition RTAX_MAX : nat := 8.

(** [AF_INET6] of the platform. *)
Definition APPLE_AF_INET6 : Z := 30.

(** The size of [rt_msghdr2] and the offsets of its fields and of those of the addresses behind it. *)
Definition SIZEOF_RT_MSGHDR2 : nat := 92.
Definition RTM_INDEX_OFFSET : nat := 4.
Definition RTM_FLAGS_OFFSET : nat := 8.
Definition RTM_ADDRS_OFFSET : nat := 12.
Definition SIN_ADDR_OFFSET : nat := 4.
Definition SIN6_ADDR_OFFSET : nat := 8.

Definition ROUNDUP (a : Z) : Z := if (0 <? a)%Z then (1 + Z.lor (a - 1) 3)%Z else 4%Z.

(** ** Reading the table *)

Inductive RouteResolverError := AE_SYSCTL_ERROR | AE_NOMEM.

#[export] Instance resolver_error_string : ErrorCodeToString RouteResolverError := fun e =>
  match e with
  | AE_SYSCTL_ERROR => str "sysctl() error"
  | AE_NOMEM => str "Failed to allocate enough memory"
  end.

(** What the two calls of [sysctl] of one try answer: whether the size could be estimated; the data, no
    memory, or another error. *)
Inductive Dumped := DumpData (rt : bytes) | DumpNoMemory | DumpFailed.
Record Try := MkTry { estimate_ok : bool; dumped_ : Dumped }.

Definition MAX_TRIES : nat := 10.

Fixpoint dump_tries (n : nat) (tries : nat -> Try) (n_try : nat) : RouteResolverError + bytes :=
  match n with
  | O => inl AE_NOMEM
  | S n' =>
      if negb (estimate_ok (tries n_try)) then inl AE_SYSCTL_ERROR
      else
        match dumped_ (tries n_try) with
        | DumpData rt => inr rt
        | DumpNoMemory => dump_tries n' tries (S n_try)
        | DumpFailed => inl AE_SYSCTL_ERROR
        end
  end.

Definition dump_routing_table (tries : nat -> Try) : RouteResolverError + bytes := dump_tries MAX_TRIES tries 0.

(** ** Routes *)

Record IpRoute := MkIpRoute { address : bytes; netmask : bytes; route_if_index : Z }.

(** The loop stops where the mask has a zero byte. *)
Fixpoint matches_loop (dest mask addr : bytes) : bool :=
  match dest, mask, addr with
  | d :: dest', m :: mask', a :: addr' =>
      if (m =? 0)%Z then true else if negb (Z.land d m =? a)%Z then false else matches_loop dest' mask' addr'
  | _, _, _ => true
  end.

Definition matches (r : IpRoute) (dest : bytes) : bool := matches_loop dest (netmask r) (address r).

(** [operator<]: the lexicographically larger mask is the more specific one. *)
Definition ip_route_ltb (this o : IpRoute) : bool := bool_decide (address_compare (netmask o) (netmask this) = Some true).

Definition read_bytes (n off : nat) (mem : bytes) : option bytes :=
  if length mem <? off + n then None else Some (take n (drop off mem)).

Definition read_num (n off : nat) (mem : bytes) : option Z := le_num <$> read_bytes n off mem.

(** Where each of the addresses behind the header lies, in the order of the bits of [rtm_addrs]. *)
Fixpoint walk_addrs (n i : nat) (addrs : Z) (off : nat) (mem : bytes) : option (list (option nat)) :=
  match n with
  | O => Some []
  | S n' =>
      if Z.testbit addrs (Z.of_nat i) then
        sa_len ← mem !! off;
        (fun l => Some off :: l) <$> walk_addrs n' (S i) addrs (off + Z.to_nat (ROUNDUP sa_len)) mem
      else (fun l => None :: l) <$> walk_addrs n' (S i) addrs off mem
  end.

(** The address and the mask of a family whose address has [size] bytes and lies at [addr_off]. *)
Definition family_route (size addr_off : nat) (dst : nat) (mask : option nat) (index : Z) (mem : bytes) : option IpRoute :=
  addr ← read_bytes size (dst + addr_off) mem;
  let address := addr ++ replicate (16 - size) 0%Z in
  match mask with
  | None => Some (MkIpRoute address (replicate size 0xff%Z ++ replicate (16 - size) 0%Z) index)
  | Some m =>
      sa_len ← mem !! m;
      let n := Z.to_nat sa_len - addr_off in
      if (sa_len <=? Z.of_nat addr_off)%Z then Some (MkIpRoute address (replicate 16 0%Z) index)
      else if 16 <? n then None
      else bits ← read_bytes n (m + addr_off) mem; Some (MkIpRoute address (bits ++ replicate (16 - n) 0%Z) index)
  end.

(** One message, [mem] being the data from its header on; nothing for a route of no interest. *)
Definition parse_message (family : Z) (mem : bytes) : option (option IpRoute) :=
  flags ← read_num 4 RTM_FLAGS_OFFSET mem;
  if (Z.land flags RTF_UP =? 0)%Z || (Z.land flags RTF_STATIC =? 0)%Z || negb (Z.land flags RTF_WASCLONED =? 0)%Z
     || negb (Z.land flags RTF_IFSCOPE =? 0)%Z then Some None
  else
    sa_family ← mem !! (SIZEOF_RT_MSGHDR2 + 1);
    if negb (sa_family =? family)%Z then Some None
    else
      addrs ← read_num 4 RTM_ADDRS_OFFSET mem;
      rta ← walk_addrs RTAX_MAX 0 addrs SIZEOF_RT_MSGHDR2 mem;
      match mjoin (rta !! RTAX_DST) with
      | None => Some None
      | Some dst =>
          index ← read_num 2 RTM_INDEX_OFFSET mem;
          dst_family ← mem !! (dst + 1);
          let mask := mjoin (rta !! RTAX_NETMASK) in
          if (dst_family =? AF_INET)%Z then Some <$> family_route 4 SIN_ADDR_OFFSET dst mask index mem
          else if (dst_family =? APPLE_AF_INET6)%Z then Some <$> family_route 16 SIN6_ADDR_OFFSET dst mask index mem
          else None
      end.

(** The walk over the messages; a message of no length would be looked at for ever. *)
Fixpoint parse_messages (fuel : nat) (family : Z) (mem : bytes) : option (list IpRoute) :=
  match mem with
  | [] => Some []
  | _ =>
      match fuel with
      | O => None
      | S f =>
          msglen ← read_num 2 0 mem;
          r ← parse_message family mem;
          (fun l => option_list r ++ l) <$> parse_messages f family (drop (Z.to_nat msglen) mem)
      end
  end.

(** ** The resolver *)

Record Resolver := MkResolver { ipv4_cache : list IpRoute; ipv6_cache : list IpRoute; created_at : Z }.

Definition NO_CACHE_SECONDS : Z := 10.

Definition resolver_new (now : Z) : Resolver := MkResolver [] [] now.

Definition flush_cache (r : Resolver) : Resolver := MkResolver [] [] (created_at r).

Section Resolve.

(** [std::sort]. *)
Context (sort : list IpRoute -> list IpRoute).

Definition read_routing_table (tries : nat -> Try) (family : Z) : option (list IpRoute) :=
  match dump_routing_table tries with
  | inl _ => Some []
  | inr rt => sort <$> parse_messages (length rt) family rt
  end.

Definition lookup_route (table : list IpRoute) (dest : bytes) : option Z :=
  route_if_index <$> List.find (fun r => matches r dest) table.

(** [now] in nanoseconds; [ipv4] and [dest] are those of the address. *)
Definition resolve (tries : nat -> Try) (now : Z) (ipv4 : bool) (dest : bytes) (r : Resolver) : option (option Z * Resolver) :=
  let family := if ipv4 then AF_INET else APPLE_AF_INET6 in
  if (now - created_at r <? NO_CACHE_SECONDS * 1000000000)%Z then
    (fun table => (lookup_route table dest, r)) <$> read_routing_table tries family
  else
    let cache := if ipv4 then ipv4_cache r else ipv6_cache r in
    table ← (if bool_decide (cache = []) then read_routing_table tries family else Some cache);
    Some (lookup_route table dest,
          if ipv4 then MkResolver table (ipv6_cache r) (created_at r) else MkResolver (ipv4_cache r) table (created_at r)).
End Resolve.

(** ** Routes as ranges *)

(** The route is one of the range [c], whose family has addresses of [n] bytes. *)
Record represents (n : nat) (r : IpRoute) (c : CidrRange) : Prop := {
  rep_wf : wf c;
  rep_size : length (m_address c) = n;
  rep_bound : n <= 16;
  rep_address : address r = m_address c ++ replicate (16 - n) 0%Z;
  rep_netmask : netmask r = m_mask c ++ replicate (16 - n) 0%Z
}.

Lemma drop_ones_mask p n k : drop k (ones_mask p n) = ones_mask (p - k) (n - k).
Proof.
  unfold ones_mask. destruct (Nat.le_gt_cases k p).
  - rewrite drop_app_le, drop_replicate by (rewrite length_replicate; lia). do 2 f_equal. lia.
  - rewrite drop_app_ge, drop_replicate, length_replicate by (rewrite length_replicate; lia).
    replace (p - k) with 0 by lia. cbn. f_equal. lia.
Qed.

(** A mask that starts with a zero byte is zero. *)
Lemma mask_zero_tail mask p :
  is_bytes mask -> bits (0%Z :: mask) = ones_mask p (8 * S (length mask)) -> mask = replicate (length mask) 0%Z.
Proof.
  intros Hb E. assert (p = 0) as ->.
  { destruct p as [|p]; [done|]. unfold ones_mask in E. by apply (f_equal head) in E. }
  apply bits_inj; [done|apply Forall_replicate; by split|by rewrite length_replicate|].
  apply (f_equal (drop 8)) in E. rewrite drop_ones_mask in E. cbn [bits flat_map] in E. rewrite drop_app_length' in E by done.
  fold (bits mask) in E. rewrite E, bits_zeros. unfold ones_mask. cbn [Nat.sub replicate app]. f_equal. lia.
Qed.

Lemma land_zeros (l : bytes) : zip_with Z.land l (replicate (length l) 0%Z) = replicate (length l) 0%Z.
Proof. induction l as [|x l IH]; [done|]. cbn. by rewrite Z.land_0_r, IH. Qed.

Lemma matches_loop_spec dest mask addr p :
  is_bytes mask -> bits mask = ones_mask p (8 * length mask) -> length dest = length mask -> length addr = length mask ->
  zip_with Z.land addr mask = addr ->
  matches_loop dest mask addr = true <-> zip_with Z.land dest mask = addr.
Proof.
  intros Hb. revert dest addr p. induction Hb as [|m mask Hm Hmask IH]; intros dest addr p E Hd Ha Hz.
  { by destruct dest, addr. }
  destruct dest as [|d dest], addr as [|a addr]; try done. cbn in Hd, Ha. injection Hd as Hd. injection Ha as Ha.
  cbn [zip_with matches_loop] in *. injection Hz as Hz1 Hz2. destruct (Z.eqb_spec m 0) as [->|Hne].
  - cbn [length] in E. pose proof (mask_zero_tail mask p Hmask E) as Em. split; [|done]. intros _.
    rewrite Z.land_0_r in *. f_equal; [done|]. rewrite Em in Hz2 |- *. rewrite <- Ha in Hz2 at 1. rewrite land_zeros in Hz2.
    rewrite <- Hd, land_zeros, Hd, <- Ha. exact Hz2.
  - assert (bits mask = ones_mask (p - 8) (8 * length mask)) as E'.
    { apply (f_equal (drop 8)) in E. rewrite drop_ones_mask in E. cbn [bits flat_map] in E. rewrite drop_app_length' in E by done.
      fold (bits mask) in E. rewrite E. f_equal. cbn [length]. lia. }
    destruct (Z.eqb_spec (Z.land d m) a) as [Ea|Ea]; cbn [negb].
    + rewrite (IH dest addr (p - 8)) by done. split; [by intros ->; rewrite Ea|by intros [= _ ?]].
    + split; [done|]. by intros [= ? _].
Qed.

Lemma matches_loop_app dest mask addr u v :
  length mask = length dest -> length addr = length dest -> matches_loop dest (mask ++ u) (addr ++ v) = matches_loop dest mask addr.
Proof.
  revert mask addr. induction dest as [|d dest IH]; intros [|m mask] [|a addr] Hm Ha; try done. cbn in *.
  rewrite IH by lia. done.
Qed.

(** The loop is membership in the range. *)
Lemma matches_contains n r c dest : represents n r c -> length dest = n -> matches r dest = contains_address c dest.
Proof.
  intros [Hw Hs Hn Ea Em] Hd. unfold matches, contains_address. rewrite Ea, Em, Hd, Hs, Nat.eqb_refl. cbn [negb].
  destruct Hw as [Hb Hmb Hml Hp Hmask Hz]. rewrite matches_loop_app by lia. apply eq_true_iff_eq.
  rewrite (matches_loop_spec dest (m_mask c) (m_address c) (m_prefix_len c)) by (done || lia || (by rewrite Hml)).
  rewrite contains_address_loop_spec by lia. rewrite Hz. split; congruence.
Qed.

Lemma bits_val_ones p : bits_val (replicate p true) = (2 ^ Z.of_nat p - 1)%Z.
Proof.
  induction p as [|p IH]; [done|]. cbn [replicate bits_val]. rewrite IH, length_replicate, Nat2Z.inj_succ, Z.pow_succ_r by lia. cbn. lia.
Qed.

Lemma bits_val_mask p n : p <= n -> bits_val (ones_mask p n) = (2 ^ Z.of_nat n - 2 ^ Z.of_nat (n - p))%Z.
Proof.
  intros Hp. unfold ones_mask. rewrite bits_val_app, bits_val_ones, bits_val_zeros, length_replicate.
  replace (Z.of_nat n) with (Z.of_nat p + Z.of_nat (n - p))%Z by lia. rewrite Z.pow_add_r by lia. lia.
Qed.

Lemma netmask_bits n r c :
  represents n r c -> is_bytes (netmask r) /\ length (netmask r) = 16 /\ bits (netmask r) = ones_mask (m_prefix_len c) 128 /\ m_prefix_len c <= 128.
Proof.
  intros [Hw Hs Hn _ Em]. pose proof (wf_prefix c Hw) as Hp. pose proof (wf_mask_length c Hw) as Hl.
  rewrite Em. split; [apply Forall_app; split; [apply Hw|apply Forall_replicate; by split]|].
  split; [rewrite length_app, length_replicate; lia|]. split; [|lia].
  unfold bits. rewrite flat_map_app. fold (bits (m_mask c)) (bits (replicate (16 - n) 0%Z)). rewrite (wf_mask c Hw), bits_zeros, Hs.
  unfold ones_mask. rewrite <- app_assoc. f_equal. rewrite <- replicate_add. f_equal. lia.
Qed.

(** The more specific route is the one with the longer prefix. *)
Lemma ip_route_ltb_spec n r1 r2 c1 c2 :
  represents n r1 c1 -> represents n r2 c2 -> ip_route_ltb r1 r2 = (m_prefix_len c2 <? m_prefix_len c1).
Proof.
  intros (B1 & L1 & E1 & P1)%netmask_bits (B2 & L2 & E2 & P2)%netmask_bits. unfold ip_route_ltb.
  pose proof (address_compare_val (netmask r2) (netmask r1) B2 B1 ltac:(congruence)) as H. rewrite E1, E2, !bits_val_mask in H by done.
  apply eq_true_iff_eq. rewrite bool_decide_eq_true, Nat.ltb_lt.
  assert (m_prefix_len c2 < m_prefix_len c1 <-> (2 ^ Z.of_nat (128 - m_prefix_len c1) < 2 ^ Z.of_nat (128 - m_prefix_len c2))%Z) as ->.
  { rewrite <- Z.pow_lt_mono_r_iff by lia. lia. }
  destruct (address_compare (netmask r2) (netmask r1)) as [b|] eqn:Ec.
  - destruct H as [-> _]. split; [intros [= H%Z.ltb_lt]; lia|]. intros H. f_equal. apply Z.ltb_lt. lia.
  - split; [done|]. intros H'. exfalso. assert (bits_val (bits (netmask r2)) = bits_val (bits (netmask r1))) as E by (by rewrite H).
    rewrite E1, E2, !bits_val_mask in E by done. lia.
Qed.

(** ** The longest prefix *)

(** The interface [o] of the most specific range that contains the address, or there is none. *)
Definition longest (cs : list (CidrRange * Z)) (dest : bytes) (o : option Z) : Prop :=
  match o with
  | Some i => exists c, (c, i) ∈ cs /\ contains_address c dest = true /\
      forall c' i', (c', i') ∈ cs -> contains_address c' dest = true -> m_prefix_len c' <= m_prefix_len c
  | None => forall c i, (c, i) ∈ cs -> contains_address c dest = false
  end.

Definition table_of (n : nat) (table : list IpRoute) (cs : list (CidrRange * Z)) : Prop :=
  (forall r, r ∈ table -> exists c, represents n r c /\ (c, route_if_index r) ∈ cs) /\
  (forall c i, (c, i) ∈ cs -> exists r, r ∈ table /\ represents n r c /\ route_if_index r = i).

Definition ip_route_le (a b : IpRoute) : Prop := ip_route_ltb b a = false.

Lemma lookup_longest n table cs dest :
  table_of n table cs -> StronglySorted ip_route_le table -> length dest = n -> longest cs dest (lookup_route table dest).
Proof.
  intros [H1 H2] Hs Hd. unfold lookup_route. destruct (List.find _ table) as [r|] eqn:Ef; cbn.
  - apply find_split in Ef as (l1 & l2 & -> & Hr & Hl1). destruct (H1 r) as (c & Rc & Hc); [set_solver|]. exists c. split; [done|].
    split; [by rewrite <- (matches_contains n r c dest)|]. intros c' i' Hc' Hin. destruct (H2 c' i' Hc') as (r' & Hr' & Rc' & _).
    rewrite <- (matches_contains n r' c' dest) in Hin by done. apply elem_of_app in Hr' as [Hr'|Hr'].
    { rewrite Forall_forall in Hl1. specialize (Hl1 r' Hr'). cbn in Hl1. congruence. }
    apply elem_of_cons in Hr' as [->|Hr'].
    { destruct (netmask_bits n r c Rc) as (_ & _ & E & P1). destruct (netmask_bits n r c' Rc') as (_ & _ & E' & P2).
      destruct (Nat.le_gt_cases (m_prefix_len c') (m_prefix_len c)) as [|Hlt]; [done|]. exfalso.
      pose proof (ip_route_ltb_spec n r r c' c Rc' Rc) as E1. rewrite (ip_route_ltb_spec n r r c c Rc Rc) in E1.
      rewrite Nat.ltb_irrefl in E1. symmetry in E1. apply Nat.ltb_ge in E1. lia. }
    apply StronglySorted_app_1_r in Hs. inversion Hs as [|? ? _ Hf]; subst. rewrite Forall_forall in Hf. specialize (Hf r' Hr').
    unfold ip_route_le in Hf. rewrite (ip_route_ltb_spec (length dest) r' r c' c Rc' Rc) in Hf. by apply Nat.ltb_ge in Hf.
  - intros c i Hc. destruct (H2 c i Hc) as (r & Hr & Rc & _). rewrite <- (matches_contains n r c dest) by done.
    apply (find_none _ _ Ef). by apply list_elem_of_In.
Qed.

Lemma table_of_perm n t t' cs : t ≡ₚ t' -> table_of n t cs -> table_of n t' cs.
Proof. intros Hp [H1 H2]. split; [intros r Hr; apply H1; by rewrite Hp|]. intros c i Hc. setoid_rewrite <- Hp. by apply H2. Qed.

(** ** The table as the kernel writes it *)

(** A socket address behind a header, with its length in front; an empty one takes four bytes, the others a multiple of four. *)
Definition encode_sa (s : bytes) : bytes := match s with [] => replicate 4 0%Z | _ => pad4 s end.

Definition sa_ok (s : bytes) : Prop := s = [] \/ (head s = Some (Z.of_nat (length s)) /\ length s < 256).

Definition encode_slots (slots : list (option bytes)) : bytes :=
  List.concat (map (fun o => match o with Some s => encode_sa s | None => [] end) slots).

(** The bits of the addresses that are there. *)
Fixpoint slot_bits (slots : list (option bytes)) : Z :=
  match slots with
  | [] => 0%Z
  | o :: slots' => (Z.b2z (bool_decide (is_Some o)) + 2 * slot_bits slots')%Z
  end.

(** A route of the system: its flags and interface, the network, whether it is written without a mask, as routes to a host are, and where
    a mask is cut, behind its last byte that is not zero; then what the resolver does not look at: a gateway and the other addresses, and the bytes between. *)
Record SystemRoute := MkSystemRoute {
  sy_flags : Z;
  sy_index : Z;
  sy_v4 : bool;
  sy_range : CidrRange;
  sy_host : bool;
  sy_cut : nat;
  sy_gateway : option bytes;
  sy_others : list (option bytes);
  sy_version_type : bytes;
  sy_pad : bytes;
  sy_metrics : bytes;
  sy_dst_fill : bytes;
  sy_dst_tail : bytes;
  sy_mask_fill : bytes
}.

Definition sy_family (m : SystemRoute) : Z := if sy_v4 m then AF_INET else APPLE_AF_INET6.
Definition sy_size (m : SystemRoute) : nat := if sy_v4 m then 4 else 16.
Definition sy_off (m : SystemRoute) : nat := if sy_v4 m then SIN_ADDR_OFFSET else SIN6_ADDR_OFFSET.

Definition dst_sa (m : SystemRoute) : bytes :=
  [Z.of_nat (sy_off m + sy_size m + length (sy_dst_tail m)); sy_family m] ++ sy_dst_fill m ++ m_address (sy_range m) ++ sy_dst_tail m.

Definition mask_sa (m : SystemRoute) : option bytes :=
  if sy_host m then None
  else Some (if sy_cut m =? 0 then sy_mask_fill m
             else [Z.of_nat (sy_off m + sy_cut m)] ++ sy_mask_fill m ++ take (sy_cut m) (m_mask (sy_range m))).

Definition sy_slots (m : SystemRoute) : list (option bytes) := Some (dst_sa m) :: sy_gateway m :: mask_sa m :: sy_others m.

Definition sy_header (m : SystemRoute) : bytes :=
  le_bytes 2 (Z.of_nat (SIZEOF_RT_MSGHDR2 + length (encode_slots (sy_slots m)))) ++ sy_version_type m ++ le_bytes 2 (sy_index m) ++ sy_pad m ++
  le_bytes 4 (sy_flags m) ++ le_bytes 4 (slot_bits (sy_slots m)) ++ sy_metrics m.

Definition encode_route (m : SystemRoute) : bytes := sy_header m ++ encode_slots (sy_slots m).

Definition encode_table (l : list SystemRoute) : bytes := List.concat (map encode_route l).

Record system_route_ok (m : SystemRoute) : Prop := {
  sy_ok_flags : (0 <= sy_flags m < 2 ^ 32)%Z;
  sy_ok_index : (0 <= sy_index m < 2 ^ 16)%Z;
  sy_ok_range : wf (sy_range m) /\ length (m_address (sy_range m)) = sy_size m;
  sy_ok_host : sy_host m = true -> m_prefix_len (sy_range m) = 8 * sy_size m;
  sy_ok_cut : sy_cut m <= sy_size m /\ drop (sy_cut m) (m_mask (sy_range m)) = replicate (sy_size m - sy_cut m) 0%Z;
  sy_ok_mask : if sy_cut m =? 0 then sa_ok (sy_mask_fill m) /\ length (sy_mask_fill m) <= sy_off m else length (sy_mask_fill m) = sy_off m - 1;
  sy_ok_dst : length (sy_dst_fill m) = sy_off m - 2 /\ length (sy_dst_tail m) < 200;
  sy_ok_gateway : from_option sa_ok True (sy_gateway m);
  sy_ok_others : length (sy_others m) = 5 /\ Forall (from_option sa_ok True) (sy_others m);
  sy_ok_header : length (sy_version_type m) = 2 /\ length (sy_pad m) = 2 /\ length (sy_metrics m) = 76
}.

(** The routes a look-up goes by: those of the family that are up, set by hand, not cloned and not bound to an interface. *)
Definition sy_entry (ipv4 : bool) (m : SystemRoute) : option (CidrRange * Z) :=
  if eqb (sy_v4 m) ipv4 && Z.testbit (sy_flags m) 0 && Z.testbit (sy_flags m) 11 && negb (Z.testbit (sy_flags m) 17) && negb (Z.testbit (sy_flags m) 24)
  then Some (sy_range m, sy_index m) else None.

Lemma roundup_align n : n < 256 -> Z.to_nat (ROUNDUP (Z.of_nat n)) = if n =? 0 then 4 else align4 n.
Proof.
  intros Hn. assert (forallb (fun n => Z.to_nat (ROUNDUP (Z.of_nat n)) =? (if n =? 0 then 4 else align4 n)) (seq 0 256) = true) as H by by vm_compute.
  rewrite forallb_forall in H. apply Nat.eqb_eq, H. apply in_seq. lia.
Qed.

Lemma encode_sa_head s rest :
  sa_ok s -> exists x, (encode_sa s ++ rest) !! 0 = Some x /\ Z.to_nat (ROUNDUP x) = length (encode_sa s).
Proof.
  intros [->|[Hh Hl]]; [by exists 0%Z|]. destruct s as [|x s]; [done|]. injection Hh as Hx. exists x.
  split; [done|]. cbn [encode_sa]. rewrite pad4_length, Hx. by apply roundup_align.
Qed.

(** The places of the addresses. *)
Fixpoint places (off : nat) (slots : list (option bytes)) : list (option nat) :=
  match slots with
  | [] => []
  | None :: slots' => None :: places off slots'
  | Some s :: slots' => Some off :: places (off + length (encode_sa s)) slots'
  end.

Lemma slot_bits_testbit slots j : Z.testbit (slot_bits slots) (Z.of_nat j) = bool_decide (is_Some (mjoin (slots !! j))).
Proof.
  revert j. induction slots as [|o slots IH]; intros j; [by rewrite Z.testbit_0_l|]. cbn [slot_bits].
  rewrite Z.add_comm. destruct j as [|j]; [by rewrite Z.testbit_0_r|]. rewrite Nat2Z.inj_succ, Z.testbit_succ_r by lia. by rewrite IH.
Qed.

Lemma slot_bits_range slots : (0 <= slot_bits slots < 2 ^ Z.of_nat (length slots))%Z.
Proof.
  induction slots as [|o slots IH]; [cbn; lia|]. cbn [slot_bits length].
  rewrite Nat2Z.inj_succ, Z.pow_succ_r by lia.
  destruct (bool_decide (is_Some o)); cbn; lia.
Qed.

Lemma walk_slots slots i addrs pre rest :
  (forall j, j < length slots -> Z.testbit addrs (Z.of_nat (i + j)) = bool_decide (is_Some (mjoin (slots !! j)))) ->
  Forall (from_option sa_ok True) slots ->
  walk_addrs (length slots) i addrs (length pre) (pre ++ encode_slots slots ++ rest) = Some (places (length pre) slots).
Proof.
  intros Hb Hs. revert i pre Hb. induction Hs as [|o slots Ho _ IH]; intros i pre Hb; [done|]. cbn [length walk_addrs].
  pose proof (Hb 0 ltac:(cbn; lia)) as H0. rewrite Nat.add_0_r in H0. rewrite H0. cbn [lookup list_lookup mjoin option_join].
  assert (forall j, j < length slots -> Z.testbit addrs (Z.of_nat (S i + j)) = bool_decide (is_Some (mjoin (slots !! j)))) as Hb'.
  { intros j Hj. specialize (Hb (S j) ltac:(cbn; lia)). by rewrite Nat.add_succ_r in Hb. }
  unfold encode_slots. cbn [map List.concat]. fold (encode_slots slots). destruct o as [s|]; cbn [from_option] in *.
  - rewrite bool_decide_true by by eexists. rewrite <- app_assoc.
    destruct (encode_sa_head s (encode_slots slots ++ rest) Ho) as (x & Hx & Hlen).
    rewrite lookup_app_r, Nat.sub_diag, Hx by lia. cbn [mbind option_bind]. rewrite Hlen, <- length_app, app_assoc, (IH (S i)) by done.
    cbn [places]. by rewrite length_app.
  - rewrite bool_decide_false by by intros []. cbn [app]. by rewrite (IH (S i)).
Qed.

Lemma land_bit x k : (0 <= k)%Z -> (Z.land x (2 ^ k) =? 0)%Z = negb (Z.testbit x k).
Proof.
  intros Hk. apply eq_true_iff_eq. rewrite Z.eqb_eq, negb_true_iff. split; intros H.
  - apply (f_equal (fun z => Z.testbit z k)) in H. by rewrite Z.land_spec, Z.pow2_bits_true, andb_true_r, Z.testbit_0_l in H by done.
  - apply Z.bits_inj'. intros n Hn. rewrite Z.land_spec, Z.testbit_0_l, Z.pow2_bits_eqb by done.
    destruct (Z.eqb_spec k n) as [<-|]; [by rewrite H|apply andb_false_r].
Qed.

Lemma read_bytes_app n pre s rest : length s = n -> read_bytes n (length pre) (pre ++ s ++ rest) = Some s.
Proof.
  intros Hs. unfold read_bytes. rewrite !length_app, Hs. rewrite (proj2 (Nat.ltb_ge _ _)) by lia.
  by rewrite drop_app_length, take_app_length'.
Qed.

Lemma read_num_app n off pre x rest :
  length pre = off -> (0 <= x < 256 ^ Z.of_nat n)%Z -> read_num n off (pre ++ le_bytes n x ++ rest) = Some x.
Proof.
  intros <- Hx. unfold read_num. rewrite read_bytes_app by apply le_bytes_length. cbn. by rewrite le_num_bytes.
Qed.

Section Encoded.
Context (m : SystemRoute) (Hm : system_route_ok m) (rest : bytes).

Let mem := encode_route m ++ rest.
Let len := SIZEOF_RT_MSGHDR2 + length (encode_slots (sy_slots m)).

Lemma sy_header_length : length (sy_header m) = SIZEOF_RT_MSGHDR2.
Proof. destruct (sy_ok_header m Hm) as (H1 & H2 & H3). unfold sy_header. rewrite !length_app, !le_bytes_length, H1, H2, H3. done. Qed.

Lemma sy_off_size : 3 <= sy_off m /\ 0 < sy_size m <= 16 /\ sy_off m + sy_size m <= 24.
Proof. unfold sy_off, sy_size, SIN_ADDR_OFFSET, SIN6_ADDR_OFFSET. destruct (sy_v4 m); lia. Qed.

Lemma dst_sa_ok : sa_ok (dst_sa m).
Proof.
  destruct (sy_ok_dst m Hm) as [H1 H2]. destruct (sy_ok_range m Hm) as [_ H3]. pose proof sy_off_size as (H4 & H5 & H6).
  right. assert (length (dst_sa m) = sy_off m + sy_size m + length (sy_dst_tail m)) as E.
  { unfold dst_sa. rewrite !length_app, H1, H3. cbn [length]. lia. }
  split; [by rewrite E|lia].
Qed.

Lemma mask_sa_ok : from_option sa_ok True (mask_sa m).
Proof.
  unfold mask_sa. destruct (sy_host m); [done|]. cbn [from_option]. pose proof (sy_ok_mask m Hm) as H. destruct (sy_ok_cut m Hm) as [Hc _].
  pose proof sy_off_size as (H4 & H5 & H6). destruct (sy_ok_range m Hm) as [Hw Hl]. pose proof (wf_mask_length _ Hw) as Hml.
  destruct (sy_cut m =? 0) eqn:E; [by destruct H|]. apply Nat.eqb_neq in E. right.
  assert (length ([Z.of_nat (sy_off m + sy_cut m)] ++ sy_mask_fill m ++ take (sy_cut m) (m_mask (sy_range m))) = sy_off m + sy_cut m) as El.
  { rewrite !length_app, length_take, H. cbn [length]. lia. }
  split; [by rewrite El|lia].
Qed.

Lemma sy_slots_ok : Forall (from_option sa_ok True) (sy_slots m).
Proof.
  destruct (sy_ok_others m Hm) as [_ Ho]. unfold sy_slots. repeat apply Forall_cons_2; [apply dst_sa_ok|apply Hm|apply mask_sa_ok|done].
Qed.

Lemma sy_slots_length : length (sy_slots m) = RTAX_MAX.
Proof. unfold sy_slots. cbn [length]. destruct (sy_ok_others m Hm) as [-> _]. done. Qed.

Lemma encode_sa_length s : sa_ok s -> length (encode_sa s) <= 256.
Proof.
  intros [->|[_ Hl]]; [cbn; lia|]. destruct s as [|x s]; [cbn; lia|]. cbn [encode_sa]. rewrite pad4_length.
  pose proof (align4_le (length (x :: s))) as Ha. unfold align4 in *. Z.to_euclidean_division_equations. lia.
Qed.

Lemma encode_slots_length slots : Forall (from_option sa_ok True) slots -> length (encode_slots slots) <= 256 * length slots.
Proof.
  induction 1 as [|o slots Ho _ IH]; [done|]. unfold encode_slots. cbn [map List.concat length]. fold (encode_slots slots). rewrite length_app.
  destruct o as [s|]; cbn [from_option] in *; [apply encode_sa_length in Ho|cbn [length]]; lia.
Qed.

Lemma len_range : (0 <= Z.of_nat len < 256 ^ 2)%Z.
Proof.
  pose proof (encode_slots_length _ sy_slots_ok) as H. rewrite sy_slots_length in H. unfold len, SIZEOF_RT_MSGHDR2, RTAX_MAX in *. lia.
Qed.

Lemma route_reads :
  read_num 2 0 mem = Some (Z.of_nat len) /\ read_num 2 RTM_INDEX_OFFSET mem = Some (sy_index m) /\
  read_num 4 RTM_FLAGS_OFFSET mem = Some (sy_flags m) /\ read_num 4 RTM_ADDRS_OFFSET mem = Some (slot_bits (sy_slots m)).
Proof.
  destruct (sy_ok_header m Hm) as (H1 & H2 & H3). pose proof (sy_ok_flags m Hm) as Hf. pose proof (sy_ok_index m Hm) as Hi.
  pose proof (slot_bits_range (sy_slots m)) as Hs. rewrite sy_slots_length in Hs. unfold RTAX_MAX in Hs.
  unfold mem, encode_route, sy_header. fold len. rewrite <- !app_assoc. split; [|split; [|split]].
  - apply (read_num_app 2 0 []); [done|apply len_range].
  - rewrite app_assoc. apply read_num_app; [by rewrite length_app, le_bytes_length, H1|done].
  - rewrite 3 app_assoc. apply read_num_app; [by rewrite !length_app, !le_bytes_length, H1, H2|done].
  - rewrite 4 app_assoc. apply read_num_app; [by rewrite !length_app, !le_bytes_length, H1, H2|lia].
Qed.
(** What the resolver keeps of the route. *)
Definition kept_route : IpRoute :=
  MkIpRoute (m_address (sy_range m) ++ replicate (16 - sy_size m) 0%Z) (m_mask (sy_range m) ++ replicate (16 - sy_size m) 0%Z) (sy_index m).

Lemma kept_represents : represents (sy_size m) kept_route (sy_range m).
Proof. destruct (sy_ok_range m Hm) as [Hw Hl]. pose proof sy_off_size. by split; [| |lia|..]. Qed.

Lemma full_mask c n : wf c -> length (m_address c) = n -> m_prefix_len c = 8 * n -> m_mask c = replicate n 0xff%Z.
Proof.
  intros Hw Hl Hp. pose proof (wf_mask_length c Hw). apply bits_inj; [apply Hw|apply Forall_replicate; by split|rewrite length_replicate; lia|].
  rewrite (wf_mask c Hw), bits_ones, Hl, Hp. unfold ones_mask. by rewrite Nat.sub_diag, app_nil_r.
Qed.

(** The memory by its parts: what is before an address, the address, and the rest. *)
Lemma mem_dst :
  exists tail, mem = (sy_header m ++ [Z.of_nat (sy_off m + sy_size m + length (sy_dst_tail m)); sy_family m] ++ sy_dst_fill m) ++ m_address (sy_range m) ++ tail.
Proof.
  unfold mem, encode_route, sy_slots, encode_slots. cbn [map List.concat encode_sa dst_sa app]. unfold pad4.
  eexists. rewrite <- !app_assoc. cbn [app]. rewrite <- !app_assoc. reflexivity.
Qed.

Definition mask_place : nat :=
  SIZEOF_RT_MSGHDR2 + length (encode_sa (dst_sa m)) + match sy_gateway m with Some s => length (encode_sa s) | None => 0 end.

Lemma mem_mask s : mask_sa m = Some s -> exists pre tail, mem = pre ++ encode_sa s ++ tail /\ length pre = mask_place.
Proof.
  intros Hs. unfold mem, encode_route, sy_slots. rewrite Hs. unfold encode_slots. cbn [map List.concat]. unfold mask_place. rewrite <- sy_header_length.
  destruct (sy_gateway m) as [g|].
  - exists (sy_header m ++ encode_sa (dst_sa m) ++ encode_sa g). eexists. rewrite <- !app_assoc. split; [reflexivity|]. rewrite !length_app. lia.
  - exists (sy_header m ++ encode_sa (dst_sa m)). eexists. rewrite <- !app_assoc. split; [reflexivity|]. rewrite !length_app. lia.
Qed.

Lemma sy_places :
  walk_addrs RTAX_MAX 0 (slot_bits (sy_slots m)) SIZEOF_RT_MSGHDR2 mem = Some (places SIZEOF_RT_MSGHDR2 (sy_slots m)) /\
  places SIZEOF_RT_MSGHDR2 (sy_slots m) !! RTAX_DST = Some (Some SIZEOF_RT_MSGHDR2) /\
  mjoin (places SIZEOF_RT_MSGHDR2 (sy_slots m) !! RTAX_NETMASK) = (if sy_host m then None else Some mask_place).
Proof.
  split; [|split].
  - unfold mem, encode_route. rewrite <- app_assoc, <- sy_slots_length, <- sy_header_length. apply walk_slots; [|apply sy_slots_ok].
    intros j _. apply slot_bits_testbit.
  - done.
  - unfold sy_slots, mask_sa, mask_place. cbn [places]. destruct (sy_gateway m), (sy_host m); cbn; try done; f_equal; lia.
Qed.

Lemma sy_family_read : mem !! (SIZEOF_RT_MSGHDR2 + 1) = Some (sy_family m).
Proof.
  destruct mem_dst as (tail & ->). rewrite <- sy_header_length, <- !app_assoc, lookup_app_r by lia.
  by replace (length (sy_header m) + 1 - length (sy_header m)) with 1 by lia.
Qed.

Lemma family_route_read :
  family_route (sy_size m) (sy_off m) SIZEOF_RT_MSGHDR2 (if sy_host m then None else Some mask_place) (sy_index m) mem = Some kept_route.
Proof.
  destruct (sy_ok_range m Hm) as [Hw Hl]. pose proof (wf_mask_length _ Hw) as Hml. pose proof sy_off_size as (P1 & P2 & P3). unfold family_route.
  assert (read_bytes (sy_size m) (SIZEOF_RT_MSGHDR2 + sy_off m) mem = Some (m_address (sy_range m))) as ->.
  { destruct mem_dst as (tail & ->). destruct (sy_ok_dst m Hm) as [Hf _].
    replace (SIZEOF_RT_MSGHDR2 + sy_off m) with (length (sy_header m ++ [Z.of_nat (sy_off m + sy_size m + length (sy_dst_tail m)); sy_family m] ++ sy_dst_fill m))
      by (rewrite !length_app, sy_header_length, Hf; cbn [length]; lia). by apply read_bytes_app. }
  cbn [mbind option_bind]. unfold kept_route. destruct (sy_host m) eqn:Eh.
  { by rewrite (full_mask (sy_range m) (sy_size m) Hw Hl (sy_ok_host m Hm Eh)). }
  pose proof (sy_ok_mask m Hm) as Hmask. destruct (sy_ok_cut m Hm) as [Hc Hz].
  destruct (mem_mask (if sy_cut m =? 0 then sy_mask_fill m else [Z.of_nat (sy_off m + sy_cut m)] ++ sy_mask_fill m ++ take (sy_cut m) (m_mask (sy_range m))))
    as (pre & tail & Emem & Hpre); [unfold mask_sa; by rewrite Eh|].
  assert (m_mask (sy_range m) = take (sy_cut m) (m_mask (sy_range m)) ++ replicate (sy_size m - sy_cut m) 0%Z) as Em by (by rewrite <- Hz, take_drop).
  destruct (Nat.eqb_spec (sy_cut m) 0) as [E0|E0].
  - assert (replicate 16 0%Z = m_mask (sy_range m) ++ replicate (16 - sy_size m) 0%Z) as E16.
    { rewrite E0, drop_0 in Hz. rewrite Hz, <- replicate_add. f_equal. lia. }
    destruct Hmask as [Hok Hlen]. destruct (sy_mask_fill m) as [|x fill] eqn:Ef.
    + rewrite Emem, <- Hpre, lookup_app_r, Nat.sub_diag by lia. cbn [encode_sa replicate app lookup list_lookup mbind option_bind].
      rewrite (proj2 (Z.leb_le _ _)) by lia. f_equal. f_equal. exact E16.
    + destruct Hok as [|[Hx _]]; [done|]. injection Hx as Hx. rewrite Emem, <- Hpre, lookup_app_r, Nat.sub_diag by lia.
      cbn [encode_sa]. unfold pad4. cbn [app lookup list_lookup mbind option_bind]. rewrite Hx, (proj2 (Z.leb_le _ _)) by (cbn [length] in *; lia).
      f_equal. f_equal. exact E16.
  - set (s := take (sy_cut m) (m_mask (sy_range m))) in *. assert (length s = sy_cut m) as Hs by (unfold s; rewrite length_take; lia).
    cbn [encode_sa app] in Emem. unfold pad4 in Emem. cbn [app] in Emem. rewrite <- !app_assoc in Emem.
    assert (mem !! mask_place = Some (Z.of_nat (sy_off m + sy_cut m))) as ->
      by (rewrite Emem, <- Hpre, lookup_app_r, Nat.sub_diag by lia; done).
    cbn [mbind option_bind]. rewrite (proj2 (Z.leb_gt _ _)) by lia. replace (Z.to_nat (Z.of_nat (sy_off m + sy_cut m)) - sy_off m) with (sy_cut m) by lia.
    rewrite (proj2 (Nat.ltb_ge _ _)) by lia.
    assert (read_bytes (sy_cut m) (mask_place + sy_off m) mem = Some s) as ->.
    { rewrite Emem. rewrite app_comm_cons, app_assoc.
      replace (mask_place + sy_off m) with (length (pre ++ Z.of_nat (sy_off m + sy_cut m) :: sy_mask_fill m)) by (rewrite length_app; cbn [length]; lia).
      by apply read_bytes_app. }
    cbn [mbind option_bind]. f_equal. f_equal. rewrite Em at 1. rewrite <- app_assoc, <- replicate_add. do 2 f_equal. lia.
Qed.

Lemma parse_encoded (ipv4 : bool) :
  parse_message (if ipv4 then AF_INET else APPLE_AF_INET6) mem =
  Some (match sy_entry ipv4 m with Some _ => Some kept_route | None => None end).
Proof.
  destruct route_reads as (_ & Ei & Ef & Ea). unfold parse_message. rewrite Ef. cbn [mbind option_bind].
  change RTF_UP with (2 ^ 0)%Z. change RTF_STATIC with (2 ^ 11)%Z. change RTF_WASCLONED with (2 ^ 17)%Z. change RTF_IFSCOPE with (2 ^ 24)%Z.
  rewrite !land_bit by lia. unfold sy_entry.
  destruct (Z.testbit (sy_flags m) 0); cbn [negb orb]; [|by rewrite !andb_false_r].
  destruct (Z.testbit (sy_flags m) 11); cbn [negb orb]; [|by rewrite !andb_false_r].
  destruct (Z.testbit (sy_flags m) 17); cbn [negb orb]; [by rewrite !andb_false_r|].
  destruct (Z.testbit (sy_flags m) 24); cbn [negb orb]; [by rewrite !andb_false_r|]. rewrite !andb_true_r.
  rewrite sy_family_read. cbn [mbind option_bind].
  destruct (eqb (sy_v4 m) ipv4) eqn:Eb.
  2:{ unfold sy_family. destruct (sy_v4 m), ipv4; done. }
  apply eqb_prop in Eb. assert ((if ipv4 then AF_INET else APPLE_AF_INET6) = sy_family m) as -> by (unfold sy_family; by rewrite Eb).
  rewrite Z.eqb_refl. cbn [negb]. rewrite Ea. cbn [mbind option_bind]. destruct sy_places as (-> & Ed & En). cbn [mbind option_bind].
  rewrite Ed, En. cbn [mjoin option_join]. rewrite Ei. cbn [mbind option_bind]. rewrite sy_family_read. cbn [mbind option_bind].
  pose proof family_route_read as Hr. unfold sy_family. unfold sy_size, sy_off in Hr. destruct (sy_v4 m); cbn; cbn in Hr; by rewrite Hr.
Qed.
End Encoded.

(** The walk finds every message of the table. *)
Lemma parse_table (ipv4 : bool) l fuel :
  Forall system_route_ok l -> length (encode_table l) <= fuel ->
  parse_messages fuel (if ipv4 then AF_INET else APPLE_AF_INET6) (encode_table l) =
  Some (omap (fun m => match sy_entry ipv4 m with Some _ => Some (kept_route m) | None => None end) l).
Proof.
  intros Hl. revert fuel. induction Hl as [|m l Hm _ IH]; intros fuel Hf; [by destruct fuel|].
  unfold encode_table in *. cbn [map List.concat] in *. fold (encode_table l) in *.
  assert (length (encode_route m) = SIZEOF_RT_MSGHDR2 + length (encode_slots (sy_slots m))) as Hlen.
  { unfold encode_route. by rewrite length_app, sy_header_length. }
  rewrite length_app in Hf. destruct fuel as [|fuel]; [unfold SIZEOF_RT_MSGHDR2 in *; lia|].
  destruct (encode_route m ++ encode_table l) as [|x mem] eqn:E.
  { apply (f_equal length) in E. rewrite length_app, Hlen in E. cbn in E. lia. }
  cbn [parse_messages]. rewrite <- E. destruct (route_reads m Hm (encode_table l)) as (-> & _). cbn [mbind option_bind].
  rewrite parse_encoded by done. cbn [mbind option_bind]. rewrite Nat2Z.id, <- Hlen, drop_app_length, IH by (unfold SIZEOF_RT_MSGHDR2 in *; lia).
  cbn [omap list_omap fmap option_fmap option_map]. by destruct (sy_entry ipv4 m).
Qed.

Lemma table_of_system (ipv4 : bool) l :
  Forall system_route_ok l ->
  table_of (if ipv4 then 4 else 16) (omap (fun m => match sy_entry ipv4 m with Some _ => Some (kept_route m) | None => None end) l) (omap (sy_entry ipv4) l).
Proof.
  intros Hl. rewrite Forall_forall in Hl.
  assert (forall m p, m ∈ l -> sy_entry ipv4 m = Some p -> p = (sy_range m, sy_index m) /\ represents (if ipv4 then 4 else 16) (kept_route m) (sy_range m)) as Hm.
  { intros m p Hin E. unfold sy_entry in E. destruct (eqb (sy_v4 m) ipv4) eqn:Eb; [|done]. apply eqb_prop in Eb. case_match; [|done]. injection E as <-.
    split; [done|]. pose proof (kept_represents m (Hl m Hin)) as Hr. unfold sy_size in Hr. by rewrite Eb in Hr. }
  split.
  - intros r (m & Hin & E)%list_elem_of_omap. destruct (sy_entry ipv4 m) as [p|] eqn:Ep; [|done]. injection E as <-.
    destruct (Hm m p Hin Ep) as [-> Hr]. exists (sy_range m). split; [done|]. apply list_elem_of_omap. by exists m.
  - intros c i (m & Hin & Ep)%list_elem_of_omap. destruct (Hm m _ Hin Ep) as [[= -> ->] Hr]. exists (kept_route m). split; [|done].
    apply list_elem_of_omap. exists m. split; [done|]. by rewrite Ep.
Qed.

(** ** What the system answers *)

(** In the first ten tries, those before [k] found too little memory. *)
Definition tries_until (tries : nat -> Try) (k : nat) : Prop :=
  k <= MAX_TRIES /\ forall j, j < k -> tries j = MkTry true DumpNoMemory.

Definition answers (tries : nat -> Try) (rt : bytes) : Prop :=
  exists k, k < MAX_TRIES /\ tries_until tries k /\ tries k = MkTry true (DumpData rt).

Definition refuses (tries : nat -> Try) : Prop :=
  tries_until tries MAX_TRIES \/
  exists k, k < MAX_TRIES /\ tries_until tries k /\ (estimate_ok (tries k) = false \/ dumped_ (tries k) = DumpFailed).

Lemma dump_tries_skip tries n k i :
  (forall j, i <= j < i + k -> tries j = MkTry true DumpNoMemory) -> dump_tries (k + n) tries i = dump_tries n tries (i + k).
Proof.
  revert i. induction k as [|k IH]; intros i Hj; [by rewrite Nat.add_0_r|]. cbn [Nat.add dump_tries]. rewrite (Hj i) by lia. cbn [estimate_ok negb dumped_].
  rewrite IH by (intros j Hr; apply Hj; lia). f_equal. lia.
Qed.

Lemma dump_skip tries k : tries_until tries k -> dump_routing_table tries = dump_tries (MAX_TRIES - k) tries k.
Proof.
  intros [Hk Hj]. unfold dump_routing_table. replace MAX_TRIES with (k + (MAX_TRIES - k)) at 1 by lia. rewrite dump_tries_skip; [done|]. intros j ?. apply Hj. lia.
Qed.

Lemma answers_dump tries rt : answers tries rt -> dump_routing_table tries = inr rt.
Proof.
  intros (k & Hk & Hu & E). rewrite (dump_skip tries k Hu). destruct (MAX_TRIES - k) as [|n] eqn:En; [lia|]. cbn [dump_tries]. by rewrite E.
Qed.

Lemma refuses_dump tries : refuses tries -> exists e, dump_routing_table tries = inl e.
Proof.
  intros [Hu|(k & Hk & Hu & E)]; rewrite (dump_skip _ _ Hu); [by eexists|]. destruct (MAX_TRIES - k) as [|n] eqn:En; [lia|]. cbn [dump_tries].
  destruct (estimate_ok (tries k)) eqn:Ee; cbn [negb]; [|by eexists]. destruct E as [|E]; [done|]. rewrite E. by eexists.
Qed.

Section ResolveFacts.
Context (sort : list IpRoute -> list IpRoute).
Context (sort_perm : forall l, sort l ≡ₚ l) (sort_sorted : forall l, StronglySorted ip_route_le (sort l)).

(** What the system says when it is asked: a table with these entries of a family, or nothing. *)
Definition system_says (tries : nat -> Try) (ipv4 : bool) (cs : list (CidrRange * Z)) : Prop :=
  (exists l, answers tries (encode_table l) /\ Forall system_route_ok l /\ cs = omap (sy_entry ipv4) l) \/ (refuses tries /\ cs = []).

Lemma read_sorted tries (ipv4 : bool) cs :
  system_says tries ipv4 cs ->
  exists table, read_routing_table sort tries (if ipv4 then AF_INET else APPLE_AF_INET6) = Some table /\
    table_of (if ipv4 then 4 else 16) table cs /\ StronglySorted ip_route_le table.
Proof.
  unfold read_routing_table. intros [(l & E & Hl & ->)|[[e E]%refuses_dump Ecs]]; [|subst cs].
  - rewrite (answers_dump _ _ E), (parse_table ipv4 l) by done. cbn. eexists. split; [done|]. split; [|apply sort_sorted].
    eapply table_of_perm; [symmetry; apply sort_perm|]. by apply table_of_system.
  - rewrite E. exists []. split; [done|]. split; [|constructor]. split; [by intros r ?%not_elem_of_nil|by intros c i ?%not_elem_of_nil].
Qed.

(** A cache that is in use holds what the system had when it was read. *)
Definition caches (r : Resolver) (ipv4 : bool) (n : nat) (cs : list (CidrRange * Z)) : Prop :=
  let cache := if ipv4 then ipv4_cache r else ipv6_cache r in
  cache <> [] /\ table_of n cache cs /\ StronglySorted ip_route_le cache.

End ResolveFacts.

(** ** Examples *)

(** Merge sort by the order of byte strings, larger masks first, is one of the sorts. *)
Fixpoint lexb (a b : bytes) : bool :=
  match a, b with
  | [], _ => true
  | _, [] => false
  | x :: a', y :: b' => (x <? y)%Z || ((x =? y)%Z && lexb a' b')
  end.

Definition mask_ge (r s : IpRoute) : Prop := lexb (netmask s) (netmask r) = true.

#[export] Instance mask_ge_dec r s : Decision (mask_ge r s).
Proof. unfold mask_ge. apply _. Defined.

#[export] Instance mask_ge_total : Total mask_ge.
Proof.
  intros r s. unfold mask_ge. generalize (netmask r) (netmask s). intros a. induction a as [|x a IH]; intros [|y b]; cbn; auto.
  specialize (IH b). destruct (Z.ltb_spec x y), (Z.ltb_spec y x), (Z.eqb_spec x y), (Z.eqb_spec y x); cbn in *; (lia || tauto).
Qed.

#[export] Instance mask_ge_trans : Transitive mask_ge.
Proof.
  intros r s t. unfold mask_ge. generalize (netmask r) (netmask s) (netmask t). intros a b c. revert a b.
  induction c as [|z c IH]; intros [|x a] [|y b]; cbn; try done. rewrite !orb_true_iff, !andb_true_iff, !Z.ltb_lt, !Z.eqb_eq.
  intros [H1|[-> H1]] [H2|[-> H2]]; try (left; lia). right. split; [done|]. by apply (IH a b).
Qed.

Lemma lexb_compare a b : lexb a b = true -> address_compare b a <> Some true.
Proof.
  revert b. induction a as [|x a IH]; intros [|y b]; cbn; try done. destruct (Z.ltb_spec x y), (Z.eqb_spec x y), (Z.eqb_spec y x); cbn; try lia.
  - intros _ [= H']. apply Z.ltb_lt in H'. lia.
  - intros H'. by apply IH.
Qed.

Lemma mask_ge_le r s : mask_ge r s -> ip_route_le r s.
Proof. intros H. unfold ip_route_le, ip_route_ltb. apply bool_decide_eq_false. by apply lexb_compare. Qed.

Definition mask_sort : list IpRoute -> list IpRoute := merge_sort mask_ge.

Lemma mask_sort_perm l : mask_sort l ≡ₚ l.
Proof. apply merge_sort_Permutation. Qed.

Lemma mask_sort_sorted l : StronglySorted ip_route_le (mask_sort l).
Proof.
  pose proof (StronglySorted_merge_sort mask_ge l) as H. fold (mask_sort l) in H. induction H as [|r l' _ IH Hr]; constructor; [done|].
  apply (Forall_impl _ _ _ Hr). intros s. apply mask_ge_le.
Qed.

(** A message as the kernel writes it: a header, the destination, a gateway and the mask, which is cut
    behind its last byte that is not zero and takes four bytes when it is empty. *)
Definition sample_message (index : Z) (dst mask : bytes) : bytes :=
  let sa_dst := [16; AF_INET; 0; 0]%Z ++ dst ++ replicate 8 0%Z in
  let sa_gateway := [20; 18]%Z ++ replicate 18 0%Z in
  let sa_mask := pad4 (match mask with [] => [0; 0; 0; 0]%Z | _ => [Z.of_nat (4 + length mask); 255; 255; 255]%Z ++ mask end) in
  let body := sa_dst ++ sa_gateway ++ sa_mask in
  le_bytes 2 (Z.of_nat (SIZEOF_RT_MSGHDR2 + length body)) ++ [5; 4]%Z ++ le_bytes 2 index ++ [0; 0]%Z ++ le_bytes 4 0x803 ++ le_bytes 4 7 ++
  replicate 76 0%Z ++ body.

(** A route with a gateway, as the kernel has it. *)
Definition sample_route (flags index : Z) (range : CidrRange) (cut : nat) : SystemRoute :=
  MkSystemRoute flags index true range false cut (Some ([20; 18]%Z ++ replicate 18 0%Z)) (replicate 5 None) [5; 4]%Z [0; 0]%Z (replicate 76 0%Z)
    [0; 0]%Z (replicate 8 0%Z) (if cut =? 0 then [] else [255; 255; 255]%Z).

(** A default route, routes to two networks, one that is bound to an interface, one that was cloned, one to a host and one of IPv6. *)
Definition sample_routes : list SystemRoute :=
  [sample_route 0x803 1 (cidr_of_bytes [0; 0; 0; 0]%Z 0) 0; sample_route 0x803 7 (cidr_of_bytes [10; 1; 0; 0]%Z 16) 2;
   sample_route 0x803 5 (cidr_of_bytes [10; 0; 0; 0]%Z 8) 1; sample_route 0x1000803 9 (cidr_of_bytes [10; 1; 2; 0]%Z 24) 3;
   sample_route 0x20803 9 (cidr_of_bytes [10; 1; 2; 3]%Z 32) 4;
   MkSystemRoute 0x805 4 true (cidr_of_bytes [10; 9; 9; 9]%Z 32) true 4 None (replicate 5 None) [5; 4]%Z [0; 0]%Z (replicate 76 0%Z) [0; 0]%Z
     (replicate 8 0%Z) [0; 0; 0]%Z;
   MkSystemRoute 0x803 6 false (cidr_of_bytes (replicate 16 0%Z) 0) false 0 None (replicate 5 None) [5; 4]%Z [0; 0]%Z (replicate 76 0%Z)
     (replicate 6 0%Z) (replicate 4 0%Z) []].

Definition sample_try : nat -> Try := fun n => MkTry true (if n =? 0 then DumpNoMemory else DumpData (encode_table sample_routes)).

Definition sample_ranges : list (CidrRange * Z) :=
  [(cidr_of_bytes [0; 0; 0; 0]%Z 0, 1); (cidr_of_bytes [10; 1; 0; 0]%Z 16, 7); (cidr_of_bytes [10; 0; 0; 0]%Z 8, 5);
   (cidr_of_bytes [10; 9; 9; 9]%Z 32, 4)]%Z.

Lemma sample_ok : Forall system_route_ok sample_routes.
Proof.
  repeat (apply Forall_cons_2; [split; cbn; repeat split; try done; try lia; try (by left); try (by right); try (by repeat constructor)|]).
  by apply Forall_nil.
Qed.

Lemma sample_system_says : system_says sample_try true sample_ranges.
Proof.
  left. exists sample_routes. split; [|split; [exact sample_ok|by vm_compute]].
  exists 1. split; [unfold MAX_TRIES; lia|]. split; [|done]. split; [unfold MAX_TRIES; lia|]. intros j Hj. by replace j with 0 by lia.
Qed.


(** ** What the code does not do *)

(** A mask that is longer than an address is copied over the end of the array. *)
Lemma long_mask_overflows :
  parse_message AF_INET (sample_message 1 [10; 0; 0; 0]%Z (replicate 17 255%Z)) = None.
Proof. vm_compute. reflexivity. Qed.
