(* ===== verification/Guid.v ===== *)
(** * GUIDs: [common/guid_utils.cpp]

    The Windows structure, its text form and random ones.  A [std::string_view] is data in memory: the
    parser is given what lies in memory behind the view too, since it reads one character there, and
    its failure is a read behind that. *)

From S2P Require Import StringView Utils Netlink.

Record GUID := MkGuid { Data1 : Z; Data2 : Z; Data3 : Z; Data4 : list Z }.

Definition GUID_DASH_IDX : list nat := [8; 13; 18; 23].
Definition GUID_FIELD_SIZE : list nat := [8; 4; 4; 2].
Definition GUID_BASE : Z := 16.

(** [{:08x}], [{:04x}] and [{:02x}]. *)
Definition hex_field (w : nat) (n : Z) : bytes := pad_zero w (fmt_hex n).

Definition guid_to_string (guid : GUID) : bytes :=
  let d4 i := hex_field 2 (Data4 guid !!! i) in
  str "{" ++ hex_field 8 (Data1 guid) ++ str "-" ++ hex_field 4 (Data2 guid) ++ str "-" ++ hex_field 4 (Data3 guid) ++ str "-" ++
  d4 0 ++ d4 1 ++ str "-" ++ d4 2 ++ d4 3 ++ d4 4 ++ d4 5 ++ d4 6 ++ d4 7 ++ str "}".

(** A number of [w] bits in the [size] characters at the start of [mem]. *)
Definition read_field (w : Z) (size : nat) (mem : bytes) : option (option Z) :=
  if length mem <? size then None else Some (to_integer false w GUID_BASE (take size mem)).

Fixpoint read_data4 (n : nat) (mem : bytes) (acc : list Z) : option (option (list Z)) :=
  match n with
  | O => Some (Some acc)
  | S n' =>
      match read_field 8 2 mem with
      | None => None
      | Some None => Some None
      | Some (Some x) =>
          let mem := drop 2 mem in
          match mem !! 0 with
          | None => None
          | Some c => read_data4 n' (if (c =? chr "-")%Z then drop 1 mem else mem) (acc ++ [x])
          end
      end
  end.

(** The numbers of a view of 36 characters; [mem] is the view and what is behind it. *)
Definition parse_guid (mem : bytes) : option (option GUID) :=
  match read_field 32 8 mem with
  | None => None
  | Some None => Some None
  | Some (Some d1) =>
      let mem := drop 9 mem in
      match read_field 16 4 mem with
      | None => None
      | Some None => Some None
      | Some (Some d2) =>
          let mem := drop 5 mem in
          match read_field 16 4 mem with
          | None => None
          | Some None => Some None
          | Some (Some d3) =>
              match read_data4 8 (drop 5 mem) [] with
              | None => None
              | Some None => Some None
              | Some (Some d4) => Some (Some (MkGuid d1 d2 d3 d4))
              end
          end
      end
  end.

Definition dash_format (s : bytes) : bool := (length s =? 36) && forallb (fun i => (s !!! i =? chr "-")%Z) GUID_DASH_IDX.

Definition in_braces (s : bytes) : bool := (length s =? 38) && (s !!! 0%nat =? chr "{")%Z && (s !!! 37%nat =? chr "}")%Z.

(** [behind] is what follows the view in memory. *)
Definition string_to_guid (guid_str behind : bytes) : option (option GUID) :=
  if bool_decide (guid_str = []) then Some None
  else
    let '(guid_str, behind) :=
      if in_braces guid_str then (take 36 (drop 1 guid_str), drop 37 guid_str ++ behind) else (guid_str, behind) in
    if negb (dash_format guid_str) then Some None else parse_guid (guid_str ++ behind).

(** The structure in memory, filled with random bytes. *)
Definition random_guid (rand : bytes) : GUID :=
  let data3 := field 2 6 rand in
  let data4 := take 8 (drop 8 rand) in
  MkGuid (field 4 0 rand) (field 2 4 rand)
    (Z.lor 0x40 (Z.land data3 0x0f))
    (alter (fun x => u8 (Z.lor 0x80 (Z.land x 0x3f))) 0 data4).

(** ** Facts *)

Definition guid_ok (g : GUID) : Prop :=
  (0 <= Data1 g < 2 ^ 32)%Z /\ (0 <= Data2 g < 2 ^ 16)%Z /\ (0 <= Data3 g < 2 ^ 16)%Z /\ is_bytes (Data4 g) /\ length (Data4 g) = 8.

Lemma hex_field_spec w n :
  0 < w -> (0 <= n < 16 ^ Z.of_nat w)%Z ->
  length (hex_field w n) = w /\ Forall (fun c => is_Some (digit_val 16 c)) (hex_field w n) /\ read_digits 16 0 (hex_field w n) = (n, []).
Proof.
  intros Hw Hn. unfold hex_field. destruct (fmt_num_read false 16 n) as (Hall & Hne & Hr); [lia..|]. fold (fmt_hex n) in *.
  destruct (pad_zero_digits w (S (Z.to_nat (Z.log2 n))) false 16 n) as [Hl _]; [lia|done|done|lia|]. fold (fmt_num false 16 n) in Hl.
  fold (fmt_hex n) in Hl. unfold pad_zero. split; [rewrite length_app, length_replicate; lia|].
  assert (Forall (fun c => is_Some (digit_val 16 c)) (replicate (w - length (fmt_hex n)) 48%Z)) as H0
    by (apply Forall_replicate; by eexists).
  split; [by apply Forall_app|]. rewrite read_digits_app by done.
  assert (forall k, fst (read_digits 16 0 (replicate k 48%Z)) = 0%Z) as -> by (intros k; by induction k).
  done.
Qed.

Lemma hex_field_length w n : 0 < w -> (0 <= n < 16 ^ Z.of_nat w)%Z -> length (hex_field w n) = w.
Proof. apply hex_field_spec. Qed.

Lemma read_hex_field w bits n rest :
  0 < w -> (0 <= n < 16 ^ Z.of_nat w)%Z -> (n < 2 ^ bits)%Z -> read_field bits w (hex_field w n ++ rest) = Some (Some n).
Proof.
  intros Hw Hn Hb. destruct (hex_field_spec w n Hw Hn) as (Hl & Hall & Hr). unfold read_field.
  rewrite (proj2 (Nat.ltb_ge _ _)) by (rewrite length_app; lia). rewrite take_app_length' by done.
  unfold to_integer, from_chars. destruct (hex_field w n) as [|c ds]; [cbn in Hl; lia|]. inversion Hall as [|? ? [d Hd]]; subst.
  cbn [andb]. unfold GUID_BASE. rewrite Hd, Hr. unfold int_min, int_max. rewrite !(proj2 (Z.leb_le _ _)) by lia. done.
Qed.

Lemma read_data4_step n x acc c rest :
  is_byte x -> read_data4 (S n) (hex_field 2 x ++ c :: rest) acc = read_data4 n (if (c =? chr "-")%Z then rest else c :: rest) (acc ++ [x]).
Proof.
  intros Hx. unfold is_byte in Hx. cbn [read_data4]. rewrite read_hex_field by (lia || (cbn; lia)).
  rewrite drop_app_length' by (rewrite hex_field_length; cbn; lia). cbn. by rewrite drop_0.
Qed.

(** A byte and another one behind it. *)
Lemma read_data4_digit n x acc y rest :
  is_byte x -> is_byte y -> read_data4 (S n) (hex_field 2 x ++ hex_field 2 y ++ rest) acc = read_data4 n (hex_field 2 y ++ rest) (acc ++ [x]).
Proof.
  intros Hx Hy. destruct (hex_field_spec 2 y) as (Hl & Hall & _); [lia|unfold is_byte in Hy; cbn; lia|].
  destruct (hex_field 2 y) as [|c ds] eqn:E; [done|]. inversion Hall as [|? ? [d Hd] _]; subst. cbn [app]. rewrite read_data4_step by done.
  destruct (Z.eqb_spec c (chr "-")) as [->|]; [by vm_compute in Hd|done].
Qed.

(** The text without the braces. *)
Definition guid_body (g : GUID) : bytes :=
  let d4 i := hex_field 2 (Data4 g !!! i) in
  hex_field 8 (Data1 g) ++ str "-" ++ hex_field 4 (Data2 g) ++ str "-" ++ hex_field 4 (Data3 g) ++ str "-" ++
  d4 0 ++ d4 1 ++ str "-" ++ d4 2 ++ d4 3 ++ d4 4 ++ d4 5 ++ d4 6 ++ d4 7.

Lemma data4_bytes g i : guid_ok g -> i < 8 -> is_byte (Data4 g !!! i).
Proof.
  intros (_ & _ & _ & Hb & Hl) Hi. destruct (lookup_lt_is_Some_2 (Data4 g) i) as [x Hx]; [lia|].
  rewrite (list_lookup_total_correct _ _ _ Hx). by apply (Forall_lookup_1 _ _ _ _ Hb Hx).
Qed.

Lemma parse_guid_body g c behind : guid_ok g -> parse_guid (guid_body g ++ c :: behind) = Some (Some g).
Proof.
  intros Hg. pose proof (fun i => data4_bytes g i Hg) as Hd. destruct Hg as (H1 & H2 & H3 & _ & Hl).
  unfold guid_body. cbn zeta. rewrite <- !app_assoc. unfold parse_guid.
  assert (forall w n rest, 0 < w -> (0 <= n < 16 ^ Z.of_nat w)%Z -> drop (S w) (hex_field w n ++ str "-" ++ rest) = rest) as Hdrop.
  { intros w n rest Hw Hn. destruct (hex_field_spec w n Hw Hn) as (Hlen & _). rewrite drop_app_ge by lia. by replace (S w - _) with 1 by lia. }
  rewrite read_hex_field by (lia || (cbn; lia)). rewrite (Hdrop 8) by (lia || (cbn; lia)).
  rewrite read_hex_field by (lia || (cbn; lia)). rewrite (Hdrop 4) by (lia || (cbn; lia)).
  rewrite read_hex_field by (lia || (cbn; lia)). rewrite (Hdrop 4) by (lia || (cbn; lia)).
  rewrite read_data4_digit by (apply Hd; lia). change (str "-" ++ ?r) with (chr "-" :: r). rewrite read_data4_step by (apply Hd; lia).
  rewrite Z.eqb_refl. do 5 (rewrite read_data4_digit by (apply Hd; lia)). rewrite read_data4_step by (apply Hd; lia).
  cbn [read_data4 app]. destruct g as [d1 d2 d3 d4]. cbn [Data1 Data2 Data3 Data4] in *. do 3 f_equal.
  by destruct d4 as [|x0 [|x1 [|x2 [|x3 [|x4 [|x5 [|x6 [|x7 [|]]]]]]]]].
Qed.

Lemma lookup_total_skip (a b : bytes) j i : j = length a + i -> (a ++ b) !!! j = b !!! i.
Proof. intros ->. rewrite lookup_total_app_r by lia. by replace (_ + i - _) with i by lia. Qed.

Lemma guid_body_format g : guid_ok g -> dash_format (guid_body g) = true.
Proof.
  intros Hg. pose proof (fun i => data4_bytes g i Hg) as Hd. destruct Hg as (H1 & H2 & H3 & _ & Hl).
  assert (forall i, i < 8 -> length (hex_field 2 (Data4 g !!! i)) = 2) as L2
    by (intros i Hi; specialize (Hd i Hi); unfold is_byte in Hd; apply hex_field_length; cbn; lia).
  assert (length (hex_field 8 (Data1 g)) = 8) as E8 by (apply hex_field_length; cbn; lia).
  assert (length (hex_field 4 (Data2 g)) = 4) as E4 by (apply hex_field_length; cbn; lia).
  assert (length (hex_field 4 (Data3 g)) = 4) as E4' by (apply hex_field_length; cbn; lia).
  unfold dash_format. replace (length (guid_body g)) with 36.
  2:{ unfold guid_body. cbn zeta. rewrite !length_app, !L2, E8, E4, E4' by lia. done. }
  cbn [Nat.eqb andb]. unfold GUID_DASH_IDX, guid_body. cbn zeta. cbn [forallb]. rewrite !andb_true_iff, !Z.eqb_eq.
  repeat split; try done.
  - by rewrite (lookup_total_skip _ _ 8 0) by (rewrite E8; lia).
  - rewrite (lookup_total_skip _ _ 13 5), (lookup_total_skip _ _ 5 4) by (done || (rewrite E8; lia)).
    by rewrite (lookup_total_skip _ _ 4 0) by (rewrite E4; lia).
  - rewrite (lookup_total_skip _ _ 18 10), (lookup_total_skip _ _ 10 9), (lookup_total_skip _ _ 9 5), (lookup_total_skip _ _ 5 4)
      by (done || (rewrite ?E8, ?E4; lia)).
    by rewrite (lookup_total_skip _ _ 4 0) by (rewrite E4'; lia).
  - rewrite (lookup_total_skip _ _ 23 15), (lookup_total_skip _ _ 15 14), (lookup_total_skip _ _ 14 10), (lookup_total_skip _ _ 10 9)
      by (done || (rewrite ?E8, ?E4; lia)).
    rewrite (lookup_total_skip _ _ 9 5), (lookup_total_skip _ _ 5 4), (lookup_total_skip _ _ 4 2) by (done || (rewrite ?E4', ?L2; lia)).
    by rewrite (lookup_total_skip _ _ 2 0) by (rewrite L2; lia).
Qed.

(** A GUID's text reads back as the GUID, with its braces and without them when there is a character
    behind the text in memory. *)
Theorem guid_roundtrip g c behind :
  guid_ok g ->
  string_to_guid (guid_to_string g) behind = Some (Some g) /\ string_to_guid (guid_body g) (c :: behind) = Some (Some g).
Proof.
  intros Hg. pose proof (guid_body_format g Hg) as Hf. unfold dash_format in Hf. apply andb_true_iff in Hf as [Hl%Nat.eqb_eq _].
  assert (guid_to_string g = str "{" ++ guid_body g ++ str "}") as E.
  { unfold guid_to_string, guid_body. cbn zeta. by rewrite <- !app_assoc. }
  split; unfold string_to_guid.
  - rewrite E. rewrite bool_decide_false by (intros H; discriminate H).
    assert (in_braces (str "{" ++ guid_body g ++ str "}") = true) as ->.
    { unfold in_braces. rewrite !length_app, Hl. cbn [length].
      rewrite (lookup_total_skip (str "{") _ 37 36), (lookup_total_skip (guid_body g) _ 36 0) by (done || lia). done. }
    change (drop 1 (str "{" ++ guid_body g ++ str "}")) with (drop 0 (guid_body g ++ str "}")). rewrite drop_0, take_app_length' by done.
    rewrite guid_body_format by done. cbn [negb]. change (drop 37 (str "{" ++ ?l)) with (drop 36 l). rewrite drop_app_length' by done.
    by apply parse_guid_body.
  - rewrite bool_decide_false by (intros H; by rewrite H in Hl).
    assert (in_braces (guid_body g) = false) as -> by (unfold in_braces; by rewrite Hl).
    rewrite guid_body_format by done. cbn [negb]. by apply parse_guid_body.
Qed.

Definition sample_guid : GUID := MkGuid 0xdeadbeef 0x12 0xabcd [1; 2; 3; 0xff; 0; 0x10; 7; 8]%Z.

Lemma sample_guid_ok : guid_ok sample_guid.
Proof.
  split; [by vm_compute|]. split; [by vm_compute|]. split; [by vm_compute|]. split; [|done].
  apply (bool_decide_eq_true (is_bytes (Data4 sample_guid))). vm_compute. reflexivity.
Qed.

Lemma guid_roundtrip_witness :
  guid_to_string sample_guid = str "{deadbeef-0012-abcd-0102-03ff00100708}" /\ string_to_guid (guid_to_string sample_guid) [] = Some (Some sample_guid).
Proof. split; [vm_compute; reflexivity|]. apply (guid_roundtrip sample_guid 0%Z [] sample_guid_ok). Defined.

(** What is read fits its fields. *)
Lemma read_field_range w size mem x : (0 < w)%Z -> read_field w size mem = Some (Some x) -> (0 <= x < 2 ^ w)%Z.
Proof.
  intros Hw. unfold read_field. destruct (length mem <? size); [done|]. intros [= H]. revert H. unfold to_integer, from_chars, int_min, int_max.
  repeat (case_match; simplify_eq/=); intros; simplify_eq; bool_to_prop; lia.
Qed.

Lemma read_data4_range n mem acc l :
  is_bytes acc -> read_data4 n mem acc = Some (Some l) -> is_bytes l /\ length l = length acc + n.
Proof.
  revert mem acc. induction n as [|n IH]; intros mem acc Ha; cbn [read_data4]; [intros [= <-]; split; [done|lia]|].
  destruct (read_field 8 2 mem) as [[x|]|] eqn:E; [|done..]. destruct (drop 2 mem !! 0) as [c|]; [|done]. intros H.
  apply IH in H as [H1 H2].
  - rewrite length_app in H2. cbn in H2. split; [done|lia].
  - apply Forall_app. split; [done|]. constructor; [|constructor]. by apply (read_field_range 8) in E.
Qed.

(** Whatever text is parsed, the result is a GUID. *)
Lemma string_to_guid_ok s behind g : string_to_guid s behind = Some (Some g) -> guid_ok g.
Proof.
  unfold string_to_guid. case_bool_decide; [done|]. destruct (in_braces s); (destruct (negb _); [done|]); unfold parse_guid.
  all: destruct (read_field 32 _ _) as [[d1|]|] eqn:E1; [|done..]; destruct (read_field 16 _ (drop 9 _)) as [[d2|]|] eqn:E2; [|done..];
    destruct (read_field 16 _ _) as [[d3|]|] eqn:E3 in |- *; [|done..]; destruct (read_data4 _ _ _) as [[d4|]|] eqn:E4; [|done..]; intros [= <-];
    apply read_field_range in E1; [|lia]; apply read_field_range in E2; [|lia]; apply read_field_range in E3; [|lia];
    apply read_data4_range in E4 as [? ?]; [|constructor]; done.
Qed.

(** ** What the code does not do *)

(** The text without braces at the very end of memory: one character behind it is read. *)
Lemma guid_reads_behind : string_to_guid (guid_body sample_guid) [] = None.
Proof. vm_compute. reflexivity. Qed.

(** Parentheses are not handled. *)
Lemma guid_parentheses : string_to_guid (str "(deadbeef-0012-abcd-0102-03ff00100708)") [0%Z] = Some None.
Proof. vm_compute. reflexivity. Qed.

(** A random GUID is never one of version 4: the version is in the four high bits of [Data3], which the
    assignment clears together with all but four of the random bits. *)
Lemma random_guid_version rand : is_bytes rand -> (Z.shiftr (Data3 (random_guid rand)) 12 = 0)%Z.
Proof.
  intros Hb. cbn. rewrite Z.shiftr_lor, Z.shiftr_land. change (Z.shiftr 64 12) with 0%Z. change (Z.shiftr 15 12) with 0%Z. by rewrite Z.land_0_r.
Qed.
