(* ===== verification/WinNet.v ===== *)
(** * Interfaces: the parts of [common/net_utils.cpp] that ask the system about them

    Binding a socket to an interface on each platform, the peer and the local address of a socket, the DNS
    servers of Apple systems, and on Windows the interface that is in use, the one whose DNS settings come
    first, and its DNS servers in the registry.  What the system answers is an argument; log lines are left
    out.  An [std::unordered_set] is a set, and the order in which a loop meets its elements is an argument. *)

From S2P Require Import StringView Utils Error NetUtils SocketAddress SystemDns Netlink Guid.

(** ** Binding a socket *)

Inductive Platform := Linux | Windows | Apple.

Definition IPPROTO_IP : Z := 0.
Definition IPPROTO_IPV6 : Z := 41.
Definition SOL_SOCKET : Z := 1.
Definition SO_BINDTODEVICE : Z := 25.
Definition IP_UNICAST_IF : Z := 31.
Definition IPV6_UNICAST_IF : Z := 31.
Definition IP_BOUND_IF : Z := 25.
Definition IPV6_BOUND_IF : Z := 125.

(** A call of [setsockopt]: level, option and the bytes of the value. *)
Record SockOpt := MkOpt { so_level : Z; so_option : Z; so_value : bytes }.

(** [htonl] on a little-endian machine: the number whose bytes in memory are the reverse. *)
Definition htonl (x : Z) : Z := le_num (rev (le_bytes 4 x)).

Section Bind.
Context (loc : SourceLocation) (platform : Platform) (fd : Z).

(** The name and the index of an interface; an error code of [setsockopt], [0] for success; texts of codes. *)
Context (if_indextoname : Z -> option bytes) (if_nametoindex : bytes -> Z).
Context (setsockopt : SockOpt -> Z) (errno : Z) (strerror : Z -> bytes).

Definition bind_error (code : NetUtilsError) (text : bytes) : option (ErrorImpl NetUtilsError) := Some (make_error_msg loc code text None).

Definition error_text (error : Z) : bytes := str "(" ++ fmt_dec error ++ str ") " ++ strerror error.

(** The option and the value for a family, where the index is used. *)
Definition if_option (family if_index : Z) : option SockOpt :=
  if (family =? AF_INET)%Z then
    match platform with
    | Windows => Some (MkOpt IPPROTO_IP IP_UNICAST_IF (le_bytes 4 (htonl if_index)))
    | _ => Some (MkOpt IPPROTO_IP IP_BOUND_IF (le_bytes 4 if_index))
    end
  else if (family =? AF_INET6)%Z then
    match platform with
    | Windows => Some (MkOpt IPPROTO_IPV6 IPV6_UNICAST_IF (le_bytes 4 if_index))
    | _ => Some (MkOpt IPPROTO_IPV6 IPV6_BOUND_IF (le_bytes 4 if_index))
    end
  else None.

Definition bind_by_option (family if_index : Z) : option (ErrorImpl NetUtilsError) * list SockOpt :=
  match if_option family if_index with
  | None => (bind_error AE_UNSUPPORTED_FAMILY (str "family: " ++ fmt_dec family), [])
  | Some opt =>
      let error := setsockopt opt in
      if negb (error =? 0)%Z then
        match if_indextoname if_index with
        | Some buf => (bind_error AE_BIND_ERROR (str "fd " ++ fmt_dec fd ++ str " to interface " ++ buf ++ str ": " ++ error_text error), [opt])
        | None =>
            (bind_error AE_BIND_ERROR
              (str "fd " ++ fmt_dec fd ++ str " to interface " ++ fmt_dec if_index ++ str ": " ++ fmt_dec error ++ str ": " ++ strerror error), [opt])
        end
      else (None, [opt])
  end.

Definition bind_by_device (if_name : bytes) : option (ErrorImpl NetUtilsError) * list SockOpt :=
  let opt := MkOpt SOL_SOCKET SO_BINDTODEVICE if_name in
  let error := setsockopt opt in
  if negb (error =? 0)%Z
  then (bind_error AE_BIND_ERROR (str "fd " ++ fmt_dec fd ++ str " to interface " ++ if_name ++ str ": " ++ error_text error), [opt])
  else (None, [opt]).

(** [bind_socket_to_if(fd, family, if_name)] and [bind_socket_to_if(fd, family, if_index)]: the error, if any, and the calls. *)
Definition bind_socket_to_name (family : Z) (if_name : bytes) : option (ErrorImpl NetUtilsError) * list SockOpt :=
  match platform with
  | Linux => bind_by_device if_name
  | _ =>
      let if_index := if_nametoindex if_name in
      if (if_index =? 0)%Z then (bind_error AE_INVALID_IF_NAME if_name, []) else bind_by_option family if_index
  end.

Definition bind_socket_to_index (family if_index : Z) : option (ErrorImpl NetUtilsError) * list SockOpt :=
  match platform with
  | Linux =>
      match if_indextoname if_index with
      | None => (bind_error AE_INVALID_IF_INDEX (error_text errno), [])
      | Some name => bind_socket_to_name family name
      end
  | _ => bind_by_option family if_index
  end.
End Bind.

(** [get_peer_address] and [get_local_address]: what [getpeername] or [getsockname] wrote into the storage. *)
Definition get_peer_address (getpeername : option bytes) : option SocketAddress := a ← getpeername; Some (sa_of_sockaddr (Some a)).
Definition get_local_address (getsockname : option bytes) : option SocketAddress := a ← getsockname; Some (sa_of_sockaddr (Some a)).

(** [retrieve_system_dns_servers] of Apple systems: the entries [res_getservers] has filled in, if [res_ninit] succeeds. *)
Definition apple_dns_servers (loc : SourceLocation) (getnameinfo_host : bytes -> option bytes) (res : option (list bytes)) :
    Result SystemDnsServers RetrieveSystemDnsError :=
  match res with
  | None => RError (make_error loc AE_INIT None)
  | Some addrs =>
      RValue (fold_left (fun servers addr =>
        let sock_addr := sa_of_sockaddr (Some addr) in
        if negb (sa_valid sock_addr) then servers
        else MkServers (main servers ++ [MkServer (host_str getnameinfo_host false sock_addr) None]) (fallback servers) (bootstrap servers))
        addrs (MkServers [] [] []))
  end.

(** ** Windows: adapters and routes *)

Definition ERROR_SUCCESS : Z := 0.
Definition ERROR_BUFFER_OVERFLOW : Z := 111.
Definition IF_TYPE_ETHERNET_CSMACD : Z := 6.
Definition IF_TYPE_IEEE80211 : Z := 71.
Definition IF_TYPE_WWANPP : Z := 243.
Definition IF_TYPE_WWANPP2 : Z := 244.
Definition IfOperStatusUp : Z := 1.
Definition IfOperStatusDormant : Z := 5.
Definition NL_MAX_METRIC_COMPONENT : Z := 2 ^ 31 - 1.
Definition ULONG_MAX : Z := 2 ^ 32 - 1.

(** What the code reads of an [IP_ADAPTER_ADDRESSES]. *)
Record Adapter := MkAdapter {
  IfType : Z;
  OperStatus : Z;
  FirstUnicastAddress : bool;
  IfIndex : Z;
  Ipv6IfIndex : Z;
  Ipv4Metric : Z;
  Ipv6Metric : Z
}.

(** A row of the forwarding table: the prefix as a [sockaddr], its length and the interface. *)
Record ForwardRow := MkRow { Prefix : bytes; PrefixLength : Z; InterfaceIndex : Z }.

(** What [GetIpInterfaceEntry] fills in. *)
Record InterfaceRow := MkInterface { Connected : bool; Metric : Z }.

Definition is_physical_adapter (aa : Adapter) : bool :=
  if negb ((IfType aa =? IF_TYPE_ETHERNET_CSMACD)%Z || (IfType aa =? IF_TYPE_IEEE80211)%Z ||
           (IfType aa =? IF_TYPE_WWANPP)%Z || (IfType aa =? IF_TYPE_WWANPP2)%Z) then false
  else if negb (OperStatus aa =? IfOperStatusUp)%Z && negb (OperStatus aa =? IfOperStatusDormant)%Z then false
  else FirstUnicastAddress aa.

(** The loop over a table. *)
Definition default_ifs (table : list ForwardRow) (net_ifs : gset Z) : gset Z :=
  fold_left (fun ifs row =>
    if is_any (sa_of_sockaddr (Some (Prefix row))) && (PrefixLength row =? 0)%Z then {[InterfaceIndex row]} ∪ ifs else ifs) table net_ifs.

(** The tables that were allocated by the system and not freed are counted. *)
Record RouteIfs := MkRouteIfs { ri_error : Z; ri_v4 : gset Z; ri_v6 : gset Z; ri_tables : nat }.

Section System.
(** [GetIpForwardTable2] of a family: an error, or a table. *)
Context (GetIpForwardTable2 : Z -> Z + list ForwardRow).
Context (GetIpInterfaceEntry : Z -> Z -> option InterfaceRow).

(** [GetAdaptersAddresses] without a buffer: its code; with a buffer: an error, or the adapters. *)
Context (probe : Z) (adapters : Z + list Adapter).

(** The order in which a set is walked. *)
Context (order : gset Z -> list Z).

Definition get_default_route_ifs : RouteIfs :=
  match GetIpForwardTable2 AF_INET with
  | inl error => MkRouteIfs error ∅ ∅ 0
  | inr table_v4 =>
      match GetIpForwardTable2 AF_INET6 with
      | inl error => MkRouteIfs error ∅ ∅ 1
      | inr table_v6 => MkRouteIfs ERROR_SUCCESS (default_ifs table_v4 ∅) (default_ifs table_v6 ∅) 2
      end
  end.

Definition min_metric_step (family : Z) (best : Z * Z) (index : Z) : Z * Z :=
  match GetIpInterfaceEntry family index with
  | None => best
  | Some row => if Connected row && (Metric row <? best.2)%Z then (index, Metric row) else best
  end.

(** The index and the metric of the interface with the smallest metric. *)
Definition get_min_metric_if (net_ifs : gset Z) (ipv6 : bool) : Z * Z :=
  fold_left (min_metric_step (if ipv6 then AF_INET6 else AF_INET)) (order net_ifs) (0%Z, NL_MAX_METRIC_COMPONENT).

Definition physical_step (ifs : gset Z) (p : Adapter) : gset Z :=
  if negb (is_physical_adapter p) then ifs
  else
    let ifs := if negb (IfIndex p =? 0)%Z then {[IfIndex p]} ∪ ifs else ifs in
    if negb (Ipv6IfIndex p =? 0)%Z then {[Ipv6IfIndex p]} ∪ ifs else ifs.

Definition win_get_physical_interfaces (physical_ifs : gset Z) : Z * gset Z :=
  if negb (probe =? ERROR_BUFFER_OVERFLOW)%Z then
    if (probe =? ERROR_SUCCESS)%Z then (ERROR_SUCCESS, physical_ifs) else (probe, physical_ifs)
  else
    match adapters with
    | inl ret => (ret, physical_ifs)
    | inr l => (ERROR_SUCCESS, fold_left physical_step l physical_ifs)
    end.

(** The index, and what is passed to [SetLastError], if it is called. *)
Definition win_detect_active_if : Z * option Z :=
  let '(error, physical_ifs) := win_get_physical_interfaces ∅ in
  if bool_decide (physical_ifs = ∅) then (0%Z, Some error)
  else
    let routes := get_default_route_ifs in
    if negb (ri_error routes =? ERROR_SUCCESS)%Z then (0%Z, Some (ri_error routes))
    else
      let net_ifs_v4 := ri_v4 routes ∩ physical_ifs in
      let net_ifs_v6 := ri_v6 routes ∩ physical_ifs in
      let '(index_v4, _) := get_min_metric_if net_ifs_v4 false in
      let '(index_v6, _) := get_min_metric_if net_ifs_v6 true in
      if negb (index_v4 =? 0)%Z then (index_v4, None) else (index_v6, None).
End System.

(** ** The preferred adapter *)

Definition preferred_step (best : Z * Z) (p : Adapter) : Z * Z :=
  if negb (OperStatus p =? IfOperStatusUp)%Z then best
  else
    let best := if negb (IfIndex p =? 0)%Z && (Ipv4Metric p <=? best.2)%Z then (IfIndex p, Ipv4Metric p) else best in
    if negb (Ipv6IfIndex p =? 0)%Z && (Ipv6Metric p <=? best.2)%Z then (Ipv6IfIndex p, Ipv6Metric p) else best.

Definition if_index_to_uuid (index_to_guid : Z -> option GUID) (idx : Z) : bytes :=
  match index_to_guid idx with Some guid => guid_to_string guid | None => [] end.

(** [first] and [second] are the answers with the initial buffer and with a larger one; an error of the first
    other than a short buffer is final. *)
Definition win_get_preferred_adapter_guid (index_to_guid : Z -> option GUID) (first second : Z + list Adapter) : bytes :=
  let ret := match first with inl e => if (e =? ERROR_BUFFER_OVERFLOW)%Z then second else inl e | inr l => inr l end in
  match ret with
  | inl _ => []
  | inr l =>
      let '(min_metric_index, _) := fold_left preferred_step l (0%Z, ULONG_MAX) in
      if (min_metric_index =? 0)%Z then [] else if_index_to_uuid index_to_guid min_metric_index
  end.

(** ** DNS servers in the registry *)

Definition WINREG_INTERFACES_PATH_V4 : bytes := str "SYSTEM\CurrentControlSet\Services\Tcpip\Parameters\Interfaces".
Definition WINREG_INTERFACES_PATH_V6 : bytes := str "SYSTEM\CurrentControlSet\Services\Tcpip6\Parameters\Interfaces".

Definition interfaces_path (ipv6 : bool) : bytes := if ipv6 then WINREG_INTERFACES_PATH_V6 else WINREG_INTERFACES_PATH_V4.

(** The bytes of the value [NameServer] by path and interface, and the keys that are open. *)
Record Registry := MkRegistry { values : gmap (bytes * bytes) bytes; keys_open : nat }.

Section Registry.
(** The codes of opening a key and of writing; what [RegGetValueA] hands out for the stored bytes, a code and the data. *)
Context (RegOpenKeyExA : bytes -> Z) (RegSetKeyValueA : bytes -> bytes -> Z) (RegGetValueA : option bytes -> Z * bytes).

Definition win_set_if_nameserver (dns_list if_guid : bytes) (ipv6 : bool) (r : Registry) : Z * Registry :=
  let path := interfaces_path ipv6 in
  let error := RegOpenKeyExA path in
  if (error =? ERROR_SUCCESS)%Z then
    let r := MkRegistry (values r) (S (keys_open r)) in
    let error := RegSetKeyValueA path if_guid in
    let r := if (error =? ERROR_SUCCESS)%Z then MkRegistry (<[(path, if_guid) := dns_list]> (values r)) (keys_open r) else r in
    (error, MkRegistry (values r) (pred (keys_open r)))
  else (error, r).

(** The text up to the first null character of what was read into [size] characters. *)
Definition win_get_if_nameserver (if_guid : bytes) (ipv6 : bool) (r : Registry) : option bytes * Registry :=
  let path := interfaces_path ipv6 in
  if negb (RegOpenKeyExA path =? ERROR_SUCCESS)%Z then (None, r)
  else
    let r := MkRegistry (values r) (S (keys_open r)) in
    let close r := MkRegistry (values r) (pred (keys_open r)) in
    let '(error, data) := RegGetValueA (values r !! (path, if_guid)) in
    let size := length data in
    if negb (error =? ERROR_SUCCESS)%Z || (size =? 0) then (None, close r)
    else
      let value := replicate size 0%Z in
      let '(error, data) := RegGetValueA (values r !! (path, if_guid)) in
      if negb (error =? ERROR_SUCCESS)%Z then (None, close r)
      else (Some (c_string (take size (data ++ value))), close r).
End Registry.

(** ** Facts: binding *)

Lemma rev_le_bytes_involutive x : (0 <= x < 2 ^ 32)%Z -> htonl (htonl x) = x.
Proof.
  intros Hx. unfold htonl. assert (exists a b c d, le_bytes 4 x = [a; b; c; d] /\ is_bytes [a; b; c; d]) as (a & b & c & d & E & Hb).
  { cbn [le_bytes]. do 4 eexists. split; [reflexivity|]. unfold is_bytes, is_byte.
    repeat (apply Forall_cons; split; [apply Z.mod_pos_bound; lia|]). apply Forall_nil. done. }
  pose proof (le_num_bytes 4 x ltac:(lia)) as Hn. rewrite E in Hn |- *. cbn [rev app].
  unfold is_bytes, is_byte in Hb. rewrite !Forall_cons in Hb.
  assert (le_bytes 4 (le_num [d; c; b; a]) = [d; c; b; a]) as ->.
  { cbn [le_bytes le_num]. repeat f_equal; Z.to_euclidean_division_equations; lia. }
  cbn [rev app]. done.
Qed.

(** On Windows the index for IPv4 is in network order, on other systems as it is; a family without such an
    option is refused before any call. *)
Lemma bind_family loc platform fd to_name setsockopt strerror family if_index :
  (family <> AF_INET -> family <> AF_INET6 ->
    bind_by_option loc platform fd to_name setsockopt strerror family if_index =
      (bind_error loc AE_UNSUPPORTED_FAMILY (str "family: " ++ fmt_dec family), [])) /\
  (family = AF_INET \/ family = AF_INET6 -> exists opt, if_option platform family if_index = Some opt /\
    (bind_by_option loc platform fd to_name setsockopt strerror family if_index).2 = [opt] /\
    ((bind_by_option loc platform fd to_name setsockopt strerror family if_index).1 = None <-> setsockopt opt = 0%Z)).
Proof.
  unfold bind_by_option, if_option. split.
  - intros H4 H6. by rewrite (proj2 (Z.eqb_neq _ _) H4), (proj2 (Z.eqb_neq _ _) H6).
  - intros Hf. destruct Hf as [->| ->]; cbn [Z.eqb]; destruct platform; (eexists; split; [reflexivity|]); cbn;
      match goal with |- context [setsockopt ?o] => destruct (Z.eqb_spec (setsockopt o) 0) as [->|Hne] end; cbn;
      destruct (to_name if_index); naive_solver.
Qed.

(** ** Facts: the interface in use *)

Section Best.
Context (GetIpInterfaceEntry : Z -> Z -> option InterfaceRow).

(** A connected interface of a family with its metric, which the system keeps below the bound. *)
Definition candidate (family : Z) (ifs : gset Z) (i metric : Z) : Prop :=
  i ∈ ifs /\ GetIpInterfaceEntry family i = Some (MkInterface true metric) /\ (metric < NL_MAX_METRIC_COMPONENT)%Z.

(** The pair carried through the list is the best of those seen, or the initial one. *)
Lemma min_metric_fold family l best :
  let r := fold_left (min_metric_step GetIpInterfaceEntry family) l best in
  (r = best \/ r.1 ∈ l /\ GetIpInterfaceEntry family r.1 = Some (MkInterface true r.2) /\ (r.2 < best.2)%Z) /\
  (r.2 <= best.2)%Z /\
  forall i m, i ∈ l -> GetIpInterfaceEntry family i = Some (MkInterface true m) -> (r.2 <= m)%Z.
Proof.
  revert best. induction l as [|i l IH]; intros best r; cbn [fold_left] in r.
  { repeat split; [by left|subst r; lia|]. by intros ? ? ?%elem_of_nil. }
  destruct (IH (min_metric_step GetIpInterfaceEntry family best i)) as (Hr & Hle & Hmin). fold r in Hr, Hle, Hmin.
  unfold min_metric_step in Hr, Hle.
  destruct (GetIpInterfaceEntry family i) as [[conn m]|] eqn:Ei; cbn [Connected Metric] in Hr, Hle.
  - destruct conn; cbn [andb] in Hr, Hle; [destruct (Z.ltb_spec m best.2)|].
    + cbn in Hr, Hle. repeat split.
      * right. destruct Hr as [->|(Hin & E & Hlt)]; cbn; [set_solver|]. split; [set_solver|]. split; [done|lia].
      * lia.
      * intros j m'. rewrite elem_of_cons. intros [->|Hj] Ej; [|eauto]. simplify_eq. done.
    + repeat split; [set_solver|done|]. intros j m'. rewrite elem_of_cons. intros [->|Hj] Ej; [|eauto]. simplify_eq. lia.
    + repeat split; [set_solver|done|]. intros j m'. rewrite elem_of_cons. intros [->|Hj] Ej; [|eauto]. simplify_eq.
  - repeat split; [set_solver|done|]. intros j m'. rewrite elem_of_cons. intros [->|Hj] Ej; [|eauto]. simplify_eq.
Qed.

Context (order : gset Z -> list Z) (Horder : forall s : gset Z, order s ≡ₚ elements s).

(** The result is the best candidate, and [0] only when there is none; [0] is no interface. *)
Lemma get_min_metric_if_spec (ifs : gset Z) (ipv6 : bool) :
  0%Z ∉ ifs ->
  let family := if ipv6 then AF_INET6 else AF_INET in
  let r := get_min_metric_if GetIpInterfaceEntry order ifs ipv6 in
  if (r.1 =? 0)%Z then forall i m, ~ candidate family ifs i m
  else candidate family ifs r.1 r.2 /\ forall i m, candidate family ifs i m -> (r.2 <= m)%Z.
Proof.
  intros H0 family r. unfold r, get_min_metric_if. fold family.
  destruct (min_metric_fold family (order ifs) (0%Z, NL_MAX_METRIC_COMPONENT)) as (Hr & Hle & Hmin).
  set (x := fold_left _ _ _) in *. cbn [fst snd] in *.
  assert (forall i, i ∈ order ifs <-> i ∈ ifs) as Hin by (intros i; rewrite Horder; apply elem_of_elements).
  destruct (Z.eqb_spec x.1 0) as [E|E].
  - intros i m (Hi & Hrow & Hm). assert (x.2 <= m)%Z by (apply (Hmin i); [by apply Hin|done]).
    destruct Hr as [->|(Hx & _)]; [cbn in *; lia|]. apply H0. rewrite <- E. by apply Hin.
  - destruct Hr as [Hx|(Hx & Hrow & Hlt)]; [by rewrite Hx in E|].
    split; [split; [by apply Hin|done]|]. intros i m (Hi & Hrow' & Hm). apply (Hmin i); [by apply Hin|done].
Qed.
End Best.

Lemma elem_of_default_ifs table ifs i :
  i ∈ default_ifs table ifs <->
  i ∈ ifs \/ exists row, row ∈ table /\ InterfaceIndex row = i /\ is_any (sa_of_sockaddr (Some (Prefix row))) = true /\ PrefixLength row = 0%Z.
Proof.
  unfold default_ifs. revert ifs. induction table as [|row table IH]; intros ifs; cbn [fold_left]; [set_solver|].
  rewrite IH. setoid_rewrite elem_of_cons. destruct (is_any _ && _)%Z eqn:E; bool_to_prop; [set_solver|].
  split; [naive_solver|]. intros [Hi|(row' & [->|Hr] & Hi & Ha & Hp)]; [by left| |eauto 10]. rewrite Ha, Hp in E. naive_solver.
Qed.

(** An index of an adapter that is physical. *)
Definition is_physical (l : list Adapter) (i : Z) : Prop :=
  i <> 0%Z /\ exists p, p ∈ l /\ is_physical_adapter p = true /\ (i = IfIndex p \/ i = Ipv6IfIndex p).

Lemma elem_of_physical l ifs i : i ∈ fold_left physical_step l ifs <-> i ∈ ifs \/ is_physical l i.
Proof.
  unfold is_physical. revert ifs. induction l as [|p l IH]; intros ifs; cbn [fold_left]; [set_solver|].
  rewrite IH. setoid_rewrite elem_of_cons. unfold physical_step. destruct (is_physical_adapter p) eqn:Ep; cbn [negb].
  - destruct (Z.eqb_spec (IfIndex p) 0) as [E4|E4], (Z.eqb_spec (Ipv6IfIndex p) 0) as [E6|E6]; cbn [negb];
      rewrite ?elem_of_union, ?elem_of_singleton; naive_solver.
  - naive_solver congruence.
Qed.

(** An interface the function may answer, for a family whose forwarding table is [table]. *)
Definition routes_default (table : list ForwardRow) (i : Z) : Prop :=
  exists row, row ∈ table /\ InterfaceIndex row = i /\ is_any (sa_of_sockaddr (Some (Prefix row))) = true /\ PrefixLength row = 0%Z.
Definition usable_if (entry : Z -> Z -> option InterfaceRow) (l : list Adapter) (family : Z) (table : list ForwardRow) (i metric : Z) : Prop :=
  is_physical l i /\ routes_default table i /\
  entry family i = Some (MkInterface true metric) /\ (metric < NL_MAX_METRIC_COMPONENT)%Z.
Definition best_if (usable : Z -> Z -> Prop) (i : Z) : Prop := exists m, usable i m /\ forall j m', usable j m' -> (m <= m')%Z.

Lemma best_of_family entry l family table order ipv6 i m :
  (forall s : gset Z, order s ≡ₚ elements s) -> family = (if ipv6 : bool then AF_INET6 else AF_INET) ->
  get_min_metric_if entry order (default_ifs table ∅ ∩ fold_left physical_step l ∅) ipv6 = (i, m) ->
  if (i =? 0)%Z then forall j m', ~ usable_if entry l family table j m' else best_if (usable_if entry l family table) i.
Proof.
  intros Horder -> Hr. set (ifs := default_ifs table ∅ ∩ fold_left physical_step l ∅) in *.
  assert (forall j, j ∈ ifs <-> is_physical l j /\ routes_default table j) as Hifs.
  { intros j. unfold ifs. rewrite elem_of_intersection, elem_of_default_ifs, elem_of_physical. unfold routes_default. set_solver. }
  pose proof (get_min_metric_if_spec entry order Horder ifs ipv6) as Hspec. cbv zeta in Hspec. rewrite Hr in Hspec. cbn [fst snd] in Hspec.
  assert (0%Z ∉ ifs) as H0 by (rewrite Hifs; unfold is_physical; naive_solver). specialize (Hspec H0).
  unfold usable_if, best_if, candidate in *. destruct (i =? 0)%Z.
  - intros j m' (Hp & Hd & He & Hm). apply (Hspec j m'). rewrite Hifs. done.
  - destruct Hspec as [(Hi & He & Hm) Hmin]. apply Hifs in Hi as [Hp Hd]. exists m. split; [done|].
    intros j m' (Hp' & Hd' & He' & Hm'). apply (Hmin j m'). rewrite Hifs. done.
Qed.

(** C24: On Windows, when the system answers, the active interface is a physical one over which a default route of
    its family goes, connected and with the smallest metric of all such; one of IPv6 is only answered when there is
    none of IPv4, and [0] only when there is none at all.  The order in which sets are walked does not matter. *)
Theorem win_detect_active_if_best tables entry l order table_v4 table_v6 :
  (forall s : gset Z, order s ≡ₚ elements s) -> tables AF_INET = inr table_v4 -> tables AF_INET6 = inr table_v6 ->
  let usable4 := usable_if entry l AF_INET table_v4 in
  let usable6 := usable_if entry l AF_INET6 table_v6 in
  let i := (win_detect_active_if tables entry ERROR_BUFFER_OVERFLOW (inr l) order).1 in
  if (i =? 0)%Z then forall j m, ~ usable4 j m /\ ~ usable6 j m
  else best_if usable4 i \/ (forall j m, ~ usable4 j m) /\ best_if usable6 i.
Proof.
  intros Horder H4 H6 usable4 usable6. unfold win_detect_active_if, win_get_physical_interfaces, get_default_route_ifs.
  rewrite H4, H6. cbn [Z.eqb negb ri_error ri_v4 ri_v6 fst snd ERROR_SUCCESS]. change (negb (ERROR_BUFFER_OVERFLOW =? ERROR_BUFFER_OVERFLOW)%Z) with false.
  cbv iota. destruct (bool_decide_reflect (fold_left physical_step l ∅ = ∅)) as [E|_].
  - cbn. intros j m. assert (~ is_physical l j) as Hn.
    { intros Hj. assert (j ∈ (∅ : gset Z)) as []%not_elem_of_empty by (rewrite <- E, elem_of_physical; by right). }
    unfold usable4, usable6, usable_if. naive_solver.
  - destruct (get_min_metric_if entry order (default_ifs table_v4 ∅ ∩ _) false) as [i4 m4] eqn:E4.
    destruct (get_min_metric_if entry order (default_ifs table_v6 ∅ ∩ _) true) as [i6 m6] eqn:E6.
    apply (best_of_family _ _ AF_INET) in E4; [|done..]. apply (best_of_family _ _ AF_INET6) in E6; [|done..].
    fold usable4 in E4. fold usable6 in E6. destruct (Z.eqb_spec i4 0) as [->|Hi4]; cbn [negb fst].
    + destruct (i6 =? 0)%Z; [naive_solver|]. by right.
    + rewrite (proj2 (Z.eqb_neq _ _) Hi4). by left.
Qed.

(** Two interfaces with a default route of IPv4, the second better, one adapter being a tunnel. *)
Definition ex_adapters : list Adapter :=
  [MkAdapter IF_TYPE_IEEE80211 IfOperStatusUp true 5 5 50 50; MkAdapter IF_TYPE_ETHERNET_CSMACD IfOperStatusUp true 7 7 25 25;
   MkAdapter 53 IfOperStatusUp true 9 9 1 1].
Definition ex_default : list ForwardRow := map (MkRow (sa_of_bytes [0; 0; 0; 0] 0) 0)%Z [5; 7; 9]%Z.
Definition ex_entry (family i : Z) : option InterfaceRow :=
  if (i =? 5)%Z then Some (MkInterface true 50) else if (i =? 7)%Z then Some (MkInterface true 25) else Some (MkInterface true 1).
Definition ex_tables (family : Z) : Z + list ForwardRow := inr (if (family =? AF_INET)%Z then ex_default else []).

Lemma win_detect_active_if_best_witness :
  (win_detect_active_if ex_tables ex_entry ERROR_BUFFER_OVERFLOW (inr ex_adapters) elements).1 = 7%Z /\
  (best_if (usable_if ex_entry ex_adapters AF_INET ex_default) 7 \/
   (forall j m, ~ usable_if ex_entry ex_adapters AF_INET ex_default j m) /\ best_if (usable_if ex_entry ex_adapters AF_INET6 []) 7).
Proof.
  assert ((win_detect_active_if ex_tables ex_entry ERROR_BUFFER_OVERFLOW (inr ex_adapters) elements).1 = 7%Z) as E by (by vm_compute).
  split; [exact E|].
  pose proof (win_detect_active_if_best ex_tables ex_entry ex_adapters elements ex_default [] (fun s => reflexivity _) eq_refl eq_refl) as Hb.
  cbv zeta in Hb. rewrite E in Hb. exact Hb.
Defined.

(** The tables of the system are never freed. *)
Lemma forward_tables_leak tables table_v4 table_v6 :
  tables AF_INET = inr table_v4 -> tables AF_INET6 = inr table_v6 -> ri_tables (get_default_route_ifs tables) = 2.
Proof. intros H4 H6. unfold get_default_route_ifs. by rewrite H4, H6. Qed.

(** ** Facts: the preferred adapter *)

(** The offers of the adapters that are up, in the order in which they are looked at. *)
Definition offers (l : list Adapter) : list (Z * Z) :=
  List.filter (fun o => negb (o.1 =? 0)%Z)
    (flat_map (fun p => if (OperStatus p =? IfOperStatusUp)%Z then [(IfIndex p, Ipv4Metric p); (Ipv6IfIndex p, Ipv6Metric p)] else []) l).

Definition offer_step (best o : Z * Z) : Z * Z := if (o.2 <=? best.2)%Z then o else best.

Lemma preferred_offers l best : fold_left preferred_step l best = fold_left offer_step (offers l) best.
Proof.
  revert best. induction l as [|p l IH]; intros best; [done|]. unfold offers in *. cbn [fold_left flat_map].
  rewrite IH, List.filter_app, fold_left_app. f_equal. unfold preferred_step, offer_step.
  destruct (OperStatus p =? IfOperStatusUp)%Z; cbn [negb]; [|done]. cbn [List.filter fst].
  by destruct (IfIndex p =? 0)%Z, (Ipv6IfIndex p =? 0)%Z; cbn [negb fold_left andb snd]; repeat case_match.
Qed.

Lemma offer_fold l best :
  let r := fold_left offer_step l best in
  (r = best \/ r ∈ l) /\ (r.2 <= best.2)%Z /\ forall o, o ∈ l -> (r.2 <= o.2)%Z.
Proof.
  revert best. induction l as [|o l IH]; intros best r; cbn [fold_left] in r.
  { repeat split; [by left|subst r; lia|]. by intros ? ?%elem_of_nil. }
  destruct (IH (offer_step best o)) as (Hr & Hle & Hmin). fold r in Hr, Hle, Hmin. unfold offer_step in Hr, Hle.
  destruct (Z.leb_spec o.2 best.2); cbn in Hr, Hle; repeat split.
  - right. rewrite elem_of_cons. naive_solver.
  - lia.
  - intros o' [->|Ho]%elem_of_cons; [done|]. by apply Hmin.
  - rewrite elem_of_cons. naive_solver.
  - done.
  - intros o' [->|Ho]%elem_of_cons; [lia|]. by apply Hmin.
Qed.

(** The text is that of an adapter that is up and whose index has the smallest metric of both families, and empty
    only when there is no such adapter or the system has no GUID for it. *)
Lemma preferred_adapter_best to_guid first second l :
  first = inr l \/ first = inl ERROR_BUFFER_OVERFLOW /\ second = inr l -> Forall (fun o => o.2 <= ULONG_MAX)%Z (offers l) ->
  match offers l with
  | [] => win_get_preferred_adapter_guid to_guid first second = []
  | _ => exists o, o ∈ offers l /\ (forall o', o' ∈ offers l -> (o.2 <= o'.2)%Z) /\
           win_get_preferred_adapter_guid to_guid first second = if_index_to_uuid to_guid o.1
  end.
Proof.
  intros Hans Hmax. assert (win_get_preferred_adapter_guid to_guid first second =
    let r := fold_left offer_step (offers l) (0%Z, ULONG_MAX) in if (r.1 =? 0)%Z then [] else if_index_to_uuid to_guid r.1) as ->.
  { unfold win_get_preferred_adapter_guid. rewrite <- preferred_offers.
    destruct Hans as [->|[-> ->]]; cbn; by destruct (fold_left preferred_step l _). }
  assert (Forall (fun o => o.1 <> 0%Z) (offers l)) as Hne.
  { rewrite Forall_forall. intros o [_ Ho]%list_elem_of_In%filter_In. by destruct (Z.eqb_spec o.1 0). }
  destruct (offers l) as [|o0 os]; [done|]. apply Forall_cons in Hmax as [H0 _]. cbn [fold_left].
  assert (offer_step (0%Z, ULONG_MAX) o0 = o0) as -> by (unfold offer_step; cbn [snd]; by rewrite (proj2 (Z.leb_le _ _) H0)).
  destruct (offer_fold os o0) as (Hr & Hle & Hmin). set (r := fold_left offer_step os o0) in *. exists r.
  assert (r ∈ o0 :: os) as Hin by (apply elem_of_cons; naive_solver). split; [done|]. split.
  - intros o' [->|Ho]%elem_of_cons; [done|]. by apply Hmin.
  - rewrite Forall_forall in Hne. cbv zeta. by rewrite (proj2 (Z.eqb_neq _ _) (Hne r Hin)).
Qed.

(** ** Facts: the registry *)

Section RegistryFacts.
Context (RegOpenKeyExA : bytes -> Z) (RegSetKeyValueA : bytes -> bytes -> Z) (RegGetValueA : option bytes -> Z * bytes).

(** What is documented of [RegGetValueA] for a string value: it hands out a null-terminated string also when the
    stored bytes are not one, and an error when there is no value. *)
Definition reg_get_law : Prop :=
  (forall v, 0%Z ∉ v -> RegGetValueA (Some v) = (ERROR_SUCCESS, v ++ [0%Z])) /\ (RegGetValueA None).1 <> ERROR_SUCCESS.

Lemma c_string_nul v : 0%Z ∉ v -> c_string (v ++ [0%Z]) = v.
Proof.
  unfold c_string. induction v as [|c v IH]; intros Hn; [done|]. apply not_elem_of_cons in Hn as [Hc Hn]. cbn [app take_while].
  rewrite (proj2 (Z.eqb_neq c 0)) by done. cbn [negb]. by rewrite IH.
Qed.

(** Every key that is opened is closed. *)
Lemma registry_keys dns guid ipv6 r :
  keys_open (win_set_if_nameserver RegOpenKeyExA RegSetKeyValueA dns guid ipv6 r).2 = keys_open r /\
  keys_open (win_get_if_nameserver RegOpenKeyExA RegGetValueA guid ipv6 r).2 = keys_open r.
Proof.
  unfold win_set_if_nameserver, win_get_if_nameserver. split.
  - destruct (_ =? _)%Z; [|done]. cbn. by destruct (_ =? _)%Z.
  - destruct (negb _); [done|]. cbn. destruct (RegGetValueA _) as [e d]. destruct (_ || _); [done|]. by destruct (negb _).
Qed.

(** The servers that were set are read back, and those of the other family and of other interfaces stay. *)
Lemma nameserver_roundtrip dns guid ipv6 r :
  reg_get_law -> 0%Z ∉ dns -> RegOpenKeyExA (interfaces_path ipv6) = ERROR_SUCCESS ->
  let '(error, r') := win_set_if_nameserver RegOpenKeyExA RegSetKeyValueA dns guid ipv6 r in
  if (error =? ERROR_SUCCESS)%Z then
    (win_get_if_nameserver RegOpenKeyExA RegGetValueA guid ipv6 r').1 = Some dns /\
    forall guid' ipv6', (guid', ipv6') <> (guid, ipv6) ->
      (win_get_if_nameserver RegOpenKeyExA RegGetValueA guid' ipv6' r').1 = (win_get_if_nameserver RegOpenKeyExA RegGetValueA guid' ipv6' r).1
  else values r' = values r.
Proof.
  intros [Hget _] Hdns Hopen. unfold win_set_if_nameserver. rewrite Hopen. cbn [Z.eqb ERROR_SUCCESS].
  destruct (Z.eqb_spec (RegSetKeyValueA (interfaces_path ipv6) guid) 0) as [E|E]; cbn [values keys_open]; [rewrite E|].
  - cbn [Z.eqb]. unfold win_get_if_nameserver. rewrite Hopen. cbn [Z.eqb negb values keys_open ERROR_SUCCESS].
    rewrite lookup_insert_eq, (Hget dns Hdns). cbn [Z.eqb negb orb ERROR_SUCCESS]. rewrite length_app, Nat.add_1_r. cbn [Nat.eqb fst].
    split.
    + f_equal. rewrite <- app_assoc, <- app_comm_cons, take_app, take_ge by lia.
      replace (S (length dns) - length dns) with 1 by lia. by apply c_string_nul.
    + intros guid' ipv6' Hne. destruct (negb _); [done|]. cbn [values keys_open]. rewrite lookup_insert_ne.
      { destruct (RegGetValueA _) as [e d]. destruct (_ || _); [done|]. by destruct (negb _). }
      intros [= Hp ->]. apply Hne. f_equal. by destruct ipv6, ipv6'.
  - unfold ERROR_SUCCESS. by rewrite (proj2 (Z.eqb_neq _ _) E).
Qed.
End RegistryFacts.

(** ** Facts: Apple's DNS servers *)

(** The servers are the numeric texts of the valid entries, in order. *)
Lemma apple_dns_servers_main loc getnameinfo_host addrs :
  exists s, apple_dns_servers loc getnameinfo_host (Some addrs) = RValue s /\
    main s = map (fun a => MkServer (host_str getnameinfo_host false a) None)
      (List.filter sa_valid (map (fun a => sa_of_sockaddr (Some a)) addrs)).
Proof.
  eexists. split; [reflexivity|].
  match goal with |- main (fold_left ?f _ _) = _ => assert (forall s0, main (fold_left f addrs s0) = main s0 ++
    map (fun a => MkServer (host_str getnameinfo_host false a) None) (List.filter sa_valid (map (fun a => sa_of_sockaddr (Some a)) addrs))) as Hall end;
    [|by rewrite Hall].
  induction addrs as [|a addrs IH]; intros s0; cbn [fold_left map List.filter]; [by rewrite app_nil_r|]. rewrite IH.
  destruct (sa_valid _); cbn [negb map main]; [by rewrite <- app_assoc|done].
Qed.
