(* ===== verification/WfpEngine.v ===== *)
(** * The filtering engine the firewall calls

    The Windows Filtering Platform is not part of the repository: here are the structures the firewall
    fills, the interface [Engine] of the calls it makes, and the laws [EngineLaws] with what is documented
    of them: the transactions of a session are atomic, a dynamic session takes its objects with it when it
    is closed, and of the filters of a sublayer that apply to a flow the one with the highest weight
    decides.  At the end is an engine that keeps the laws. *)

From S2P Require Import StringView Cidr Netlink Guid StateMonad.

#[export] Instance guid_eq : EqDecision GUID.
Proof. solve_decision. Defined.

Inductive Layer := ALE_AUTH_CONNECT_V4 | ALE_AUTH_RECV_ACCEPT_V4 | ALE_AUTH_CONNECT_V6 | ALE_AUTH_RECV_ACCEPT_V6.
Inductive Action := FWP_ACTION_PERMIT | FWP_ACTION_BLOCK.
Inductive Field := ALE_APP_ID | IP_REMOTE_PORT | IP_LOCAL_PORT | IP_PROTOCOL | IP_REMOTE_ADDRESS | IP_LOCAL_ADDRESS.

#[export] Instance layer_eq : EqDecision Layer.
Proof. solve_decision. Defined.
#[export] Instance action_eq : EqDecision Action.
Proof. solve_decision. Defined.
#[export] Instance field_eq : EqDecision Field.
Proof. solve_decision. Defined.

(** The values a condition compares a field with, [FWP_MATCH_EQUAL] being the only match type in use.  The
    numbers of an IPv4 range are in host order. *)
Inductive FWP_CONDITION_VALUE0 :=
| FWP_BYTE_BLOB_TYPE (blob : bytes)
| FWP_UINT8 (n : Z)
| FWP_UINT16 (n : Z)
| FWP_V4_ADDR_MASK (addr mask : Z)
| FWP_V6_ADDR_MASK (addr : bytes) (prefixLength : nat).

Record FWPM_FILTER_CONDITION0 := MkCondition { fieldKey : Field; conditionValue : FWP_CONDITION_VALUE0 }.

Record FWPM_PROVIDER0 := MkProvider { p_key : GUID; p_name : bytes }.
Record FWPM_SUBLAYER0 := MkSubLayer { sl_key : GUID; sl_name : bytes }.

Record FWPM_FILTER0 := MkFilter {
  displayName : bytes;
  providerKey : GUID;
  layerKey : Layer;
  subLayerKey : GUID;
  weight : Z;
  filterCondition : list FWPM_FILTER_CONDITION0;
  action : Action
}.

Inductive Object := OProvider (p : FWPM_PROVIDER0) | OSubLayer (s : FWPM_SUBLAYER0) | OFilter (f : FWPM_FILTER0).

(** ** Filtering *)

(** What an ALE layer knows of a flow it authorizes. *)
Record Flow := MkFlow {
  fl_layer : Layer;
  fl_app_id : bytes;
  fl_protocol : Z;
  fl_local : bytes;
  fl_local_port : Z;
  fl_remote : bytes;
  fl_remote_port : Z
}.

Definition is_v4 (l : Layer) : bool := match l with ALE_AUTH_CONNECT_V4 | ALE_AUTH_RECV_ACCEPT_V4 => true | _ => false end.

(** The number whose big-endian bytes are [s]. *)
Definition host_order (s : bytes) : Z := fold_left (fun n b => 256 * n + b)%Z s 0%Z.

(** Whether an address is in the range of a condition. *)
Definition address_matches (v : FWP_CONDITION_VALUE0) (s : bytes) : bool :=
  match v with
  | FWP_V4_ADDR_MASK addr mask => (length s =? 4) && (Z.land (host_order s) mask =? Z.land addr mask)%Z
  | FWP_V6_ADDR_MASK addr n => (length s =? 16) && bool_decide (take n (bits s) = take n (bits addr))
  | _ => false
  end.

Definition number_matches (v : FWP_CONDITION_VALUE0) (n : Z) : bool :=
  match v with FWP_UINT8 m | FWP_UINT16 m => (n =? m)%Z | _ => false end.

Definition condition_holds (t : Flow) (c : FWPM_FILTER_CONDITION0) : bool :=
  match fieldKey c with
  | ALE_APP_ID => match conditionValue c with FWP_BYTE_BLOB_TYPE b => bool_decide (b = fl_app_id t) | _ => false end
  | IP_REMOTE_PORT => number_matches (conditionValue c) (fl_remote_port t)
  | IP_LOCAL_PORT => number_matches (conditionValue c) (fl_local_port t)
  | IP_PROTOCOL => number_matches (conditionValue c) (fl_protocol t)
  | IP_REMOTE_ADDRESS => address_matches (conditionValue c) (fl_remote t)
  | IP_LOCAL_ADDRESS => address_matches (conditionValue c) (fl_local t)
  end.

(** Conditions on one field are alternatives; every field that has conditions must have one that holds. *)
Definition conditions_hold (t : Flow) (cs : list FWPM_FILTER_CONDITION0) : bool :=
  forallb (fun c => existsb (fun d => bool_decide (fieldKey d = fieldKey c) && condition_holds t d) cs) cs.

Definition applies (sublayer : GUID) (t : Flow) (f : FWPM_FILTER0) : bool :=
  bool_decide (subLayerKey f = sublayer) && bool_decide (layerKey f = fl_layer t) && conditions_hold t (filterCondition f).

Definition filters_of (os : list Object) : list FWPM_FILTER0 := omap (fun o => match o with OFilter f => Some f | _ => None end) os.

(** ** The calls *)

Definition ERROR_SUCCESS : Z := 0.
Definition INVALID_HANDLE_VALUE : Z := -1.

(** The calls change the state [E] of the system; a number they return is an error code, [0] for success.
    [FwpmEngineOpen0] is given the handle it may overwrite. *)
Class Engine (E : Type) := {
  FwpmEngineOpen0 : bytes -> Z -> E -> Z * Z * E;
  FwpmEngineClose0 : Z -> E -> E;
  FwpmTransactionBegin0 : Z -> E -> Z * E;
  FwpmTransactionAbort0 : Z -> E -> E;
  FwpmTransactionCommit0 : Z -> E -> Z * E;
  Fwpm_add : Z -> Object -> E -> Z * E;
  OpenProcess : Z -> E -> Z * E;
  QueryFullProcessImageNameW : Z -> E -> option bytes * E;
  CloseHandle : Z -> E -> E;
  GetModuleFileNameW : E -> option bytes * E;
  GetLastError : E -> Z;
  FwpmGetAppIdFromFileName : bytes -> E -> Z * bytes * E;
  FwpmFreeMemory : bytes -> E -> E;
  (** what the filters of a session say of a flow in a sublayer *)
  classify : E -> Z -> GUID -> Flow -> Action
}.

(** The objects of a session that are in force, and those it will have if its transaction is committed. *)
Record Session := MkSession { committed : list Object; pending : option (list Object) }.

(** What is known of a state: the open sessions, and how many process handles and blobs the process holds. *)
Class EngineView (E : Type) := {
  session : E -> Z -> option Session;
  held : E -> nat
}.

(** The parts of the state a call does not touch. *)
Definition same_view {E} `{EngineView E} (e e' : E) : Prop := (forall h, session e' h = session e h) /\ held e' = held e.
Definition same_sessions {E} `{EngineView E} (e e' : E) : Prop := forall h, session e' h = session e h.

Class EngineLaws (E : Type) `{Engine E} `{EngineView E} := {
  open_law name h e :
    let '(error, h', e') := FwpmEngineOpen0 name h e in
    held e' = held e /\
    if (error =? ERROR_SUCCESS)%Z
    then h' <> INVALID_HANDLE_VALUE /\ session e h' = None /\ session e' h' = Some (MkSession [] None) /\
         forall g, g <> h' -> session e' g = session e g
    else h' = h /\ same_sessions e e';
  close_law h e :
    let e' := FwpmEngineClose0 h e in
    held e' = held e /\ session e' h = None /\ forall g, g <> h -> session e' g = session e g;
  begin_law h e s :
    session e h = Some s ->
    let '(error, e') := FwpmTransactionBegin0 h e in
    held e' = held e /\
    session e' h = Some (if (error =? ERROR_SUCCESS)%Z then MkSession (committed s) (Some (committed s)) else s) /\
    forall g, g <> h -> session e' g = session e g;
  abort_law h e c p :
    session e h = Some (MkSession c (Some p)) ->
    let e' := FwpmTransactionAbort0 h e in
    held e' = held e /\ session e' h = Some (MkSession c None) /\ forall g, g <> h -> session e' g = session e g;
  commit_law h e c p :
    session e h = Some (MkSession c (Some p)) ->
    let '(error, e') := FwpmTransactionCommit0 h e in
    held e' = held e /\
    (if (error =? ERROR_SUCCESS)%Z then session e' h = Some (MkSession p None)
     else exists q, session e' h = Some (MkSession c q)) /\
    forall g, g <> h -> session e' g = session e g;
  add_law h o e c p :
    session e h = Some (MkSession c (Some p)) ->
    let '(error, e') := Fwpm_add h o e in
    held e' = held e /\
    session e' h = Some (MkSession c (Some (if (error =? ERROR_SUCCESS)%Z then p ++ [o] else p))) /\
    forall g, g <> h -> session e' g = session e g;
  open_process_law pid e :
    let '(h, e') := OpenProcess pid e in
    same_sessions e e' /\ held e' = (if (h =? 0)%Z then held e else S (held e));
  query_law h e : let '(_, e') := QueryFullProcessImageNameW h e in same_view e e';
  close_handle_law h e : let e' := CloseHandle h e in same_sessions e e' /\ held e' = pred (held e);
  module_name_law e : let '(_, e') := GetModuleFileNameW e in same_view e e';
  app_id_law name e :
    let '(error, _, e') := FwpmGetAppIdFromFileName name e in
    same_sessions e e' /\ held e' = (if (error =? ERROR_SUCCESS)%Z then S (held e) else held e);
  free_memory_law blob e : let e' := FwpmFreeMemory blob e in same_sessions e e' /\ held e' = pred (held e);
  (** the filter with the highest weight decides, when filters of the same weight do not disagree *)
  classify_decided e h s sub t f :
    session e h = Some s ->
    f ∈ filters_of (committed s) -> applies sub t f = true ->
    (forall g, g ∈ filters_of (committed s) -> applies sub t g = true ->
       (weight g <= weight f)%Z /\ (weight g = weight f -> action g = action f)) ->
    classify e h sub t = action f;
  classify_default e h s sub t :
    session e h = Some s ->
    (forall g, g ∈ filters_of (committed s) -> applies sub t g = false) ->
    classify e h sub t = FWP_ACTION_PERMIT
}.

(** ** An engine *)

(** One session, handle [1], and a script of the codes the calls that can fail return, which then are [0]. *)
Record RefEngine := MkRef { r_session : option Session; r_held : nat; r_script : list Z }.

Definition next_code (e : RefEngine) : Z * RefEngine :=
  (hd 0%Z (r_script e), MkRef (r_session e) (r_held e) (tl (r_script e))).

Definition set_session (s : option Session) (e : RefEngine) : RefEngine := MkRef s (r_held e) (r_script e).
Definition set_held (n : nat) (e : RefEngine) : RefEngine := MkRef (r_session e) n (r_script e).

(** The first of the filters with the highest weight among those that apply. *)
Fixpoint best (sub : GUID) (t : Flow) (fs : list FWPM_FILTER0) : option FWPM_FILTER0 :=
  match fs with
  | [] => None
  | f :: fs' =>
      match best sub t fs' with
      | Some g => if applies sub t f && (weight g <=? weight f)%Z then Some f else Some g
      | None => if applies sub t f then Some f else None
      end
  end.

Definition ref_on (h : Z) (f : Session -> RefEngine -> Z * RefEngine) (e : RefEngine) : Z * RefEngine :=
  match r_session e with Some s => if (h =? 1)%Z then f s e else (6%Z, e) | None => (6%Z, e) end.

#[export] Instance ref_engine : Engine RefEngine := {
  FwpmEngineOpen0 name h e :=
    let '(code, e) := next_code e in
    if (code =? 0)%Z then
      match r_session e with None => (0%Z, 1%Z, set_session (Some (MkSession [] None)) e) | Some _ => (1%Z, h, e) end
    else (code, h, e);
  FwpmEngineClose0 h e := if (h =? 1)%Z then set_session None e else e;
  FwpmTransactionBegin0 h := ref_on h (fun s e =>
    match pending s with
    | Some _ => (0x8032000E%Z, e)
    | None => let '(code, e) := next_code e in
              (code, if (code =? 0)%Z then set_session (Some (MkSession (committed s) (Some (committed s)))) e else e)
    end);
  FwpmTransactionAbort0 h e := snd (ref_on h (fun s e => (0%Z, set_session (Some (MkSession (committed s) None)) e)) e);
  FwpmTransactionCommit0 h := ref_on h (fun s e =>
    let '(code, e) := next_code e in
    (code, set_session (Some (MkSession (if (code =? 0)%Z then default (committed s) (pending s) else committed s) None)) e));
  Fwpm_add h o := ref_on h (fun s e =>
    let '(code, e) := next_code e in
    (code, if (code =? 0)%Z then set_session (Some (MkSession (committed s) (fmap (fun p => p ++ [o]) (pending s)))) e else e));
  OpenProcess pid e := let '(code, e) := next_code e in if (code =? 0)%Z then (64%Z, set_held (S (r_held e)) e) else (0%Z, e);
  QueryFullProcessImageNameW h e :=
    let '(code, e) := next_code e in (if (code =? 0)%Z then Some (str "C:\vpn.exe") else None, e);
  CloseHandle h e := set_held (pred (r_held e)) e;
  GetModuleFileNameW e := let '(code, e) := next_code e in (if (code =? 0)%Z then Some (str "C:\self.exe") else None, e);
  GetLastError e := 5%Z;
  FwpmGetAppIdFromFileName name e :=
    let '(code, e) := next_code e in if (code =? 0)%Z then (0%Z, name, set_held (S (r_held e)) e) else (code, [], e);
  FwpmFreeMemory blob e := set_held (pred (r_held e)) e;
  classify e h sub t :=
    match r_session e with
    | Some s => from_option action FWP_ACTION_PERMIT (best sub t (filters_of (committed s)))
    | None => FWP_ACTION_PERMIT
    end
}.

#[export] Instance ref_view : EngineView RefEngine := {
  session e h := if (h =? 1)%Z then r_session e else None;
  held := r_held
}.

Lemma best_spec sub t fs :
  match best sub t fs with
  | Some f => f ∈ fs /\ applies sub t f = true /\ forall g, g ∈ fs -> applies sub t g = true -> (weight g <= weight f)%Z
  | None => forall g, g ∈ fs -> applies sub t g = false
  end.
Proof.
  induction fs as [|f fs IH]; cbn [best]; [by intros g ?%elem_of_nil|].
  destruct (best sub t fs) as [g|], (applies sub t f) eqn:Ha; cbn [andb]; try destruct (Z.leb_spec (weight g) (weight f));
    try (destruct IH as (Hin & Hg & Hmax));
    repeat split; try (set_solver || done); intros g'; rewrite elem_of_cons; intros [->|Hin'] Hg'; try (done || lia || congruence);
    try (specialize (Hmax g' Hin' Hg'); lia); try (rewrite IH in Hg' by done; done).
Qed.

Ltac ref_calls :=
  unfold same_view, same_sessions; cbn [FwpmEngineOpen0 FwpmEngineClose0 FwpmTransactionBegin0 FwpmTransactionAbort0
    FwpmTransactionCommit0 Fwpm_add OpenProcess QueryFullProcessImageNameW CloseHandle GetModuleFileNameW
    FwpmGetAppIdFromFileName FwpmFreeMemory session held ref_engine ref_view];
  unfold ref_on, next_code, set_session, set_held, ERROR_SUCCESS, INVALID_HANDLE_VALUE.

(** Every case of the calls but [classify]: at most one session, and the next code of the script. *)
Ltac ref_law :=
  match goal with e : RefEngine |- _ => destruct e as [[[? ?]|] ? ?] end;
  ref_calls; simpl in *; repeat (case_match; simplify_eq/=); repeat (case_match; bool_to_prop; simplify_eq/=);
  repeat split; intros; repeat (case_match; bool_to_prop; simplify_eq/=); eauto; try lia; try done.

#[export] Instance ref_laws : EngineLaws RefEngine.
Proof.
  split; cbv zeta.
  1-12: intros; ref_law.
  - intros e h s sub t f Hs Hf Ha Hmax. cbn [session ref_view classify ref_engine] in *. case_match; [|done]. rewrite Hs.
    pose proof (best_spec sub t (filters_of (committed s))) as Hb. destruct (best _ _ _) as [g|]; cbn [from_option].
    + destruct Hb as (Hin & Hg & Hle). destruct (Hmax g Hin Hg) as [Hw Heq]. apply Heq. specialize (Hle f Hf Ha). lia.
    + rewrite Hb in Ha by done. done.
  - intros e h s sub t Hs Hno. cbn [session ref_view classify ref_engine] in *. case_match; [|done]. rewrite Hs.
    pose proof (best_spec sub t (filters_of (committed s))) as Hb. destruct (best _ _ _) as [g|]; [|done].
    destruct Hb as (Hin & Hg & _). rewrite Hno in Hg by done. done.
Qed.
