(* ===== verification/WfpFirewall.v ===== *)
(** * The firewall: [common/wfp_firewall.cpp]

    Each operation adds filters to the engine in one transaction.  The state of the computations is that
    of the system; [None] is a read behind the data of an address, the first element of an empty vector
    or a null [m_impl].  What is logged, and the reservation of vectors, is left out. *)

From S2P Require Import StringView Utils Error SystemDns Cidr Netlink Guid StateMonad WfpEngine.

Definition DNS_RESTRICT_DENY_WEIGHT : Z := 1.
Definition DNS_RESTRICT_ALLOW_WEIGHT : Z := 2.
Definition IPV6_BLOCK_DENY_WEIGHT : Z := 3.
Definition UNTUNNELED_BLOCK_DENY_WEIGHT : Z := 3.
Definition UNTUNNELED_BLOCK_ALLOW_WEIGHT : Z := 4.
Definition SELF_ALLOW_WEIGHT : Z := 15.

Definition IPPROTO_TCP : Z := 6.
Definition IPPROTO_UDP : Z := 17.

Inductive WfpFirewallErrorCode := FE_NOT_INITIALIZED | FE_WFP_ERROR | FE_WINAPI_ERROR.

#[export] Instance firewall_error_string : ErrorCodeToString WfpFirewallErrorCode := fun e =>
  match e with
  | FE_NOT_INITIALIZED => str "The firewall failed to initialize"
  | FE_WFP_ERROR => str "A WFP function call failed"
  | FE_WINAPI_ERROR => str "A Windows API function call failed"
  end.

(** An error, or [nullptr]. *)
Definition WfpFirewallError : Type := option (ErrorImpl WfpFirewallErrorCode).

Record Impl := MkImpl { engine_handle : Z; provider_key : GUID; sublayer_key : GUID; name : bytes }.

Definition v4_layers : list Layer := [ALE_AUTH_CONNECT_V4; ALE_AUTH_RECV_ACCEPT_V4].
Definition v6_layers : list Layer := [ALE_AUTH_CONNECT_V6; ALE_AUTH_RECV_ACCEPT_V6].

(** Assignments to fields of a filter. *)
Definition set_layer (l : Layer) (f : FWPM_FILTER0) : FWPM_FILTER0 :=
  MkFilter (displayName f) (providerKey f) l (subLayerKey f) (weight f) (filterCondition f) (action f).
Definition set_rule (w : Z) (a : Action) (f : FWPM_FILTER0) : FWPM_FILTER0 :=
  MkFilter (displayName f) (providerKey f) (layerKey f) (subLayerKey f) w (filterCondition f) a.
Definition set_conditions (cs : list FWPM_FILTER_CONDITION0) (f : FWPM_FILTER0) : FWPM_FILTER0 :=
  MkFilter (displayName f) (providerKey f) (layerKey f) (subLayerKey f) (weight f) cs (action f).
Definition set_name (n : bytes) (f : FWPM_FILTER0) : FWPM_FILTER0 :=
  MkFilter n (providerKey f) (layerKey f) (subLayerKey f) (weight f) (filterCondition f) (action f).

(** ** Address ranges as the engine has them *)

(** [ntohl] of a number read from four bytes of memory, on a little-endian machine. *)
Definition ntohl (x : Z) : Z :=
  Z.lor (Z.shiftl (Z.land x 0xff) 24)
    (Z.lor (Z.shiftl (Z.land (Z.shiftr x 8) 0xff) 16)
      (Z.lor (Z.shiftl (Z.land (Z.shiftr x 16) 0xff) 8) (Z.land (Z.shiftr x 24) 0xff))).

Definition read_u32 (mem : bytes) : option Z := if length mem <? 4 then None else Some (field 4 0 mem).

Definition fwp_v4_range_from_cidr_range (range : CidrRange) : option FWP_CONDITION_VALUE0 :=
  a ← read_u32 (get_address range);
  m ← read_u32 (get_mask range);
  Some (FWP_V4_ADDR_MASK (ntohl a) (ntohl m)).

(** The prefix length is a [UINT8] of the structure. *)
Definition fwp_v6_range_from_cidr_range (range : CidrRange) : option FWP_CONDITION_VALUE0 :=
  if length (get_address range) <? IPV6_ADDRESS_SIZE then None
  else Some (FWP_V6_ADDR_MASK (take IPV6_ADDRESS_SIZE (get_address range)) (Z.to_nat (u8 (Z.of_nat (get_prefix_len range))))).

(** What the code for the two families differs in. *)
Record Family := MkFamily {
  fam_size : nat;
  fam_range : CidrRange -> option FWP_CONDITION_VALUE0;
  fam_layers : list Layer;
  fam_text : bytes;
  fam_loopback : bytes
}.

Definition V4 : Family :=
  MkFamily IPV4_ADDRESS_SIZE fwp_v4_range_from_cidr_range v4_layers (str "IPv4") (str "127.0.0.1/32").
Definition V6 : Family :=
  MkFamily IPV6_ADDRESS_SIZE fwp_v6_range_from_cidr_range v6_layers (str "IPv6") (str "::1/128").

(** The conditions on the remote address of the loops over ranges; those of the other family are skipped. *)
Fixpoint remote_conditions (fam : Family) (ranges : list CidrRange) : option (list FWPM_FILTER_CONDITION0) :=
  match ranges with
  | [] => Some []
  | range :: ranges' =>
      if negb (length (get_address range) =? fam_size fam) then remote_conditions fam ranges'
      else
        v ← fam_range fam range;
        cs ← remote_conditions fam ranges';
        Some (MkCondition IP_REMOTE_ADDRESS v :: cs)
  end.

Section Firewall.
Context {E : Type} `{Engine E}.

(** The place the compiler writes into an error; [inet_pton] and [strerror] of the C library. *)
Context (loc : SourceLocation) (pton4 pton6 : bytes -> option bytes) (strerror : bytes).

(** A call of the system; a value that may not be there. *)
Definition call {A} (f : E -> A * E) : M E A := fun e => Some (f e).
Definition call_ (f : E -> E) : M E unit := fun e => Some (tt, f e).
Definition must {A} (o : option A) : M E A := fun e => match o with Some a => Some (a, e) | None => None end.

Definition FwpmProviderAdd0 (h : Z) (p : FWPM_PROVIDER0) : E -> Z * E := Fwpm_add h (OProvider p).
Definition FwpmSubLayerAdd0 (h : Z) (s : FWPM_SUBLAYER0) : E -> Z * E := Fwpm_add h (OSubLayer s).
Definition FwpmFilterAdd0 (h : Z) (f : FWPM_FILTER0) : E -> Z * E := Fwpm_add h (OFilter f).

(** [make_error(code, AG_FMT("... failed with code {:#x}", error))]. *)
Definition failed (code : WfpFirewallErrorCode) (what : bytes) (error : Z) : WfpFirewallError :=
  Some (make_error_msg loc code (what ++ str " failed with code 0x" ++ fmt_hex error) None).

(** [if (auto error = ...) { return error; }]. *)
Definition and_then (m k : M E WfpFirewallError) : M E WfpFirewallError :=
  r ← m; match r with Some error => mret (Some error) | None => k end.

Definition checked (what : bytes) (f : E -> Z * E) : M E WfpFirewallError :=
  error ← call f;
  if negb (error =? ERROR_SUCCESS)%Z then mret (failed FE_WFP_ERROR what error) else mret None.

Definition run_transaction (h : Z) (func : M E WfpFirewallError) : M E WfpFirewallError :=
  error ← call (FwpmTransactionBegin0 h);
  if negb (error =? ERROR_SUCCESS)%Z then mret (failed FE_WFP_ERROR (str "FwpmTransactionBegin0") error)
  else
    r ← func;
    match r with
    | Some error =>
        call_ (FwpmTransactionAbort0 h);; mret (Some error)
    | None =>
        error ← call (FwpmTransactionCommit0 h);
        if negb (error =? ERROR_SUCCESS)%Z then mret (failed FE_WFP_ERROR (str "FwpmTransactionCommit0") error)
        else mret None
    end.

(** The loops over layers. *)
Fixpoint add_to_layers (h : Z) (filter : FWPM_FILTER0) (layers : list Layer) : M E WfpFirewallError :=
  match layers with
  | [] => mret None
  | layer_key :: layers' =>
      and_then (checked (str "FwpmFilterAdd0") (FwpmFilterAdd0 h (set_layer layer_key filter)))
        (add_to_layers h filter layers')
  end.

(** ** The constructor *)

Definition register_base_objects (impl : Impl) : M E WfpFirewallError :=
  and_then
    (checked (str "FwpmProviderAdd0")
      (FwpmProviderAdd0 (engine_handle impl) (MkProvider (provider_key impl) (name impl ++ str " provider"))))
    (checked (str "FwpmSubLayerAdd0")
      (FwpmSubLayerAdd0 (engine_handle impl) (MkSubLayer (sublayer_key impl) (name impl ++ str " sublayer")))).

(** The file of the process that is let through, or an error. *)
Definition module_name (exclude_pid : Z) : M E (ErrorImpl WfpFirewallErrorCode + bytes) :=
  let winapi what (e : Z) := make_error_msg loc FE_WINAPI_ERROR (what ++ str " failed with code 0x" ++ fmt_hex e) None in
  let pid := str " (PID " ++ fmt_dec exclude_pid ++ str ")" in
  if negb (exclude_pid =? 0)%Z then
    h ← call (OpenProcess exclude_pid);
    if (h =? 0)%Z then
      code ← gets GetLastError; mret (inl (winapi (str "OpenProcess" ++ pid) code))
    else
      ret ← call (QueryFullProcessImageNameW h);
      call_ (CloseHandle h);;
      match ret with
      | None => code ← gets GetLastError; mret (inl (winapi (str "QueryFullProcessImageNameW" ++ pid) code))
      | Some file => mret (inr file)
      end
  else
    ret ← call GetModuleFileNameW;
    match ret with
    | None => code ← gets GetLastError; mret (inl (winapi (str "GetModuleFileNameW") code))
    | Some file => mret (inr file)
    end.

Definition self_filter (impl : Impl) (session_name app_id : bytes) : FWPM_FILTER0 :=
  MkFilter session_name (provider_key impl) ALE_AUTH_CONNECT_V4 (sublayer_key impl) SELF_ALLOW_WEIGHT
    [MkCondition ALE_APP_ID (FWP_BYTE_BLOB_TYPE app_id)] FWP_ACTION_PERMIT.

(** The blob is freed when the function is left. *)
Definition allow_self (impl : Impl) (session_name : bytes) (exclude_pid : Z) : M E WfpFirewallError :=
  file ← module_name exclude_pid;
  match file with
  | inl error => mret (Some error)
  | inr file =>
      '(error, app_id) ← call (FwpmGetAppIdFromFileName file);
      if negb (error =? ERROR_SUCCESS)%Z then mret (failed FE_WFP_ERROR (str "FwpmGetAppIdFromFileName") error)
      else
        r ← add_to_layers (engine_handle impl) (self_filter impl session_name app_id) (v4_layers ++ v6_layers);
        call_ (FwpmFreeMemory app_id);;
        mret r
  end.

Definition set_handle (h : Z) (impl : Impl) : Impl := MkImpl h (provider_key impl) (sublayer_key impl) (name impl).

(** [rand1] and [rand2] are the random bytes of the two keys. *)
Definition firewall_new (name : bytes) (exclude_pid : Z) (rand1 rand2 : bytes) : M E Impl :=
  let impl := MkImpl INVALID_HANDLE_VALUE (random_guid rand1) (random_guid rand2) name in
  let session_name := name ++ str " dynamic session" in
  '(error, h) ← call (FwpmEngineOpen0 session_name (engine_handle impl));
  let impl := set_handle h impl in
  if negb (error =? ERROR_SUCCESS)%Z then mret impl
  else
    r ← run_transaction h (register_base_objects impl);
    match r with
    | Some _ => call_ (FwpmEngineClose0 h);; mret (set_handle INVALID_HANDLE_VALUE impl)
    | None =>
        r ← run_transaction h (allow_self impl session_name exclude_pid);
        match r with
        | Some _ => call_ (FwpmEngineClose0 h);; mret (set_handle INVALID_HANDLE_VALUE impl)
        | None => mret impl
        end
    end.

(** ** The operations *)

Definition initialized (impl : Impl) (func : M E WfpFirewallError) : M E WfpFirewallError :=
  if (engine_handle impl =? INVALID_HANDLE_VALUE)%Z then mret (Some (make_error loc FE_NOT_INITIALIZED None))
  else run_transaction (engine_handle impl) func.

Definition dns_conditions : list FWPM_FILTER_CONDITION0 :=
  [MkCondition IP_REMOTE_PORT (FWP_UINT16 PLAIN_DNS_PORT_NUMBER);
   MkCondition IP_PROTOCOL (FWP_UINT8 IPPROTO_TCP);
   MkCondition IP_PROTOCOL (FWP_UINT8 IPPROTO_UDP)].

(** The layer of the filters below is assigned before they are added. *)
Definition dns_filter (impl : Impl) : FWPM_FILTER0 :=
  MkFilter (name impl ++ str " restrict DNS") (provider_key impl) ALE_AUTH_CONNECT_V4 (sublayer_key impl)
    DNS_RESTRICT_DENY_WEIGHT dns_conditions FWP_ACTION_BLOCK.

(** The filter that lets DNS traffic with some addresses through, when there are such. *)
Definition allow_dns (impl : Impl) (fam : Family) (filter : FWPM_FILTER0) (allowed : list CidrRange) : M E WfpFirewallError :=
  cs ← must (remote_conditions fam allowed);
  let conditions := dns_conditions ++ cs in
  if length dns_conditions <? length conditions
  then add_to_layers (engine_handle impl) (set_conditions conditions filter) (fam_layers fam)
  else mret None.

Definition restrict_dns_to (impl : Impl) (allowed_v4 allowed_v6 : list CidrRange) : M E WfpFirewallError :=
  initialized impl (
    let filter := dns_filter impl in
    and_then (add_to_layers (engine_handle impl) filter (v4_layers ++ v6_layers)) (
    let filter := set_rule DNS_RESTRICT_ALLOW_WEIGHT FWP_ACTION_PERMIT filter in
    and_then (allow_dns impl V4 filter allowed_v4) (
    allow_dns impl V6 filter allowed_v6))).

Definition ipv6_filter (impl : Impl) : FWPM_FILTER0 :=
  MkFilter (name impl ++ str " block IPv6") (provider_key impl) ALE_AUTH_CONNECT_V4 (sublayer_key impl)
    IPV6_BLOCK_DENY_WEIGHT [] FWP_ACTION_BLOCK.

Definition block_ipv6 (impl : Impl) : M E WfpFirewallError :=
  initialized impl (add_to_layers (engine_handle impl) (ipv6_filter impl) v6_layers).

Definition untunneled_filter (impl : Impl) (fam : Family) (cs : list FWPM_FILTER_CONDITION0) : FWPM_FILTER0 :=
  MkFilter (name impl ++ str " block untunneled " ++ fam_text fam) (provider_key impl)
    (List.last (fam_layers fam) ALE_AUTH_RECV_ACCEPT_V4) (sublayer_key impl) UNTUNNELED_BLOCK_DENY_WEIGHT cs FWP_ACTION_BLOCK.

(** [CidrRange{text}] in the engine's form. *)
Definition loopback_range (fam : Family) : option FWP_CONDITION_VALUE0 :=
  match cidr_of_string pton4 pton6 strerror loc (fam_loopback fam) with
  | Throws _ => None
  | Returns r => fam_range fam r
  end.

Definition block_untunneled_family (impl : Impl) (fam : Family) (tunaddr : CidrRange) (incl : list CidrRange)
    (excl_ports : list Z) : M E WfpFirewallError :=
  if (length (get_address tunaddr) =? fam_size fam) && negb (bool_decide (incl = [])) then
    let h := engine_handle impl in
    conditions ← must (remote_conditions fam incl);
    _ ← must (head conditions);
    let filter := untunneled_filter impl fam conditions in
    and_then (add_to_layers h filter (fam_layers fam)) (
    tun ← must (fam_range fam tunaddr);
    loopback ← must (loopback_range fam);
    let filter := set_name (displayName filter ++ str " (allow tunneled and loopback)")
      (set_rule UNTUNNELED_BLOCK_ALLOW_WEIGHT FWP_ACTION_PERMIT
        (set_conditions (conditions ++ [MkCondition IP_LOCAL_ADDRESS tun; MkCondition IP_LOCAL_ADDRESS loopback]) filter)) in
    and_then (add_to_layers h filter (fam_layers fam)) (
    if negb (bool_decide (excl_ports = [])) then
      add_to_layers h
        (set_name (name impl ++ str " block untunneled " ++ fam_text fam ++ str " (allow excluded ports)")
          (set_conditions (conditions ++ map (fun port => MkCondition IP_LOCAL_PORT (FWP_UINT16 port)) excl_ports) filter))
        (fam_layers fam)
    else mret None))
  else mret None.

Definition block_untunneled_v4 (impl : Impl) := block_untunneled_family impl V4.
Definition block_untunneled_v6 (impl : Impl) := block_untunneled_family impl V6.

Definition block_untunneled (impl : Impl) (tunaddr4 tunaddr6 : CidrRange) (incl4 incl6 : list CidrRange)
    (excl_ports : list Z) : M E WfpFirewallError :=
  initialized impl (
    and_then (block_untunneled_v4 impl tunaddr4 incl4 excl_ports)
      (block_untunneled_v6 impl tunaddr6 incl6 excl_ports)).

(** ** The object *)

(** [m_impl], null after the object was moved from. *)
Definition WfpFirewall : Type := option Impl.

Definition firewall_destroy (this : WfpFirewall) : M E unit :=
  impl ← must this;
  if negb (engine_handle impl =? INVALID_HANDLE_VALUE)%Z then call_ (FwpmEngineClose0 (engine_handle impl)) else mret tt.

(** The defaulted moves: what [this] and [other] are afterwards.  The [Impl] that [this] had is deleted,
    which does not close its handle. *)
Definition firewall_move (other : WfpFirewall) : WfpFirewall * WfpFirewall := (other, None).
Definition firewall_move_assign (this other : WfpFirewall) : M E (WfpFirewall * WfpFirewall) := mret (other, None).

End Firewall.
