(* ===== verification/WfpFirewallFacts.v ===== *)
(** * What the firewall lets through

    The abstract firewall is the list of the operations that succeeded, with the decision [permits] over
    flows, which is that of the weights, and the decision [documented], which is that of the comments in the
    header.  The theorems show that whatever calls of the engine fail, a flow is decided by the operations
    that reported success, that the filters of the others leave no trace, that construction either
    succeeds or leaves no session behind, and for which flows the two decisions are one. *)

From S2P Require Import StringView Utils Error SystemDns Cidr Netlink Guid StateMonad WfpEngine WfpFirewall.

(** ** The policy *)

Record Untunneled := MkUntunneled { u_tun4 : CidrRange; u_tun6 : CidrRange; u_incl4 : list CidrRange; u_incl6 : list CidrRange; u_ports : list Z }.

Inductive Op := RestrictDns (allowed_v4 allowed_v6 : list CidrRange) | BlockIpv6 | BlockUntunneled (u : Untunneled).

Definition in_ranges (rs : list CidrRange) (s : bytes) : bool := existsb (fun r => contains_address r s) rs.

(** What the arguments are for the family of the flow. *)
Definition by_family {A} (t : Flow) (a4 a6 : A) : A := if is_v4 (fl_layer t) then a4 else a6.

Definition is_dns (t : Flow) : bool :=
  (fl_remote_port t =? PLAIN_DNS_PORT_NUMBER)%Z && ((fl_protocol t =? IPPROTO_TCP)%Z || (fl_protocol t =? IPPROTO_UDP)%Z).

Definition loopback4 : bytes := [127; 0; 0; 1]%Z.
Definition loopback6 : bytes := replicate 15 0%Z ++ [1%Z].

(** Whether the flow should go through the tunnel: to or from an included address. *)
Definition included (u : Untunneled) (t : Flow) : bool :=
  (length (get_address (by_family t (u_tun4 u) (u_tun6 u))) =? by_family t 4 16) &&
  in_ranges (by_family t (u_incl4 u) (u_incl6 u)) (fl_remote t).

(** Whether it does, or need not. *)
Definition exempt (u : Untunneled) (t : Flow) : bool :=
  contains_address (by_family t (u_tun4 u) (u_tun6 u)) (fl_local t) ||
  bool_decide (fl_local t = by_family t loopback4 loopback6) ||
  bool_decide (fl_local_port t ∈ u_ports u).

Definition op_exempts (t : Flow) (op : Op) : bool :=
  match op with BlockUntunneled u => included u t && exempt u t | _ => false end.
Definition op_blocks (t : Flow) (op : Op) : bool :=
  match op with BlockUntunneled u => included u t | BlockIpv6 => negb (is_v4 (fl_layer t)) | RestrictDns _ _ => false end.
Definition op_allows_dns (t : Flow) (op : Op) : bool :=
  match op with RestrictDns v4 v6 => is_dns t && in_ranges (by_family t v4 v6) (fl_remote t) | _ => false end.
Definition op_blocks_dns (t : Flow) (op : Op) : bool :=
  match op with RestrictDns _ _ => is_dns t | _ => false end.

(** [app] is the process that is let through, [ops] the operations that succeeded. *)
Definition permits (app : bytes) (ops : list Op) (t : Flow) : bool :=
  if bool_decide (app = fl_app_id t) then true
  else if existsb (op_exempts t) ops then true
  else if existsb (op_blocks t) ops then false
  else if existsb (op_allows_dns t) ops then true
  else negb (existsb (op_blocks_dns t) ops).

(** What the header says of each operation: that it blocks this flow.  Loopback is the whole network of IPv4. *)
Definition loopback (t : Flow) (s : bytes) : bool :=
  if is_v4 (fl_layer t) then bool_decide (head s = Some 127%Z) else bool_decide (s = loopback6).

Definition documented_block (t : Flow) (op : Op) : bool :=
  match op with
  | RestrictDns v4 v6 => is_dns t && negb (in_ranges (by_family t v4 v6) (fl_remote t))
  | BlockIpv6 => negb (is_v4 (fl_layer t))
  | BlockUntunneled u =>
      included u t && negb (contains_address (by_family t (u_tun4 u) (u_tun6 u)) (fl_local t)) &&
      negb (loopback t (fl_local t) || loopback t (fl_remote t)) && negb (bool_decide (fl_local_port t ∈ u_ports u))
  end.

Definition documented (app : bytes) (ops : list Op) (t : Flow) : bool :=
  bool_decide (app = fl_app_id t) || negb (existsb (documented_block t) ops).

(** Whether an operation is about the flow at all. *)
Definition concerns (t : Flow) (op : Op) : bool :=
  match op with RestrictDns _ _ => is_dns t | BlockIpv6 => negb (is_v4 (fl_layer t)) | BlockUntunneled u => included u t end.

(** No two operations disagree about the flow: one that exempts it as tunneled traffic is met by no other kind that concerns it, lists of
    DNS servers agree on its peer; and loopback traffic is that of the loopback address. *)
Record uncontended (ops : list Op) (t : Flow) : Prop := {
  un_tunnel op op' : op ∈ ops -> op' ∈ ops -> op_exempts t op = true -> concerns t op' = true -> op_exempts t op' = true;
  un_dns v4 v6 op' : RestrictDns v4 v6 ∈ ops -> op' ∈ ops -> op_allows_dns t op' = true -> in_ranges (by_family t v4 v6) (fl_remote t) = true;
  un_loopback : loopback t (fl_local t) || loopback t (fl_remote t) = true -> fl_local t = by_family t loopback4 loopback6
}.

Definition verdict (b : bool) : Action := if b then FWP_ACTION_PERMIT else FWP_ACTION_BLOCK.

Definition flow_ok (t : Flow) : Prop :=
  is_bytes (fl_local t) /\ is_bytes (fl_remote t) /\ length (fl_local t) = by_family t 4 16 /\ length (fl_remote t) = by_family t 4 16.

(** Ranges are those the class makes; included ranges are not all of the other family. *)
Definition has_family (n : nat) (rs : list CidrRange) : Prop := rs = [] \/ Exists (fun r => length (m_address r) = n) rs.
Definition op_ok (op : Op) : Prop :=
  match op with
  | RestrictDns v4 v6 => Forall wf v4 /\ Forall wf v6
  | BlockIpv6 => True
  | BlockUntunneled u =>
      wf (u_tun4 u) /\ wf (u_tun6 u) /\ Forall wf (u_incl4 u) /\ Forall wf (u_incl6 u) /\
      has_family 4 (u_incl4 u) /\ has_family 16 (u_incl6 u)
  end.

Lemma uncontended_sublist ops ops' t : ops' `sublist_of` ops -> uncontended ops t -> uncontended ops' t.
Proof.
  intros Hs [H1 H2 H3]. assert (forall op, op ∈ ops' -> op ∈ ops) as Hin by (intros op Ho; by eapply elem_of_sublist).
  split; [|intros v4 v6 op' Ho Ho'|done]; eauto.
Qed.

(** On such a flow the weights decide what the header says. *)
Lemma permits_documented app ops t : uncontended ops t -> permits app ops t = documented app ops t.
Proof.
  intros [Ht Hd Hl]. unfold permits, documented. case_bool_decide; [done|]. cbn [orb].
  assert (forall op, concerns t op = false -> documented_block t op = false) as Hc by (intros []; cbn; by intros ->).
  assert (forall op, op_exempts t op = true -> documented_block t op = false) as He.
  { intros [| |u]; try done. cbn. intros [-> He]%andb_true_iff. unfold exempt in He. destruct (contains_address _ _); [done|]. cbn [orb negb andb] in *.
    destruct (bool_decide (fl_local_port t ∈ u_ports u)); [by rewrite andb_false_r|]. rewrite orb_false_r in He. apply bool_decide_eq_true in He.
    assert (loopback t (fl_local t) = true) as -> by (rewrite He; unfold loopback, by_family; by destruct (is_v4 (fl_layer t))). done. }
  destruct (existsb (op_exempts t) ops) eqn:E1.
  { apply existsb_exists in E1 as (op & Ho%list_elem_of_In & Eo). symmetry. apply negb_true_iff, not_true_is_false. rewrite existsb_exists.
    intros (op' & Ho'%list_elem_of_In & Eb). destruct (concerns t op') eqn:Ec; [|by rewrite Hc in Eb]. by rewrite He in Eb; [|apply (Ht op op')]. }
  assert (forall op, op ∈ ops -> op_exempts t op = false) as E1'.
  { intros op Ho. apply not_true_is_false. intros Eo. assert (existsb (op_exempts t) ops = true); [|congruence].
    apply existsb_exists. exists op. by rewrite <- list_elem_of_In. }
  destruct (existsb (op_blocks t) ops) eqn:E2.
  { apply existsb_exists in E2 as (op & Ho%list_elem_of_In & Eo). symmetry. apply negb_false_iff, existsb_exists. exists op.
    split; [by apply list_elem_of_In|]. destruct op as [| |u]; try done. specialize (E1' _ Ho). cbn in *. rewrite Eo in *. cbn [andb] in *.
    unfold exempt in E1'. apply orb_false_iff in E1' as [[-> E]%orb_false_iff ->]. apply bool_decide_eq_false in E. cbn [negb andb].
    rewrite andb_true_r. apply negb_true_iff, not_true_is_false. intros Hlo. by apply E, Hl. }
  assert (forall op, op ∈ ops -> documented_block t op = true -> exists v4 v6, op = RestrictDns v4 v6) as Hdns.
  { intros op Ho Eb. destruct op as [v4 v6| |u]; [by exists v4, v6|exfalso..];
      (assert (existsb (op_blocks t) ops = true); [|congruence]); apply existsb_exists; eexists; (split; [by apply list_elem_of_In|]); [done|].
    cbn in *. by destruct (included u t). }
  destruct (existsb (op_allows_dns t) ops) eqn:E3.
  - apply existsb_exists in E3 as (op & Ho%list_elem_of_In & Eo). symmetry. apply negb_true_iff, not_true_is_false. rewrite existsb_exists.
    intros (op' & Ho'%list_elem_of_In & Eb). destruct (Hdns op' Ho' Eb) as (v4 & v6 & ->). cbn in Eb.
    rewrite (Hd v4 v6 op Ho' Ho Eo), andb_false_r in Eb. done.
  - f_equal. apply eq_true_iff_eq. rewrite !existsb_exists. split; intros (op & Ho & Eo).
    + exists op. split; [done|]. destruct op as [v4 v6| |u]; try done. cbn in *. rewrite Eo. cbn [andb]. apply negb_true_iff, not_true_is_false.
      intros Ha. assert (existsb (op_allows_dns t) ops = true); [|congruence]. apply existsb_exists. eexists. split; [exact Ho|]. cbn. by rewrite Eo.
    + exists op. split; [done|]. destruct (Hdns op ltac:(by apply list_elem_of_In) Eo) as (v4 & v6 & ->). cbn in *. by destruct (is_dns t).
Qed.

(** ** Ranges *)

Lemma length4 (s : bytes) : length s = 4 -> exists a b c d, s = [a; b; c; d].
Proof. destruct s as [|a [|b [|c [|d [|]]]]]; try done. intros _. by exists a, b, c, d. Qed.

Lemma host_order4 a b c d : host_order [a; b; c; d] = (((a * 256 + b) * 256 + c) * 256 + d)%Z.
Proof. unfold host_order. cbn [fold_left]. lia. Qed.

Lemma host_order_snoc s b : host_order (s ++ [b]) = (host_order s * 256 + b)%Z.
Proof. unfold host_order. rewrite fold_left_app. cbn [fold_left]. lia. Qed.

Lemma is_bytes_snoc s b : is_bytes (s ++ [b]) -> is_bytes s /\ is_byte b.
Proof. unfold is_bytes. rewrite Forall_app, Forall_singleton. done. Qed.

Lemma land_low x b y m : is_byte b -> is_byte m -> Z.land (x * 256 + b) (y * 256 + m) = (Z.land x y * 256 + Z.land b m)%Z.
Proof.
  intros Hb Hm. pose proof (land_byte b m Hb Hm) as Hbm. unfold is_byte in *. change 256%Z with (2 ^ 8)%Z in *.
  rewrite <- !lor_low by lia. apply Z.bits_inj'. intros n Hn. rewrite ?Z.land_spec, ?Z.lor_spec, ?Z.land_spec.
  rewrite !Z.shiftl_spec by lia. destruct (Z.lt_ge_cases n 8) as [Hlt|Hge].
  - rewrite !(Z.testbit_neg_r _ (n - 8)) by lia. done.
  - assert (forall x, (0 <= x < 2 ^ 8)%Z -> Z.testbit x n = false) as Hz.
    { intros z Hz. rewrite <- (Z.mod_small z (2 ^ 8)) by lia. by rewrite Z.mod_pow2_bits_high by lia. }
    rewrite (Hz b), (Hz m) by lia. by rewrite !orb_false_r, Z.land_spec.
Qed.

Lemma host_order_land s m :
  is_bytes s -> is_bytes m -> length s = length m -> host_order (zip_with Z.land s m) = Z.land (host_order s) (host_order m).
Proof.
  revert m. induction s as [|b s IH] using rev_ind; intros m Hs Hm Hl; [by destruct m|].
  destruct m as [|c m _] using rev_ind; [by destruct s|]. rewrite !length_app in Hl. simpl in Hl.
  apply is_bytes_snoc in Hs as [Hs Hb]. apply is_bytes_snoc in Hm as [Hm Hc].
  rewrite zip_with_app by lia. cbn [zip_with]. by rewrite !host_order_snoc, IH, land_low by (done || lia).
Qed.

Lemma host_order_inj s t : is_bytes s -> is_bytes t -> length s = length t -> host_order s = host_order t -> s = t.
Proof.
  revert t. induction s as [|b s IH] using rev_ind; intros t Hs Ht Hl He; [by destruct t|].
  destruct t as [|c t _] using rev_ind; [by destruct s|]. rewrite !length_app in Hl. simpl in Hl. rewrite !host_order_snoc in He.
  apply is_bytes_snoc in Hs as [Hs Hb]. apply is_bytes_snoc in Ht as [Ht Hc]. unfold is_byte in *.
  f_equal; [apply IH; [done..|lia|lia]|f_equal; lia].
Qed.

Lemma ntohl_bytes s : is_bytes s -> length s = 4 -> read_u32 s = Some (field 4 0 s) /\ ntohl (field 4 0 s) = host_order s.
Proof.
  intros Hs Hl. split; [unfold read_u32; by rewrite Hl|]. destruct (length4 s Hl) as (a & b & c & d & ->).
  unfold is_bytes, is_byte in Hs. rewrite !Forall_cons in Hs. unfold field. cbn [take drop le_num].
  unfold ntohl. set (x := (a + _)%Z). change 0xff%Z with (Z.ones 8). rewrite !Z.land_ones by lia. rewrite !Z.shiftr_div_pow2 by lia.
  assert (x mod 2 ^ 8 = a /\ (x / 2 ^ 8) mod 2 ^ 8 = b /\ (x / 2 ^ 16) mod 2 ^ 8 = c /\ (x / 2 ^ 24) mod 2 ^ 8 = d)%Z as (-> & -> & -> & ->).
  { unfold x. change (2 ^ 8)%Z with 256%Z. change (2 ^ 16)%Z with 65536%Z. change (2 ^ 24)%Z with 16777216%Z.
    repeat split; Z.to_euclidean_division_equations; lia. }
  rewrite (lor_low c d) by lia. rewrite (lor_low b) by lia. rewrite (lor_low a) by lia. rewrite host_order4. lia.
Qed.

(** A range in the engine's form matches the addresses of the range. *)
Lemma v4_range_matches r :
  wf r -> length (m_address r) = 4 ->
  exists v, fwp_v4_range_from_cidr_range r = Some v /\ forall s, is_bytes s -> address_matches v s = contains_address r s.
Proof.
  intros Hr Hl. pose proof (wf_mask_length r Hr) as Hml. unfold fwp_v4_range_from_cidr_range, get_address, get_mask.
  destruct (ntohl_bytes (m_address r) (wf_bytes r Hr) Hl) as [-> Ha].
  destruct (ntohl_bytes (m_mask r) (wf_mask_bytes r Hr) ltac:(lia)) as [-> Hm].
  eexists. split; [reflexivity|]. intros s Hs. cbn [address_matches]. rewrite Ha, Hm. unfold contains_address. rewrite Hl.
  destruct (Nat.eqb_spec (length s) 4) as [Hs4|]; [|done]. cbn [negb andb].
  apply eq_true_iff_eq. rewrite Z.eqb_eq, contains_address_loop_spec by lia.
  rewrite <- !host_order_land by (try apply Hr; done || lia). split; [|by intros ->].
  intros He. symmetry. apply host_order_inj in He; [done|apply zip_land_bytes; try apply Hr; done..|].
  rewrite !length_zip_with. lia.
Qed.

Lemma v6_range_matches r :
  wf r -> length (m_address r) = 16 ->
  exists v, fwp_v6_range_from_cidr_range r = Some v /\ forall s, is_bytes s -> address_matches v s = contains_address r s.
Proof.
  intros Hr Hl. pose proof (wf_prefix r Hr) as Hp. unfold fwp_v6_range_from_cidr_range, get_address, get_prefix_len, IPV6_ADDRESS_SIZE.
  rewrite Hl. cbn [Nat.ltb Nat.leb]. eexists. split; [reflexivity|]. intros s Hs. cbn [address_matches].
  rewrite (take_ge (m_address r)) by lia. unfold u8. rewrite wrap_small, Nat2Z.id by lia. apply eq_true_iff_eq.
  rewrite contains_address_iff, andb_true_iff, Nat.eqb_eq, bool_decide_eq_true, Hl by done. done.
Qed.

(** ** Conditions *)

Lemma conditions_hold_iff t cs :
  conditions_hold t cs = true <-> forall c, c ∈ cs -> exists d, d ∈ cs /\ fieldKey d = fieldKey c /\ condition_holds t d = true.
Proof.
  unfold conditions_hold. rewrite forallb_forall. setoid_rewrite existsb_exists. setoid_rewrite andb_true_iff.
  setoid_rewrite bool_decide_eq_true. by setoid_rewrite list_elem_of_In.
Qed.

(** Groups of conditions on different fields. *)
Lemma conditions_hold_app t cs ds :
  (forall c d, c ∈ cs -> d ∈ ds -> fieldKey c <> fieldKey d) -> conditions_hold t (cs ++ ds) = conditions_hold t cs && conditions_hold t ds.
Proof.
  intros Hne. apply eq_true_iff_eq. rewrite andb_true_iff, !conditions_hold_iff. setoid_rewrite elem_of_app. split.
  - intros Hall. split; intros c Hc; destruct (Hall c) as (d & [Hd|Hd] & Hf & Hh); eauto; exfalso; by eapply Hne.
  - intros [H1 H2] c [Hc|Hc]; [destruct (H1 c Hc) as (d & ? & ?)|destruct (H2 c Hc) as (d & ? & ?)]; eauto.
Qed.

Lemma conditions_hold_same t k cs :
  cs <> [] -> Forall (fun c => fieldKey c = k) cs -> conditions_hold t cs = existsb (condition_holds t) cs.
Proof.
  intros Hne Hk. rewrite Forall_forall in Hk. apply eq_true_iff_eq. rewrite conditions_hold_iff, existsb_exists.
  setoid_rewrite <- list_elem_of_In. split.
  - intros Hall. destruct cs as [|c cs]; [done|]. destruct (Hall c) as (d & Hd & _ & Hh); [set_solver|]. eauto.
  - intros (d & Hd & Hh) c Hc. exists d. rewrite !Hk by done. done.
Qed.

Lemma dns_conditions_hold t : conditions_hold t dns_conditions = is_dns t.
Proof.
  unfold conditions_hold, dns_conditions, is_dns, PLAIN_DNS_PORT_NUMBER, IPPROTO_TCP, IPPROTO_UDP. cbn [forallb existsb fieldKey].
  unfold condition_holds. cbn. destruct (_ =? _)%Z, (_ =? _)%Z, (_ =? _)%Z; done.
Qed.

(** What is needed of the code for a family, and that both have it. *)
Record family_ok (fam : Family) (layer4 : bool) (loopback : bytes) : Prop := {
  fam_matches r : wf r -> length (m_address r) = fam_size fam ->
    exists v, fam_range fam r = Some v /\ forall s, is_bytes s -> address_matches v s = contains_address r s;
  fam_size_eq : fam_size fam = if layer4 then 4 else 16;
  fam_layers_eq l : bool_decide (l ∈ fam_layers fam) = eqb (is_v4 l) layer4
}.

Lemma v4_ok : family_ok V4 true loopback4.
Proof. split; [apply v4_range_matches|done|by intros []]. Qed.
Lemma v6_ok : family_ok V6 false loopback6.
Proof. split; [apply v6_range_matches|done|by intros []]. Qed.

Lemma in_other_family rs s n : length s = n -> Forall (fun r => length (m_address r) <> n) rs -> in_ranges rs s = false.
Proof.
  intros Hs Hrs. apply not_true_is_false. unfold in_ranges. rewrite existsb_exists. intros (r & Hin%list_elem_of_In & Hc).
  rewrite Forall_forall in Hrs. apply Hrs in Hin. unfold contains_address in Hc. case_match eqn:E; bool_to_prop; [done|]. lia.
Qed.

Section Families.
Context {fam : Family} {b4 : bool} {loopback : bytes} (Hfam : family_ok fam b4 loopback).

Lemma remote_conditions_spec rs :
  Forall wf rs ->
  exists cs, remote_conditions fam rs = Some cs /\ Forall (fun c => fieldKey c = IP_REMOTE_ADDRESS) cs /\
    (cs = [] <-> Forall (fun r => length (m_address r) <> fam_size fam) rs) /\
    forall t, is_bytes (fl_remote t) -> length (fl_remote t) = fam_size fam ->
      existsb (condition_holds t) cs = in_ranges rs (fl_remote t).
Proof.
  induction 1 as [|r rs Hr Hrs (cs & Hcs & Hk & He & Hm)]; cbn [remote_conditions].
  { exists []. repeat split; done. }
  unfold get_address. destruct (Nat.eqb_spec (length (m_address r)) (fam_size fam)) as [Hl|Hl]; cbn [negb].
  - destruct (fam_matches _ _ _ Hfam r Hr Hl) as (v & -> & Hv). rewrite Hcs. cbn. eexists. split; [reflexivity|].
    split; [by constructor|]. split; [|].
    + split; [done|]. by intros [? _]%Forall_cons.
    + intros t Ht Hlt. cbn [in_ranges existsb]. rewrite Hm by done. f_equal. unfold condition_holds. cbn [fieldKey conditionValue]. auto.
  - exists cs. split; [done|]. split; [done|]. split; [rewrite Forall_cons; tauto|].
    intros t Ht Hlt. rewrite Hm by done. cbn [in_ranges existsb]. unfold contains_address at 1.
    destruct (Nat.eqb_spec (length (fl_remote t)) (length (m_address r))) as [?|_]; [lia|]. reflexivity.
Qed.
End Families.

(** ** Filters as rules *)

(** The weights in use and what filters of a weight do. *)
Definition rule_action (w : Z) : option Action :=
  if (w =? SELF_ALLOW_WEIGHT)%Z || (w =? UNTUNNELED_BLOCK_ALLOW_WEIGHT)%Z || (w =? DNS_RESTRICT_ALLOW_WEIGHT)%Z then Some FWP_ACTION_PERMIT
  else if (w =? UNTUNNELED_BLOCK_DENY_WEIGHT)%Z || (w =? DNS_RESTRICT_DENY_WEIGHT)%Z then Some FWP_ACTION_BLOCK
  else None.

(** The filters do what their weights say, and [g t w] tells whether one of weight [w] applies to [t]. *)
Definition decides (sub : GUID) (fs : list FWPM_FILTER0) (g : Flow -> Z -> bool) : Prop :=
  Forall (fun f => rule_action (weight f) = Some (action f)) fs /\
  forall t w, flow_ok t -> existsb (fun f => applies sub t f && (weight f =? w)%Z) fs = g t w.

Lemma decides_app sub fs1 fs2 g1 g2 :
  decides sub fs1 g1 -> decides sub fs2 g2 -> decides sub (fs1 ++ fs2) (fun t w => g1 t w || g2 t w).
Proof.
  intros [Hr1 Hg1] [Hr2 Hg2]. split; [by apply Forall_app|]. intros t w Ht. by rewrite existsb_app, Hg1, Hg2.
Qed.

(** The same filter in several layers. *)
Lemma decides_layers sub f ls :
  subLayerKey f = sub -> rule_action (weight f) = Some (action f) ->
  decides sub (map (fun l => set_layer l f) ls)
    (fun t w => bool_decide (fl_layer t ∈ ls) && conditions_hold t (filterCondition f) && (weight f =? w)%Z).
Proof.
  intros <- Hr. split; [by apply Forall_fmap, Forall_true|]. intros t w Ht. induction ls as [|l ls IH]; [done|].
  cbn [map existsb]. rewrite IH. unfold applies at 1. cbn [subLayerKey layerKey filterCondition weight set_layer].
  rewrite (bool_decide_eq_true_2 (subLayerKey f = subLayerKey f)) by done. cbn [andb].
  destruct (conditions_hold t (filterCondition f)), (weight f =? w)%Z; rewrite ?andb_false_r, ?andb_true_r, ?orb_false_r; try done.
  apply eq_true_iff_eq. rewrite orb_true_iff, !bool_decide_eq_true, elem_of_cons. naive_solver.
Qed.

(** The rule of the highest weight that applies. *)
Definition arbitrate (g : Z -> bool) : bool :=
  if g SELF_ALLOW_WEIGHT then true
  else if g UNTUNNELED_BLOCK_ALLOW_WEIGHT then true
  else if g UNTUNNELED_BLOCK_DENY_WEIGHT then false
  else if g DNS_RESTRICT_ALLOW_WEIGHT then true
  else negb (g DNS_RESTRICT_DENY_WEIGHT).

Lemma rule_action_weight w a :
  rule_action w = Some a -> w ∈ [SELF_ALLOW_WEIGHT; UNTUNNELED_BLOCK_ALLOW_WEIGHT; UNTUNNELED_BLOCK_DENY_WEIGHT; DNS_RESTRICT_ALLOW_WEIGHT; DNS_RESTRICT_DENY_WEIGHT].
Proof. unfold rule_action. intros Hw. repeat (case_match; bool_to_prop; try done); set_solver. Qed.

Section Laws.
Context {E : Type} `{EngineLaws E}.

Lemma decides_applies sub fs g t f :
  decides sub fs g -> flow_ok t -> f ∈ fs -> applies sub t f = true -> g t (weight f) = true.
Proof.
  intros [_ Hg] Ht Hin Ha. rewrite <- Hg by done. apply existsb_exists. exists f. rewrite <- list_elem_of_In.
  by rewrite Ha, Z.eqb_refl.
Qed.

(** The heaviest rule that applies decides. *)
Lemma classify_heaviest e h s sub t g w :
  session e h = Some s -> decides sub (filters_of (committed s)) g -> flow_ok t -> g t w = true ->
  (forall w' a, rule_action w' = Some a -> (w < w')%Z -> g t w' = false) -> Some (classify e h sub t) = rule_action w.
Proof.
  intros Hs Hd Ht Hw Hup. pose proof Hd as [Hr Hg]. rewrite Forall_forall in Hr. rewrite <- Hg in Hw by done.
  apply existsb_exists in Hw as (f & Hin%list_elem_of_In & [Ha <-%Z.eqb_eq]%andb_true_iff). rewrite (Hr f Hin). f_equal.
  apply (classify_decided e h s); [done..|]. intros f' Hin' Ha'. split.
  - destruct (Z.le_gt_cases (weight f') (weight f)) as [|Hgt]; [done|].
    pose proof (decides_applies _ _ _ _ _ Hd Ht Hin' Ha') as Hf. rewrite (Hup _ (action f')) in Hf; [done|by apply Hr|lia].
  - intros Hw'. apply (inj Some). rewrite <- (Hr f Hin), <- (Hr f' Hin'). by rewrite Hw'.
Qed.

Lemma classify_arbitrates e h s sub t g :
  session e h = Some s -> decides sub (filters_of (committed s)) g -> flow_ok t -> classify e h sub t = verdict (arbitrate (g t)).
Proof.
  intros Hs Hd Ht. apply (inj Some). unfold arbitrate.
  destruct (existsb (g t) [SELF_ALLOW_WEIGHT; UNTUNNELED_BLOCK_ALLOW_WEIGHT; UNTUNNELED_BLOCK_DENY_WEIGHT;
    DNS_RESTRICT_ALLOW_WEIGHT; DNS_RESTRICT_DENY_WEIGHT]) eqn:Hany; cbn [existsb] in Hany.
  - repeat match goal with |- context [g t ?w] => destruct (g t w) eqn:?; [
      rewrite (classify_heaviest e h s sub t g w Hs Hd Ht) by (done || intros w' a Hw'%rule_action_weight Hlt;
        unfold SELF_ALLOW_WEIGHT, UNTUNNELED_BLOCK_ALLOW_WEIGHT, UNTUNNELED_BLOCK_DENY_WEIGHT, DNS_RESTRICT_ALLOW_WEIGHT, DNS_RESTRICT_DENY_WEIGHT in *;
        rewrite !elem_of_cons, elem_of_nil in Hw'; naive_solver lia); reflexivity|] end.
    done.
  - rewrite !orb_false_iff in Hany. destruct Hany as (H15 & H4 & H3 & H2 & H1' & _). rewrite H15, H4, H3, H2, H1'. f_equal.
    apply (classify_default e h s); [done|]. intros f Hin. apply not_true_is_false. intros Ha.
    pose proof (decides_applies _ _ _ _ _ Hd Ht Hin Ha) as Hf. destruct Hd as [Hr _]. rewrite Forall_forall in Hr.
    apply Hr, rule_action_weight in Hin. rewrite !elem_of_cons, elem_of_nil in Hin. destruct_or!; try done; congruence.
Qed.

(** ** Transactions *)

Context (loc : SourceLocation) (pton4 pton6 : bytes -> option bytes) (strerror : bytes).

(** From [e] to [e'] only the session [h] changed. *)
Definition only (h : Z) (e e' : E) : Prop := held e' = held e /\ forall g, g <> h -> session e' g = session e g.

Lemma only_trans h e1 e2 e3 : only h e1 e2 -> only h e2 e3 -> only h e1 e3.
Proof. intros [H1' H2'] [H3' H4']. split; [congruence|]. intros g Hg. by rewrite H4', H2'. Qed.

(** In a transaction the computation adds the objects, all of them when it reports no error. *)
Definition adds_some (h : Z) (m : M E WfpFirewallError) (P : list Object -> Prop) : Prop :=
  forall e c p, session e h = Some (MkSession c (Some p)) ->
  exists r e' p' os, m e = Some (r, e') /\ session e' h = Some (MkSession c (Some p')) /\ (r = None -> p' = p ++ os /\ P os) /\ only h e e'.

Definition adds (h : Z) (m : M E WfpFirewallError) (os : list Object) : Prop := adds_some h m (fun os' => os' = os).

Lemma adds_ret h : adds h (mret None) [].
Proof. intros e c p Hs. exists None, e, p, []. rewrite app_nil_r. repeat split; done. Qed.

Lemma adds_and_then h m k os os' : adds h m os -> adds h k os' -> adds h (and_then m k) (os ++ os').
Proof.
  intros Hm Hk e c p Hs. destruct (Hm e c p Hs) as (r & e1 & p1 & os1 & Em & Hs1 & Hp1 & Ho1).
  unfold and_then, mbind, M_bind. rewrite Em. destruct r as [err|]; [by exists (Some err), e1, p1, []|].
  destruct (Hk e1 c p1 Hs1) as (r & e2 & p2 & os2 & -> & Hs2 & Hp2 & Ho2). exists r, e2, p2, (os ++ os').
  destruct (Hp1 eq_refl) as [-> ->]. split; [done|]. split; [done|]. split; [|by eapply only_trans].
  intros Hr. destruct (Hp2 Hr) as [-> ->]. by rewrite app_assoc.
Qed.

Lemma adds_object h what o : adds h (checked loc what (Fwpm_add h o)) [o].
Proof.
  intros e c p Hs. pose proof (add_law h o e c p Hs) as Ha. unfold checked, call, mbind, M_bind.
  destruct (Fwpm_add h o e) as [error e'] eqn:Ea. destruct Ha as (Hh & Hs' & Ho). unfold ERROR_SUCCESS in *.
  destruct (Z.eqb_spec error 0); cbn [negb]; do 3 eexists; exists [o]; (split; [reflexivity|]); (split; [exact Hs'|]); split; done.
Qed.

Lemma adds_layers h f ls : adds h (add_to_layers loc h f ls) (map OFilter (map (fun l => set_layer l f) ls)).
Proof.
  induction ls as [|l ls IH]; [apply adds_ret|]. cbn [add_to_layers map].
  apply (adds_and_then h _ _ [_]); [apply adds_object|done].
Qed.

(** A transaction is in force as a whole when it reports no error, and not at all otherwise. *)
Lemma run_transaction_some h func P e s :
  adds_some h func P -> session e h = Some s ->
  exists r e' q os, run_transaction loc h func e = Some (r, e') /\ only h e e' /\ (r = None -> P os) /\
    session e' h = Some (MkSession (match r with Some _ => committed s | None => committed s ++ os end) q).
Proof.
  intros Hf Hs. unfold run_transaction, mbind, M_bind, call. pose proof (begin_law h e s Hs) as Hb.
  destruct (FwpmTransactionBegin0 h e) as [error e1] eqn:Eb. destruct Hb as (Hh1 & Hs1 & Ho1). unfold ERROR_SUCCESS in *.
  destruct (Z.eqb_spec error 0) as [->|Hne]; cbn [negb].
  2:{ destruct s as [c p]. by eexists (Some _), e1, p, []. }
  destruct (Hf e1 _ _ Hs1) as (r & e2 & p2 & os & -> & Hs2 & Hp2 & Ho2). assert (only h e e2) as Ho by (by eapply only_trans).
  destruct r as [err|]; cbn [call_].
  - pose proof (abort_law h e2 _ _ Hs2) as (Hh3 & Hs3 & Ho3). eexists (Some err), _, None, []. split; [reflexivity|].
    split; [by eapply only_trans|done].
  - pose proof (commit_law h e2 _ _ Hs2) as Hc. destruct (FwpmTransactionCommit0 h e2) as [error e3].
    destruct Hc as (Hh3 & Hs3 & Ho3). unfold ERROR_SUCCESS in *. destruct (Hp2 eq_refl) as [-> HP].
    destruct (Z.eqb_spec error 0); cbn [negb].
    + exists None, e3, None, os. split; [done|]. split; [by eapply only_trans|done].
    + destruct Hs3 as [q Hs3]. eexists (Some _), e3, q, []. split; [done|]. split; [by eapply only_trans|done].
Qed.

(** ** The operations *)

(** The computation adds filters, and these apply as [g] says. *)
Definition installs (h : Z) (sub : GUID) (m : M E WfpFirewallError) (g : Flow -> Z -> bool) : Prop :=
  exists fs, adds h m (map OFilter fs) /\ decides sub fs g.

Lemma installs_ret h sub : installs h sub (mret None) (fun _ _ => false).
Proof. exists []. split; [apply adds_ret|]. split; [constructor|done]. Qed.

Lemma installs_and_then h sub m k g g' :
  installs h sub m g -> installs h sub k g' -> installs h sub (and_then m k) (fun t w => g t w || g' t w).
Proof.
  intros (fs & Ha & Hd) (fs' & Ha' & Hd'). exists (fs ++ fs'). rewrite map_app. split; [by apply adds_and_then|by apply decides_app].
Qed.

Lemma installs_ext h sub m g g' : installs h sub m g -> (forall t w, flow_ok t -> g t w = g' t w) -> installs h sub m g'.
Proof. intros (fs & Ha & Hr & Hd) Hg. exists fs. split; [done|]. split; [done|]. intros t w Ht. by rewrite Hd, Hg. Qed.

Lemma installs_layers h sub f ls :
  subLayerKey f = sub -> rule_action (weight f) = Some (action f) ->
  installs h sub (add_to_layers loc h f ls)
    (fun t w => bool_decide (fl_layer t ∈ ls) && conditions_hold t (filterCondition f) && (weight f =? w)%Z).
Proof. intros Hsub Hr. eexists. split; [apply adds_layers|by apply decides_layers]. Qed.

(** A value that is there, and a computation that does not use the state. *)
Lemma installs_must {A} h sub (o : option A) a (k : A -> M E WfpFirewallError) g :
  o = Some a -> installs h sub (k a) g -> installs h sub (must o ≫= k) g.
Proof. by intros ->. Qed.

Lemma both_layers (t : Flow) : bool_decide (fl_layer t ∈ v4_layers ++ v6_layers) = true.
Proof. apply bool_decide_eq_true_2. destruct (fl_layer t); set_solver. Qed.

Lemma flow_family fam b4 lo t :
  family_ok fam b4 lo -> flow_ok t -> eqb (is_v4 (fl_layer t)) b4 = true ->
  length (fl_remote t) = fam_size fam /\ length (fl_local t) = fam_size fam.
Proof.
  intros Hfam (_ & _ & Hl & Hr) Hb%eqb_prop. rewrite (fam_size_eq _ _ _ Hfam). unfold by_family in *. by rewrite Hl, Hr, Hb.
Qed.

(** Remote conditions after some on other fields. *)
Lemma remote_hold fam b4 lo rs cs t :
  family_ok fam b4 lo -> Forall wf rs -> remote_conditions fam rs = Some cs -> cs <> [] ->
  flow_ok t -> eqb (is_v4 (fl_layer t)) b4 = true -> conditions_hold t cs = in_ranges rs (fl_remote t).
Proof.
  intros Hfam Hrs Hcs Hne Ht Hb. destruct (flow_family _ _ _ _ Hfam Ht Hb) as [Hl _].
  destruct (remote_conditions_spec Hfam rs Hrs) as (cs' & Hcs' & Hk & _ & Hm). simplify_eq.
  rewrite (conditions_hold_same t IP_REMOTE_ADDRESS) by done. apply Hm; [apply Ht|done].
Qed.

Lemma allow_dns_installs impl fam b4 lo filter allowed :
  family_ok fam b4 lo -> Forall wf allowed ->
  subLayerKey filter = sublayer_key impl -> weight filter = DNS_RESTRICT_ALLOW_WEIGHT -> action filter = FWP_ACTION_PERMIT ->
  installs (engine_handle impl) (sublayer_key impl) (allow_dns loc impl fam filter allowed)
    (fun t w => eqb (is_v4 (fl_layer t)) b4 && (is_dns t && in_ranges allowed (fl_remote t)) && (w =? DNS_RESTRICT_ALLOW_WEIGHT)%Z).
Proof.
  intros Hfam Hwf Hsub Hw Hact. destruct (remote_conditions_spec Hfam allowed Hwf) as (cs & Hcs & Hk & Hnil & _).
  unfold allow_dns. eapply installs_must; [exact Hcs|]. rewrite length_app. destruct (decide (cs = [])) as [->|Hne].
  - cbn. eapply installs_ext; [apply installs_ret|]. intros t w Ht. cbv beta. destruct (eqb _ b4) eqn:Hb; [|done].
    destruct (flow_family _ _ _ _ Hfam Ht Hb) as [Hl _]. rewrite (in_other_family allowed _ _ Hl) by (by apply Hnil).
    by rewrite andb_false_r.
  - replace (length dns_conditions <? length dns_conditions + length cs) with true
      by (symmetry; apply Nat.ltb_lt; destruct cs; simpl; [done|lia]).
    eapply installs_ext; [apply installs_layers; [done|]|].
    + cbn [set_conditions weight action]. by rewrite Hw, Hact.
    + intros t w Ht. cbn [set_conditions filterCondition weight]. rewrite (fam_layers_eq _ _ _ Hfam), Hw.
      rewrite (Z.eqb_sym w). destruct (eqb _ b4) eqn:Hb; [|done]. rewrite conditions_hold_app, dns_conditions_hold.
      * by erewrite remote_hold by done.
      * rewrite Forall_forall in Hk. intros c d Hc Hd. rewrite (Hk d Hd). unfold dns_conditions in Hc. set_solver.
Qed.

(** The address of the loopback interface is parsed to the range of this one address. *)
Definition loopback_ok (fam : Family) (lo : bytes) : Prop :=
  exists v, loopback_range loc pton4 pton6 strerror fam = Some v /\ forall s, is_bytes s -> address_matches v s = bool_decide (s = lo).

Lemma ports_hold t ports :
  ports <> [] -> conditions_hold t (map (fun port => MkCondition IP_LOCAL_PORT (FWP_UINT16 port)) ports) = bool_decide (fl_local_port t ∈ ports).
Proof.
  intros Hne. rewrite (conditions_hold_same t IP_LOCAL_PORT).
  - apply eq_true_iff_eq. rewrite existsb_exists, bool_decide_eq_true. setoid_rewrite <- list_elem_of_In.
    setoid_rewrite list_elem_of_fmap. unfold condition_holds. split.
    + intros (c & (p & -> & Hp) & Hc). cbn in Hc. apply Z.eqb_eq in Hc as ->. done.
    + intros Hp. eexists. split; [by exists (fl_local_port t)|]. cbn. apply Z.eqb_refl.
  - by destruct ports.
  - by apply Forall_fmap, Forall_true.
Qed.

Lemma has_family_not n rs : Exists (fun r => length (m_address r) = n) rs -> ~ Forall (fun r => length (m_address r) <> n) rs.
Proof. rewrite Exists_exists, Forall_forall. naive_solver. Qed.

(** The conditions of the filters that exempt a flow, after those on the remote address. *)
Lemma locals_hold t v v' s s' :
  flow_ok t -> (forall x, is_bytes x -> address_matches v x = s x) -> (forall x, is_bytes x -> address_matches v' x = s' x) ->
  conditions_hold t [MkCondition IP_LOCAL_ADDRESS v; MkCondition IP_LOCAL_ADDRESS v'] = s (fl_local t) || s' (fl_local t).
Proof.
  intros (Hl & _) Hv Hv'. rewrite (conditions_hold_same t IP_LOCAL_ADDRESS) by (done || by repeat constructor).
  cbn [existsb condition_holds fieldKey conditionValue]. unfold condition_holds. cbn. by rewrite Hv, Hv', orb_false_r.
Qed.

(** A rule of the group: remote conditions and others, in the layers of the family. *)
Lemma remote_rule_installs impl fam b4 lo incl cs ds f :
  family_ok fam b4 lo -> Forall wf incl -> remote_conditions fam incl = Some cs -> cs <> [] ->
  filterCondition f = cs ++ ds -> Forall (fun d => fieldKey d <> IP_REMOTE_ADDRESS) ds ->
  subLayerKey f = sublayer_key impl -> rule_action (weight f) = Some (action f) ->
  installs (engine_handle impl) (sublayer_key impl) (add_to_layers loc (engine_handle impl) f (fam_layers fam))
    (fun t w => eqb (is_v4 (fl_layer t)) b4 && in_ranges incl (fl_remote t) && ((w =? weight f)%Z && conditions_hold t ds)).
Proof.
  intros Hfam Hwf Hcs Hne Ef Hds Hsub Hr. eapply installs_ext; [by apply installs_layers|].
  intros t w Ht. cbv beta. rewrite (fam_layers_eq _ _ _ Hfam), Ef, (Z.eqb_sym w). destruct (eqb _ b4) eqn:Hb; [|done].
  rewrite conditions_hold_app.
  - erewrite remote_hold by done. cbn [andb]. rewrite <- andb_assoc. f_equal. apply andb_comm.
  - destruct (remote_conditions_spec Hfam incl Hwf) as (cs' & Hcs' & Hk & _). simplify_eq.
    rewrite Forall_forall in Hk, Hds. intros c d Hc Hd. rewrite (Hk c Hc). intros He. by apply (Hds d Hd).
Qed.

Lemma block_untunneled_installs impl fam b4 lo tun incl ports :
  family_ok fam b4 lo -> loopback_ok fam lo -> wf tun -> Forall wf incl -> has_family (fam_size fam) incl ->
  installs (engine_handle impl) (sublayer_key impl) (block_untunneled_family loc pton4 pton6 strerror impl fam tun incl ports)
    (fun t w => eqb (is_v4 (fl_layer t)) b4 && ((length (get_address tun) =? fam_size fam) && in_ranges incl (fl_remote t)) &&
      ((w =? UNTUNNELED_BLOCK_DENY_WEIGHT)%Z ||
       (w =? UNTUNNELED_BLOCK_ALLOW_WEIGHT)%Z &&
       (contains_address tun (fl_local t) || bool_decide (fl_local t = lo) || bool_decide (fl_local_port t ∈ ports)))).
Proof.
  intros Hfam (vlo & Elo & Hlo) Htun Hwf Hhas. unfold block_untunneled_family.
  destruct (Nat.eqb_spec (length (get_address tun)) (fam_size fam)) as [Hlt|Hlt]; cbn [andb].
  2:{ eapply installs_ext; [apply installs_ret|]. intros t w _. by rewrite andb_false_r. }
  destruct Hhas as [->|Hhas].
  { eapply installs_ext; [apply installs_ret|]. intros t w _. by rewrite andb_false_r. }
  rewrite bool_decide_eq_false_2 by (intros ->; by apply Exists_nil in Hhas). cbn [negb].
  destruct (remote_conditions_spec Hfam incl Hwf) as (cs & Hcs & Hk & Hnil & _).
  assert (cs <> []) as Hne. { intros ->. by apply (has_family_not _ _ Hhas), Hnil. }
  eapply installs_must; [exact Hcs|]. destruct (head cs) as [c0|] eqn:Ec0; [|by destruct cs].
  eapply installs_must; [reflexivity|]. destruct (fam_matches _ _ _ Hfam tun Htun Hlt) as (vtun & Etun & Hvtun).
  eapply installs_ext.
  { apply installs_and_then; [by eapply (remote_rule_installs impl fam b4 lo incl cs []); rewrite ?app_nil_r|].
    eapply installs_must; [exact Etun|]. eapply installs_must; [exact Elo|].
    apply installs_and_then; [eapply (remote_rule_installs impl fam b4 lo incl cs); try done; by repeat constructor|].
    instantiate (1 := fun t w => eqb (is_v4 (fl_layer t)) b4 && in_ranges incl (fl_remote t) &&
      ((w =? UNTUNNELED_BLOCK_ALLOW_WEIGHT)%Z && bool_decide (fl_local_port t ∈ ports))).
    destruct (decide (ports = [])) as [->|Hp].
    - rewrite bool_decide_eq_true_2 by done. eapply installs_ext; [apply installs_ret|]. intros t w _. by rewrite !andb_false_r.
    - rewrite bool_decide_eq_false_2 by done. cbn [negb].
      eapply installs_ext; [eapply (remote_rule_installs impl fam b4 lo incl cs); try done; by apply Forall_fmap, Forall_true|].
      intros t w _. cbn. by rewrite ports_hold. }
  intros t w Ht. cbn [weight untunneled_filter set_name set_rule set_conditions andb].
  change (conditions_hold t []) with true.
  rewrite (locals_hold t vtun vlo _ _ Ht Hvtun Hlo). rewrite andb_true_r.
  destruct (eqb _ b4 && _); [|done]. cbn [andb]. by destruct (w =? _)%Z, (w =? _)%Z, (contains_address _ _), (bool_decide _), (bool_decide _).
Qed.

(** The rules of an operation, of the process that is let through, and of all that has succeeded. *)
Definition op_rules (op : Op) (t : Flow) (w : Z) : bool :=
  (w =? UNTUNNELED_BLOCK_ALLOW_WEIGHT)%Z && op_exempts t op || (w =? UNTUNNELED_BLOCK_DENY_WEIGHT)%Z && op_blocks t op ||
  (w =? DNS_RESTRICT_ALLOW_WEIGHT)%Z && op_allows_dns t op || (w =? DNS_RESTRICT_DENY_WEIGHT)%Z && op_blocks_dns t op.

Definition policy_rules (app : bytes) (ops : list Op) (t : Flow) (w : Z) : bool :=
  (w =? SELF_ALLOW_WEIGHT)%Z && bool_decide (app = fl_app_id t) || existsb (fun op => op_rules op t w) ops.

Definition op_body (impl : Impl) (op : Op) : M E WfpFirewallError :=
  match op with
  | RestrictDns v4 v6 => restrict_dns_to loc impl v4 v6
  | BlockIpv6 => block_ipv6 loc impl
  | BlockUntunneled u => block_untunneled loc pton4 pton6 strerror impl (u_tun4 u) (u_tun6 u) (u_incl4 u) (u_incl6 u) (u_ports u)
  end.

Lemma op_installs impl op :
  loopback_ok V4 loopback4 -> loopback_ok V6 loopback6 -> op_ok op ->
  exists body, op_body impl op = initialized loc impl body /\ installs (engine_handle impl) (sublayer_key impl) body (op_rules op).
Proof.
  intros Hlo4 Hlo6 Hok. destruct op as [v4 v6| |u]; (eexists; split; [reflexivity|]); cbn [op_ok] in Hok.
  - destruct Hok as [H4 H6]. eapply installs_ext.
    { apply installs_and_then; [by apply installs_layers|].
      apply installs_and_then; [by apply (allow_dns_installs _ _ _ _ _ _ v4_ok)|by apply (allow_dns_installs _ _ _ _ _ _ v6_ok)]. }
    intros t w Ht. cbv beta. rewrite both_layers. cbn [dns_filter filterCondition weight]. rewrite dns_conditions_hold.
    unfold op_rules, op_exempts, op_blocks, op_allows_dns, op_blocks_dns, by_family. rewrite !andb_false_r, (Z.eqb_sym _ w).
    by destruct (is_v4 _); cbn [eqb andb orb]; rewrite ?orb_false_r; destruct (is_dns t), (w =? _)%Z, (w =? _)%Z, (in_ranges _ _).
  - eapply installs_ext; [by apply installs_layers|]. intros t w Ht. cbv beta. cbn [ipv6_filter filterCondition weight].
    unfold op_rules, op_exempts, op_blocks, op_allows_dns, op_blocks_dns. rewrite (Z.eqb_sym _ w).
    pose proof (fam_layers_eq _ _ _ v6_ok (fl_layer t)) as Hl. cbn [fam_layers V6] in Hl. rewrite Hl.
    change IPV6_BLOCK_DENY_WEIGHT with UNTUNNELED_BLOCK_DENY_WEIGHT.
    rewrite !andb_false_r, !orb_false_r. by destruct (is_v4 _), (w =? _)%Z.
  - destruct Hok as (Ht4 & Ht6 & H4 & H6 & Hf4 & Hf6). eapply installs_ext.
    { apply installs_and_then; [by apply (block_untunneled_installs _ _ _ _ _ _ _ v4_ok)|by apply (block_untunneled_installs _ _ _ _ _ _ _ v6_ok)]. }
    intros t w Ht. cbv beta. unfold op_rules, op_exempts, op_blocks, op_allows_dns, op_blocks_dns, included, exempt, by_family.
    rewrite !andb_false_r, !orb_false_r. cbn [fam_size V4 V6]. unfold IPV4_ADDRESS_SIZE, IPV6_ADDRESS_SIZE.
    by destruct (is_v4 _); cbn [eqb andb orb]; rewrite ?orb_false_r; destruct (_ && in_ranges _ _), (w =? _)%Z, (w =? _)%Z, (_ || _ || _).
Qed.

(** The policy in force: the filters of the session follow the rules of [app] and [done]. *)
Definition enforces (e : E) (impl : Impl) (app : bytes) (done : list Op) : Prop :=
  exists s, session e (engine_handle impl) = Some s /\ decides (sublayer_key impl) (filters_of (committed s)) (policy_rules app done).

Lemma enforces_permits e impl app ops t :
  enforces e impl app ops -> flow_ok t ->
  classify e (engine_handle impl) (sublayer_key impl) t = verdict (permits app ops t).
Proof.
  intros (s & Hs & Hd) Ht. rewrite (classify_arbitrates _ _ _ _ _ _ Hs Hd Ht). f_equal. unfold arbitrate, permits, policy_rules.
  assert (forall w f, (forall op, op_rules op t w = f op) -> existsb (fun op => op_rules op t w) ops = existsb f ops) as Hext.
  { intros w f Hf. clear Hd. induction ops as [|op ops IH]; [done|]. cbn [existsb]. by rewrite Hf, IH. }
  rewrite (Hext SELF_ALLOW_WEIGHT (fun _ => false)), (Hext UNTUNNELED_BLOCK_ALLOW_WEIGHT (op_exempts t)),
    (Hext UNTUNNELED_BLOCK_DENY_WEIGHT (op_blocks t)), (Hext DNS_RESTRICT_ALLOW_WEIGHT (op_allows_dns t)),
    (Hext DNS_RESTRICT_DENY_WEIGHT (op_blocks_dns t))
    by (intros op; unfold op_rules; cbn; by rewrite ?orb_false_r).
  assert (existsb (fun _ : Op => false) ops = false) as -> by (clear; by induction ops). by rewrite orb_false_r.
Qed.

Lemma filters_of_app os fs : filters_of (os ++ map OFilter fs) = filters_of os ++ fs.
Proof. unfold filters_of. rewrite omap_app. f_equal. induction fs as [|f fs IH]; [done|]. cbn. by rewrite IH. Qed.

(** One operation: the system is as before, or has its rules too. *)
Lemma op_enforces impl app done op e :
  loopback_ok V4 loopback4 -> loopback_ok V6 loopback6 -> op_ok op -> engine_handle impl <> INVALID_HANDLE_VALUE ->
  enforces e impl app done ->
  exists r e', op_body impl op e = Some (r, e') /\ only (engine_handle impl) e e' /\
    enforces e' impl app (match r with None => done ++ [op] | Some _ => done end).
Proof.
  intros H4 H6 Hok Hh (s & Hs & Hd). destruct (op_installs impl op H4 H6 Hok) as (body & -> & fs & Ha & Hdb).
  unfold initialized. destruct (Z.eqb_spec (engine_handle impl) INVALID_HANDLE_VALUE); [done|].
  destruct (run_transaction_some _ _ _ _ _ Ha Hs) as (r & e' & q & os & -> & Ho & Hr & Hs'). exists r, e'. split; [done|].
  split; [done|]. destruct r as [err|]; [by eexists|]. rewrite (Hr eq_refl) in Hs'. eexists. split; [exact Hs'|]. cbn [committed].
  rewrite filters_of_app. destruct (decides_app _ _ _ _ _ Hd Hdb) as [Hw Hg]. split; [done|]. intros t w Ht. rewrite Hg by done.
  unfold policy_rules. by rewrite existsb_app, orb_assoc; cbn [existsb]; rewrite orb_false_r.
Qed.

(** A caller's sequence of operations, with those that reported success. *)
Fixpoint run_ops (impl : Impl) (ops : list Op) : M E (list Op) :=
  match ops with
  | [] => mret []
  | op :: ops' =>
      r ← op_body impl op;
      done ← run_ops impl ops';
      mret (match r with None => op :: done | Some _ => done end)
  end.

Lemma run_ops_enforces impl app ops done e :
  loopback_ok V4 loopback4 -> loopback_ok V6 loopback6 -> Forall op_ok ops -> engine_handle impl <> INVALID_HANDLE_VALUE ->
  enforces e impl app done ->
  exists done' e', run_ops impl ops e = Some (done', e') /\ done' `sublist_of` ops /\ only (engine_handle impl) e e' /\
    enforces e' impl app (done ++ done').
Proof.
  intros H4 H6 Hok Hh. revert done e. induction Hok as [|op ops Hop _ IH]; intros done e He.
  { exists [], e. rewrite app_nil_r. repeat split; done. }
  destruct (op_enforces impl app done op e H4 H6 Hop Hh He) as (r & e1 & E1 & Ho1 & He1).
  destruct (IH _ e1 He1) as (done' & e2 & E2 & Hsub & Ho2 & He2). cbn [run_ops]. unfold mbind, M_bind. rewrite E1, E2.
  do 2 eexists. split; [reflexivity|]. split; [destruct r; by constructor|]. split; [by eapply only_trans|].
  destruct r; [done|]. by rewrite <- app_assoc in He2.
Qed.

(** ** Construction *)

(** [file] is what the system names as the file of the process, and [app] is its identifier. *)
Definition file_of (pid : Z) (file : bytes) : Prop :=
  if (pid =? 0)%Z then exists e, fst (GetModuleFileNameW e) = Some file
  else exists e e' h, fst (OpenProcess pid e) = h /\ h <> 0%Z /\ fst (QueryFullProcessImageNameW h e') = Some file.
Definition app_of (pid : Z) (app : bytes) : Prop :=
  exists file e, file_of pid file /\ fst (FwpmGetAppIdFromFileName file e) = (ERROR_SUCCESS, app).

Lemma module_name_spec pid e :
  exists r e', module_name loc pid e = Some (r, e') /\ same_view e e' /\ match r with inr file => file_of pid file | inl _ => True end.
Proof.
  unfold module_name, file_of, gets, call, call_, mbind, M_bind. destruct (pid =? 0)%Z; cbn [negb].
  - pose proof (module_name_law e) as Hm. destruct (GetModuleFileNameW e) as [[file|] e'] eqn:Em; do 2 eexists; (split; [reflexivity|]); split; try done.
    exists e. by rewrite Em.
  - pose proof (open_process_law pid e) as Hp. destruct (OpenProcess pid e) as [h e1] eqn:Ep. destruct Hp as [Hs1 Hh1].
    destruct (Z.eqb_spec h 0) as [->|Hne]; [do 2 eexists; split; [reflexivity|]; by split|].
    pose proof (query_law h e1) as Hq. destruct (QueryFullProcessImageNameW h e1) as [ret e2] eqn:Eq. destruct Hq as [Hs2 Hh2].
    destruct (close_handle_law h e2) as [Hs3 Hh3].
    assert (same_view e (CloseHandle h e2)) as Hsame.
    { split; [|by rewrite Hh3, Hh2, Hh1]. intros g. by rewrite Hs3, Hs2, Hs1. }
    destruct ret as [file|]; do 2 eexists; (split; [reflexivity|]); split; try done.
    exists e, e1, h. by rewrite Ep, Eq.
Qed.

Definition self_objects (impl : Impl) (session_name app : bytes) : list Object :=
  map OFilter (map (fun l => set_layer l (self_filter impl session_name app)) (v4_layers ++ v6_layers)).

Lemma allow_self_adds impl session_name pid :
  adds_some (engine_handle impl) (allow_self loc impl session_name pid)
    (fun os => exists app, app_of pid app /\ os = self_objects impl session_name app).
Proof.
  intros e c p Hs. destruct (module_name_spec pid e) as (file & e1 & E1 & [Hs1 Hh1] & Hfile).
  unfold allow_self, mbind, M_bind. rewrite E1. destruct file as [err|file].
  { exists (Some err), e1, p, []. rewrite Hs1. repeat split; done. }
  unfold call. pose proof (app_id_law file e1) as Ha. destruct (FwpmGetAppIdFromFileName file e1) as [[error app] e2] eqn:Ea.
  destruct Ha as [Hs2 Hh2]. unfold ERROR_SUCCESS in *. destruct (Z.eqb_spec error 0) as [->|Hne]; cbn [negb].
  2:{ eexists (Some _), e2, p, []. split; [reflexivity|]. rewrite Hs2, Hs1. split; [done|]. split; [done|].
      split; [congruence|]. intros g _. by rewrite Hs2, Hs1. }
  assert (session e2 (engine_handle impl) = Some (MkSession c (Some p))) as Hs2' by (by rewrite Hs2, Hs1).
  destruct (adds_layers (engine_handle impl) (self_filter impl session_name app) (v4_layers ++ v6_layers) e2 c p Hs2')
    as (r & e3 & p3 & os & -> & Hs3 & Hp3 & Hh3 & Ho3).
  destruct (free_memory_law app e3) as [Hs4 Hh4]. do 3 eexists. exists os. split; [reflexivity|]. rewrite Hs4. split; [exact Hs3|].
  split.
  - intros Hr. destruct (Hp3 Hr) as [-> ->]. split; [done|]. exists app. split; [|done]. exists file, e1. by rewrite Ea.
  - split; [by rewrite Hh4, Hh3, Hh2, Hh1|]. intros g Hg. by rewrite Hs4, Ho3, Hs2, Hs1.
Qed.

Lemma self_enforces impl session_name app os e s :
  session e (engine_handle impl) = Some s -> committed s = os ++ self_objects impl session_name app -> filters_of os = [] ->
  enforces e impl app [].
Proof.
  intros Hs Hc Hos. exists s. split; [done|]. rewrite Hc. unfold self_objects. rewrite filters_of_app, Hos. rewrite app_nil_l.
  destruct (decides_layers (sublayer_key impl) (self_filter impl session_name app) (v4_layers ++ v6_layers)) as [Hw Hg]; [done..|].
  split; [done|]. intros t w Ht. etrans; [by apply Hg|]. cbv beta. rewrite both_layers. cbn [self_filter filterCondition weight].
  rewrite (conditions_hold_same t ALE_APP_ID) by (done || by repeat constructor).
  unfold policy_rules. rewrite (Z.eqb_sym _ w). cbn [existsb andb]. rewrite !orb_false_r. apply andb_comm.
Qed.

(** After the constructor there is a session that lets the process through, or none. *)
Definition constructed (pid : Z) (e : E) (impl : Impl) (e' : E) : Prop :=
  held e' = held e /\
  if (engine_handle impl =? INVALID_HANDLE_VALUE)%Z then same_sessions e e'
  else session e (engine_handle impl) = None /\ only (engine_handle impl) e e' /\
       exists app, app_of pid app /\ enforces e' impl app [].

(** The session is closed again after an error. *)
Lemma closed_again h e e1 e2 :
  session e h = None -> (forall g, g <> h -> session e1 g = session e g) -> held e1 = held e -> only h e1 e2 ->
  held (FwpmEngineClose0 h e2) = held e /\ same_sessions e (FwpmEngineClose0 h e2).
Proof.
  intros Hn Hs Hh [Hh2 Ho2]. destruct (close_law h e2) as (Hh3 & Hn3 & Ho3). split; [congruence|]. intros g.
  destruct (decide (g = h)) as [->|Hg]; [by rewrite Hn3, Hn|]. by rewrite Ho3, Ho2, Hs.
Qed.

Lemma firewall_new_spec nm pid rand1 rand2 e :
  exists impl e', firewall_new loc nm pid rand1 rand2 e = Some (impl, e') /\ constructed pid e impl e'.
Proof.
  unfold firewall_new. cbv zeta. unfold mbind, M_bind, call at 1. cbn [engine_handle]. set (sn := nm ++ str " dynamic session").
  pose proof (open_law sn INVALID_HANDLE_VALUE e) as Hop.
  destruct (FwpmEngineOpen0 sn INVALID_HANDLE_VALUE e) as [[error h] e1] eqn:Eo. destruct Hop as [Hh1 Hop]. unfold ERROR_SUCCESS in *.
  destruct (Z.eqb_spec error 0) as [->|Hne]; cbn [negb].
  2:{ destruct Hop as [-> Hs]. do 2 eexists. split; [reflexivity|]. by split. }
  destruct Hop as (Hv & Hn & Hs1 & Ho1). set (impl := set_handle h _).
  destruct (run_transaction_some h (register_base_objects loc impl) _ e1 _
    (adds_and_then _ _ _ _ _ (adds_object h _ _) (adds_object h _ _)) Hs1) as (r & e2 & q & os & -> & Ho2 & Hr & Hs2).
  destruct r as [err|]; cbn [call_].
  { do 2 eexists. split; [reflexivity|]. unfold constructed. cbn. by apply (closed_again h e e1 e2). }
  destruct (run_transaction_some h (allow_self loc impl sn pid) _ e2 _ (allow_self_adds impl sn pid) Hs2)
    as (r & e3 & q' & os' & -> & Ho3 & Hr' & Hs3).
  assert (only h e1 e3) as Ho by (by eapply only_trans). destruct r as [err|].
  { do 2 eexists. split; [reflexivity|]. unfold constructed. cbn. by apply (closed_again h e e1 e3). }
  destruct (Hr' eq_refl) as (app & Happ & ->). do 2 eexists. split; [reflexivity|]. unfold constructed.
  destruct Ho as [Hh3 Hg3]. split; [congruence|]. cbn [impl set_handle engine_handle]. destruct (Z.eqb_spec h INVALID_HANDLE_VALUE); [done|].
  split; [done|]. split; [split; [congruence|intros g Hg; by rewrite Hg3, Ho1]|]. exists app. split; [done|].
  eapply self_enforces; [exact Hs3|reflexivity|]. cbn [committed]. by rewrite (Hr eq_refl).
Qed.

(** ** The loopback addresses *)

(** What is documented of [inet_pton] at the two texts of the source. *)
Definition pton_loopback : Prop := pton4 (str "127.0.0.1") = Some loopback4 /\ pton6 (str "::1") = Some loopback6.

(** The range of one address. *)
Lemma host_range lo :
  is_bytes lo ->
  let r := init lo (Z.of_nat (8 * length lo)) in
  wf r /\ length (m_address r) = length lo /\ forall s, is_bytes s -> contains_address r s = bool_decide (s = lo).
Proof.
  intros Hlo r. destruct (init_spec lo (8 * length lo) Hlo) as (Hw & Hn & Hl & Hp & _); [lia|]. fold r in Hw, Hn, Hl, Hp.
  split; [done|]. split; [done|]. intros s Hs. apply eq_true_iff_eq. rewrite contains_address_iff, bool_decide_eq_true by done.
  rewrite Hn, Hp, Hl. rewrite (take_ge (bits lo)) by (rewrite bits_length; lia). split; [|intros ->; split; [done|]].
  - intros [Hls Hb]. rewrite take_ge in Hb by (rewrite bits_length; lia). by apply bits_inj.
  - by rewrite take_ge by (rewrite bits_length; lia).
Qed.

Lemma cidr_of_text text address prefix_text a n :
  text <> [] -> split2_by (trim text) 47 true = (address, prefix_text) -> prefix_text <> [] ->
  get_address_from_string pton4 pton6 strerror loc address = RValue a -> to_integer false 64 10 prefix_text = Some n ->
  cidr_of_string pton4 pton6 strerror loc text = Returns (init a n).
Proof.
  intros Hne Hsp Hp Ha Hn. unfold cidr_of_string. destruct text as [|c text]; [done|]. rewrite Hsp, Ha.
  rewrite bool_decide_eq_false_2 by done. cbn [negb]. by rewrite Hn.
Qed.

Lemma loopback_parsed fam b4 lo :
  family_ok fam b4 lo -> is_bytes lo -> length lo = fam_size fam ->
  cidr_of_string pton4 pton6 strerror loc (fam_loopback fam) = Returns (init lo (Z.of_nat (8 * length lo))) -> loopback_ok fam lo.
Proof.
  intros Hfam Hlo Hl Hc. destruct (host_range lo Hlo) as (Hw & Hlen & Hin). unfold loopback_ok, loopback_range. rewrite Hc.
  destruct (fam_matches _ _ _ Hfam _ Hw ltac:(lia)) as (v & Ev & Hv). exists v. split; [done|]. intros s Hs. by rewrite Hv, Hin.
Qed.

Lemma loopbacks_ok : pton_loopback -> loopback_ok V4 loopback4 /\ loopback_ok V6 loopback6.
Proof.
  intros [H4 H6]. split.
  - apply (loopback_parsed _ _ _ v4_ok); [by repeat constructor|done|].
    apply (cidr_of_text _ (str "127.0.0.1") (str "32") loopback4 32); [done..| |done].
    unfold get_address_from_string. change (find_index (Z.eqb (chr ".")) _) with (Some 3). cbv iota beta.
    change (find_index (Z.eqb (chr ":")) _) with (@None nat). cbv iota beta. unfold get_ipv4_address_from_string.
    change (INET_ADDRSTRLEN <=? _) with false. cbv iota. change (c_str _) with (str "127.0.0.1"). by rewrite H4.
  - apply (loopback_parsed _ _ _ v6_ok); [by repeat constructor|done|].
    apply (cidr_of_text _ (str "::1") (str "128") loopback6 128); [done..| |done].
    unfold get_address_from_string. change (find_index (Z.eqb (chr ".")) _) with (@None nat). cbv iota beta.
    unfold get_ipv6_address_from_string. change (INET6_ADDRSTRLEN <=? _) with false. cbv iota.
    change (c_str _) with (str "::1"). by rewrite H6.
Qed.

(** ** What the firewall does *)

(** Before the constructor has opened a session nothing can be done. *)
Lemma not_initialized impl op e :
  engine_handle impl = INVALID_HANDLE_VALUE -> op_body impl op e = Some (Some (make_error loc FE_NOT_INITIALIZED None), e).
Proof. intros Hh. destruct op; cbn [op_body]; unfold restrict_dns_to, block_ipv6, block_untunneled, initialized; by rewrite Hh. Qed.

(** What the weights of the filters decide, for every flow. *)
Lemma firewall_decides nm pid rand1 rand2 ops t e :
  pton_loopback -> Forall op_ok ops -> flow_ok t ->
  exists impl e1, firewall_new loc nm pid rand1 rand2 e = Some (impl, e1) /\
  if (engine_handle impl =? INVALID_HANDLE_VALUE)%Z
  then same_view e e1 /\ forall op, op_body impl op e1 = Some (Some (make_error loc FE_NOT_INITIALIZED None), e1)
  else exists app done e2 e3,
    app_of pid app /\
    run_ops impl ops e1 = Some (done, e2) /\ done `sublist_of` ops /\
    classify e2 (engine_handle impl) (sublayer_key impl) t = verdict (permits app done t) /\
    firewall_destroy (Some impl) e2 = Some (tt, e3) /\ same_view e e3.
Proof.
  intros [H4 H6]%loopbacks_ok Hops Ht. destruct (firewall_new_spec nm pid rand1 rand2 e) as (impl & e1 & -> & Hh & Hc).
  exists impl, e1. split; [done|]. destruct (Z.eqb_spec (engine_handle impl) INVALID_HANDLE_VALUE) as [Hi|Hi].
  { split; [by split|]. intros op. by apply not_initialized. }
  destruct Hc as (Hn & Ho & app & Happ & He). destruct (run_ops_enforces impl app ops [] e1 H4 H6 Hops Hi He) as (done & e2 & -> & Hsub & Ho2 & He2).
  exists app, done, e2, (FwpmEngineClose0 (engine_handle impl) e2). split; [done|]. split; [done|]. split; [done|].
  split; [by apply enforces_permits|]. split.
  - unfold firewall_destroy, must, mbind, M_bind. destruct (Z.eqb_spec (engine_handle impl) INVALID_HANDLE_VALUE); done.
  - destruct (close_law (engine_handle impl) e2) as (Hh3 & Hn3 & Ho3). destruct Ho, Ho2. split; [|congruence].
    intros g. destruct (decide (g = engine_handle impl)) as [->|Hg]; [congruence|]. rewrite Ho3 by done. naive_solver congruence.
Qed.

End Laws.

(** ** Runs *)

Definition no_loc : SourceLocation := MkLocation [] 0.
Definition pton4_ex (_ : bytes) : option bytes := Some loopback4.
Definition pton6_ex (_ : bytes) : option bytes := Some loopback6.

Definition lan4 : CidrRange := init [10; 0; 0; 0]%Z 8.
Definition any4 : CidrRange := init [0; 0; 0; 0]%Z 0.
Definition tun4 : CidrRange := init [172; 16; 0; 2]%Z 32.
Definition any6 : CidrRange := init (replicate 16 0%Z) 0.
Definition tun6 : CidrRange := init (0xfd :: replicate 14 0 ++ [2])%Z 128.

Definition vpn_ops : list Op :=
  [RestrictDns [lan4] []; BlockIpv6; BlockUntunneled (MkUntunneled tun4 tun6 [any4] [any6] [500%Z])].

(** A flow from a port of this host. *)
Definition flow4 (local remote : bytes) (port : Z) : Flow :=
  MkFlow ALE_AUTH_CONNECT_V4 (str "C:\browser.exe") IPPROTO_UDP local 40000 remote port.
Definition flow6 (local remote : bytes) : Flow :=
  MkFlow ALE_AUTH_CONNECT_V6 (str "C:\browser.exe") IPPROTO_TCP local 40000 remote 443.

(** A firewall on the engine of the other file, [script] being the codes of its calls. *)
Definition run_example (script : list Z) (ops : list Op) : option (Impl * list Op * RefEngine) :=
  match firewall_new no_loc (str "vpn") 0 [] [] (MkRef None 0 script) with
  | Some (impl, e1) =>
      match run_ops no_loc pton4_ex pton6_ex [] impl ops e1 with
      | Some (done, e2) => Some (impl, done, e2)
      | None => None
      end
  | None => None
  end.

Definition decides_example (script : list Z) (ops : list Op) (t : Flow) : option (nat * Action) :=
  match run_example script ops with
  | Some (impl, done, e) => Some (length done, classify e (engine_handle impl) (sublayer_key impl) t)
  | None => None
  end.

Lemma vpn_ops_ok : Forall op_ok vpn_ops.
Proof.
  assert (wf lan4 /\ wf any4 /\ wf tun4 /\ wf any6 /\ wf tun6) as (? & ? & ? & ? & ?).
  { repeat split_and!; [by apply (wf_init _ 8)|by apply (wf_init _ 0)|by apply (wf_init _ 32)|by apply (wf_init _ 0)|by apply (wf_init _ 128)]. }
  repeat constructor; done.
Qed.


(** ** Surprises *)

(** Flows through the tunnel pass although all IPv6 traffic, or DNS traffic with their peer, was blocked: the
    filters that exempt them are heavier than those of the other operations. *)
Lemma tunneled_flows_outrank :
  decides_example [] vpn_ops (flow6 (m_address tun6) (replicate 16 1%Z)) = Some (3, FWP_ACTION_PERMIT) /\
  decides_example [] (take 1 vpn_ops) (flow4 [172; 16; 0; 2] [8; 8; 8; 8] 53)%Z = Some (1, FWP_ACTION_BLOCK) /\
  decides_example [] vpn_ops (flow4 [172; 16; 0; 2] [8; 8; 8; 8] 53)%Z = Some (3, FWP_ACTION_PERMIT).
Proof. repeat split; by vm_compute. Qed.

(** Of the loopback network only one address is exempt. *)
Lemma loopback_network_blocked :
  decides_example [] vpn_ops (flow4 [127; 0; 0; 1] [127; 0; 0; 1] 80)%Z = Some (3, FWP_ACTION_PERMIT) /\
  decides_example [] vpn_ops (flow4 [127; 0; 0; 2] [127; 0; 0; 2] 80)%Z = Some (3, FWP_ACTION_BLOCK).
Proof. split; by vm_compute. Qed.

(** Included ranges of the other family only: the address of the first of no conditions is taken. *)
Lemma no_included_condition :
  decides_example [] [BlockUntunneled (MkUntunneled tun4 tun6 [any6] [] [])] (flow4 [127; 0; 0; 1] [127; 0; 0; 1] 80)%Z = None.
Proof. by vm_compute. Qed.

(** The destructor of an object that was moved from uses its null [m_impl]; an object that is assigned to keeps
    the session of the [Impl] it loses open, with all filters in force. *)
Lemma moved_from_destroyed {E} `{Engine E} (fw : WfpFirewall) (e : E) : firewall_destroy (snd (firewall_move fw)) e = None.
Proof. done. Qed.

Lemma assigned_session_stays {E} `{EngineLaws E} (a b : Impl) app done (e : E) :
  engine_handle a <> engine_handle b -> engine_handle b <> INVALID_HANDLE_VALUE -> enforces e a app done ->
  exists this other e1 e2, firewall_move_assign (Some a) (Some b) e = Some ((this, other), e1) /\
    firewall_destroy this e1 = Some (tt, e2) /\ enforces e2 a app done.
Proof.
  intros Hab Hb (s & Hs & Hd). exists (Some b), None, e, (FwpmEngineClose0 (engine_handle b) e). split; [done|].
  destruct (close_law (engine_handle b) e) as (_ & _ & Ho). split.
  - unfold firewall_destroy, must, mbind, M_bind. destruct (Z.eqb_spec (engine_handle b) INVALID_HANDLE_VALUE); done.
  - exists s. by rewrite Ho.
Qed.
