(* ===== verification/Regex.v ===== *)
(** * Regular expressions: [common/regex.cpp] and [common/regex.h]

    The library PCRE2 is an interface: what its functions answer, and the documented behaviour of its
    substitution as a law.  A context of the library is a value of its own type, [None] being the null
    pointer.  A failure ([None]) is a C++ exception. *)

From S2P Require Import StringView Utils Cidr.

Definition PCRE2_ERROR_NOMATCH : Z := -1.
Definition PCRE2_ERROR_PARTIAL : Z := -2.
Definition PCRE2_ERROR_BADDATA : Z := -29.
Definition PCRE2_ERROR_NOMEMORY : Z := -48.
Definition PCRE2_UNSET : Z := 2 ^ 64 - 1.
Definition PCRE2_SUBSTITUTE_GLOBAL : Z := 0x100.
Definition PCRE2_SUBSTITUTE_EXTENDED : Z := 0x200.
Definition PCRE2_SUBSTITUTE_UNSET_EMPTY : Z := 0x400.
Definition PCRE2_SUBSTITUTE_OVERFLOW_LENGTH : Z := 0x1000.

(** What a call of [pcre2_substitute] answers: the return value, the length it writes back and the
    bytes it puts into the buffer. *)
Record Substituted := MkSubstituted { s_retval : Z; s_length : Z; s_buffer : bytes }.

Class Pcre2 := {
  pcre2_code : Type;
  pcre2_compile_context : Type;
  pcre2_match_context : Type;
  (** the code, or the error and its offset *)
  pcre2_compile : bytes -> Z -> option pcre2_compile_context -> pcre2_code + Z * Z;
  (** the return value, and the vector of offsets *)
  pcre2_match : pcre2_code -> bytes -> Z -> Z -> option pcre2_match_context -> Z * list (Z * Z);
  (** code, subject, options, context, replacement and the capacity of the buffer *)
  pcre2_substitute : pcre2_code -> bytes -> Z -> option pcre2_match_context -> bytes -> Z -> Substituted;
  (** code and capacity: the return value, and the buffer *)
  pcre2_get_error_message : Z -> nat -> Z * bytes
}.

Section Regex.
Context `{P : Pcre2}.

(** ** Errors *)

Definition DEFAULT_ERROR_SIZE : nat := 256.

Definition TRUNCATION_MARKER : bytes := str "...".

(** [memcpy] into a buffer. *)
Definition write_at (off : nat) (data buf : bytes) : bytes := take off buf ++ data ++ drop (off + length data) buf.

Definition pcre2_error_to_string (code : Z) : bytes :=
  let '(ret, error_message) := pcre2_get_error_message code DEFAULT_ERROR_SIZE in
  if (ret =? PCRE2_ERROR_BADDATA)%Z then str "Unknown error code: " ++ fmt_dec code
  else
    let '(ret, error_message) :=
      if (ret =? PCRE2_ERROR_NOMEMORY)%Z then
        (Z.of_nat DEFAULT_ERROR_SIZE, write_at (DEFAULT_ERROR_SIZE - length TRUNCATION_MARKER - 1) TRUNCATION_MARKER error_message)
      else (ret, error_message) in
    take (Z.to_nat ret) error_message.

Record RegexCompileError := MkCompileError { ce_pattern : bytes; ce_error : Z; ce_offset : Z }.

(** The format fills with spaces up to the offset; texts are cut at their first null character. *)
Definition compile_error_to_string (e : RegexCompileError) : bytes :=
  c_str (pcre2_error_to_string (ce_error e)) ++ str " (offset = " ++ fmt_dec (ce_offset e) ++ str ")" ++ [10%Z] ++
  [9%Z; 9%Z] ++ c_str (ce_pattern e) ++ [10%Z] ++ [9%Z; 9%Z] ++ replicate (Z.to_nat (ce_offset e)) (chr " ") ++ str "^".

(** ** Compiled expressions *)

Inductive MatchResult := RegexMatch (match_groups : list (Z * Z)) | RegexNoMatch | RegexMatchError (error : Z).

Definition regex_compile (regex : bytes) (options : Z) (ctx : option pcre2_compile_context) : pcre2_code + RegexCompileError :=
  match pcre2_compile regex options ctx with
  | inl code => inl code
  | inr (error, offset) => inr (MkCompileError regex error offset)
  end.

Definition regex_match (re : pcre2_code) (text : bytes) (options start_offset : Z) (ctx : option pcre2_match_context) : MatchResult :=
  let '(res, ovector) := pcre2_match re text start_offset options ctx in
  let matched_groups := if (0 <? res)%Z then take (Z.to_nat res) ovector else [] in
  if (0 <=? res)%Z then RegexMatch matched_groups
  else if (res =? PCRE2_ERROR_NOMATCH)%Z || (res =? PCRE2_ERROR_PARTIAL)%Z then RegexNoMatch
  else RegexMatchError res.

(** [substr], which throws when it starts behind the end. *)
Definition sv_substr (pos n : Z) (s : bytes) : option bytes :=
  if (Z.of_nat (length s) <? pos)%Z then None
  else Some (take (Z.to_nat (Z.min n (Z.of_nat (length s)))) (drop (Z.to_nat pos) s)).

Definition group_substr (match_groups : list (Z * Z)) (text : bytes) (group_id : nat) : option bytes :=
  match match_groups !! group_id with
  | None => Some []
  | Some (begin_, end_) => sv_substr 0 end_ text ≫= sv_substr begin_ PCRE2_UNSET
  end.

Inductive ReplaceResult := ReplaceSuccess (substitutions_number : Z) (string : bytes) | RegexReplaceError (error : Z).

Definition regex_replace (re : pcre2_code) (options : Z) (pattern replace_expression : bytes) (ctx : option pcre2_match_context) : ReplaceResult :=
  let options := Z.lor options PCRE2_SUBSTITUTE_OVERFLOW_LENGTH in
  let r := pcre2_substitute re pattern options ctx replace_expression (Z.of_nat (length pattern) + 1) in
  let r := if (s_retval r =? PCRE2_ERROR_NOMEMORY)%Z
           then pcre2_substitute re pattern options None replace_expression (s_length r) else r in
  if (s_retval r <? 0)%Z then RegexReplaceError (s_retval r)
  else ReplaceSuccess (s_retval r) (take (Z.to_nat (s_length r)) (s_buffer r)).

(** The loop, with fuel for its rounds; nothing when there are more. *)
Fixpoint regex_replace_all (fuel : nat) (re : pcre2_code) (options : Z) (pattern replace_expression : bytes) (ctx : option pcre2_match_context)
    : option (Z + bytes) :=
  match fuel with
  | O => None
  | S f =>
      match regex_replace re options pattern replace_expression ctx with
      | RegexReplaceError error => Some (inl error)
      | ReplaceSuccess n string => if (n =? 0)%Z then Some (inr string) else regex_replace_all f re options string replace_expression ctx
      end
  end.

(** ** Expressions that are compiled when they are used *)

Inductive LazyRegex := Uncompiled (txt : bytes) (options : Z) (ctx : option pcre2_compile_context) | Compiled (re : pcre2_code).

Definition lazy_compile (l : LazyRegex) : option RegexCompileError * LazyRegex :=
  match l with
  | Uncompiled txt options ctx =>
      match regex_compile txt options ctx with
      | inr error => (Some error, l)
      | inl re => (None, Compiled re)
      end
  | Compiled _ => (None, l)
  end.

Definition lazy_get (l : LazyRegex) : option pcre2_code * LazyRegex :=
  match lazy_compile l with
  | (None, Compiled re) => (Some re, Compiled re)
  | (_, l') => (None, l')
  end.

(** [match] of a lazy expression; an error of compilation is a result of its own. *)
Definition lazy_match (l : LazyRegex) (text : bytes) (options start_offset : Z) (ctx : option pcre2_match_context)
    : option ((RegexCompileError + MatchResult) * LazyRegex) :=
  match lazy_compile l with
  | (Some error, l') => Some (inl error, l')
  | (None, l') =>
      match lazy_get l' with
      | (Some re, l'') => Some (inr (regex_match re text options start_offset ctx), l'')
      | (None, _) => None
      end
  end.

(** ** Expressions with a shortcut *)

Record ShortcuttedRegex := MkShortcutted { m_case_sensitive : bool; m_shortcut : bytes }.

Definition shortcut_absent (r : ShortcuttedRegex) (text : bytes) : bool :=
  (m_case_sensitive r && bool_decide (find_sub (m_shortcut r) text = None))
  || (negb (m_case_sensitive r) && bool_decide (ifind text (m_shortcut r) = None)).

(** [underlying] is the match of the expression behind the shortcut. *)
Definition shortcut_match (r : ShortcuttedRegex) (underlying : bytes -> MatchResult) (text : bytes) : MatchResult :=
  if shortcut_absent r text then RegexNoMatch else underlying text.

(** ** Simple expressions *)

Definition SimpleRegex := option pcre2_code.

Definition compile_regex (text : bytes) (options : Z) : SimpleRegex :=
  match regex_compile text options None with inl re => Some re | inr _ => None end.

Definition simple_match (m_re : SimpleRegex) (s : bytes) : bool :=
  match m_re with
  | None => false
  | Some re => match regex_match re s 0 0 None with RegexMatch _ => true | _ => false end
  end.

Definition simple_replace (m_re : SimpleRegex) (subject replacement : bytes) : option bytes :=
  match m_re with
  | None => None
  | Some re =>
      let options := Z.lor (Z.lor PCRE2_SUBSTITUTE_GLOBAL PCRE2_SUBSTITUTE_UNSET_EMPTY) PCRE2_SUBSTITUTE_EXTENDED in
      match regex_replace re options subject replacement None with ReplaceSuccess _ string => Some string | RegexReplaceError _ => None end
  end.

Arguments regex_compile : simpl never.
Arguments regex_match : simpl never.
Arguments regex_replace : simpl never.

(** ** Replacing *)

(** What a substitution comes to when there is room for its result: an error, or the number of
    replacements and the text. *)
Definition Substitution := pcre2_code -> bytes -> Z -> option pcre2_match_context -> bytes -> Z + Z * bytes.

(** The documented behaviour of [pcre2_substitute] with [PCRE2_SUBSTITUTE_OVERFLOW_LENGTH]: a result
    with its terminating null has to fit the buffer; when it does not, the length it needs is told. *)
Definition substitute_law (sub : Substitution) : Prop :=
  forall re subject options ctx replacement cap,
    let options := Z.lor options PCRE2_SUBSTITUTE_OVERFLOW_LENGTH in
    let r := pcre2_substitute re subject options ctx replacement cap in
    match sub re subject options ctx replacement with
    | inl error => s_retval r = error /\ (error < 0)%Z /\ error <> PCRE2_ERROR_NOMEMORY
    | inr (n, out) =>
        (0 <= n)%Z /\
        if (Z.of_nat (length out) + 1 <=? cap)%Z
        then s_retval r = n /\ s_length r = Z.of_nat (length out) /\ take (length out) (s_buffer r) = out
        else s_retval r = PCRE2_ERROR_NOMEMORY /\ s_length r = (Z.of_nat (length out) + 1)%Z
    end.

Definition replace_result (r : Z + Z * bytes) : ReplaceResult :=
  match r with inl error => RegexReplaceError error | inr (n, out) => ReplaceSuccess n out end.

Section Replace.
Context (sub : Substitution) (law : substitute_law sub).

(** A call whose buffer is large enough. *)
Lemma replace_fits re subject options ctx replacement cap n out :
  let options := Z.lor options PCRE2_SUBSTITUTE_OVERFLOW_LENGTH in
  sub re subject options ctx replacement = inr (n, out) -> (Z.of_nat (length out) + 1 <= cap)%Z ->
  let r := pcre2_substitute re subject options ctx replacement cap in
  s_retval r = n /\ (0 <= n)%Z /\ take (Z.to_nat (s_length r)) (s_buffer r) = out.
Proof.
  intros opts Hs Hc r. pose proof (law re subject options ctx replacement cap) as H. cbn zeta in H. fold opts in H.
  rewrite Hs, (proj2 (Z.leb_le _ _) Hc) in H. destruct H as (Hn & E1 & E2 & E3). fold r in E1, E2, E3.
  split; [done|]. split; [done|]. rewrite E2. by rewrite Nat2Z.id.
Qed.

(** A match context that makes no difference to a substitution: none at all, or one that sets nothing the
    substitution depends on. *)
Definition harmless (re : pcre2_code) (options : Z) (replacement : bytes) (ctx : option pcre2_match_context) : Prop :=
  forall s, sub re s (Z.lor options PCRE2_SUBSTITUTE_OVERFLOW_LENGTH) ctx replacement = sub re s (Z.lor options PCRE2_SUBSTITUTE_OVERFLOW_LENGTH) None replacement.

(** Replacing gives the text of the substitution and the number of replacements, or its error,
    however much longer than the subject the result is: the second call has room for it. *)
Lemma replace_harmless re options subject replacement ctx :
  harmless re options replacement ctx ->
  regex_replace re options subject replacement ctx =
  replace_result (sub re subject (Z.lor options PCRE2_SUBSTITUTE_OVERFLOW_LENGTH) ctx replacement).
Proof.
  intros Hctx. specialize (Hctx subject). unfold regex_replace. set (opts := Z.lor options PCRE2_SUBSTITUTE_OVERFLOW_LENGTH) in *.
  set (cap := (Z.of_nat (length subject) + 1)%Z). pose proof (law re subject options ctx replacement cap) as H.
  cbn zeta in H. fold opts in H. destruct (sub re subject opts ctx replacement) as [error|[n out]] eqn:Es; cbn [replace_result].
  - destruct H as (E & Hneg & Hne). rewrite E, (proj2 (Z.eqb_neq _ _) Hne), E, (proj2 (Z.ltb_lt _ _) Hneg). done.
  - destruct H as [Hn H]. destruct (Z.leb_spec (Z.of_nat (length out) + 1) cap) as [Hle|Hgt].
    + destruct (replace_fits re subject options ctx replacement cap n out Es Hle) as (E & _ & Et). fold opts in E, Et.
      rewrite E. rewrite (proj2 (Z.eqb_neq n PCRE2_ERROR_NOMEMORY)) by (unfold PCRE2_ERROR_NOMEMORY; lia).
      rewrite E, (proj2 (Z.ltb_ge _ _) Hn). by rewrite Et.
    + destruct H as [E El]. rewrite E, Z.eqb_refl, El.
      destruct (replace_fits re subject options None replacement (Z.of_nat (length out) + 1) n out (eq_sym Hctx)) as (E' & _ & Et); [lia|].
      fold opts in E', Et. rewrite E', (proj2 (Z.ltb_ge _ _) Hn). by rewrite Et.
Qed.

Lemma replace_correct re options subject replacement :
  regex_replace re options subject replacement None =
  replace_result (sub re subject (Z.lor options PCRE2_SUBSTITUTE_OVERFLOW_LENGTH) None replacement).
Proof. by apply replace_harmless. Qed.

(** Replacing until nothing more is found, as a relation. *)
Inductive rewrites (re : pcre2_code) (options : Z) (replacement : bytes) (ctx : option pcre2_match_context) : bytes -> Z + bytes -> Prop :=
| rewrites_stop s out : sub re s (Z.lor options PCRE2_SUBSTITUTE_OVERFLOW_LENGTH) ctx replacement = inr (0%Z, out) -> rewrites re options replacement ctx s (inr out)
| rewrites_error s e : sub re s (Z.lor options PCRE2_SUBSTITUTE_OVERFLOW_LENGTH) ctx replacement = inl e -> rewrites re options replacement ctx s (inl e)
| rewrites_more s n out r : sub re s (Z.lor options PCRE2_SUBSTITUTE_OVERFLOW_LENGTH) ctx replacement = inr (n, out) -> n <> 0%Z ->
    rewrites re options replacement ctx out r -> rewrites re options replacement ctx s r.

(** C23: [replace_all], given no match context or one that makes no difference to the substitution, ends exactly
    when repeated replacing comes to an end, and then with its result: the text in which nothing is found any more,
    or the first error.  (The call for a result that needs more room drops the context.) *)
Theorem replace_all_rewrites re options replacement ctx s r :
  harmless re options replacement ctx ->
  (exists fuel, regex_replace_all fuel re options s replacement ctx = Some r) <-> rewrites re options replacement ctx s r.
Proof.
  intros Hctx. split.
  - intros [fuel H]. revert s H. induction fuel as [|fuel IH]; intros s H; [done|]. cbn [regex_replace_all] in H.
    rewrite replace_harmless in H by done. destruct (sub re s _ ctx replacement) as [e|[n out]] eqn:E; cbn in H.
    + injection H as <-. by apply rewrites_error.
    + destruct (Z.eqb_spec n 0) as [->|Hn]; [injection H as <-; by apply rewrites_stop|].
      apply (rewrites_more _ _ _ _ s n out); [done..|]. by apply IH.
  - induction 1 as [s out E|s e E|s n out r E Hn _ [fuel IH]].
    + exists 1. cbn. rewrite replace_harmless, E by done. done.
    + exists 1. cbn. rewrite replace_harmless, E by done. done.
    + exists (S fuel). cbn [regex_replace_all]. rewrite replace_harmless, E by done. cbn. by rewrite (proj2 (Z.eqb_neq _ _) Hn).
Qed.
End Replace.

(** ** Compiling late *)

Definition eager_match (txt : bytes) (copts : Z) (cctx : option pcre2_compile_context) (call : bytes * Z * Z * option pcre2_match_context)
    : RegexCompileError + MatchResult :=
  let '(text, options, start_offset, ctx) := call in
  match regex_compile txt copts cctx with
  | inl re => inr (regex_match re text options start_offset ctx)
  | inr error => inl error
  end.

Fixpoint lazy_matches (l : LazyRegex) (calls : list (bytes * Z * Z * option pcre2_match_context)) : option (list (RegexCompileError + MatchResult)) :=
  match calls with
  | [] => Some []
  | (text, options, start_offset, ctx) :: calls' =>
      match lazy_match l text options start_offset ctx with
      | None => None
      | Some (r, l') => (fun rs => r :: rs) <$> lazy_matches l' calls'
      end
  end.

(** An expression that is compiled when it is first used answers each match as one that was
    compiled for that match, errors of compilation included, in any sequence of calls; it never uses
    an expression that could not be compiled. *)
Theorem lazy_is_eager txt copts cctx calls :
  lazy_matches (Uncompiled txt copts cctx) calls = Some (map (eager_match txt copts cctx) calls).
Proof.
  destruct (regex_compile txt copts cctx) as [re|error] eqn:E.
  - assert (lazy_matches (Compiled re) calls = Some (map (eager_match txt copts cctx) calls)) as Hc.
    { induction calls as [|[[[text o] st] ctx] calls IH]; [done|]. cbn [lazy_matches map]. unfold lazy_match, eager_match at 1.
      cbn [lazy_compile lazy_get]. by rewrite IH, E. }
    rewrite <- Hc. destruct calls as [|[[[text o] st] ctx] calls']; [done|]. cbn [lazy_matches]. unfold lazy_match. cbn [lazy_compile]. by rewrite E.
  - induction calls as [|[[[text o] st] ctx] calls IH]; [done|]. cbn [lazy_matches map]. unfold lazy_match, eager_match at 1. cbn [lazy_compile].
    by rewrite E, IH.
Qed.

(** ** Shortcuts *)

(** The shortcut occurs in the text, letter by letter or up to the case of letters. *)
Definition occurs (r : ShortcuttedRegex) (text : bytes) : Prop :=
  let f := if m_case_sensitive r then id else to_lower in exists a b, f text = a ++ f (m_shortcut r) ++ b.

Lemma find_sub_occurs needle hay : find_sub needle hay <> None <-> exists a b, hay = a ++ needle ++ b.
Proof.
  destruct (find_sub needle hay) as [i|] eqn:E; split; try done.
  - intros _. apply find_sub_Some in E as (_ & Hp & _). apply has_prefix_spec in Hp as [t Ht]. exists (take i hay), t.
    by rewrite <- Ht, take_drop.
  - intros (a & b & ->). apply (find_sub_None needle _ (length a)) in E. rewrite drop_app_length in E.
    rewrite (proj2 (has_prefix_spec needle (needle ++ b))) in E; [done|by exists b].
Qed.

(** The shortcut changes nothing but the time a match takes when the expression cannot match, nor
    fail, on a text without it: the answer is the expression's own on every text in which the shortcut
    occurs, and otherwise that there is no match. *)
Theorem shortcut_transparent r underlying text :
  (occurs r text -> shortcut_match r underlying text = underlying text) /\
  (~ occurs r text -> shortcut_match r underlying text = RegexNoMatch).
Proof.
  assert (shortcut_absent r text = false <-> occurs r text) as H.
  { unfold shortcut_absent, occurs. destruct (m_case_sensitive r); cbn [andb negb orb id].
    - rewrite orb_false_r, bool_decide_eq_false. apply find_sub_occurs.
    - rewrite bool_decide_eq_false, ifind_lower. apply find_sub_occurs. }
  unfold shortcut_match. destruct (shortcut_absent r text) eqn:E; split; try done; intros Ho.
  - by apply H in Ho.
  - destruct Ho. by apply H.
Qed.

(** ** Groups *)

(** The text of a group that is set, and an exception for one that is not. *)
Lemma group_substr_spec groups text i b e :
  groups !! i = Some (b, e) ->
  ((0 <= b <= e)%Z -> (e <= Z.of_nat (length text))%Z -> (Z.of_nat (length text) < PCRE2_UNSET)%Z ->
   group_substr groups text i = Some (substr (Z.to_nat b) (Z.to_nat (e - b)) text)) /\
  (b = PCRE2_UNSET -> e = PCRE2_UNSET -> (Z.of_nat (length text) < PCRE2_UNSET)%Z -> group_substr groups text i = None).
Proof.
  intros Hg. unfold group_substr. rewrite Hg. unfold sv_substr. rewrite (proj2 (Z.ltb_ge (Z.of_nat (length text)) 0)) by lia.
  rewrite drop_0. cbn [mbind option_bind]. split.
  - intros Hb He Hl. rewrite Z.min_l by lia. rewrite length_take, (proj2 (Z.ltb_ge _ _)) by lia. f_equal. unfold substr.
    rewrite take_ge by (rewrite length_drop, length_take; lia). rewrite skipn_firstn_comm. f_equal. lia.
  - intros -> -> Hl. rewrite Z.min_r by lia. rewrite length_take, (proj2 (Z.ltb_lt _ _)) by lia. done.
Qed.

(** A message that does not fit its buffer keeps the null at the end of the buffer. *)
Lemma truncated_message code buf :
  length buf = DEFAULT_ERROR_SIZE -> last buf = Some 0%Z ->
  pcre2_get_error_message code DEFAULT_ERROR_SIZE = (PCRE2_ERROR_NOMEMORY, buf) ->
  pcre2_error_to_string code = take 252 buf ++ TRUNCATION_MARKER ++ [0%Z].
Proof.
  intros Hl Hz Hm. unfold pcre2_error_to_string. rewrite Hm. change (PCRE2_ERROR_NOMEMORY =? PCRE2_ERROR_BADDATA)%Z with false.
  rewrite Z.eqb_refl. cbn iota. unfold write_at. change (DEFAULT_ERROR_SIZE - length TRUNCATION_MARKER - 1) with 252.
  change (252 + length TRUNCATION_MARKER) with 255. assert (drop 255 buf = [0%Z]) as ->.
  { destruct buf as [|x buf] using rev_ind; [done|]. rewrite last_snoc in Hz. injection Hz as ->. rewrite length_app in Hl. cbn in Hl.
    rewrite drop_app_length'; [done|]. unfold DEFAULT_ERROR_SIZE in Hl. lia. }
  rewrite take_ge; [done|]. rewrite !length_app, length_take, Hl. unfold DEFAULT_ERROR_SIZE. cbn. lia.
Qed.
End Regex.

(** ** A small engine *)

(** Expressions of one character that stand for themselves; a context is a callout that takes only the
    first replacement. *)
Module Literal.

Fixpoint replace_char (c : Z) (replacement : bytes) (global : bool) (s : bytes) : Z * bytes :=
  match s with
  | [] => (0%Z, [])
  | x :: s' =>
      if (x =? c)%Z then
        if global then let '(n, out) := replace_char c replacement global s' in ((n + 1)%Z, replacement ++ out) else (1%Z, replacement ++ s')
      else let '(n, out) := replace_char c replacement global s' in (n, x :: out)
  end.

Definition substitution (c : Z) (subject : bytes) (options : Z) (ctx : option unit) (replacement : bytes) : Z + Z * bytes :=
  inr (replace_char c replacement (Z.testbit options 8 && bool_decide (ctx = None)) subject).

#[export] Instance engine : Pcre2 := {
  pcre2_code := Z;
  pcre2_compile_context := unit;
  pcre2_match_context := unit;
  pcre2_compile regex _ _ := match regex with [c] => inl c | _ => inr (101, 0)%Z end;
  pcre2_match c text start _ _ :=
    match find_index (Z.eqb c) (drop (Z.to_nat start) text) with
    | Some i => (1, [(start + Z.of_nat i, start + Z.of_nat i + 1)])%Z
    | None => (PCRE2_ERROR_NOMATCH, [])
    end;
  pcre2_substitute c subject options ctx replacement cap :=
    match substitution c subject options ctx replacement with
    | inl e => MkSubstituted e 0 []
    | inr (n, out) =>
        if (Z.of_nat (length out) + 1 <=? cap)%Z then MkSubstituted n (Z.of_nat (length out)) (out ++ [0%Z])
        else MkSubstituted PCRE2_ERROR_NOMEMORY (Z.of_nat (length out) + 1) []
    end;
  pcre2_get_error_message code cap :=
    if (code =? 101)%Z then (PCRE2_ERROR_NOMEMORY, replicate (cap - 1) (chr "x") ++ [0%Z]) else (PCRE2_ERROR_BADDATA, replicate cap 0%Z)
}.

Lemma replace_char_count c r g s : (0 <= (replace_char c r g s).1)%Z.
Proof. induction s as [|x s IH]; cbn; [lia|]. destruct (x =? c)%Z, g, (replace_char c r _ s); cbn in *; lia. Qed.

Lemma engine_law : substitute_law (P := engine) substitution.
Proof.
  intros re subject options ctx replacement cap. cbn zeta. cbn [pcre2_substitute engine]. unfold substitution.
  pose proof (replace_char_count re replacement (Z.testbit (Z.lor options PCRE2_SUBSTITUTE_OVERFLOW_LENGTH) 8 && bool_decide (ctx = None)) subject) as Hn.
  destruct (replace_char _ _ _ _) as [n out]. split; [exact Hn|]. destruct (_ <=? cap)%Z; cbn; [|done].
  split; [done|]. split; [done|]. apply take_app_length.
Qed.
End Literal.
Import Literal.

Lemma replace_grows :
  regex_replace (P := engine) (chr "a") PCRE2_SUBSTITUTE_GLOBAL (str "banana") (str "<an>") None = ReplaceSuccess 3 (str "b<an>n<an>n<an>").
Proof. rewrite (replace_correct (P := engine) substitution engine_law). vm_compute. reflexivity. Qed.

Lemma replace_all_rewrites_witness :
  rewrites (P := engine) substitution (chr "a") 0 (str "o") (Some tt) (str "banana") (inr (str "bonono")).
Proof.
  apply (replace_all_rewrites (P := engine) substitution engine_law (chr "a") 0%Z (str "o") (Some tt) (str "banana") (inr (str "bonono"))).
  { intros s. reflexivity. }
  exists 4. vm_compute. reflexivity.
Defined.

Lemma shortcut_transparent_witness :
  shortcut_match (MkShortcutted false (str "NA")) (fun text => regex_match (P := engine) (chr "b") text 0 0 None) (str "banana") = RegexMatch [(0, 1)%Z].
Proof.
  rewrite (proj1 (shortcut_transparent (MkShortcutted false (str "NA")) (fun text => regex_match (P := engine) (chr "b") text 0 0 None) (str "banana"))).
  - vm_compute. reflexivity.
  - exists (str "ba"), (str "na"). vm_compute. reflexivity.
Defined.

(** ** What the code does not do *)

(** The second call is made without the match context: here the replacement that the context allows is
    the first one only, and the result that needs more room than the subject is lost. *)
Lemma replace_loses_context :
  regex_replace (P := engine) (chr "a") PCRE2_SUBSTITUTE_GLOBAL (str "aa") (str "bb") (Some tt) = RegexReplaceError PCRE2_ERROR_NOMEMORY /\
  substitution (chr "a") (str "aa") PCRE2_SUBSTITUTE_GLOBAL (Some tt) (str "bb") = inr (1%Z, str "bba").
Proof. by vm_compute. Qed.

(** Replacing a text by one that contains it never ends. *)
Lemma replace_all_diverges fuel s :
  chr "a" ∈ s -> regex_replace_all (P := engine) fuel (chr "a") 0 s (str "aa") None = None.
Proof.
  revert s. induction fuel as [|fuel IH]; intros s Hs; [done|]. cbn [regex_replace_all].
  rewrite (replace_correct (P := engine) substitution engine_law). unfold substitution.
  change (Z.testbit (Z.lor 0 PCRE2_SUBSTITUTE_OVERFLOW_LENGTH) 8) with false. cbn [andb].
  assert (exists out, replace_char (chr "a") (str "aa") false s = (1%Z, out) /\ chr "a" ∈ out) as (out & -> & Ho); [|cbn; by apply IH].
  clear IH fuel. induction s as [|x s IHs]; [by apply not_elem_of_nil in Hs|]. cbn [replace_char].
  destruct (Z.eqb_spec x (chr "a")) as [->|Hx]; [eexists; split; [done|set_solver]|].
  apply elem_of_cons in Hs as [Hs|Hs]; [congruence|]. destruct (IHs Hs) as (out & -> & Ho). eexists. split; [done|set_solver].
Qed.

(** An error text that is cut ends with a null character. *)
Lemma truncated_error_ends_with_null : last (pcre2_error_to_string (P := engine) 101) = Some 0%Z.
Proof. vm_compute. reflexivity. Qed.

(** The text of a group that took no part in the match is an exception. *)
Lemma unset_group_throws : group_substr [(0, 1); (PCRE2_UNSET, PCRE2_UNSET); (0, 1)]%Z (str "b") 1 = None.
Proof. vm_compute. reflexivity. Qed.
