(* ===== verification/MakeSsl.v ===== *)
(** * TLS clients with a fingerprint: [make_ssl] of [tls/make_ssl.cpp], built with BoringSSL

    A TLS object is made by a sequence of calls of the library, whose answers are an oracle: it is
    given the calls so far and the call.  The result is the object, an error text, or a null pointer
    that was used.  The calls that were made are the fingerprint: they decide what the library writes
    into its first message. *)

From S2P Require Import StringView Utils Error SocketAddress.

Inductive TlsClientProfile := CHROME | SAFARI | FIREFOX | OKHTTP | OPENSSL_DEFAULT | DEFAULT.

#[export] Instance profile_eq_dec : EqDecision TlsClientProfile.
Proof. solve_decision. Defined.

Inductive SslProtocol := TLS | NGTCP2.

#[export] Instance protocol_eq_dec : EqDecision SslProtocol.
Proof. solve_decision. Defined.

Definition is_browser_profile (p : TlsClientProfile) : bool :=
  bool_decide (p = CHROME) || bool_decide (p = SAFARI) || bool_decide (p = FIREFOX).

(** ** Numbers of the protocol *)

Definition SSL_GROUP_SECP256R1 : Z := 23.
Definition SSL_GROUP_SECP384R1 : Z := 24.
Definition SSL_GROUP_SECP521R1 : Z := 25.
Definition SSL_GROUP_X25519 : Z := 29.
Definition SSL_GROUP_FFDHE2048 : Z := 0x0100.
Definition SSL_GROUP_FFDHE3072 : Z := 0x0101.
Definition SSL_GROUP_X25519_MLKEM768 : Z := 0x11ec.

Definition SSL_SIGN_RSA_PKCS1_SHA1 : Z := 0x0201.
Definition SSL_SIGN_ECDSA_SHA1 : Z := 0x0203.
Definition SSL_SIGN_RSA_PKCS1_SHA256 : Z := 0x0401.
Definition SSL_SIGN_ECDSA_SECP256R1_SHA256 : Z := 0x0403.
Definition SSL_SIGN_RSA_PKCS1_SHA384 : Z := 0x0501.
Definition SSL_SIGN_ECDSA_SECP384R1_SHA384 : Z := 0x0503.
Definition SSL_SIGN_RSA_PKCS1_SHA512 : Z := 0x0601.
Definition SSL_SIGN_ECDSA_SECP521R1_SHA512 : Z := 0x0603.
Definition SSL_SIGN_RSA_PSS_RSAE_SHA256 : Z := 0x0804.
Definition SSL_SIGN_RSA_PSS_RSAE_SHA384 : Z := 0x0805.
Definition SSL_SIGN_RSA_PSS_RSAE_SHA512 : Z := 0x0806.

Definition EXT_server_name : Z := 0.
Definition EXT_status_request : Z := 5.
Definition EXT_supported_groups : Z := 10.
Definition EXT_ec_point_formats : Z := 11.
Definition EXT_signature_algorithms : Z := 13.
Definition EXT_alpn : Z := 16.
Definition EXT_certificate_timestamp : Z := 18.
Definition EXT_encrypt_then_mac : Z := 22.
Definition EXT_extended_master_secret : Z := 23.
Definition EXT_cert_compression : Z := 27.
Definition EXT_record_size_limit : Z := 28.
Definition EXT_delegated_credential : Z := 34.
Definition EXT_session_ticket : Z := 35.
Definition EXT_supported_versions : Z := 43.
Definition EXT_psk_key_exchange_modes : Z := 45.
Definition EXT_key_share : Z := 51.
Definition EXT_encrypted_client_hello : Z := 0xfe0d.
Definition EXT_renegotiate : Z := 0xff01.

(** ** Tables *)

Definition cipher_list_for (profile : TlsClientProfile) : bytes :=
  match profile with
  | SAFARI => str "ECDHE-ECDSA-AES256-GCM-SHA384:ECDHE-ECDSA-AES128-GCM-SHA256:ECDHE-ECDSA-CHACHA20-POLY1305:ECDHE-RSA-AES256-GCM-SHA384:ECDHE-RSA-AES128-GCM-SHA256:ECDHE-RSA-CHACHA20-POLY1305:ECDHE-ECDSA-AES256-SHA:ECDHE-ECDSA-AES128-SHA:ECDHE-RSA-AES256-SHA:ECDHE-RSA-AES128-SHA:AES256-GCM-SHA384:AES128-GCM-SHA256:AES256-SHA:AES128-SHA:ECDHE-ECDSA-DES-CBC3-SHA:ECDHE-RSA-DES-CBC3-SHA:DES-CBC3-SHA"
  | FIREFOX => str "ECDHE-ECDSA-AES128-GCM-SHA256:ECDHE-ECDSA-AES256-GCM-SHA384:ECDHE-RSA-AES128-GCM-SHA256:ECDHE-RSA-AES256-GCM-SHA384:ECDHE-ECDSA-CHACHA20-POLY1305:ECDHE-RSA-CHACHA20-POLY1305:ECDHE-ECDSA-AES128-SHA:ECDHE-ECDSA-AES256-SHA:ECDHE-RSA-AES128-SHA:ECDHE-RSA-AES256-SHA:AES128-GCM-SHA256:AES256-GCM-SHA384:AES128-SHA:AES256-SHA"
  | OKHTTP => str "ECDHE-ECDSA-AES128-GCM-SHA256:ECDHE-RSA-AES128-GCM-SHA256:ECDHE-ECDSA-AES256-GCM-SHA384:ECDHE-RSA-AES256-GCM-SHA384:ECDHE-ECDSA-CHACHA20-POLY1305:ECDHE-RSA-CHACHA20-POLY1305:ECDHE-RSA-AES128-SHA:ECDHE-RSA-AES256-SHA:AES128-GCM-SHA256:AES256-GCM-SHA384:AES128-SHA:AES256-SHA:DES-CBC3-SHA"
  | OPENSSL_DEFAULT => str "ECDHE-ECDSA-AES256-GCM-SHA384:ECDHE-RSA-AES256-GCM-SHA384:DHE-RSA-AES256-GCM-SHA384:ECDHE-ECDSA-CHACHA20-POLY1305:ECDHE-RSA-CHACHA20-POLY1305:DHE-RSA-CHACHA20-POLY1305:ECDHE-ECDSA-AES128-GCM-SHA256:ECDHE-RSA-AES128-GCM-SHA256:DHE-RSA-AES128-GCM-SHA256:ECDHE-ECDSA-AES256-SHA384:ECDHE-RSA-AES256-SHA384:DHE-RSA-AES256-SHA256:ECDHE-ECDSA-AES128-SHA256:ECDHE-RSA-AES128-SHA256:DHE-RSA-AES128-SHA256:ECDHE-ECDSA-AES256-SHA:ECDHE-RSA-AES256-SHA:DHE-RSA-AES256-SHA:ECDHE-ECDSA-AES128-SHA:ECDHE-RSA-AES128-SHA:DHE-RSA-AES128-SHA:AES256-GCM-SHA384:AES128-GCM-SHA256:AES256-SHA256:AES128-SHA256:AES256-SHA:AES128-SHA"
  | CHROME | DEFAULT => str "ECDHE-ECDSA-AES128-GCM-SHA256:ECDHE-RSA-AES128-GCM-SHA256:ECDHE-ECDSA-AES256-GCM-SHA384:ECDHE-RSA-AES256-GCM-SHA384:ECDHE-ECDSA-CHACHA20-POLY1305:ECDHE-RSA-CHACHA20-POLY1305:ECDHE-RSA-AES128-SHA:ECDHE-RSA-AES256-SHA:AES128-GCM-SHA256:AES256-GCM-SHA384:AES128-SHA:AES256-SHA"
  end.

Definition groups_for (profile : TlsClientProfile) : list Z :=
  match profile with
  | SAFARI => [SSL_GROUP_X25519_MLKEM768; SSL_GROUP_X25519; SSL_GROUP_SECP256R1; SSL_GROUP_SECP384R1; SSL_GROUP_SECP521R1]
  | FIREFOX => [SSL_GROUP_X25519_MLKEM768; SSL_GROUP_X25519; SSL_GROUP_SECP256R1; SSL_GROUP_SECP384R1; SSL_GROUP_SECP521R1;
                SSL_GROUP_FFDHE2048; SSL_GROUP_FFDHE3072]
  | OKHTTP => [SSL_GROUP_X25519; SSL_GROUP_SECP256R1; SSL_GROUP_SECP384R1]
  | OPENSSL_DEFAULT => [SSL_GROUP_X25519_MLKEM768; SSL_GROUP_X25519; SSL_GROUP_SECP256R1; SSL_GROUP_SECP384R1; SSL_GROUP_SECP521R1;
                        SSL_GROUP_FFDHE2048; SSL_GROUP_FFDHE3072]
  | CHROME | DEFAULT => [SSL_GROUP_X25519_MLKEM768; SSL_GROUP_X25519; SSL_GROUP_SECP256R1; SSL_GROUP_SECP384R1]
  end.

Definition sigalgs_for (profile : TlsClientProfile) : list Z :=
  match profile with
  | SAFARI => [SSL_SIGN_ECDSA_SECP256R1_SHA256; SSL_SIGN_RSA_PSS_RSAE_SHA256; SSL_SIGN_RSA_PKCS1_SHA256; SSL_SIGN_ECDSA_SECP384R1_SHA384;
               SSL_SIGN_RSA_PSS_RSAE_SHA384; SSL_SIGN_RSA_PSS_RSAE_SHA384; SSL_SIGN_RSA_PKCS1_SHA384; SSL_SIGN_RSA_PSS_RSAE_SHA512;
               SSL_SIGN_RSA_PKCS1_SHA512; SSL_SIGN_RSA_PKCS1_SHA1]
  | FIREFOX => [SSL_SIGN_ECDSA_SECP256R1_SHA256; SSL_SIGN_ECDSA_SECP384R1_SHA384; SSL_SIGN_ECDSA_SECP521R1_SHA512; SSL_SIGN_RSA_PSS_RSAE_SHA256;
                SSL_SIGN_RSA_PSS_RSAE_SHA384; SSL_SIGN_RSA_PSS_RSAE_SHA512; SSL_SIGN_RSA_PKCS1_SHA256; SSL_SIGN_RSA_PKCS1_SHA384;
                SSL_SIGN_RSA_PKCS1_SHA512; SSL_SIGN_ECDSA_SHA1; SSL_SIGN_RSA_PKCS1_SHA1]
  | OKHTTP => [SSL_SIGN_ECDSA_SECP256R1_SHA256; SSL_SIGN_RSA_PSS_RSAE_SHA256; SSL_SIGN_RSA_PKCS1_SHA256; SSL_SIGN_ECDSA_SECP384R1_SHA384;
               SSL_SIGN_RSA_PSS_RSAE_SHA384; SSL_SIGN_RSA_PKCS1_SHA384; SSL_SIGN_RSA_PSS_RSAE_SHA512; SSL_SIGN_RSA_PKCS1_SHA512;
               SSL_SIGN_RSA_PKCS1_SHA1]
  | CHROME | DEFAULT | OPENSSL_DEFAULT =>
      [SSL_SIGN_ECDSA_SECP256R1_SHA256; SSL_SIGN_RSA_PSS_RSAE_SHA256; SSL_SIGN_RSA_PKCS1_SHA256; SSL_SIGN_ECDSA_SECP384R1_SHA384;
       SSL_SIGN_RSA_PSS_RSAE_SHA384; SSL_SIGN_RSA_PKCS1_SHA384; SSL_SIGN_RSA_PSS_RSAE_SHA512; SSL_SIGN_RSA_PKCS1_SHA512]
  end.

(** Nothing for a profile without an order of its own. *)
Definition extension_order_for (profile : TlsClientProfile) : option (list Z) :=
  match profile with
  | SAFARI => Some [EXT_server_name; EXT_extended_master_secret; EXT_renegotiate; EXT_supported_groups; EXT_ec_point_formats; EXT_alpn;
      EXT_status_request; EXT_signature_algorithms; EXT_certificate_timestamp; EXT_key_share; EXT_psk_key_exchange_modes;
      EXT_supported_versions; EXT_cert_compression]
  | FIREFOX => Some [EXT_server_name; EXT_extended_master_secret; EXT_renegotiate; EXT_supported_groups; EXT_ec_point_formats;
      EXT_session_ticket; EXT_alpn; EXT_status_request; EXT_delegated_credential; EXT_certificate_timestamp; EXT_key_share;
      EXT_supported_versions; EXT_signature_algorithms; EXT_psk_key_exchange_modes; EXT_record_size_limit; EXT_cert_compression;
      EXT_encrypted_client_hello]
  | OKHTTP => Some [EXT_server_name; EXT_extended_master_secret; EXT_renegotiate; EXT_supported_groups; EXT_ec_point_formats;
      EXT_session_ticket; EXT_alpn; EXT_status_request; EXT_signature_algorithms; EXT_key_share; EXT_psk_key_exchange_modes;
      EXT_supported_versions]
  | OPENSSL_DEFAULT => Some [EXT_renegotiate; EXT_server_name; EXT_ec_point_formats; EXT_supported_groups; EXT_session_ticket;
      EXT_encrypt_then_mac; EXT_extended_master_secret; EXT_signature_algorithms; EXT_supported_versions; EXT_psk_key_exchange_modes;
      EXT_key_share]
  | CHROME | DEFAULT => None
  end.

Definition OPENSSL_SIGALGS : list Z :=
  [0x0905; 0x0906; 0x0904; 0x0403; 0x0503; 0x0603; 0x0807; 0x0808; 0x081a; 0x081b; 0x081c; 0x0809; 0x080a; 0x080b; 0x0804; 0x0805; 0x0806;
   0x0401; 0x0501; 0x0601; 0x0303; 0x0301; 0x0302; 0x0402; 0x0502; 0x0602]%Z.

Definition FIREFOX_DC_SIGALGS : list Z :=
  [SSL_SIGN_ECDSA_SECP256R1_SHA256; SSL_SIGN_ECDSA_SECP384R1_SHA384; SSL_SIGN_ECDSA_SECP521R1_SHA512; SSL_SIGN_ECDSA_SHA1].

(** ** Certificates *)

(** What [BrotliDecoderDecompress] answers for an output buffer: success with the bytes written, or not. *)
Definition Brotli := bytes -> nat -> option bytes.

(** The return value, the buffer given out, and how many buffers are still allocated. *)
Definition DecompressBrotliCert (alloc_ok : bool) (brotli : Brotli) (uncompressed_len : nat) (input : bytes) : Z * option bytes * nat :=
  if negb alloc_ok then (0%Z, None, 0)
  else
    match brotli input uncompressed_len with
    | Some data => if length data =? uncompressed_len then (1%Z, Some data, 1) else (0%Z, None, 0)
    | None => (0%Z, None, 0)
    end.

(** ** Parameters and calls *)

(** Callbacks, their argument and sessions are known by whether they are null. *)
Record SslInitParameters := MkParams {
  profile : TlsClientProfile;
  protocol : SslProtocol;
  alpn_protos : bytes;
  sni : option bytes;
  verify_callback : bool;
  verify_arg : bool;
  post_quantum : bool;
  tls_client_random : bytes;
  tls_client_random_mask : bytes;
  endpoint_data : bytes;
  new_session_cb : bool;
  resume_session : bool
}.

Inductive Call :=
| SSL_CTX_new
| SSL_CTX_set_verify_peer
| SSL_CTX_set_cert_verify_callback
| SSL_CTX_set_alpn_protos (protos : bytes)
| SSL_CTX_set_session_cache_client
| SSL_CTX_sess_set_new_cb
| SSL_CTX_add_cert_compression_brotli
| SSL_CTX_set_permute_extensions (on : bool)
| SSL_CTX_set_grease_enabled
| ngtcp2_configure_client_context
| SSL_new
| SSL_set_tlsext_host_name (host : bytes)
| SSL_set_user_data (data : bytes)
| RAND_bytes (n : nat)
| SSL_set_custom_client_random (data : bytes)
| SSL_set_enable_ech_grease
| SSL_add_application_settings (alps : bytes)
| SSL_set_alps_use_new_codepoint
| SSL_set_options_no_ticket
| SSL_set_encrypt_then_mac
| SSL_set_strict_cipher_list (ciphers : bytes)
| SSL_set_min_proto_version_12
| SSL_set_max_proto_version_13
| SSL_set1_group_ids (groups : list Z)
| SSL_set_record_size_limit (limit : Z)
| SSL_set_delegated_credentials (sigalgs : list Z)
| SSL_set_extension_order (order : list Z)
| SSL_enable_signed_cert_timestamps
| SSL_set_tlsext_status_type_ocsp
| SSL_set_raw_verify_algorithm_prefs (sigalgs : list Z)
| SSL_set_verify_algorithm_prefs (sigalgs : list Z)
| SSL_set_connect_state
| SSL_set_session.

#[export] Instance call_eq_dec : EqDecision Call.
Proof. solve_decision. Defined.

Inductive Made := MadeSsl | MadeError (text : bytes) | NullUsed.

(** ** The sequence of calls *)

Section Make.

(** The library: what a call answers after the calls before it; zero is false and the null pointer.  The
    random bytes are those that [RAND_bytes] writes. *)
Context (lib : list Call -> Call -> Z) (rand : nat -> bytes).

(** What the C library makes of the text of an address, and the place of an error, for reading the host
    name as an address. *)
Context (inet_pton4 inet_pton6 getaddrinfo : bytes -> option bytes) (loc : SourceLocation).

(** A computation of steps; the continuation is not run after an error. *)
Definition Steps := list Call -> Made * list Call.

Definition finish : Steps := fun log => (MadeSsl, log).
Definition fail_ (text : bytes) : Steps := fun log => (MadeError text, log).
Definition null_used : Steps := fun log => (NullUsed, log).

(** A call whose answer is not looked at. *)
Definition do_ (c : Call) (k : Steps) : Steps := fun log => k (log ++ [c]).

(** A call that has to answer as [ok] says. *)
Definition check_ (c : Call) (ok : Z -> bool) (text : bytes) (k : Steps) : Steps := fun log =>
  if ok (lib log c) then k (log ++ [c]) else (MadeError text, log ++ [c]).

Definition when_ (b : bool) (f : Steps -> Steps) (k : Steps) : Steps := if b then f k else k.

Definition non_zero (a : Z) : bool := negb (a =? 0)%Z.
Definition is_zero (a : Z) : bool := (a =? 0)%Z.
Definition is_one (a : Z) : bool := (a =? 1)%Z.

(** The part of the client's random that the mask leaves open is random. *)
Definition mask_random (client_random mask rand_bytes : bytes) : bytes :=
  let mask_size := Nat.min (length mask) (length client_random) in
  zip_with (fun c mr => Z.lor (Z.land c mr.1) (Z.land mr.2 (Z.land (Z.lnot mr.1) 0xff)))
    (take mask_size client_random) (zip (take mask_size mask) (take mask_size rand_bytes)) ++ drop mask_size client_random.

Definition client_random_steps (params : SslInitParameters) (k : Steps) : Steps :=
  let mask_size := Nat.min (length (tls_client_random_mask params)) (length (tls_client_random params)) in
  when_ (0 <? mask_size) (check_ (RAND_bytes mask_size) is_one (str "Failed to generate random bytes for SSL"))
    (do_ (SSL_set_custom_client_random (mask_random (tls_client_random params) (tls_client_random_mask params) (rand mask_size))) k).

(** What is done for a profile that is not [DEFAULT]. *)
Definition mimic_steps (params : SslInitParameters) (quic browser : bool) (k : Steps) : Steps :=
  let p := profile params in
  let isp q := bool_decide (p = q) in
  when_ (isp CHROME || isp FIREFOX) (do_ SSL_set_enable_ech_grease)
  (when_ (isp CHROME) (fun k => check_ (SSL_add_application_settings (if quic then str "h3" else str "h2")) is_one (str "Failed to add ALPS extension")
    (do_ SSL_set_alps_use_new_codepoint k))
  (when_ (isp SAFARI) (do_ SSL_set_options_no_ticket)
  (when_ (isp OPENSSL_DEFAULT) (do_ SSL_set_encrypt_then_mac)
  (check_ (SSL_set_strict_cipher_list (cipher_list_for p)) non_zero (str "Failed to set strict cipher list")
  (check_ SSL_set_min_proto_version_12 non_zero (str "Failed to set SSL versions")
  (check_ SSL_set_max_proto_version_13 non_zero (str "Failed to set SSL versions")
  (when_ (negb (isp CHROME) || post_quantum params) (check_ (SSL_set1_group_ids (groups_for p)) non_zero (str "Failed to set groups"))
  (when_ (isp FIREFOX) (fun k => do_ (SSL_set_record_size_limit 0x4001) (do_ (SSL_set_delegated_credentials FIREFOX_DC_SIGALGS) k))
  (when_ (negb quic) (fun k =>
     (match extension_order_for p with Some order => do_ (SSL_set_extension_order order) | None => fun k => k end)
     (when_ browser (do_ SSL_enable_signed_cert_timestamps)
     (when_ (negb (isp OPENSSL_DEFAULT)) (check_ SSL_set_tlsext_status_type_ocsp is_one (str "Failed to set OCSP status extension"))
     (if isp OPENSSL_DEFAULT then do_ (SSL_set_raw_verify_algorithm_prefs OPENSSL_SIGALGS) k
      else check_ (SSL_set_verify_algorithm_prefs (sigalgs_for p)) non_zero (str "Failed to set signature algorithms") k))))
  k))))))))).

Definition make_ssl (params : SslInitParameters) : Steps :=
  let p := profile params in
  let quic := bool_decide (protocol params = NGTCP2) in
  let browser := is_browser_profile p in
  check_ SSL_CTX_new non_zero (str "Failed to create SSL_CTX")
  (when_ (verify_callback params && verify_arg params) (fun k => do_ SSL_CTX_set_verify_peer (do_ SSL_CTX_set_cert_verify_callback k))
  (check_ (SSL_CTX_set_alpn_protos (alpn_protos params)) is_zero (str "Failed to set ALPN protocols")
  (when_ (new_session_cb params) (fun k => do_ SSL_CTX_set_session_cache_client (do_ SSL_CTX_sess_set_new_cb k))
  (when_ browser (check_ SSL_CTX_add_cert_compression_brotli is_one (str "Failed to add certificate compression algorithm"))
  (do_ (SSL_CTX_set_permute_extensions (bool_decide (p = CHROME)))
  (when_ (negb quic && browser) (do_ SSL_CTX_set_grease_enabled)
  (when_ quic (check_ ngtcp2_configure_client_context is_zero (str "Couldn't configure SSL object for QUIC"))
  (check_ SSL_new non_zero (str "Failed to create SSL")
  (match sni params with
   | None => null_used
   | Some host =>
       when_ (negb (sa_valid (sa_of_string inet_pton4 inet_pton6 getaddrinfo loc host)))
         (check_ (SSL_set_tlsext_host_name host) non_zero (str "Failed to set SNI"))
       (when_ (negb (bool_decide (endpoint_data params = []))) (do_ (SSL_set_user_data (endpoint_data params)))
       (when_ (negb (bool_decide (tls_client_random params = []))) (client_random_steps params)
       (when_ (negb (bool_decide (p = DEFAULT))) (mimic_steps params quic browser)
       (do_ SSL_set_connect_state
       (when_ (resume_session params) (do_ SSL_set_session)
       finish)))))
   end))))))))).
End Make.

(** ** The first failure *)

(** The error text of a call that failed, by what it answered. *)
Definition failure (c : Call) (answer : Z) : option bytes :=
  let need (ok : bool) (text : bytes) := if ok then None else Some text in
  match c with
  | SSL_CTX_new => need (non_zero answer) (str "Failed to create SSL_CTX")
  | SSL_CTX_set_alpn_protos _ => need (is_zero answer) (str "Failed to set ALPN protocols")
  | SSL_CTX_add_cert_compression_brotli => need (is_one answer) (str "Failed to add certificate compression algorithm")
  | ngtcp2_configure_client_context => need (is_zero answer) (str "Couldn't configure SSL object for QUIC")
  | SSL_new => need (non_zero answer) (str "Failed to create SSL")
  | SSL_set_tlsext_host_name _ => need (non_zero answer) (str "Failed to set SNI")
  | RAND_bytes _ => need (is_one answer) (str "Failed to generate random bytes for SSL")
  | SSL_add_application_settings _ => need (is_one answer) (str "Failed to add ALPS extension")
  | SSL_set_strict_cipher_list _ => need (non_zero answer) (str "Failed to set strict cipher list")
  | SSL_set_min_proto_version_12 | SSL_set_max_proto_version_13 => need (non_zero answer) (str "Failed to set SSL versions")
  | SSL_set1_group_ids _ => need (non_zero answer) (str "Failed to set groups")
  | SSL_set_tlsext_status_type_ocsp => need (is_one answer) (str "Failed to set OCSP status extension")
  | SSL_set_verify_algorithm_prefs _ => need (non_zero answer) (str "Failed to set signature algorithms")
  | _ => None
  end.

Section MakeFacts.
Context (lib : list Call -> Call -> Z) (rand : nat -> bytes).
Context (inet_pton4 inet_pton6 getaddrinfo : bytes -> option bytes) (loc : SourceLocation).

(** Every call of [log] behind [start] succeeded. *)
Definition all_succeeded (start log : list Call) : Prop :=
  forall a c b, log = a ++ c :: b -> length start <= length a -> failure c (lib a c) = None.

(** A result and the calls, seen from the calls [start]: nothing failed, or the last call did. *)
Definition ends_well (start : list Call) (r : Made * list Call) : Prop :=
  exists more, r.2 = start ++ more /\
  match r.1 with
  | MadeSsl | NullUsed => all_succeeded start r.2
  | MadeError text => exists a c, r.2 = a ++ [c] /\ length start <= length a /\ failure c (lib a c) = Some text /\ all_succeeded start a
  end.

Definition stops_at_failure (k : Steps) : Prop := forall start, ends_well start (k start).

Lemma all_succeeded_nil start : all_succeeded start start.
Proof. intros a c b -> Hl. rewrite length_app in Hl. cbn in Hl. lia. Qed.

(** One more call in front. *)
Lemma all_succeeded_step start c more :
  failure c (lib start c) = None -> all_succeeded (start ++ [c]) ((start ++ [c]) ++ more) -> all_succeeded start ((start ++ [c]) ++ more).
Proof.
  intros Hc H a d b E Hl. destruct (decide (length start = length a)) as [El|El].
  - rewrite <- app_assoc in E. apply app_inj_1 in E as [-> E]; [|done]. injection E as -> _. done.
  - apply (H a d b E). rewrite length_app. cbn. lia.
Qed.

Lemma ends_step start c r : failure c (lib start c) = None -> ends_well (start ++ [c]) r -> ends_well start r.
Proof.
  intros Hc (more & Er & Hm). destruct r as [made log]. cbn in *. subst log. exists ([c] ++ more). split; [by rewrite <- app_assoc|].
  destruct made; [by apply all_succeeded_step| |by apply all_succeeded_step]. destruct Hm as (a & d & E & Hl & Hf & Hs).
  rewrite length_app in Hl. cbn in Hl. exists a, d. split; [done|]. split; [lia|]. split; [done|].
  assert (exists m, a = (start ++ [c]) ++ m) as [m ->].
  { destruct more as [|x more _] using rev_ind; [apply (f_equal length) in E; rewrite !length_app in E; cbn in E; lia|].
    rewrite app_assoc in E. apply app_inj_2 in E as [<- _]; [|done]. by exists more. }
  by apply all_succeeded_step.
Qed.

Lemma stops_end made : (forall text, made <> MadeError text) -> stops_at_failure (fun log => (made, log)).
Proof.
  intros Hm start. exists []. cbn. split; [by rewrite app_nil_r|]. destruct made; [apply all_succeeded_nil|by destruct (Hm text)|apply all_succeeded_nil].
Qed.

Lemma stops_do c k : (forall answer, failure c answer = None) -> stops_at_failure k -> stops_at_failure (do_ c k).
Proof. intros Hc Hk start. apply (ends_step start c); [apply Hc|apply Hk]. Qed.

Lemma stops_check c (ok : Z -> bool) text k :
  (forall answer, failure c answer = if ok answer then None else Some text) -> stops_at_failure k -> stops_at_failure (check_ lib c ok text k).
Proof.
  intros Hc Hk start. unfold check_. destruct (ok (lib start c)) eqn:E.
  - apply (ends_step start c); [by rewrite Hc, E|apply Hk].
  - exists [c]. split; [done|]. exists start, c. split; [done|]. split; [done|]. split; [by rewrite Hc, E|apply all_succeeded_nil].
Qed.

Lemma stops_when (b : bool) f k : (stops_at_failure k -> stops_at_failure (f k)) -> stops_at_failure k -> stops_at_failure (when_ b f k).
Proof. intros Hf Hk. unfold when_. destruct b; auto. Qed.

Ltac stops_tac :=
  cbn beta;
  first
    [ assumption
    | lazymatch goal with
      | |- stops_at_failure (when_ _ _ _) => apply stops_when; [intros ?|]; stops_tac
      | |- stops_at_failure (do_ _ _) => apply stops_do; [intros ?; reflexivity|]; stops_tac
      | |- stops_at_failure (check_ _ _ _ _ _) => apply stops_check; [intros ?; reflexivity|]; stops_tac
      | |- _ => idtac
      end ].

Lemma client_random_stops params k : stops_at_failure k -> stops_at_failure (client_random_steps lib rand params k).
Proof. intros Hk. unfold client_random_steps. cbn zeta. stops_tac. Qed.

Lemma mimic_stops params quic browser k : stops_at_failure k -> stops_at_failure (mimic_steps lib params quic browser k).
Proof.
  intros Hk. unfold mimic_steps. cbn zeta. stops_tac.
  destruct (extension_order_for (profile params)); stops_tac; destruct (bool_decide (profile params = OPENSSL_DEFAULT)); stops_tac.
Qed.

(** No null pointer is used. *)
Definition no_null (k : Steps) : Prop := forall start, (k start).1 <> NullUsed.

Lemma no_null_do c k : no_null k -> no_null (do_ c k).
Proof. intros H start. apply H. Qed.

Lemma no_null_check c ok text k : no_null k -> no_null (check_ lib c ok text k).
Proof. intros H start. unfold check_. destruct (ok _); [apply H|done]. Qed.

Lemma no_null_when (b : bool) f k : (no_null k -> no_null (f k)) -> no_null k -> no_null (when_ b f k).
Proof. intros Hf Hk. unfold when_. destruct b; auto. Qed.

Ltac null_tac :=
  cbn beta;
  first
    [ assumption
    | lazymatch goal with
      | |- no_null (when_ _ _ _) => apply no_null_when; [intros ?|]; null_tac
      | |- no_null (do_ _ _) => apply no_null_do; null_tac
      | |- no_null (check_ _ _ _ _ _) => apply no_null_check; null_tac
      | |- _ => idtac
      end ].

Lemma client_random_no_null params k : no_null k -> no_null (client_random_steps lib rand params k).
Proof. intros Hk. unfold client_random_steps. cbn zeta. null_tac. Qed.

Lemma mimic_no_null params quic browser k : no_null k -> no_null (mimic_steps lib params quic browser k).
Proof.
  intros Hk. unfold mimic_steps. cbn zeta. null_tac.
  destruct (extension_order_for (profile params)); null_tac; destruct (bool_decide (profile params = OPENSSL_DEFAULT)); null_tac.
Qed.

(** C20: Making a TLS object stops at the first call that fails, whatever the library answers: the error
    is the text of that call, which is the last one made, and all before it succeeded; an object is
    returned only when every call that is looked at succeeded. *)
Theorem make_ssl_first_failure params :
  let '(made, log) := make_ssl lib rand inet_pton4 inet_pton6 getaddrinfo loc params [] in
  match made with
  | MadeError text => exists a c, log = a ++ [c] /\ failure c (lib a c) = Some text /\ all_succeeded [] a
  | MadeSsl => all_succeeded [] log
  | NullUsed => sni params = None /\ all_succeeded [] log
  end.
Proof.
  assert (stops_at_failure (make_ssl lib rand inet_pton4 inet_pton6 getaddrinfo loc params)) as H.
  { unfold make_ssl. cbn zeta. stops_tac. destruct (sni params) as [host|]; [|by apply stops_end].
    stops_tac; [by apply client_random_stops|by apply mimic_stops|by apply stops_end]. }
  assert (sni params <> None -> (make_ssl lib rand inet_pton4 inet_pton6 getaddrinfo loc params []).1 <> NullUsed) as Hn.
  { intros Hs. destruct (sni params) as [host|] eqn:E; [|done]. revert Hs. generalize (@nil Call). intros start _. revert start.
    change (no_null (make_ssl lib rand inet_pton4 inet_pton6 getaddrinfo loc params)). unfold make_ssl. rewrite E. cbn zeta.
    null_tac; [by apply client_random_no_null|by apply mimic_no_null|intros ?; discriminate]. }
  specialize (H []). destruct (make_ssl _ _ _ _ _ _ _ []) as [made log]. destruct H as (more & E & H). cbn in E, H, Hn. subst log.
  destruct made as [|text|]; [done| |].
  - destruct H as (a & c & E & _ & Hf & Hs). by exists a, c.
  - split; [|done]. destruct (sni params); [|done]. by destruct Hn.
Qed.
End MakeFacts.

(** ** The client's random *)

Lemma mask_byte_bit c m r k :
  (0 <= k < 8)%Z ->
  Z.testbit (Z.lor (Z.land c m) (Z.land r (Z.land (Z.lnot m) 0xff))) k = if Z.testbit m k then Z.testbit c k else Z.testbit r k.
Proof.
  intros Hk. rewrite Z.lor_spec, !Z.land_spec, Z.lnot_spec by lia. change 0xff%Z with (Z.ones 8). rewrite Z.ones_spec_low by lia.
  destruct (Z.testbit m k), (Z.testbit c k), (Z.testbit r k); done.
Qed.

(** The random of the client is the one asked for in the bits that the mask keeps and in the bytes
    behind the mask, and fresh random in all others; its length is the one asked for. *)
Theorem client_random_masked client_random mask rand_bytes i k :
  length rand_bytes = Nat.min (length mask) (length client_random) -> i < length client_random -> (0 <= k < 8)%Z ->
  let out := mask_random client_random mask rand_bytes in
  length out = length client_random /\
  Z.testbit (out !!! i) k =
    if (i <? length mask) && negb (Z.testbit (mask !!! i) k) then Z.testbit (rand_bytes !!! i) k else Z.testbit (client_random !!! i) k.
Proof.
  intros Hr Hi Hk out. unfold out, mask_random. set (n := Nat.min (length mask) (length client_random)) in *.
  assert (length (zip (take n mask) (take n rand_bytes)) = n) as Hz by (rewrite length_zip_with, !length_take; lia).
  assert (length (take n client_random) = n) as Hc by (rewrite length_take; lia).
  split; [rewrite length_app, length_zip_with, Hz, Hc, length_drop; lia|].
  destruct (Nat.ltb_spec i (length mask)) as [Hm|Hm]; cbn [andb].
  - assert (i < n) as Hin by lia. rewrite lookup_total_app_l by (rewrite length_zip_with, Hz, Hc; lia).
    destruct (lookup_lt_is_Some_2 client_random i Hi) as [c Ec]. destruct (lookup_lt_is_Some_2 mask i Hm) as [m Em].
    destruct (lookup_lt_is_Some_2 rand_bytes i ltac:(lia)) as [r Er].
    rewrite (list_lookup_total_correct _ i (Z.lor (Z.land c m) (Z.land r (Z.land (Z.lnot m) 0xff)))).
    + rewrite (list_lookup_total_correct _ _ _ Ec), (list_lookup_total_correct _ _ _ Em), (list_lookup_total_correct _ _ _ Er).
      rewrite mask_byte_bit by done. by destruct (Z.testbit m k).
    + rewrite lookup_zip_with, lookup_take_lt, Ec by lia. cbn. rewrite lookup_zip_with, !lookup_take_lt, Em, Er by lia. done.
  - rewrite lookup_total_app_r by (rewrite length_zip_with, Hz, Hc; lia). rewrite length_zip_with, Hz, Hc, lookup_total_drop.
    do 2 f_equal. lia.
Qed.

(** ** Examples *)

(** A library that answers every call with success. *)
Definition good_lib (log : list Call) (c : Call) : Z :=
  match c with SSL_CTX_set_alpn_protos _ | ngtcp2_configure_client_context => 0%Z | _ => 1%Z end.

Definition sample_params (p : TlsClientProfile) : SslInitParameters :=
  MkParams p TLS [2; 104; 50]%Z (Some (str "example.org")) true true true [1; 2; 3]%Z [0xf0; 0]%Z [] false false.

Definition make (params : SslInitParameters) : Made * list Call :=
  make_ssl good_lib (fun n => replicate n 0xaa%Z) (fun _ => None) (fun _ => None) (fun _ => None) (MkLocation [] 0) params [].

Lemma client_random_masked_witness :
  mask_random [1; 2; 3]%Z [0xf0; 0]%Z [0xaa; 0xaa]%Z = [10; 0xaa; 3]%Z /\
  Z.testbit (mask_random [1; 2; 3]%Z [0xf0; 0]%Z [0xaa; 0xaa]%Z !!! 0%nat) 3 = true.
Proof.
  split; [reflexivity|].
  exact (proj2 (client_random_masked [1; 2; 3]%Z [0xf0; 0]%Z [0xaa; 0xaa]%Z 0 3 ltac:(reflexivity) ltac:(cbn; lia) ltac:(lia))).
Defined.

(** Without mimicry the library is left to its defaults; Chrome is permuted, the others are pinned. *)
Lemma default_profile_calls :
  make (sample_params DEFAULT) =
  (MadeSsl, [SSL_CTX_new; SSL_CTX_set_verify_peer; SSL_CTX_set_cert_verify_callback; SSL_CTX_set_alpn_protos [2; 104; 50]%Z;
             SSL_CTX_set_permute_extensions false; SSL_new; SSL_set_tlsext_host_name (str "example.org"); RAND_bytes 2;
             SSL_set_custom_client_random [10; 0xaa; 3]%Z; SSL_set_connect_state]).
Proof. vm_compute. reflexivity. Qed.

Definition pins_order (log : list Call) : bool := existsb (fun c => match c with SSL_set_extension_order _ => true | _ => false end) log.

Lemma order_or_permutation p :
  let log := (make (sample_params p)).2 in
  pins_order log = negb (bool_decide (p = CHROME)) && negb (bool_decide (p = DEFAULT)) /\
  bool_decide (SSL_CTX_set_permute_extensions true ∈ log) = bool_decide (p = CHROME).
Proof. destruct p; vm_compute; done. Qed.

(** A certificate that is handed out has the length that was announced; no buffer is lost. *)
Lemma decompress_correct alloc_ok brotli n input :
  let '(ret, out, live) := DecompressBrotliCert alloc_ok brotli n input in
  (ret = 1%Z <-> exists data, out = Some data) /\ live = (match out with Some _ => 1 | None => 0 end) /\ forall data, out = Some data -> length data = n /\ brotli input n = Some data.
Proof.
  unfold DecompressBrotliCert. destruct alloc_ok; cbn; [|naive_solver]. destruct (brotli input n) as [data|]; [|naive_solver].
  destruct (Nat.eqb_spec (length data) n); naive_solver.
Qed.

(** ** What the code does not do *)

(** A callback without an argument is dropped, and with it the verification of the server. *)
Lemma callback_without_argument :
  let params := (MkParams CHROME TLS [] (Some (str "example.org")) true false true [] [] [] false false) in
  (make params).1 = MadeSsl /\ SSL_CTX_set_verify_peer ∉ (make params).2 /\ SSL_CTX_set_cert_verify_callback ∉ (make params).2.
Proof. cbn zeta. split; [by vm_compute|]. split; apply (bool_decide_eq_true (not (_ ∈ _))); vm_compute; reflexivity. Qed.

(** The host name is not optional, though its default is the null pointer. *)
Lemma host_name_required : (make (MkParams CHROME TLS [] None false false true [] [] [] false false)).1 = NullUsed.
Proof. vm_compute. reflexivity. Qed.
