(* ===== verification/CertInfo.v ===== *)
(** * The text about certificates: [tls/cert_utils.cpp]

    A certificate is a pointer, zero for none; what the TLS library says about one is given by functions of the
    pointer.  Texts go through buffers of a fixed size. *)

From S2P Require Import StringView Utils SocketAddress Guid.

(** What the library prints into a buffer of [size] characters, the last of which is a zero. *)
Definition into_buffer (size : nat) (s : bytes) : bytes := c_string (take (size - 1) s).

Section cert_info.
Context {ASN1_TIME : Type}.
Variable BIO_new : bool.                             (* whether there is memory for the buffer of the library *)
Variable ASN1_TIME_print : ASN1_TIME -> bytes.
Variable subject_oneline issuer_oneline : Z -> bytes.
Variable X509_digest : Z -> bytes.                   (* the SHA-256 of the certificate *)
Variable not_before not_after : Z -> option ASN1_TIME.

Definition asn1_time_to_string (t : option ASN1_TIME) : bytes :=
  match t with
  | None => str "<null>"
  | Some t =>
      if negb BIO_new then str "<error>"
      else
        let buf := take 63 (ASN1_TIME_print t) in
        if length buf =? 0 then str "<error>" else buf
  end.

(** The digits are written one byte after the other, over the zero of the byte before. *)
Definition fingerprint (sha256 : bytes) : bytes := flat_map (hex_field 2) (take 32 sha256).

Definition cert_text (label : bytes) (cert : Z) : bytes :=
  label ++ str ": Subject: " ++ into_buffer 256 (subject_oneline cert) ++ str ", Issuer: " ++ into_buffer 256 (issuer_oneline cert) ++
  str ", SHA256: " ++ fingerprint (X509_digest cert) ++ str ", NotBefore: " ++ c_string (asn1_time_to_string (not_before cert)) ++
  str ", NotAfter: " ++ c_string (asn1_time_to_string (not_after cert)).

Definition append_cert_info (out : bytes) (cert : Z) (label : bytes) : bytes :=
  if (cert =? 0)%Z then out else out ++ take 799 (cert_text label cert).

Definition chain_label (i : nat) : bytes := take 31 (str "Chain[" ++ fmt_dec (Z.of_nat i) ++ str "]").

Fixpoint chain_loop (cert : Z) (chain : list Z) (i : nat) (result : bytes) : bytes :=
  match chain with
  | [] => result
  | chain_cert :: chain =>
      if (chain_cert =? cert)%Z then chain_loop cert chain (S i) result
      else chain_loop cert chain (S i) (append_cert_info (result ++ [10%Z]) chain_cert (chain_label i))
  end.

Definition get_cert_diagnostic_info (cert : Z) (chain : option (list Z)) : bytes :=
  if (cert =? 0)%Z then []
  else chain_loop cert (default [] chain) 0 (append_cert_info [] cert (str "Leaf")).

(** ** Facts *)

Hypothesis digest_bytes : forall cert, is_bytes (X509_digest cert).

Lemma c_string_length s : length (c_string s) <= length s.
Proof. unfold c_string. induction s as [|c s IH]; cbn [take_while]; [done|]. destruct (negb _); cbn [length]; lia. Qed.

Lemma into_buffer_length size s : length (into_buffer size s) <= size - 1.
Proof. unfold into_buffer. etrans; [apply c_string_length|]. rewrite length_take. lia. Qed.

Lemma asn1_time_length t : length (c_string (asn1_time_to_string t)) <= 63.
Proof.
  etrans; [apply c_string_length|]. destruct t as [t|]; cbn [asn1_time_to_string]; [|by apply Nat.leb_le].
  destruct (negb BIO_new); [by apply Nat.leb_le|]. case_match; [by apply Nat.leb_le|]. rewrite length_take. lia.
Qed.

Lemma fingerprint_length sha256 : is_bytes sha256 -> length (fingerprint sha256) = 2 * min 32 (length sha256).
Proof.
  intros Hb. unfold fingerprint. rewrite <- length_take. assert (Ht : is_bytes (take 32 sha256)) by by apply Forall_take.
  induction Ht as [|x l Hx Hl IH]; [done|]. cbn [flat_map]. rewrite length_app, IH. destruct (hex_field_spec 2 x) as [-> _]; [lia|done|].
  cbn [length]. lia.
Qed.

(** The buffer of the line is large enough for every certificate and label. *)
Lemma cert_text_fits label cert : length label <= 31 -> length (cert_text label cert) <= 799.
Proof.
  intros Hl. unfold cert_text. rewrite !length_app.
  pose proof (into_buffer_length 256 (subject_oneline cert)). pose proof (into_buffer_length 256 (issuer_oneline cert)).
  pose proof (fingerprint_length (X509_digest cert) (digest_bytes cert)).
  pose proof (asn1_time_length (not_before cert)). pose proof (asn1_time_length (not_after cert)).
  change (length (str ": Subject: ")) with 11. change (length (str ", Issuer: ")) with 10. change (length (str ", SHA256: ")) with 10.
  change (length (str ", NotBefore: ")) with 13. change (length (str ", NotAfter: ")) with 12. lia.
Qed.

Lemma chain_label_whole i : (Z.of_nat i < 2 ^ 31)%Z -> chain_label i = str "Chain[" ++ fmt_dec (Z.of_nat i) ++ str "]".
Proof.
  intros Hi. unfold chain_label. apply take_ge. rewrite !length_app. change (length (str "Chain[")) with 6. change (length (str "]")) with 1.
  unfold fmt_dec. rewrite (proj2 (Z.ltb_ge _ 0)) by lia.
  destruct (pad_zero_digits 10 (S (Z.to_nat (Z.log2 (Z.of_nat i)))) false 10 (Z.of_nat i)) as [Hl _]; [lia|lia|lia|lia|].
  unfold fmt_num. lia.
Qed.

(** What is said of one certificate of the chain. *)
Definition chain_entry (i : nat) (c : Z) : bytes :=
  10%Z :: if (c =? 0)%Z then [] else cert_text (str "Chain[" ++ fmt_dec (Z.of_nat i) ++ str "]") c.

Lemma append_cert_whole out cert label : length label <= 31 -> append_cert_info out cert label = out ++ if (cert =? 0)%Z then [] else cert_text label cert.
Proof.
  intros Hl. unfold append_cert_info. destruct (cert =? 0)%Z; [by rewrite app_nil_r|]. by rewrite take_ge by by apply cert_text_fits.
Qed.

Lemma chain_loop_entries cert chain i result :
  (Z.of_nat (i + length chain) <= 2 ^ 31)%Z ->
  chain_loop cert chain i result =
  result ++ List.concat (imap (fun k c => if (c =? cert)%Z then [] else chain_entry (i + k) c) chain).
Proof.
  revert i result. induction chain as [|c chain IH]; intros i result Hi; cbn [chain_loop imap List.concat]; [by rewrite app_nil_r|].
  cbn [length] in Hi. rewrite Nat.add_0_r.
  assert (He : imap ((fun k c => if (c =? cert)%Z then [] else chain_entry (i + k) c) ∘ S) chain =
               imap (fun k c => if (c =? cert)%Z then [] else chain_entry (S i + k) c) chain).
  { apply imap_ext. intros k x _. cbn [compose]. by rewrite Nat.add_succ_r. }
  rewrite He. destruct (c =? cert)%Z; [apply IH; lia|]. rewrite IH by lia.
  assert (Hll : length (chain_label i) <= 31) by (unfold chain_label; rewrite length_take; lia).
  rewrite append_cert_whole, chain_label_whole by first [done|lia]. cbn [List.concat]. unfold chain_entry. by rewrite <- !app_assoc.
Qed.

(** The diagnostic text has the whole line of the leaf and, each on a line of its own and with its place in the
    chain, that of every other certificate: the buffers never cut a line off. *)
Theorem cert_info_complete cert chain :
  cert <> 0%Z -> (Z.of_nat (length chain) <= 2 ^ 31)%Z ->
  get_cert_diagnostic_info cert (Some chain) =
  cert_text (str "Leaf") cert ++ List.concat (imap (fun i c => if (c =? cert)%Z then [] else chain_entry i c) chain).
Proof.
  intros Hc Hl. unfold get_cert_diagnostic_info. rewrite (proj2 (Z.eqb_neq cert 0) Hc). cbn [default].
  rewrite chain_loop_entries, append_cert_whole by first [done|by apply Nat.leb_le]. by rewrite (proj2 (Z.eqb_neq cert 0) Hc).
Qed.
End cert_info.

Lemma cert_info_complete_witness :
  let info := get_cert_diagnostic_info true (fun t : bytes => t) (fun _ => str "/CN=a") (fun _ => str "/CN=b") (fun _ => [1; 171]%Z)
                (fun _ => Some (str "now")) (fun _ => None) 5 (Some [5; 6]%Z) in
  info = str "Leaf: Subject: /CN=a, Issuer: /CN=b, SHA256: 01ab, NotBefore: now, NotAfter: <null>" ++ [10%Z] ++
         str "Chain[1]: Subject: /CN=a, Issuer: /CN=b, SHA256: 01ab, NotBefore: now, NotAfter: <null>".
Proof.
  intros info. unfold info. rewrite cert_info_complete; [by vm_compute| |done|done]. intros _. by repeat constructor.
Defined.
