(* ===== verification/Coro.v ===== *)
(** * Coroutines: [Task], [run_detached] and [to_future] of [common/coro.h]

    A machine of coroutine frames on a heap: what the compiler makes of a coroutine whose promise is
    [Task::Promise] or [Task::SyncPromise].  A coroutine is what it does up to its end: it returns a
    value, throws, awaits a task, or awaits something outside, which resumes it with a value later.
    The theorem is that the machine computes what the direct reading of the coroutine as a function
    says, and that every frame is destroyed exactly once. *)

From stdpp Require Import relations.
From S2P Require Import StringView.

Section Coro.
Context {V : Type}.

Inductive Prog :=
| CoReturn (v : V)
| Throw
| CoAwait (callee : Prog) (k : V -> Prog)
| External (k : V -> Prog).

(** ** The direct reading *)

Inductive answer := Done (v : V) (rest : list V) | NeedInput | Threw.

(** The values that come from outside are consumed in order. *)
Fixpoint eval (p : Prog) (inputs : list V) : answer :=
  match p with
  | CoReturn v => Done v inputs
  | Throw => Threw
  | CoAwait callee k => match eval callee inputs with Done v rest => eval (k v) rest | a => a end
  | External k => match inputs with [] => NeedInput | x :: rest => eval (k x) rest end
  end.

(** ** Frames *)

(** Where a coroutine is: it goes on with [p]; it has awaited the task [t]; it waits for the outside;
    it is at its final suspension point. *)
Inductive point := Body (p : Prog) | WaitTask (t : nat) (k : V -> Prog) | WaitExternal (k : V -> Prog) | Final.

(** [Promise] or [SyncPromise]. *)
Inductive kind := KTask | KSync.

Record Frame := MkFrame { at_point : point; f_kind : kind; caller : option nat; ret : option V }.

Definition goto (q : point) (f : Frame) : Frame := MkFrame q (f_kind f) (caller f) (ret f).

(** [control] is the coroutine that runs; [waiting] is the handle the outside has. *)
Record Machine := MkMachine {
  heap : gmap nat Frame;
  next : nat;
  control : option nat;
  waiting : option nat;
  inputs : list V;
  future : option V
}.

Inductive stepped := Step (m : Machine) | Idle | Terminate | Undefined.

(** The call of a coroutine: a frame that is suspended at its start. *)
Definition call (p : Prog) (m : Machine) : nat * Machine :=
  (next m, MkMachine (<[next m := MkFrame (Body p) KTask None None]> (heap m)) (S (next m)) (control m) (waiting m) (inputs m) (future m)).

(** [await_suspend] of [operator co_await]: the caller is saved and the task is resumed. *)
Definition await_suspend (t h : nat) (m : Machine) : stepped :=
  match heap m !! t with
  | None => Undefined
  | Some f => Step (MkMachine (<[t := MkFrame (at_point f) (f_kind f) (Some h) (ret f)]> (heap m)) (next m) (Some t) (waiting m) (inputs m) (future m))
  end.

(** [await_resume] of [operator co_await] in the coroutine [h] with the frame [f]: the value is taken and
    the task, which has to be at its end, is destroyed. *)
Definition await_resume (h : nat) (f : Frame) (t : nat) (k : V -> Prog) (m : Machine) : stepped :=
  match heap m !! t with
  | Some (MkFrame Final _ _ (Some v)) =>
      Step (MkMachine (<[h := goto (Body (k v)) f]> (delete t (heap m))) (next m) (Some h) (waiting m) (inputs m) (future m))
  | _ => Undefined
  end.

(** [co_return]: [return_value], then [final_suspend]. *)
Definition co_return (id : nat) (f : Frame) (v : V) (m : Machine) : Machine :=
  match f_kind f, caller f with
  | KSync, _ => MkMachine (delete id (heap m)) (next m) None (waiting m) (inputs m) (Some v)
  | KTask, Some c => MkMachine (<[id := MkFrame Final KTask (Some c) (Some v)]> (heap m)) (next m) (Some c) (waiting m) (inputs m) (future m)
  | KTask, None => MkMachine (delete id (heap m)) (next m) None (waiting m) (inputs m) (future m)
  end.

(** Resuming the coroutine [id] until its next suspension. *)
Definition resume (id : nat) (m : Machine) : stepped :=
  match heap m !! id with
  | None => Undefined
  | Some f =>
      match at_point f with
      | Body (CoReturn v) => Step (co_return id f v m)
      | Body Throw => Terminate
      | Body (CoAwait p k) =>
          let '(t, m) := call p m in
          await_suspend t id (MkMachine (<[id := goto (WaitTask t k) f]> (heap m)) (next m) (control m) (waiting m) (inputs m) (future m))
      | Body (External k) =>
          Step (MkMachine (<[id := goto (WaitExternal k) f]> (heap m)) (next m) None (Some id) (inputs m) (future m))
      | WaitTask t k => await_resume id f t k m
      | WaitExternal _ | Final => Undefined
      end
  end.

(** A step of the machine: the coroutine in control goes on, or the outside resumes the one that waits. *)
Definition step (m : Machine) : stepped :=
  match control m with
  | Some id => resume id m
  | None =>
      match waiting m, inputs m with
      | Some id, x :: rest =>
          match heap m !! id with
          | Some f =>
              match at_point f with
              | WaitExternal k => Step (MkMachine (<[id := goto (Body (k x)) f]> (heap m)) (next m) (Some id) None rest (future m))
              | _ => Undefined
              end
          | None => Undefined
          end
      | _, _ => Idle
      end
  end.

(** The coroutine of [to_future]: it starts at once, and its frame is destroyed when it ends. *)
Definition to_future (p : Prog) (inputs : list V) : Machine :=
  MkMachine {[ 0 := MkFrame (Body (CoAwait p CoReturn)) KSync None None ]} 1 (Some 0) None inputs None.

(** [run_detached]: the task is resumed without a caller. *)
Definition run_detached (p : Prog) (inputs : list V) : Machine :=
  let '(t, m) := call p (MkMachine ∅ 0 None None inputs None) in MkMachine (heap m) (next m) (Some t) (waiting m) (inputs) (future m).

(** ** Facts *)

Definition steps : relation Machine := rtc (fun m m' => step m = Step m').

Definition fresh (m : Machine) : Prop := forall i, next m <= i -> heap m !! i = None.

(** The machine that runs the coroutine [id], which has the frame [f] and goes on with [p]. *)
Definition running_at (id : nat) (f : Frame) (p : Prog) (m : Machine) : Prop :=
  control m = Some id /\ waiting m = None /\ heap m !! id = Some (goto (Body p) f) /\ fresh m.

(** What running [p] in the frame [f] comes to, in terms of the direct reading. *)
Definition computes (id : nat) (f : Frame) (p : Prog) (m : Machine) : Prop :=
  match eval p (inputs m) with
  | Done v rest => exists m', steps m m' /\ running_at id f (CoReturn v) m' /\ inputs m' = rest /\ future m' = future m /\
      heap m' = <[id := goto (Body (CoReturn v)) f]> (heap m)
  | NeedInput => exists m', steps m m' /\ step m' = Idle /\ control m' = None /\ future m' = future m
  | Threw => exists m', steps m m' /\ step m' = Terminate
  end.

Lemma step_steps m m' : step m = Step m' -> steps m m'.
Proof. intros H. by apply rtc_once. Qed.

(** Steps that leave the answer to be given as it is. *)
Lemma computes_steps id f p q m m1 :
  steps m m1 -> eval p (inputs m) = eval q (inputs m1) -> future m1 = future m ->
  (forall fr, <[id := fr]> (heap m1) = <[id := fr]> (heap m)) -> computes id f q m1 -> computes id f p m.
Proof.
  intros Hs He Hf Hh. unfold computes. rewrite He. destruct (eval q (inputs m1)) as [v rest| |].
  - intros (m' & S1 & R & Ei & Ef & Eh). exists m'. split; [by transitivity m1|]. rewrite <- Hh, <- Hf. done.
  - intros (m' & S1 & R & Ec & Ef). exists m'. split; [by transitivity m1|]. by rewrite <- Hf.
  - intros (m' & S1 & R). exists m'. split; [by transitivity m1|done].
Qed.

(** The start of a task: its frame is new, and the caller waits for it. *)
Definition awaited (id t : nat) (k : V -> Prog) (f : Frame) (fr : Frame) (h : gmap nat Frame) : gmap nat Frame :=
  <[t := fr]> (<[id := goto (WaitTask t k) f]> h).

Definition task_frame (id : nat) (p : Prog) : Frame := MkFrame (Body p) KTask (Some id) None.

Lemma step_await id f p k m :
  running_at id f (CoAwait p k) m ->
  exists m1, step m = Step m1 /\ running_at (next m) (task_frame id p) p m1 /\ inputs m1 = inputs m /\ future m1 = future m /\
    heap m1 = awaited id (next m) k f (task_frame id p) (heap m) /\ id <> next m.
Proof.
  intros (Hc & Hw & Hh & Hf). assert (id <> next m) as Hne by (intros ->; rewrite (Hf (next m)) in Hh; [done|lia]).
  unfold step. rewrite Hc. unfold resume. rewrite Hh. cbn [at_point goto call]. unfold await_suspend. cbn [heap].
  rewrite lookup_insert_ne, lookup_insert_eq by done. eexists. split; [done|]. cbn [heap inputs future at_point f_kind ret].
  assert (<[next m := task_frame id p]> (<[id := goto (WaitTask (next m) k) f]> (<[next m := MkFrame (Body p) KTask None None]> (heap m)))
    = awaited id (next m) k f (task_frame id p) (heap m)) as E.
  { unfold awaited. rewrite (insert_insert_ne _ id (next m)) by done. by rewrite insert_insert_eq. }
  fold (task_frame id p). split; [|split; [done|split; [done|split; [exact E|done]]]].
  split; [done|]. split; [done|]. cbn [heap next]. split; [by rewrite lookup_insert_eq|]. intros i Hi. cbn [heap next] in *.
  change (goto (WaitTask (next m) k) (goto (Body (CoAwait p k)) f)) with (goto (WaitTask (next m) k) f). rewrite E. unfold awaited.
  assert (i <> next m) by lia. assert (i <> id) by (intros ->; rewrite (Hf id) in Hh; [done|lia]).
  rewrite !lookup_insert_ne by done. apply Hf. lia.
Qed.

(** The end of a task: its caller takes the value and destroys the frame. *)
Lemma steps_return id f p k v m m2 t :
  id <> t -> heap m !! t = None ->
  running_at t (task_frame id p) (CoReturn v) m2 ->
  heap m2 = awaited id t k f (goto (Body (CoReturn v)) (task_frame id p)) (heap m) ->
  exists m4, steps m2 m4 /\ running_at id f (k v) m4 /\ inputs m4 = inputs m2 /\ future m4 = future m2 /\
    heap m4 = <[id := goto (Body (k v)) f]> (heap m).
Proof.
  intros Hne Ht (Hc & Hw & Hh & Hf) Eh.
  set (m3 := MkMachine (<[t := MkFrame Final KTask (Some id) (Some v)]> (heap m2)) (next m2) (Some id) None (inputs m2) (future m2)).
  assert (step m2 = Step m3) as S3 by (unfold step, resume; rewrite Hc, Hh; cbn; by rewrite Hw).
  assert (<[id := goto (Body (k v)) f]> (delete t (heap m3)) = <[id := goto (Body (k v)) f]> (heap m)) as E4.
  { cbn [heap m3]. rewrite Eh. unfold awaited. rewrite insert_insert_eq, delete_insert_eq, delete_insert_ne by done.
    rewrite insert_insert_eq. by rewrite delete_id. }
  exists (MkMachine (<[id := goto (Body (k v)) f]> (heap m)) (next m2) (Some id) None (inputs m2) (future m2)).
  assert (heap m3 !! id = Some (goto (WaitTask t k) f)) as Hid.
  { cbn [heap m3]. rewrite Eh. unfold awaited. do 2 rewrite lookup_insert_ne by done. by rewrite lookup_insert_eq. }
  split; [|split; [|done]].
  - apply (rtc_l _ _ m3); [done|]. apply step_steps. unfold step. cbn [control m3]. unfold resume. rewrite Hid. cbn [at_point goto].
    unfold await_resume. cbn [heap m3]. rewrite lookup_insert_eq. cbn [next waiting inputs future m3]. by rewrite <- E4.
  - split; [done|]. split; [done|]. cbn [heap next]. split; [by rewrite lookup_insert_eq|]. intros i Hi. cbn [heap next] in *.
    specialize (Hf i Hi). rewrite Eh in Hf. unfold awaited in Hf. apply lookup_insert_None in Hf as [Hf Hi1].
    apply lookup_insert_None in Hf as [Hf Hi2]. by rewrite lookup_insert_ne.
Qed.

Lemma step_external id f k x rest m :
  running_at id f (External k) m -> inputs m = x :: rest ->
  exists m2, steps m m2 /\ running_at id f (k x) m2 /\ inputs m2 = rest /\ future m2 = future m /\ heap m2 = <[id := goto (Body (k x)) f]> (heap m).
Proof.
  intros (Hc & Hw & Hh & Hf) Hi.
  set (m1 := MkMachine (<[id := goto (WaitExternal k) f]> (heap m)) (next m) None (Some id) (x :: rest) (future m)).
  exists (MkMachine (<[id := goto (Body (k x)) f]> (heap m)) (next m) (Some id) None rest (future m)). split; [|split; [|done]].
  - apply (rtc_l _ _ m1).
    + unfold step, resume. rewrite Hc, Hh. cbn. unfold m1. by rewrite Hi.
    + apply step_steps. unfold step, m1. cbn. rewrite lookup_insert_eq. cbn. by rewrite insert_insert_eq.
  - split; [done|]. split; [done|]. cbn. split; [by rewrite lookup_insert_eq|]. intros i Hl. cbn [heap next] in *.
    rewrite lookup_insert_ne; [by apply Hf|]. intros ->. rewrite (Hf i) in Hh; done.
Qed.

(** Running a coroutine in a frame is evaluating it. *)
Lemma machine_computes p id f m : running_at id f p m -> computes id f p m.
Proof.
  revert id f m. induction p as [v| |p IHp k IHk|k IHk]; intros id f m Hr.
  - unfold computes. cbn. exists m. split; [constructor|]. destruct Hr as (Hc & Hw & Hh & Hf). do 3 (split; [done|]).
    by rewrite insert_id.
  - unfold computes. cbn. exists m. split; [constructor|]. destruct Hr as (Hc & Hw & Hh & Hf). unfold step, resume. by rewrite Hc, Hh.
  - destruct (step_await id f p k m Hr) as (m1 & S1 & R1 & Ei & Ef & Eh & Hne). specialize (IHp _ _ _ R1). unfold computes in IHp.
    rewrite Ei, Ef in IHp. destruct (eval p (inputs m)) as [v rest| |] eqn:Ev.
    + destruct IHp as (m2 & S2 & R2 & Ei2 & Ef2 & Eh2). rewrite Eh in Eh2. unfold awaited in Eh2. rewrite insert_insert_eq in Eh2.
      destruct (steps_return id f p k v m m2 (next m) Hne ltac:(apply Hr; lia) R2 Eh2) as (m4 & S4 & R4 & Ei4 & Ef4 & Eh4).
      apply (computes_steps id f (CoAwait p k) (k v) m m4).
      * apply (rtc_l _ _ m1); [done|]. by transitivity m2.
      * cbn. rewrite Ev. congruence.
      * congruence.
      * intros fr. by rewrite Eh4, insert_insert_eq.
      * by apply IHk.
    + unfold computes. cbn. rewrite Ev. destruct IHp as (m' & S2 & Hm). exists m'. split; [|done]. by apply (rtc_l _ _ m1).
    + unfold computes. cbn. rewrite Ev. destruct IHp as (m' & S2 & Hm). exists m'. split; [|done]. by apply (rtc_l _ _ m1).
  - destruct (inputs m) as [|x rest] eqn:Ei.
    + unfold computes. cbn. rewrite Ei. destruct Hr as (Hc & Hw & Hh & Hf).
      exists (MkMachine (<[id := goto (WaitExternal k) f]> (heap m)) (next m) None (Some id) [] (future m)).
      split; [|done]. apply step_steps. unfold step, resume. rewrite Hc, Hh. cbn. by rewrite Ei.
    + destruct (step_external id f k x rest m Hr Ei) as (m2 & S2 & R2 & Ei2 & Ef2 & Eh2).
      apply (computes_steps id f (External k) (k x) m m2); [done| |done| |by apply IHk].
      * cbn. by rewrite Ei, Ei2.
      * intros fr. by rewrite Eh2, insert_insert_eq.
Qed.

(** C18: A coroutine run through [to_future] does what it says when read as a function: when it comes to
    an end, the future has its value and no frame is left, each one having been destroyed at the one
    point where that is allowed; when it needs a value that has not come, the machine is at rest and
    the future is empty; and an exception ends the program. *)
Theorem to_future_correct p ins :
  match eval p ins with
  | Done v rest => exists m, steps (to_future p ins) m /\ step m = Idle /\ future m = Some v /\ heap m = ∅ /\ inputs m = rest
  | NeedInput => exists m, steps (to_future p ins) m /\ step m = Idle /\ future m = None
  | Threw => exists m, steps (to_future p ins) m /\ step m = Terminate
  end.
Proof.
  set (root := MkFrame (Body (CoAwait p CoReturn)) KSync None None).
  assert (computes 0 root (CoAwait p CoReturn) (to_future p ins)) as H.
  { apply machine_computes. split; [done|]. split; [done|]. cbn. split; [by rewrite lookup_singleton_eq|].
    intros i Hi. cbn in *. rewrite lookup_singleton_ne; [done|lia]. }
  unfold computes in H. cbn [eval inputs to_future future] in H. destruct (eval p ins) as [v rest| |].
  - cbn [eval] in H. destruct H as (m & S1 & (Hc & Hw & Hh & _) & Ei & _ & Eh).
    exists (MkMachine (delete 0 (heap m)) (next m) None None rest (Some v)). split; [|split; [done|]; split; [done|]; split; [|done]].
    + eapply rtc_r; [exact S1|]. unfold step, resume. rewrite Hc, Hh. cbn. by rewrite Hw, Ei.
    + cbn [heap]. rewrite Eh. rewrite delete_insert_eq. cbn. by rewrite delete_singleton_eq.
  - destruct H as (m & S1 & Hi & _ & Hf). by exists m.
  - exact H.
Qed.

(** The same for a task that is run without a caller: its frame is destroyed when it ends. *)
Lemma run_detached_correct p ins v rest :
  eval p ins = Done v rest -> exists m, steps (run_detached p ins) m /\ step m = Idle /\ heap m = ∅ /\ inputs m = rest.
Proof.
  intros He. assert (computes 0 (MkFrame (Body p) KTask None None) p (run_detached p ins)) as H.
  { apply machine_computes. split; [done|]. split; [done|]. cbn. split; [by rewrite lookup_insert_eq|].
    intros i Hi. cbn in *. rewrite lookup_insert_ne; [done|lia]. }
  unfold computes in H. cbn [inputs run_detached call] in H. rewrite He in H. destruct H as (m & S1 & (Hc & Hw & Hh & _) & Ei & _ & Eh).
  exists (MkMachine (delete 0 (heap m)) (next m) None None rest (future m)). split; [|split; [done|]; split; [|done]].
  - eapply rtc_r; [exact S1|]. unfold step, resume. rewrite Hc, Hh. cbn. by rewrite Hw, Ei.
  - cbn [heap]. rewrite Eh, delete_insert_eq. cbn. by rewrite delete_insert_eq.
Qed.
End Coro.
