(* ===== verification/Parallel.v ===== *)
(** * Waiting for several coroutines: [common/parallel.h]

    A coroutine, the parent, awaits others, the children, which finish on any threads.  The parent and
    the children share a state behind a mutex.  An event is a critical section, or a part of the
    parent's or a child's run between two of them, and a run is a sequence of events: every interleaving
    is one.  [remaining++] happens without the mutex, so there is also the event of its load and the
    event of its store; [Add] is both without another event between them. *)

From S2P Require Import StringView.

(** What the parent does: it adds children; [await_ready] told it to suspend; it has suspended; it was
    resumed, or need not suspend; it has the result. *)
Inductive Phase (V : Type) := PStart | PSuspending | PSuspended | PResumed | PDone (v : V).
Arguments PStart {V}. Arguments PSuspending {V}. Arguments PSuspended {V}. Arguments PResumed {V}. Arguments PDone {V} v.

Inductive Event (R : Type) :=
| Add | AddLoad | AddStore      (** a child starts to run: [remaining++] *)
| Finish (r : R)                (** a child has its result and takes the mutex *)
| AwaitReady | AwaitSuspend | AwaitResume
| Drop.                         (** the awaitable and its shared state are destroyed *)
Arguments Add {R}. Arguments AddLoad {R}. Arguments AddStore {R}. Arguments Finish {R} r. Arguments AwaitReady {R}.
Arguments AwaitSuspend {R}. Arguments AwaitResume {R}. Arguments Drop {R}.

(** An event leads to a state, cannot happen now, or touches a state that is gone. *)
Inductive outcome (S : Type) := Next (s : S) | Disabled | Dangling.
Arguments Next {S} s. Arguments Disabled {S}. Arguments Dangling {S}.

Fixpoint run {S E : Type} (step : E -> S -> outcome S) (tr : list E) (s : S) : outcome S :=
  match tr with
  | [] => Next s
  | e :: tr' => match step e s with Next s' => run step tr' s' | o => o end
  end.

(** The results of the children in the order in which they took the mutex. *)
Definition finished {R} (tr : list (Event R)) : list R := omap (fun e => match e with Finish r => Some r | _ => None end) tr.
Definition added {R} (tr : list (Event R)) : nat := length (List.filter (fun e => match e with Add => true | _ => false end) tr).

(** Sequences in which no child finishes between the load and the store of an increment. *)
Definition untorn {R} (e : Event R) : bool := match e with AddLoad | AddStore => false | _ => true end.

(** ** The first that matches *)

Section AnyOf.
Context {R : Type} (check_cond : R -> bool).

Record AnyOf := MkAnyOf {
  a_suspended_handle : bool;
  a_remaining : nat;
  a_return_value : option R;
  (** not of the code: whether the shared state exists, the children that run, the value an increment has
      loaded, what the parent does, and how often [resume] was called *)
  a_alive : bool;
  a_running : nat;
  a_loaded : option nat;
  a_phase : Phase (option R);
  a_resumes : nat
}.

Definition any_new : AnyOf := MkAnyOf false 0 None true 0 None PStart 0.

(** [has_return_value || remaining == 0] of the awaitable. *)
Definition any_is_ready (s : AnyOf) : bool := negb (bool_decide (a_return_value s = None)) || (a_remaining s =? 0).

(** The part of [run] behind [co_await aw]. *)
Definition any_finish (r : R) (s : AnyOf) : AnyOf :=
  let running := a_running s - 1 in
  if negb (a_alive s) then
    MkAnyOf (a_suspended_handle s) (a_remaining s) (a_return_value s) false running (a_loaded s) (a_phase s) (a_resumes s)
  else
    let remaining := a_remaining s - 1 in
    let has_return_value := bool_decide (a_return_value s = None) && check_cond r in
    let return_value := if has_return_value then Some r else a_return_value s in
    let wake := ((bool_decide (return_value = None) && (remaining =? 0)) || has_return_value) && a_suspended_handle s in
    MkAnyOf (a_suspended_handle s) remaining return_value true running (a_loaded s)
      (if wake then PResumed else a_phase s) (if wake then S (a_resumes s) else a_resumes s).

Definition any_step (e : Event R) (s : AnyOf) : outcome AnyOf :=
  match e, a_phase s with
  | Add, PStart =>
      if a_alive s && bool_decide (a_loaded s = None) then
        Next (MkAnyOf (a_suspended_handle s) (a_remaining s + 1) (a_return_value s) true (a_running s + 1) None PStart (a_resumes s))
      else Disabled
  | AddLoad, PStart =>
      if a_alive s && bool_decide (a_loaded s = None) then
        Next (MkAnyOf (a_suspended_handle s) (a_remaining s) (a_return_value s) true (a_running s) (Some (a_remaining s)) PStart (a_resumes s))
      else Disabled
  | AddStore, PStart =>
      match a_loaded s with
      | Some n => Next (MkAnyOf (a_suspended_handle s) (n + 1) (a_return_value s) (a_alive s) (a_running s + 1) None PStart (a_resumes s))
      | None => Disabled
      end
  | Finish r, _ => if a_running s =? 0 then Disabled else Next (any_finish r s)
  | AwaitReady, PStart =>
      if a_alive s && bool_decide (a_loaded s = None) then
        Next (MkAnyOf (a_suspended_handle s) (a_remaining s) (a_return_value s) true (a_running s) None
          (if any_is_ready s then PResumed else PSuspending) (a_resumes s))
      else Disabled
  | AwaitSuspend, PSuspending =>
      Next (MkAnyOf true (a_remaining s) (a_return_value s) (a_alive s) (a_running s) (a_loaded s)
        (if any_is_ready s then PResumed else PSuspended) (if any_is_ready s then S (a_resumes s) else a_resumes s))
  | AwaitResume, PResumed =>
      (** the optional that is moved from still has a value *)
      Next (MkAnyOf (a_suspended_handle s) (a_remaining s) (a_return_value s) (a_alive s) (a_running s) (a_loaded s)
        (PDone (a_return_value s)) (a_resumes s))
  | Drop, PStart | Drop, PDone _ =>
      Next (MkAnyOf (a_suspended_handle s) (a_remaining s) (a_return_value s) false (a_running s) (a_loaded s) (a_phase s) (a_resumes s))
  | _, _ => Disabled
  end.
End AnyOf.
Arguments AnyOf R : clear implicits.

(** ** All *)

Section AllOf.
Context {R : Type}.

Record AllOf := MkAllOf {
  l_suspended_handle : bool;
  l_remaining : nat;
  l_return_values : list R;
  l_alive : bool;
  l_running : nat;
  l_loaded : option nat;
  l_phase : Phase (list R);
  l_resumes : nat
}.

Definition all_new : AllOf := MkAllOf false 0 [] true 0 None PStart 0.

Definition all_finish (r : R) (s : AllOf) : AllOf :=
  let return_values := l_return_values s ++ [r] in
  let remaining := l_remaining s - 1 in
  let wake := (remaining =? 0) && l_suspended_handle s in
  MkAllOf (l_suspended_handle s) remaining return_values (l_alive s) (l_running s - 1) (l_loaded s)
    (if wake then PResumed else l_phase s) (if wake then S (l_resumes s) else l_resumes s).

Definition all_step (e : Event R) (s : AllOf) : outcome AllOf :=
  match e, l_phase s with
  | Add, PStart =>
      if l_alive s && bool_decide (l_loaded s = None) then
        Next (MkAllOf (l_suspended_handle s) (l_remaining s + 1) (l_return_values s) true (l_running s + 1) None PStart (l_resumes s))
      else Disabled
  | AddLoad, PStart =>
      if l_alive s && bool_decide (l_loaded s = None) then
        Next (MkAllOf (l_suspended_handle s) (l_remaining s) (l_return_values s) true (l_running s) (Some (l_remaining s)) PStart (l_resumes s))
      else Disabled
  | AddStore, PStart =>
      match l_loaded s with
      | Some n => Next (MkAllOf (l_suspended_handle s) (n + 1) (l_return_values s) (l_alive s) (l_running s + 1) None PStart (l_resumes s))
      | None => Disabled
      end
  | Finish r, _ => if l_running s =? 0 then Disabled else if negb (l_alive s) then Dangling else Next (all_finish r s)
  | AwaitReady, PStart =>
      if l_alive s && bool_decide (l_loaded s = None) then
        Next (MkAllOf (l_suspended_handle s) (l_remaining s) (l_return_values s) true (l_running s) None
          (if l_remaining s =? 0 then PResumed else PSuspending) (l_resumes s))
      else Disabled
  | AwaitSuspend, PSuspending =>
      Next (MkAllOf true (l_remaining s) (l_return_values s) (l_alive s) (l_running s) (l_loaded s)
        (if l_remaining s =? 0 then PResumed else PSuspended) (if l_remaining s =? 0 then S (l_resumes s) else l_resumes s))
  | AwaitResume, PResumed =>
      Next (MkAllOf (l_suspended_handle s) (l_remaining s) [] (l_alive s) (l_running s) (l_loaded s) (PDone (l_return_values s)) (l_resumes s))
  | Drop, PStart | Drop, PDone _ =>
      Next (MkAllOf (l_suspended_handle s) (l_remaining s) (l_return_values s) false (l_running s) (l_loaded s) (l_phase s) (l_resumes s))
  | _, _ => Disabled
  end.
End AllOf.
Arguments AllOf R : clear implicits.

(** [any_of<R>]: no condition, and the value of the result; nothing when the optional is empty, which is
    an exception. *)
Definition any_of_result {R} (p : Phase (option R)) : option R := match p with PDone v => v | _ => None end.

(** ** Runs *)

Lemma run_app {S E} (step : E -> S -> outcome S) t1 t2 s :
  run step (t1 ++ t2) s = match run step t1 s with Next s' => run step t2 s' | o => o end.
Proof. revert s. induction t1 as [|e t1 IH]; intros s; cbn; [done|]. by destruct (step e s). Qed.

(** An invariant of a state and the events so far. *)
Lemma run_invariant {S E} (step : E -> S -> outcome S) (ok : E -> bool) (Inv : list E -> S -> Prop) s0 :
  Inv [] s0 -> (forall tr e s s', Inv tr s -> ok e = true -> step e s = Next s' -> Inv (tr ++ [e]) s') ->
  forall tr s, Forall (fun e => ok e = true) tr -> run step tr s0 = Next s -> Inv tr s.
Proof.
  intros H0 Hs tr. induction tr as [|e tr IH] using rev_ind; intros s Hok; [by intros [= <-]|].
  rewrite run_app. apply Forall_app in Hok as [Hok [He _]%Forall_cons]. destruct (run step tr s0) as [s1| |] eqn:E0; [|done..].
  cbn. destruct (step e s1) as [s2| |] eqn:E1; [|done..]. intros [= <-]. exact (Hs tr e s1 s2 (IH s1 Hok eq_refl) He E1).
Qed.

Lemma finished_results_app {R} (t1 t2 : list (Event R)) : finished (t1 ++ t2) = finished t1 ++ finished t2.
Proof. apply omap_app. Qed.

Lemma added_app {R} (t1 t2 : list (Event R)) : added (t1 ++ t2) = added t1 + added t2.
Proof. unfold added. by rewrite List.filter_app, length_app. Qed.

Lemma find_snoc {A} (f : A -> bool) l x :
  List.find f (l ++ [x]) = match List.find f l with Some y => Some y | None => if f x then Some x else None end.
Proof. induction l as [|y l IH]; cbn; [done|]. by destruct (f y). Qed.

Section AnyOfFacts.
Context {R : Type} (cond : R -> bool).

Record any_inv (tr : list (Event R)) (s : AnyOf R) : Prop := {
  ai_loaded : a_loaded s = None;
  ai_count : added tr = a_running s + length (finished tr);
  ai_alive : a_alive s = true -> a_remaining s = a_running s /\ a_return_value s = List.find cond (finished tr);
  ai_phase :
    match a_phase s with
    | PStart => a_suspended_handle s = false /\ a_resumes s = 0
    | PSuspending => a_suspended_handle s = false /\ a_resumes s = 0 /\ a_alive s = true
    | PSuspended => a_suspended_handle s = true /\ a_resumes s = 0 /\ a_alive s = true /\
        List.find cond (finished tr) = None /\ 0 < a_running s
    | PResumed => a_resumes s <= 1 /\ a_alive s = true /\ (List.find cond (finished tr) <> None \/ a_running s = 0)
    | PDone v => a_resumes s <= 1 /\ v = List.find cond (finished tr) /\ (v <> None \/ a_running s = 0)
    end
}.

Lemma any_is_ready_spec tr s :
  any_inv tr s -> a_alive s = true ->
  if any_is_ready s then List.find cond (finished tr) <> None \/ a_running s = 0
  else List.find cond (finished tr) = None /\ 0 < a_running s.
Proof.
  intros H Ha. destruct (ai_alive _ _ H Ha) as [E1 E2]. unfold any_is_ready. rewrite E1, E2.
  case_bool_decide as Ef; cbn; [|by left]. destruct (Nat.eqb_spec (a_running s) 0); [by right|]. split; [done|lia].
Qed.

Lemma any_finish_inv tr r s : any_inv tr s -> 0 < a_running s -> any_inv (tr ++ [Finish r]) (any_finish cond r s).
Proof.
  intros [Hl Hc Ha Hp] Hr. unfold any_finish. assert (finished (tr ++ [Finish r]) = finished tr ++ [r]) as Ef by (by rewrite finished_results_app).
  assert (added (tr ++ [Finish r]) = added tr) as Ea by (rewrite added_app; cbn; lia).
  destruct (a_alive s) eqn:Eal; cbn [negb].
  - destruct (Ha eq_refl) as [E1 E2]. split; cbn; rewrite ?Ef, ?Ea, ?length_app; cbn; [done|lia| |].
    + intros _. rewrite find_snoc, <- E2. split; [lia|]. destruct (a_return_value s); [by rewrite andb_false_l|]. by destruct (cond r).
    + rewrite find_snoc, <- E2 in *. rewrite E1. destruct (a_return_value s) as [v|]; cbn.
      { destruct (a_phase s); cbn in *; intuition (done || lia || congruence). }
      destruct (cond r); cbn; [|destruct (Nat.eqb_spec (a_running s - 1) 0)]; destruct (a_suspended_handle s) eqn:Eh; cbn;
        destruct (a_phase s); cbn in *; intuition (done || lia || congruence).
  - split; cbn; rewrite ?Ef, ?Ea, ?length_app; cbn; [done|lia|done|]. rewrite find_snoc.
    destruct (a_phase s); cbn in *; [done|intuition congruence..|]. destruct Hp as (? & -> & [Hv|Hv]); [|lia].
    destruct (List.find cond (finished tr)); [|done]. split; [done|]. split; [done|by left].
Qed.

Lemma any_step_inv tr e s s' : any_inv tr s -> untorn e = true -> any_step cond e s = Next s' -> any_inv (tr ++ [e]) s'.
Proof.
  intros Hi Hu Hs. pose proof (any_is_ready_spec tr s Hi) as Hready. pose proof Hi as [Hl Hc Ha Hp].
  unfold any_step in Hs. destruct e; try done.
  2:{ destruct (Nat.eqb_spec (a_running s) 0); [done|]. injection Hs as <-. apply any_finish_inv; [done|lia]. }
  all: destruct (a_phase s) eqn:Eph; try done; try (destruct (a_alive s) eqn:Eal; [|done]; case_bool_decide; [|done]); injection Hs as <-;
    split; cbn; rewrite ?finished_results_app, ?added_app, ?app_nil_r, ?Eph; cbn; rewrite ?app_nil_r, ?Nat.add_0_r; try done; try lia.
  all: try (destruct (any_is_ready s)); cbn; intuition (done || lia || congruence).
Qed.

Lemma any_new_inv : any_inv [] any_new.
Proof. by split. Qed.

Lemma any_run_inv tr s : Forall (fun e => untorn e = true) tr -> run (any_step cond) tr any_new = Next s -> any_inv tr s.
Proof. apply (run_invariant (any_step cond) untorn any_inv any_new any_new_inv any_step_inv). Qed.

(** C17: [any_of_cond] in every interleaving in which no child takes the mutex between the load and the store of
    another's [remaining++] (the increments are not under the mutex; when one is torn the parent can hang): the
    parent is resumed at most once; what it gets is the first result that matches, by the order in which the
    children took the mutex, and nothing only when every child has finished and none matched; and it stays
    suspended only while a child runs and no result has matched, so no wakeup is lost. *)
Theorem any_of_cond_correct tr s :
  Forall (fun e => untorn e = true) tr -> run (any_step cond) tr any_new = Next s ->
  a_resumes s <= 1 /\
  (forall v, a_phase s = PDone v -> v = List.find cond (finished tr) /\ (v = None -> length (finished tr) = added tr)) /\
  (a_phase s = PSuspended -> List.find cond (finished tr) = None /\ length (finished tr) < added tr).
Proof.
  intros Hu Hr. destruct (any_run_inv tr s Hu Hr) as [_ Hc _ Hp]. split; [|split].
  - destruct (a_phase s); lia.
  - intros v E. rewrite E in Hp. destruct Hp as (_ & Hv & Hd). split; [done|]. intros ->. destruct Hd; [done|lia].
  - intros E. rewrite E in Hp. split; [apply Hp|lia].
Qed.

(** No child touches a shared state that is gone. *)
Lemma any_step_no_dangling e s : any_step cond e s <> Dangling.
Proof. unfold any_step. by repeat case_match. Qed.
End AnyOfFacts.

(** [any_of], which has no condition, always has a value to return when it was given an awaitable:
    the result of the child that finished first. *)
Theorem any_of_first {R} (tr : list (Event R)) s v :
  Forall (fun e => untorn e = true) tr -> run (any_step (fun _ => true)) tr any_new = Next s -> 0 < added tr ->
  a_phase s = PDone v -> exists r, any_of_result (a_phase s) = Some r /\ head (finished tr) = Some r.
Proof.
  intros Hu Hr Ha Hp. destruct (any_run_inv _ tr s Hu Hr) as [_ Hc _ Hph]. rewrite Hp in *. destruct Hph as (_ & -> & Hd). cbn.
  destruct (finished tr) as [|r l]; [|by exists r]. cbn in *. destruct Hd; [done|lia].
Qed.

Section AllOfFacts.
Context {R : Type}.

Record all_inv (tr : list (Event R)) (s : AllOf R) : Prop := {
  li_loaded : l_loaded s = None;
  li_count : added tr = l_running s + length (finished tr);
  li_alive : l_alive s = true -> l_remaining s = l_running s;
  li_phase :
    match l_phase s with
    | PStart => l_suspended_handle s = false /\ l_resumes s = 0 /\ (l_alive s = true -> l_return_values s = finished tr)
    | PSuspending => l_suspended_handle s = false /\ l_resumes s = 0 /\ l_alive s = true /\ l_return_values s = finished tr
    | PSuspended => l_suspended_handle s = true /\ l_resumes s = 0 /\ l_alive s = true /\ l_return_values s = finished tr /\ 0 < l_running s
    | PResumed => l_resumes s <= 1 /\ l_alive s = true /\ l_return_values s = finished tr /\ l_running s = 0
    | PDone v => l_resumes s <= 1 /\ v = finished tr /\ l_running s = 0
    end
}.

Lemma all_step_inv tr e s s' : all_inv tr s -> untorn e = true -> all_step e s = Next s' -> all_inv (tr ++ [e]) s'.
Proof.
  intros [Hl Hc Ha Hp] Hu Hs. unfold all_step in Hs. destruct e; try done.
  2:{ destruct (Nat.eqb_spec (l_running s) 0) as [|Hr]; [done|]. destruct (l_alive s) eqn:Eal; [|done]. injection Hs as <-.
      specialize (Ha eq_refl). unfold all_finish. split; cbn; rewrite ?finished_results_app, ?added_app, ?length_app; cbn; [done|lia|by rewrite Ha|].
      rewrite Ha. destruct (Nat.eqb_spec (l_running s - 1) 0), (l_suspended_handle s) eqn:Eh, (l_phase s); cbn in *;
        intuition (done || lia || congruence). }
  all: destruct (l_phase s) eqn:Eph; try done; try (destruct (l_alive s) eqn:Eal; [|done]; case_bool_decide; [|done]); injection Hs as <-;
    split; cbn; rewrite ?finished_results_app, ?added_app, ?app_nil_r, ?Eph; cbn; rewrite ?app_nil_r, ?Nat.add_0_r; try done; try lia.
  all: try (destruct (Nat.eqb_spec (l_remaining s) 0)); cbn; intuition (done || lia || congruence).
Qed.

Lemma all_run_inv tr s : Forall (fun e => untorn e = true) tr -> run all_step tr all_new = Next s -> all_inv tr s.
Proof. apply (run_invariant all_step untorn all_inv all_new); [by split|apply all_step_inv]. Qed.

(** C21: [all_of] in every interleaving in which no child takes the mutex between the load and the store of
    another's [remaining++] (the increments are not under the mutex; when one is torn the parent can hang): the
    parent is resumed at most once and not before all children have finished; it gets the results of all of them,
    in the order in which they finished; and it stays suspended only while a child runs. *)
Theorem all_of_correct (tr : list (Event R)) s :
  Forall (fun e => untorn e = true) tr -> run all_step tr all_new = Next s ->
  l_resumes s <= 1 /\
  (forall v, l_phase s = PDone v -> v = finished tr /\ length v = added tr) /\
  (l_phase s = PSuspended -> length (finished tr) < added tr).
Proof.
  intros Hu Hr. destruct (all_run_inv tr s Hu Hr) as [_ Hc _ Hp]. split; [|split].
  - destruct (l_phase s); lia.
  - intros v E. rewrite E in Hp. destruct Hp as (_ & -> & ?). split; [done|lia].
  - intros E. rewrite E in Hp. lia.
Qed.

(** A child finds its shared state, as long as the awaitable is not dropped before it was awaited. *)
Lemma all_step_no_dangling tr e s : all_inv tr s -> (l_phase s = PStart -> l_alive s = true) -> all_step e s <> Dangling.
Proof.
  intros [Hl Hc Ha Hp] Hs. unfold all_step. destruct e; repeat case_match; try done; intros _.
  all: apply negb_true_iff in H1; apply Nat.eqb_neq in H0; intuition (lia || congruence).
Qed.
End AllOfFacts.

(** ** Examples *)

Definition even_cond (r : nat) : bool := Nat.even r.

(** Three children; two finish on other threads around the parent's suspension. *)
Definition any_trace : list (Event nat) :=
  [Add; Add; Finish 3; Add; AwaitReady; AwaitSuspend; Finish 8; Finish 6; AwaitResume; Drop].

Lemma any_of_cond_correct_witness :
  exists s, run (any_step even_cond) any_trace any_new = Next s /\ a_phase s = PDone (Some 8) /\ a_resumes s <= 1.
Proof.
  exists (MkAnyOf true 0 (Some 8) false 0 None (PDone (Some 8)) 1). split; [vm_compute; reflexivity|]. split; [reflexivity|].
  apply (any_of_cond_correct even_cond any_trace); [repeat constructor|vm_compute; reflexivity].
Defined.

Definition first_trace : list (Event nat) := [Add; Add; AwaitReady; Finish 3; AwaitSuspend; AwaitResume; Finish 8; Drop].

Lemma any_of_first_witness :
  exists s, run (any_step (fun _ => true)) first_trace any_new = Next s /\
    exists r, any_of_result (a_phase s) = Some r /\ head (finished first_trace) = Some r.
Proof.
  exists (MkAnyOf true 0 (Some 3) false 0 None (PDone (Some 3)) 1). split; [vm_compute; reflexivity|].
  apply (any_of_first first_trace _ (Some 3)); [repeat constructor|vm_compute; reflexivity|vm_compute; lia|reflexivity].
Defined.

Definition all_trace : list (Event nat) := [Add; Add; Finish 3; Add; AwaitReady; Finish 8; AwaitSuspend; Finish 6; AwaitResume; Drop].

Lemma all_of_correct_witness :
  exists s, run all_step all_trace all_new = Next s /\ l_phase s = PDone [3; 8; 6] /\ l_resumes s <= 1.
Proof.
  exists (MkAllOf true 0 [] false 0 None (PDone [3; 8; 6]) 1). split; [vm_compute; reflexivity|]. split; [reflexivity|].
  apply (all_of_correct all_trace); [repeat constructor|vm_compute; reflexivity].
Defined.

(** ** What the code does not do *)

(** A child that finishes on another thread between the load and the store of [remaining++] is not
    counted: when all have finished without a match the parent is still suspended, for good. *)
Lemma torn_increment_hangs :
  match run (any_step even_cond) [Add; AddLoad; Finish 1; AddStore; AwaitReady; AwaitSuspend; Finish 3] any_new with
  | Next s => a_phase s = PSuspended /\ a_running s = 0 /\ a_remaining s = 1
  | _ => False
  end.
Proof. vm_compute. done. Qed.

(** The children of [all_of] hold no reference to the shared state: when the awaitable is dropped
    without being awaited, the next child to finish uses a state that is gone. *)
Lemma dropped_all_of_dangles : run all_step [Add; Drop; Finish 1] all_new = Dangling.
Proof. reflexivity. Qed.
