(* ===== verification/AutoFd.v ===== *)
(** * Owned descriptors: class [AutoFd] of [common/include/common/autofd.h]

    The state is that of a process: its [AutoFd] objects, by a number, with the descriptor each keeps, and
    the descriptors that are open.  Closing a descriptor that is not open fails ([None]), as does the use
    of an object that does not exist. *)

From S2P Require Import StringView.

Definition EVUTIL_INVALID_SOCKET : Z := -1.

Record World := MkWorld { objs : gmap nat Z; opened : gset Z }.

Definition set_fd (id : nat) (fd : Z) (w : World) : World := MkWorld (<[id := fd]> (objs w)) (opened w).

Definition evutil_closesocket (fd : Z) (w : World) : option World :=
  if decide (fd ∈ opened w) then Some (MkWorld (objs w) (opened w ∖ {[fd]})) else None.

(** ** The class *)

Definition fd_default (id : nat) (w : World) : option World := Some (set_fd id EVUTIL_INVALID_SOCKET w).

(** [dup] opens a descriptor, or answers [-1]. *)
Definition dup_fd (id : nat) (fd : Z) (dup : Z) (w : World) : option World :=
  if negb (fd =? EVUTIL_INVALID_SOCKET)%Z
  then Some (MkWorld (<[id := dup]> (objs w)) (if (dup =? -1)%Z then opened w else {[dup]} ∪ opened w))
  else fd_default id w.

Definition adopt_fd (id : nat) (fd : Z) (w : World) : option World :=
  if negb (fd =? EVUTIL_INVALID_SOCKET)%Z then Some (set_fd id fd w) else fd_default id w.

Definition fd_get (id : nat) (w : World) : option Z := objs w !! id.
Definition fd_is_valid (id : nat) (w : World) : option bool := fd ← objs w !! id; Some (negb (fd =? EVUTIL_INVALID_SOCKET)%Z).

Definition fd_release (id : nat) (w : World) : option (Z * World) :=
  fd ← objs w !! id; Some (fd, set_fd id EVUTIL_INVALID_SOCKET w).

Definition fd_reset (id : nat) (new_fd : Z) (w : World) : option World :=
  fd ← objs w !! id;
  let w := set_fd id new_fd w in
  if negb (fd =? EVUTIL_INVALID_SOCKET)%Z && negb (new_fd =? fd)%Z then evutil_closesocket fd w else Some w.

(** [std::exchange] on the source comes before the assignment to the target, which may be the same object. *)
Definition fd_move_assign (id other : nat) (w : World) : option World :=
  w ← fd_reset id EVUTIL_INVALID_SOCKET w;
  fd ← objs w !! other;
  Some (set_fd id fd (set_fd other EVUTIL_INVALID_SOCKET w)).

Definition fd_move (id other : nat) (w : World) : option World :=
  w ← fd_default id w;
  fd_move_assign id other w.

Definition fd_destroy (id : nat) (w : World) : option World :=
  w ← fd_reset id EVUTIL_INVALID_SOCKET w;
  Some (MkWorld (delete id (objs w)) (opened w)).

(** ** Histories *)

Inductive Event :=
| Open (fd : Z)                     (** the program opens a descriptor *)
| Default (id : nat) | Dup (id : nat) (fd dup : Z) | Adopt (id : nat) (fd : Z) | Release (id : nat)
| Reset (id : nat) (fd : Z) | MoveAssign (id other : nat) | Move (id other : nat) | Destroy (id : nat).

Definition step (ev : Event) (w : World) : option World :=
  match ev with
  | Open fd => Some (MkWorld (objs w) ({[fd]} ∪ opened w))
  | Default id => fd_default id w
  | Dup id fd dup => dup_fd id fd dup w
  | Adopt id fd => adopt_fd id fd w
  | Release id => snd <$> fd_release id w
  | Reset id fd => fd_reset id fd w
  | MoveAssign id other => fd_move_assign id other w
  | Move id other => fd_move id other w
  | Destroy id => fd_destroy id w
  end.

(** What the program itself has to close: open descriptors no object keeps. *)
Definition owned (w : World) : gset Z := list_to_set (snd <$> map_to_list (objs w)).
Definition outside (w : World) : gset Z := opened w ∖ owned w.

(** What the class promises of this set. *)
Definition ledger (ev : Event) (w : World) (l : gset Z) : gset Z :=
  match ev with
  | Open fd => {[fd]} ∪ l
  | Adopt _ fd => l ∖ {[fd]}
  | Reset _ fd => l ∖ {[fd]}
  | Release id => match objs w !! id with Some fd => if (fd =? -1)%Z then l else {[fd]} ∪ l | None => l end
  | _ => l
  end.

(** The rules for the caller: new objects are new, others exist; descriptors are new when they are opened,
    and the caller's when they are handed over. *)
Definition legal (ev : Event) (w : World) : Prop :=
  match ev with
  | Open fd => fd <> (-1)%Z /\ fd ∉ opened w
  | Default id => objs w !! id = None
  | Dup id fd dup => objs w !! id = None /\ dup ∉ opened w
  | Adopt id fd => objs w !! id = None /\ (fd = (-1)%Z \/ fd ∈ outside w)
  | Reset id fd => is_Some (objs w !! id) /\ (fd = (-1)%Z \/ fd ∈ outside w \/ objs w !! id = Some fd)
  | Release id | Destroy id => is_Some (objs w !! id)
  | MoveAssign id other => is_Some (objs w !! id) /\ is_Some (objs w !! other)
  | Move id other => objs w !! id = None /\ is_Some (objs w !! other)
  end.

#[export] Instance legal_dec ev w : Decision (legal ev w).
Proof. destruct ev; cbn [legal]; apply _. Defined.

(** Each object keeps an open descriptor of its own, or none. *)
Record ok (w : World) : Prop := {
  ok_open id fd : objs w !! id = Some fd -> fd <> (-1)%Z -> fd ∈ opened w;
  ok_unique id id' fd : objs w !! id = Some fd -> objs w !! id' = Some fd -> fd <> (-1)%Z -> id = id';
  ok_invalid : (-1)%Z ∉ opened w
}.

Lemma elem_of_owned fd w : fd ∈ owned w <-> exists id, objs w !! id = Some fd.
Proof.
  unfold owned. rewrite elem_of_list_to_set, list_elem_of_fmap. split.
  - intros ([id x] & -> & Hin%elem_of_map_to_list). eauto.
  - intros [id Hid]. exists (id, fd). by rewrite elem_of_map_to_list.
Qed.

Lemma elem_of_outside fd w : fd ∈ outside w <-> fd ∈ opened w /\ forall id, objs w !! id <> Some fd.
Proof. unfold outside. rewrite elem_of_difference, elem_of_owned. naive_solver. Qed.

(** ** Facts *)

(** A descriptor an object may get: none, or one that is open and kept by no other object. *)
Definition free_for (id : nat) (fd : Z) (w : World) : Prop :=
  fd = (-1)%Z \/ (fd ∈ opened w /\ forall id', id' <> id -> objs w !! id' <> Some fd).

Lemma set_fd_ok id fd w : ok w -> free_for id fd w -> ok (set_fd id fd w).
Proof.
  intros [Ho Hu Hi] Hf. split; cbn [set_fd objs opened]; [| |done].
  - intros j x. rewrite lookup_insert_Some. unfold free_for in Hf. naive_solver.
  - intros j j' x. rewrite !lookup_insert_Some. unfold free_for in Hf. naive_solver.
Qed.

Lemma outside_set_fd id fd w x :
  x ∈ outside (set_fd id fd w) <-> x ∈ opened w /\ x <> fd /\ forall id', id' <> id -> objs w !! id' <> Some x.
Proof.
  rewrite elem_of_outside. cbn [set_fd objs opened]. setoid_rewrite lookup_insert_Some. naive_solver.
Qed.

(** A descriptor that no object keeps is closed. *)
Lemma close_ok fd w :
  ok w -> fd ∈ outside w ->
  exists w', evutil_closesocket fd w = Some w' /\ ok w' /\ objs w' = objs w /\ outside w' = outside w ∖ {[fd]}.
Proof.
  intros [Ho Hu Hi] [Hop Hno]%elem_of_outside. unfold evutil_closesocket. rewrite decide_True by done. eexists. split; [reflexivity|].
  split; [split; cbn [objs opened]|split; [done|]].
  - intros j x Hj Hx. apply elem_of_difference. split; [eauto|]. rewrite elem_of_singleton. intros ->. by apply (Hno j).
  - done.
  - set_solver.
  - apply set_eq. intros x. rewrite elem_of_difference, !elem_of_outside. cbn [objs opened]. set_solver.
Qed.

Lemma outside_invalid w : ok w -> outside w ∖ {[(-1)%Z]} = outside w.
Proof. intros [_ _ Hi]. unfold outside. set_solver. Qed.

(** The old descriptor of an object becomes the caller's, the new one no longer is. *)
Lemma outside_exchange id old fd w :
  objs w !! id = Some old -> outside (set_fd id fd w) ∖ {[old]} = outside w ∖ {[fd]}.
Proof.
  intros Hid. apply set_eq. intros x. rewrite !elem_of_difference, !elem_of_singleton, outside_set_fd, elem_of_outside.
  split; [|naive_solver]. intros ((Hx & Hne & Hno) & Hold). split; [|done]. split; [done|]. intros j Hj.
  destruct (decide (j = id)) as [->|]; naive_solver congruence.
Qed.

(** [reset] gives up the old descriptor and keeps the new one. *)
Lemma reset_ok id old fd w :
  ok w -> objs w !! id = Some old -> (fd = (-1)%Z \/ fd ∈ outside w \/ fd = old) ->
  exists w', fd_reset id fd w = Some w' /\ ok w' /\ objs w' = <[id := fd]> (objs w) /\ outside w' = outside w ∖ {[fd]}.
Proof.
  intros Hok Hid Hfd. pose proof Hok as [Ho Hu Hi].
  assert (free_for id fd w) as Hfree.
  { destruct Hfd as [->|[[Hop Hno]%elem_of_outside| ->]]; [by left|right; naive_solver|].
    destruct (decide (old = (-1)%Z)) as [->|Hne]; [by left|]. right. split; [eauto|]. intros j Hj Hk. apply Hj. eauto. }
  pose proof (set_fd_ok id fd w Hok Hfree) as Hok'. pose proof (outside_exchange id old fd w Hid) as Hex.
  unfold fd_reset. rewrite Hid. cbn [mbind option_bind]. unfold EVUTIL_INVALID_SOCKET.
  destruct (Z.eqb_spec old (-1)) as [->|Hold]; cbn [negb andb].
  - eexists. split; [reflexivity|]. split; [done|]. split; [done|]. by rewrite <- Hex, outside_invalid.
  - destruct (Z.eqb_spec fd old) as [->|Hne]; cbn [negb].
    + eexists. split; [reflexivity|]. split; [done|]. split; [done|]. rewrite <- Hex. apply set_eq. intros x.
      rewrite elem_of_difference, elem_of_singleton, outside_set_fd. naive_solver.
    + destruct (close_ok old (set_fd id fd w) Hok') as (w' & -> & Hok2 & Hobjs & Hout).
      { apply outside_set_fd. split; [eauto|]. split; [done|]. intros j Hj Hk. apply Hj. eauto. }
      exists w'. by rewrite Hout.
Qed.

(** A new object. *)
Lemma new_ok id fd w :
  ok w -> objs w !! id = None -> (fd = (-1)%Z \/ fd ∈ outside w) -> ok (set_fd id fd w) /\ outside (set_fd id fd w) = outside w ∖ {[fd]}.
Proof.
  intros Hok Hid Hfd. split.
  - apply set_fd_ok; [done|]. destruct Hfd as [->|[Hop Hno]%elem_of_outside]; [by left|right; naive_solver].
  - apply set_eq. intros x. rewrite outside_set_fd, elem_of_difference, elem_of_singleton, elem_of_outside.
    split; [|naive_solver]. intros (Hx & Hne & Hno). split; [|done]. split; [done|]. intros j Hj.
    destruct (decide (j = id)) as [->|]; naive_solver congruence.
Qed.

(** [release] hands the descriptor to the caller. *)
Lemma release_ok id fd w :
  ok w -> objs w !! id = Some fd ->
  ok (set_fd id (-1) w) /\ outside (set_fd id (-1) w) = if (fd =? -1)%Z then outside w else {[fd]} ∪ outside w.
Proof.
  intros Hok Hid. assert (ok (set_fd id (-1) w)) as Hok' by (apply set_fd_ok; [done|by left]). split; [done|].
  pose proof (outside_exchange id fd (-1) w Hid) as Hex. rewrite (outside_invalid w Hok) in Hex.
  destruct (Z.eqb_spec fd (-1)) as [->|Hne]; [by rewrite <- Hex, outside_invalid|].
  rewrite <- Hex. apply set_eq. intros x. rewrite elem_of_union, elem_of_difference, elem_of_singleton.
  destruct (decide (x = fd)) as [->|]; [|naive_solver]. rewrite outside_set_fd. destruct Hok as [Ho Hu Hi]. split; [by left|].
  intros _. split; [eauto|]. split; [done|]. intros j Hj Hk. apply Hj. eauto.
Qed.

(** Moving gives up the descriptor of the target and keeps that of the source. *)
Lemma move_assign_ok id other w :
  ok w -> is_Some (objs w !! id) -> is_Some (objs w !! other) ->
  exists w', fd_move_assign id other w = Some w' /\ ok w' /\ outside w' = outside w.
Proof.
  intros Hok [old Hid] Hother. unfold fd_move_assign, EVUTIL_INVALID_SOCKET.
  destruct (reset_ok id old (-1) w Hok Hid) as (w1 & -> & Hok1 & Hobjs & Hout); [by left|].
  rewrite (outside_invalid w Hok) in Hout. cbn [mbind option_bind].
  assert (exists fd, objs w1 !! other = Some fd) as [fd Hfd].
  { rewrite Hobjs. destruct (decide (id = other)) as [->|Hne]; [rewrite lookup_insert_eq|rewrite lookup_insert_ne by done]; eauto. }
  rewrite Hfd. cbn [mbind option_bind]. eexists. split; [reflexivity|].
  destruct (release_ok other fd w1 Hok1 Hfd) as [Hok2 Hout2]. set (w2 := set_fd other (-1) w1) in *.
  assert (objs w2 !! id = Some (-1)%Z) as Hid2.
  { unfold w2. cbn. rewrite Hobjs. destruct (decide (id = other)) as [->|Hne]; [by rewrite lookup_insert_eq|].
    rewrite lookup_insert_ne by done. by rewrite lookup_insert_eq. }
  assert (ok (set_fd id fd w2)) as Hok3.
  { apply set_fd_ok; [done|]. destruct (Z.eqb_spec fd (-1)) as [->|]; [by left|]. right.
    assert (fd ∈ outside w2) as [Hop Hno]%elem_of_outside by (rewrite Hout2; set_solver). naive_solver. }
  split; [done|]. rewrite <- (outside_invalid _ Hok3), (outside_exchange id (-1) fd w2 Hid2), Hout2, <- Hout.
  destruct (Z.eqb_spec fd (-1)) as [->|]; [by apply outside_invalid|].
  assert (fd ∉ outside w1) by (rewrite elem_of_outside; naive_solver). set_solver.
Qed.

(** Destroying an object closes its descriptor. *)
Lemma destroy_ok id w :
  ok w -> is_Some (objs w !! id) ->
  exists w', fd_destroy id w = Some w' /\ ok w' /\ outside w' = outside w.
Proof.
  intros Hok [old Hid]. unfold fd_destroy, EVUTIL_INVALID_SOCKET.
  destruct (reset_ok id old (-1) w Hok Hid) as (w1 & -> & [Ho Hu Hi] & Hobjs & Hout); [by left|].
  rewrite (outside_invalid w Hok) in Hout. eexists. split; [reflexivity|]. rewrite <- Hout.
  split; [split; cbn [objs opened]|].
  - intros j x [_ Hj]%lookup_delete_Some. eauto.
  - intros j j' x [_ Hj]%lookup_delete_Some [_ Hj']%lookup_delete_Some. eauto.
  - done.
  - apply set_eq. intros x. rewrite !elem_of_outside. cbn [objs opened]. setoid_rewrite lookup_delete_Some.
    split; [|naive_solver]. intros [Hx Hno]. split; [done|]. intros j Hj. destruct (decide (j = id)) as [->|]; [|naive_solver].
    rewrite Hobjs, lookup_insert_eq in Hj. naive_solver.
Qed.

Lemma open_ok fd w : ok w -> fd <> (-1)%Z -> fd ∉ opened w -> ok (MkWorld (objs w) ({[fd]} ∪ opened w)) /\
  outside (MkWorld (objs w) ({[fd]} ∪ opened w)) = {[fd]} ∪ outside w.
Proof.
  intros [Ho Hu Hi] Hne Hnew. assert (forall id, objs w !! id <> Some fd) as Hno by (intros id Hid; eauto).
  split; [split; cbn [objs opened]; [set_solver|done|set_solver]|].
  apply set_eq. intros x. rewrite elem_of_union, !elem_of_outside. cbn [objs opened]. set_solver.
Qed.

Lemma default_ok id w :
  ok w -> objs w !! id = None -> ok (set_fd id EVUTIL_INVALID_SOCKET w) /\ outside (set_fd id EVUTIL_INVALID_SOCKET w) = outside w.
Proof. intros Hok Hid. rewrite <- (outside_invalid w Hok). apply new_ok; [done..|by left]. Qed.

Lemma dup_ok id fd dup w :
  ok w -> objs w !! id = None -> dup ∉ opened w -> exists w', dup_fd id fd dup w = Some w' /\ ok w' /\ outside w' = outside w.
Proof.
  intros Hok Hid Hdup. unfold dup_fd. destruct (fd =? _)%Z; cbn [negb]; (eexists; split; [reflexivity|]); [by apply default_ok|].
  destruct (Z.eqb_spec dup (-1)) as [->|Hne]; [by apply default_ok|].
  destruct (open_ok dup w Hok Hne Hdup) as [Hok1 Hout1].
  destruct (new_ok id dup _ Hok1 Hid) as [Hok2 Hout2]; [right; rewrite Hout1; set_solver|]. split; [exact Hok2|].
  etrans; [exact Hout2|]. rewrite Hout1. assert (dup ∉ outside w) by (unfold outside; set_solver). set_solver.
Qed.

Lemma step_ok ev w :
  ok w -> legal ev w -> exists w', step ev w = Some w' /\ ok w' /\ outside w' = ledger ev w (outside w).
Proof.
  intros Hok Hl. destruct ev as [fd|id|id fd dup|id fd|id|id fd|id other|id other|id]; cbn [legal step ledger] in *.
  - destruct Hl. eexists. split; [reflexivity|]. by apply open_ok.
  - eexists. split; [reflexivity|]. by apply default_ok.
  - destruct Hl. by apply dup_ok.
  - destruct Hl as [Hid Hfd]. unfold adopt_fd, EVUTIL_INVALID_SOCKET. destruct (new_ok id fd w Hok Hid Hfd) as [Hok' Hout].
    destruct (Z.eqb_spec fd (-1)) as [->|]; cbn [negb]; eexists; (split; [reflexivity|done]).
  - destruct Hl as [fd Hid]. unfold fd_release. rewrite Hid. eexists. split; [reflexivity|]. by apply release_ok.
  - destruct Hl as [[old Hid] Hfd]. destruct (reset_ok id old fd w Hok Hid) as (w' & Hr & Hok' & _ & Hout); [naive_solver|]. eauto.
  - destruct Hl as [H1 H2]. by apply move_assign_ok.
  - destruct Hl as [Hid Hother]. unfold fd_move, fd_default, EVUTIL_INVALID_SOCKET. cbn [mbind option_bind].
    destruct (default_ok id w Hok Hid) as [Hok' Hout]. rewrite <- Hout.
    apply move_assign_ok; [done|cbn [set_fd objs]; rewrite lookup_insert_eq; eauto|].
    cbn [set_fd objs]. rewrite lookup_insert_ne by (intros ->; rewrite Hid in Hother; by destruct Hother). done.
  - by apply destroy_ok.
Qed.

(** A caller that keeps to the rules, what happens, and what the class promises about it. *)
Fixpoint run (evs : list Event) (w : World) : option World :=
  match evs with [] => Some w | ev :: evs' => w' ← step ev w; run evs' w' end.
Fixpoint legal_run (evs : list Event) (w : World) : Prop :=
  match evs with [] => True | ev :: evs' => legal ev w /\ match step ev w with Some w' => legal_run evs' w' | None => True end end.
Fixpoint ledger_run (evs : list Event) (w : World) (l : gset Z) : gset Z :=
  match evs with
  | [] => l
  | ev :: evs' => match step ev w with Some w' => ledger_run evs' w' (ledger ev w l) | None => l end
  end.

#[export] Instance legal_run_dec evs w : Decision (legal_run evs w).
Proof.
  revert w. induction evs as [|ev evs IH]; intros w; cbn [legal_run]; [apply _|].
  destruct (step ev w) as [w'|]; [|apply _]. specialize (IH w'). apply _.
Defined.

Lemma run_ok evs w :
  ok w -> legal_run evs w -> exists w', run evs w = Some w' /\ ok w' /\ outside w' = ledger_run evs w (outside w).
Proof.
  revert w. induction evs as [|ev evs IH]; intros w Hok Hl; cbn [run legal_run ledger_run] in *; [by exists w|].
  destruct Hl as [Hev Hl]. destruct (step_ok ev w Hok Hev) as (w1 & E1 & Hok1 & Hout). rewrite E1 in Hl |- *. cbn [mbind option_bind].
  rewrite <- Hout. by apply IH.
Qed.

(** A descriptor is closed exactly once by the object that keeps it: over every history of objects that are
    made, moved (also to themselves), reset, released and destroyed, no descriptor is closed that is not open,
    no two objects keep the same one, and what is open and not kept is what the caller has opened or was given
    back and has not handed over; so nothing else is open once no object is left. *)
Theorem autofd_closes_once evs :
  legal_run evs (MkWorld ∅ ∅) ->
  exists w, run evs (MkWorld ∅ ∅) = Some w /\ ok w /\ outside w = ledger_run evs (MkWorld ∅ ∅) ∅ /\
    (objs w = ∅ -> opened w = ledger_run evs (MkWorld ∅ ∅) ∅).
Proof.
  intros Hl. destruct (run_ok evs (MkWorld ∅ ∅)) as (w & Hr & Hok & Hout); [by split|done|]. exists w.
  assert (outside (MkWorld ∅ ∅) = ∅) as He by (unfold outside; set_solver). rewrite He in Hout. split; [done|]. split; [done|].
  split; [done|]. intros Ho. rewrite <- Hout. apply set_eq. intros x. rewrite elem_of_outside, Ho. setoid_rewrite lookup_empty. naive_solver.
Qed.

Lemma autofd_closes_once_witness :
  let evs := [Open 3; Open 4; Adopt 0 3; Dup 1 3 5; Move 2 0; MoveAssign 1 2; MoveAssign 1 1; Default 3; Reset 3 4; Release 3;
    Destroy 0; Destroy 1; Destroy 2; Destroy 3]%Z in
  exists w, run evs (MkWorld ∅ ∅) = Some w /\ ok w /\ outside w = ledger_run evs (MkWorld ∅ ∅) ∅ /\
    (objs w = ∅ -> opened w = ledger_run evs (MkWorld ∅ ∅) ∅).
Proof.
  intros evs. apply (autofd_closes_once evs). apply (bool_decide_eq_true_1 (legal_run evs (MkWorld ∅ ∅))). by vm_compute.
Defined.
