(* ===== verification/Wrappers.v ===== *)
(** * Small wrappers: [common/defs.h] and [common/utils.h]

    The traits of [unsigned char] and the views built on them, the stream over a string view, objects with a
    deleter, guards of a scope, timers, and the counting of the parameters of a structure. *)

From S2P Require Import StringView.

(** ** [char_traits<unsigned char>] *)

Module CharTraits.

Definition EOF : Z := -1.

Definition lt (l r : Z) : bool := (l <? r)%Z.
Definition eq (l r : Z) : bool := (l =? r)%Z.

(** [strncmp]: it stops at the first zero.  The arguments are what lies in memory from the pointers on; reading
    behind it fails. *)
Fixpoint strncmp (l r : bytes) (s : nat) : option Z :=
  match s with
  | O => Some 0%Z
  | S s =>
      match l, r with
      | a :: l, b :: r =>
          if (a =? b)%Z then if (a =? 0)%Z then Some 0%Z else strncmp l r s
          else Some (if (a <? b)%Z then -1 else 1)%Z
      | _, _ => None
      end
  end.

Definition compare (l r : bytes) (s : nat) : option Z := strncmp l r s.

Fixpoint strlen (s : bytes) : option nat :=
  match s with
  | [] => None
  | c :: s => if (c =? 0)%Z then Some 0 else S <$> strlen s
  end.

Definition length (s : bytes) : option nat := strlen s.

(** The offset of the byte; [memchr] converts its argument to [unsigned char]. *)
Definition find (haystack : bytes) (size : nat) (needle : Z) : option nat :=
  fst <$> list_find (fun c => c = u8 needle) (take size haystack).

(** Moving of bytes within one memory, also when the ranges overlap: the source is read before. *)
Definition move (mem : bytes) (dst src size : nat) : bytes :=
  take dst mem ++ take size (drop src mem) ++ drop (dst + size) mem.

(** As [memcpy], for ranges that do not overlap. *)
Definition copy (mem : bytes) (dst src size : nat) : option bytes :=
  if bool_decide (dst + size <= src \/ src + size <= dst) then Some (move mem dst src size) else None.

Fixpoint assign (mem : bytes) (dst size : nat) (c : Z) : bytes :=
  match size with
  | O => mem
  | S size => assign (<[dst := c]> mem) (S dst) size c
  end.

Definition eof : Z := EOF.
Definition eq_int_type (c1 c2 : Z) : bool := (c1 =? c2)%Z.
Definition not_eof (c : Z) : Z := if eq_int_type c eof then Z.lnot eof else c.
Definition to_char_type (c : Z) : Z := u8 c.
Definition to_int_type (c : Z) : Z := u8 c.

(** [compare] of two views of the standard library, over the traits. *)
Definition view_compare (l r : bytes) : option Z :=
  c ← compare l r (min (List.length l) (List.length r));
  Some (if negb (c =? 0)%Z then c
        else match Nat.compare (List.length l) (List.length r) with Lt => -1 | Eq => 0 | Gt => 1 end)%Z.

(** The order of bytes, as [memcmp] gives it. *)
Fixpoint bytes_compare (l r : bytes) : Z :=
  match l, r with
  | [], [] => 0
  | [], _ :: _ => -1
  | _ :: _, [] => 1
  | a :: l, b :: r => if (a =? b)%Z then bytes_compare l r else if (a <? b)%Z then -1 else 1
  end.

Lemma strncmp_prefix l r :
  0%Z ∉ l ->
  exists c, strncmp l r (min (List.length l) (List.length r)) = Some c /\
            bytes_compare l r = (if negb (c =? 0)%Z then c
                                 else match Nat.compare (List.length l) (List.length r) with Lt => -1 | Eq => 0 | Gt => 1 end)%Z.
Proof.
  revert r. induction l as [|a l IH]; intros [|b r] Hl; [by exists 0%Z..|].
  apply not_elem_of_cons in Hl as [Ha Hl]. destruct (IH r Hl) as (c & Hc & Hb). cbn [List.length Nat.min strncmp bytes_compare Nat.compare].
  destruct (Z.eqb_spec a b) as [->|Hne].
  - rewrite (proj2 (Z.eqb_neq b 0)) by congruence. by exists c.
  - destruct (a <? b)%Z; eauto.
Qed.

(** Views are compared byte by byte when the first has no zero. *)
Theorem view_compare_bytes l r : 0%Z ∉ l -> view_compare l r = Some (bytes_compare l r).
Proof.
  intros Hl. destruct (strncmp_prefix l r Hl) as (c & Hc & ->). unfold view_compare, compare. by rewrite Hc.
Qed.

(** Behind a zero nothing is compared: views that differ there are the same. *)
Theorem view_compare_zero p l r :
  0%Z ∉ p -> List.length l = List.length r -> view_compare (p ++ 0%Z :: l) (p ++ 0%Z :: r) = Some 0%Z.
Proof.
  intros Hp Hlen. unfold view_compare, compare.
  assert (Hs : forall s, strncmp (p ++ 0%Z :: l) (p ++ 0%Z :: r) s = Some 0%Z).
  { induction p as [|a p IH]; intros [|s]; [done|done|done|]. apply not_elem_of_cons in Hp as [Ha Hp]. cbn [app strncmp].
    rewrite Z.eqb_refl, (proj2 (Z.eqb_neq a 0)) by congruence. by apply IH. }
  rewrite Hs. cbn [mbind option_bind]. rewrite !length_app. cbn [List.length]. by rewrite Hlen, Nat.compare_refl.
Qed.

Lemma view_compare_zero_witness : bytes_compare [1; 0; 2]%Z [1; 0; 3]%Z = (-1)%Z /\ view_compare [1; 0; 2]%Z [1; 0; 3]%Z = Some 0%Z.
Proof. split; [done|]. apply (view_compare_zero [1%Z] [2%Z] [3%Z]); [|done]. apply not_elem_of_cons. split; [done|apply not_elem_of_nil]. Defined.

(** [not_eof] is never the end of the file, and characters survive the conversion to [int] and back. *)
Lemma int_type_roundtrip c : (0 <= c < 256)%Z -> to_char_type (to_int_type c) = c /\ not_eof (to_int_type c) = c /\ forall x, not_eof x <> eof.
Proof.
  intros Hc. assert (Hu : u8 c = c) by (apply wrap_small; lia). unfold to_char_type, to_int_type, not_eof, eq_int_type, eof, EOF.
  rewrite !Hu. split_and!; [done|rewrite (proj2 (Z.eqb_neq c _)) by lia; done|]. intros x. destruct (Z.eqb_spec x (-1)); [done|lia].
Qed.
End CharTraits.

(** ** [StringViewStream] *)

Module ViewStream.

Inductive SeekDir := Beg | Cur | End_.

(** The view and the position of the next character. *)
Record Buf := MkBuf { view : bytes; gptr : nat }.

Definition new_stream (v : bytes) : Buf := MkBuf v 0.

Definition move_to (np : Z) (b : Buf) : Z * Buf :=
  if (0 <=? np)%Z && (np <=? Z.of_nat (length (view b)))%Z then (np, MkBuf (view b) (Z.to_nat np)) else ((-1)%Z, b).

Definition seekoff (off : Z) (way : SeekDir) (b : Buf) : Z * Buf :=
  let p := match way with Beg => 0%Z | Cur => Z.of_nat (gptr b) | End_ => Z.of_nat (length (view b)) end in
  move_to (p + off) b.

Definition seekpos (p : Z) (b : Buf) : Z * Buf := move_to p b.

(** Reading by the base class: up to [n] characters from the position on. *)
Definition sgetn (n : nat) (b : Buf) : bytes * Buf :=
  let data := take n (drop (gptr b) (view b)) in (data, MkBuf (view b) (gptr b + length data)).

Inductive StreamOp := SeekOff (off : Z) (way : SeekDir) | SeekPos (p : Z) | Read (n : nat).

Definition stream_op (o : StreamOp) (b : Buf) : Buf :=
  match o with SeekOff off way => (seekoff off way b).2 | SeekPos p => (seekpos p b).2 | Read n => (sgetn n b).2 end.

(** Whatever is read and sought, the position stays in the view, and asking for it and going back there later
    continues the reading at the same place. *)
Theorem stream_position v ops later :
  let b := fold_left (fun b o => stream_op o b) ops (new_stream v) in
  gptr b <= length v /\ (seekoff 0 Cur b).1 = Z.of_nat (gptr b) /\
  (seekpos (seekoff 0 Cur b).1 (fold_left (fun b o => stream_op o b) later b)).2 = b.
Proof.
  assert (Hmv : forall np b, gptr b <= length (view b) -> gptr (move_to np b).2 <= length (view b) /\ view (move_to np b).2 = view b).
  { intros np b Hb. unfold move_to. destruct (andb _ _) eqn:E; [|done]. cbn. split; [lia|done]. }
  assert (Hop : forall o b, gptr b <= length (view b) -> gptr (stream_op o b) <= length (view b) /\ view (stream_op o b) = view b).
  { intros [off way|p|n] b Hb; cbn [stream_op]; [by apply Hmv..|]. cbn. rewrite length_take, length_drop. split; [lia|done]. }
  assert (Hops : forall ops b, gptr b <= length (view b) ->
    let b' := fold_left (fun b o => stream_op o b) ops b in gptr b' <= length (view b) /\ view b' = view b).
  { intros l; induction l as [|o ops' IH]; intros b Hb; [cbn; done|]. cbn [fold_left]. destruct (Hop o b Hb) as [H1 H2].
    rewrite <- H2 in H1 |- *. by apply IH. }
  intros b. destruct (Hops ops (new_stream v)) as [Hb Hv]; [cbn; lia|]. fold b in Hb, Hv. cbn [new_stream view] in *.
  assert (Htell : (seekoff 0 Cur b).1 = Z.of_nat (gptr b)).
  { unfold seekoff, move_to. rewrite Z.add_0_r, Hv, (proj2 (Z.leb_le 0 _)), (proj2 (Z.leb_le _ (Z.of_nat (length v)))) by lia. done. }
  split_and!; [done|done|]. rewrite Htell. destruct (Hops later b) as [Hl Hlv]; [by rewrite Hv|].
  unfold seekpos, move_to. rewrite Hlv, Hv, (proj2 (Z.leb_le 0 _)), (proj2 (Z.leb_le _ (Z.of_nat (length v)))) by lia.
  cbn [andb snd]. rewrite Nat2Z.id, <- Hv. by destruct b.
Qed.
End ViewStream.

(** ** [AutoPod] *)

Module AutoPod.
Section pod.
Context {T : Type} `{EqDecision T}.
(** [T{}], the value of an object that keeps nothing. *)
Variable empty : T.

(** The objects, and what the deleter was called with. *)
Record World := MkWorld { objs : gmap nat T; deleted : list T }.

Definition set_data (id : nat) (d : T) (w : World) : World := MkWorld (<[id := d]> (objs w)) (deleted w).

Definition pod_new (id : nat) (d : T) (w : World) : option World := Some (set_data id d w).
Definition pod_default (id : nat) (w : World) : option World := Some (set_data id empty w).

Definition pod_move_assign (id rhs : nat) (w : World) : option World :=
  a ← objs w !! id;
  b ← objs w !! rhs;
  Some (set_data rhs a (set_data id b w)).

Definition pod_move (id o : nat) (w : World) : option World := w ← pod_default id w; pod_move_assign id o w.

Definition pod_get (id : nat) (w : World) : option T := objs w !! id.

Definition pod_release (id : nat) (w : World) : option (T * World) := d ← objs w !! id; Some (d, set_data id empty w).

Definition pod_reset (id : nat) (w : World) : option World :=
  d ← pod_get id w;
  snd <$> pod_release id (MkWorld (objs w) (d :: deleted w)).

Definition pod_reset_to (id : nat) (d : T) (w : World) : option World := w ← pod_reset id w; Some (set_data id d w).

Definition pod_destroy (id : nat) (w : World) : option World := w ← pod_reset id w; Some (MkWorld (delete id (objs w)) (deleted w)).

Inductive Event :=
| New (id : nat) (d : T) | Default (id : nat) | Move (id o : nat) | MoveAssign (id rhs : nat)
| Release (id : nat) | Reset (id : nat) | ResetTo (id : nat) (d : T) | Destroy (id : nat).

Definition step (ev : Event) (w : World) : option World :=
  match ev with
  | New id d => pod_new id d w
  | Default id => pod_default id w
  | Move id o => pod_move id o w
  | MoveAssign id rhs => pod_move_assign id rhs w
  | Release id => snd <$> pod_release id w
  | Reset id => pod_reset id w
  | ResetTo id d => pod_reset_to id d w
  | Destroy id => pod_destroy id w
  end.

(** Objects are constructed at a place of their own. *)
Definition constructs (ev : Event) : option nat := match ev with New id _ | Default id | Move id _ => Some id | _ => None end.
Definition legal (ev : Event) (w : World) : bool :=
  match constructs ev with Some id => bool_decide (objs w !! id = None) | None => true end.

(** ** Accounting *)

Definition own (d : T) : list T := if decide (d = empty) then [] else [d].
Definition held (m : gmap nat T) : list T := map_to_list m ≫= fun p => own p.2.

(** Values that come in with an event, and that go out to the caller. *)
Definition given (ev : Event) : list T := match ev with New _ d | ResetTo _ d => own d | _ => [] end.
Definition released (ev : Event) (w : World) : list T := match ev with Release id => default [] (own <$> objs w !! id) | _ => [] end.

Fixpoint run (evs : list Event) (w : World) : option (World * list T) :=
  match evs with
  | [] => Some (w, [])
  | ev :: evs => if legal ev w then w' ← step ev w; '(w'', out) ← run evs w'; Some (w'', released ev w ++ out) else None
  end.

Lemma held_insert m i x : m !! i = None -> held (<[i := x]> m) ≡ₚ own x ++ held m.
Proof. intros Hi. unfold held. by rewrite (map_to_list_insert m i x Hi). Qed.

Lemma held_delete m i x : m !! i = Some x -> held m ≡ₚ own x ++ held (delete i m).
Proof. intros Hi. rewrite <- (insert_delete_id m i x Hi) at 1. apply held_insert, lookup_delete_eq. Qed.

Lemma held_update m i x y : m !! i = Some x -> own x ++ held (<[i := y]> m) ≡ₚ own y ++ held m.
Proof.
  intros Hi. rewrite (held_delete (<[i := y]> m) i y), delete_insert_eq, (held_delete m i x Hi) by apply lookup_insert_eq.
  by rewrite Permutation_app_swap_app.
Qed.

Lemma own_empty : own empty = [].
Proof. unfold own. by rewrite decide_True. Qed.

Lemma held_clear m i x : m !! i = Some x -> own x ++ held (<[i := empty]> m) ≡ₚ held m.
Proof. intros Hi. rewrite (held_update m i x empty Hi). by rewrite own_empty. Qed.

Lemma held_swap m i j x y : m !! i = Some x -> m !! j = Some y -> held (<[j := x]> (<[i := y]> m)) ≡ₚ held m.
Proof.
  intros Hi Hj. destruct (decide (i = j)) as [->|Hne].
  { simplify_eq. by rewrite insert_insert_eq, insert_id. }
  apply (Permutation_app_inv_l (own y)). rewrite (held_update (<[i := y]> m) j y x) by by rewrite lookup_insert_ne.
  rewrite (held_update m i x y Hi). done.
Qed.

(** What the deleter got, without the empty values. *)
Definition freed (w : World) : list T := deleted w ≫= own.

Lemma reset_account id w w' : pod_reset id w = Some w' -> held (objs w') ++ freed w' ≡ₚ held (objs w) ++ freed w /\ objs w' !! id = Some empty.
Proof.
  unfold pod_reset, pod_get, pod_release. cbn [objs]. destruct (objs w !! id) as [d|] eqn:Hd; [|done]. intros H. injection H as <-.
  split; [|apply lookup_insert_eq]. unfold freed. cbn [set_data objs deleted mbind list_bind].
  rewrite <- (held_clear (objs w) id d Hd). by rewrite app_assoc, (Permutation_app_comm (held _) (own d)).
Qed.

Lemma step_account ev w w' :
  legal ev w = true -> step ev w = Some w' ->
  held (objs w') ++ freed w' ++ released ev w ≡ₚ given ev ++ held (objs w) ++ freed w.
Proof.
  intros Hl Hs. destruct ev as [id d|id|id o|id rhs|id|id|id d|id]; cbn [step given released legal constructs app] in *;
    try apply bool_decide_eq_true in Hl; rewrite ?app_nil_r.
  - injection Hs as <-. cbn [set_data objs]. rewrite held_insert by done. by rewrite <- app_assoc.
  - injection Hs as <-. cbn [set_data objs]. rewrite held_insert by done. by rewrite own_empty.
  - unfold pod_move, pod_default in Hs. cbn [mbind option_bind] in Hs. unfold pod_move_assign in Hs. cbn [set_data objs] in Hs.
    rewrite lookup_insert_eq in Hs. cbn [mbind option_bind] in Hs. destruct (<[id := empty]> (objs w) !! o) as [b|] eqn:Ho; [|done].
    injection Hs as <-. cbn [set_data objs]. rewrite held_swap by first [done|apply lookup_insert_eq].
    rewrite held_insert by done. by rewrite own_empty.
  - unfold pod_move_assign in Hs. destruct (objs w !! id) as [a|] eqn:Ha; [|done]. destruct (objs w !! rhs) as [b|] eqn:Hb; [|done].
    injection Hs as <-. cbn [set_data objs]. by rewrite held_swap.
  - unfold pod_release in Hs. destruct (objs w !! id) as [d|] eqn:Hd; [|done]. injection Hs as <-. cbn [set_data objs fmap option_fmap default].
    rewrite <- (held_clear (objs w) id d Hd). rewrite (Permutation_app_comm (freed _)), app_assoc, (Permutation_app_comm (held _) (own d)).
    done.
  - by apply reset_account in Hs as [Hs _].
  - unfold pod_reset_to in Hs. destruct (pod_reset id w) as [w1|] eqn:Hr; [|done]. injection Hs as <-.
    apply reset_account in Hr as [Hr He]. cbn [set_data objs]. rewrite <- Hr.
    pose proof (held_update (objs w1) id empty d He) as Hu. rewrite own_empty in Hu. cbn [app] in Hu. rewrite Hu. by rewrite <- app_assoc.
  - unfold pod_destroy in Hs. destruct (pod_reset id w) as [w1|] eqn:Hr; [|done]. injection Hs as <-.
    apply reset_account in Hr as [Hr He]. cbn [objs]. rewrite <- Hr. rewrite (held_delete (objs w1) id empty He). by rewrite own_empty.
Qed.

(** Every value given to the objects is at every time kept by one of them, deleted, or handed back, and only one
    of these, and once: once all objects are destroyed, the deleter was called exactly once for each value that
    was not released. *)
Theorem auto_pod_accounts evs w w' out :
  run evs w = Some (w', out) -> held (objs w') ++ freed w' ++ out ≡ₚ (evs ≫= given) ++ held (objs w) ++ freed w.
Proof.
  revert w out. induction evs as [|ev evs IH]; intros w out Hr; cbn [run] in Hr.
  { injection Hr as -> <-. by rewrite app_nil_r. }
  destruct (legal ev w) eqn:Hl; [|done]. destruct (step ev w) as [w1|] eqn:Hs; [|done]. cbn [mbind option_bind] in Hr.
  destruct (run evs w1) as [[w2 out2]|] eqn:Hr2; [|done]. injection Hr as -> <-.
  apply IH in Hr2. apply step_account in Hs; [|done]. cbn [mbind list_bind].
  rewrite (Permutation_app_comm (released ev w)), !app_assoc, <- (app_assoc (held (objs w'))), Hr2. rewrite <- !app_assoc, Hs.
  by rewrite Permutation_app_swap_app.
Qed.
End pod.
Arguments MkWorld {T} _ _.

Lemma auto_pod_accounts_witness :
  let evs := [New 0 7%Z; New 1 8%Z; Move 2 0; MoveAssign 1 2; ResetTo 2 9%Z; Release 1; Destroy 0; Destroy 1; Destroy 2] in
  exists w', run 0%Z evs (MkWorld ∅ []) = Some (w', [7%Z]) /\
             held 0%Z (objs w') ++ freed 0%Z w' ++ [7%Z] ≡ₚ [7; 8; 9]%Z.
Proof.
  intros evs. eexists. split; [by vm_compute|]. 
  assert (Hr : run 0%Z evs (MkWorld ∅ []) = Some (MkWorld ∅ [9; 0; 0; 8]%Z, [7%Z])) by by vm_compute.
  pose proof (auto_pod_accounts 0%Z evs (MkWorld ∅ []) _ _ Hr) as H. vm_compute in H |- *. exact H.
Defined.
End AutoPod.

(** ** [ScopeExit], [Timer], the number of parameters *)

Module Guards.

(** The destructor calls the function, when there is one. *)
Definition scope_exit {W} (f : option (W -> W)) (w : W) : W := match f with Some f => f w | None => w end.

(** The body of a scope with a guard: it returns, by any of its ways, or throws. *)
Definition with_scope_exit {W A} (f : option (W -> W)) (body : W -> A * W) (w : W) : A * W :=
  let '(a, w) := body w in (a, scope_exit f w).

(** The start of the measure; times in nanoseconds. *)
Record Timer := MkTimer { m_start : Z }.

Definition new_timer (now : Z) : Timer := MkTimer now.
(** In units of [unit] nanoseconds, toward zero. *)
Definition elapsed (unit now : Z) (t : Timer) : Z := Z.quot (now - m_start t) unit.
Definition reset (now : Z) (t : Timer) : Timer := MkTimer now.

(** With a clock that does not go back, the elapsed time is the whole units since the start. *)
Lemma elapsed_bounds unit start now : (0 < unit)%Z -> (start <= now)%Z ->
  (0 <= elapsed unit now (new_timer start) /\ unit * elapsed unit now (new_timer start) <= now - start < unit * (elapsed unit now (new_timer start) + 1))%Z.
Proof.
  intros Hu Hn. unfold elapsed, new_timer. cbn [m_start]. rewrite Z.quot_div_nonneg by lia.
  pose proof (Z.div_pos (now - start) unit). pose proof (Z.mul_div_le (now - start) unit). pose proof (Z.mul_succ_div_gt (now - start) unit). lia.
Qed.

(** Whether a structure can be initialised from a number of values is a property of its type; the loop of the
    compiler ends at the first number that does not work, [fuel] is its limit of nesting. *)
Fixpoint list_init_params_count_impl (initializable : nat -> bool) (fuel : nat) (c : nat) (can : bool) : option Z :=
  match fuel with
  | O => None
  | S fuel => if can then list_init_params_count_impl initializable fuel (c + 1) (initializable (c + 1)) else Some (Z.of_nat c - 1)%Z
  end.

Definition list_init_params_count (initializable : nat -> bool) (fuel : nat) : option Z :=
  list_init_params_count_impl initializable fuel 0 (initializable 0).

(** The count is one less than the first number of values that does not work; fuel above that number is enough. *)
Theorem list_init_count initializable n fuel :
  (forall k, k < n -> initializable k = true) -> initializable n = false -> n < fuel ->
  list_init_params_count initializable fuel = Some (Z.of_nat n - 1)%Z.
Proof.
  intros Hlt Hn Hf. unfold list_init_params_count.
  assert (Hg : forall d c f, c + d = n -> d < f -> list_init_params_count_impl initializable f c (initializable c) = Some (Z.of_nat n - 1)%Z).
  { induction d as [|d IH]; intros c [|f] Hc Hd; try lia; cbn [list_init_params_count_impl].
    - replace c with n by lia. by rewrite Hn.
    - rewrite Hlt by lia. apply IH; lia. }
  apply (Hg n); lia.
Qed.

Lemma list_init_count_witness : list_init_params_count (fun k => k <=? 3) 900 = Some 3%Z.
Proof. apply (list_init_count _ 4); [intros k Hk; apply Nat.leb_le; lia|done|lia]. Defined.
End Guards.
