(* ===== verification/MoveOnlyFunction.v ===== *)
(** * Move-only functions: [common/include/common/move_only_function.h]

    The implementation used before C++23: a callable lives in the buffer of the wrapper when it fits and on
    the heap otherwise.  The state is that of a program: its wrappers, by a number, and the heap of
    callables.  A failure ([None]) is the use of an object that does not exist, or of memory that was freed.
    A callable is a value; a call may change it, and a move leaves something behind that is only destroyed. *)

From S2P Require Import StringView.

Section MoveOnlyFunction.
Context {F A R : Type} (fits : F -> bool) (func_call : F -> A -> R * F) (moved : F -> F).

(** [m_ptr]: null, the object in the own buffer, or one on the heap. *)
Inductive SboStorage := SNull | SBuf (func : F) | SHeap (p : nat).

Record World := MkWorld { boxes : gmap nat SboStorage; heap : gmap nat F }.

Definition set_box (id : nat) (b : SboStorage) (w : World) : World := MkWorld (<[id := b]> (boxes w)) (heap w).

Definition is_sbo (b : SboStorage) : bool := match b with SBuf _ => true | _ => false end.

(** [m_ptr != nullptr], the [bool] of the wrapper. *)
Definition has_value (b : SboStorage) : bool := match b with SNull => false | _ => true end.

Definition sbo_make (id : nat) (f : F) (w : World) : World :=
  if fits f then set_box id (SBuf f) w
  else
    let p := fresh (dom (heap w)) in
    MkWorld (<[id := SHeap p]> (boxes w)) (<[p := f]> (heap w)).

Definition sbo_reset (id : nat) (w : World) : option World :=
  b ← boxes w !! id;
  match b with
  | SNull => Some w
  | SBuf f => Some (MkWorld (<[id := SNull]> (boxes w)) (heap w))
  | SHeap p =>
      f ← heap w !! p;
      Some (MkWorld (<[id := SNull]> (boxes w)) (delete p (heap w)))
  end.

(** The part the move constructor and the move assignment share; the target holds nothing.  [move_into]
    makes a callable in the buffer of the target from the one of the source, which is then destroyed. *)
Definition take_over (id other : nat) (w : World) : option World :=
  b ← boxes w !! other;
  match b with
  | SBuf f => sbo_reset other (set_box id (SBuf f) (set_box other (SBuf (moved f)) w))
  | _ => Some (set_box other SNull (set_box id b w))
  end.

Definition sbo_move (id other : nat) (w : World) : option World := take_over id other (set_box id SNull w).

Definition sbo_move_assign (id other : nat) (w : World) : option World :=
  if negb (id =? other) then w ← sbo_reset id w; take_over id other w else Some w.

Definition sbo_destroy (id : nat) (w : World) : option World :=
  w ← sbo_reset id w; Some (MkWorld (delete id (boxes w)) (heap w)).

(** [std::bad_function_call]. *)
Inductive bad_function_call := BadFunctionCall.

Definition mof_call (id : nat) (a : A) (w : World) : option (outcome bad_function_call R * World) :=
  b ← boxes w !! id;
  match b with
  | SNull => Some (Throws BadFunctionCall, w)
  | SBuf f => let '(r, f') := func_call f a in Some (Returns r, set_box id (SBuf f') w)
  | SHeap p =>
      f ← heap w !! p;
      let '(r, f') := func_call f a in Some (Returns r, MkWorld (boxes w) (<[p := f']> (heap w)))
  end.

(** ** Histories *)

Inductive Event :=
| Empty (id : nat) | Make (id : nat) (f : F) | Move (id other : nat) | MoveAssign (id other : nat)
| Call (id : nat) (a : A) | Destroy (id : nat).

Definition step (ev : Event) (w : World) : option (option (outcome bad_function_call R) * World) :=
  match ev with
  | Empty id => Some (None, set_box id SNull w)
  | Make id f => Some (None, sbo_make id f w)
  | Move id other => w ← sbo_move id other w; Some (None, w)
  | MoveAssign id other => w ← sbo_move_assign id other w; Some (None, w)
  | Call id a => '(r, w) ← mof_call id a w; Some (Some r, w)
  | Destroy id => w ← sbo_destroy id w; Some (None, w)
  end.

(** The abstract wrapper holds a callable or nothing. *)
Abbreviation Spec := (gmap nat (option F)).

Definition spec_step (ev : Event) (m : Spec) : option (option (outcome bad_function_call R) * Spec) :=
  match ev with
  | Empty id => Some (None, <[id := None]> m)
  | Make id f => Some (None, <[id := Some f]> m)
  | Move id other => o ← m !! other; Some (None, <[id := o]> (<[other := None]> m))
  | MoveAssign id other => _ ← m !! id; o ← m !! other; Some (None, if id =? other then m else <[id := o]> (<[other := None]> m))
  | Call id a =>
      o ← m !! id;
      match o with
      | None => Some (Some (Throws BadFunctionCall), m)
      | Some f => let '(r, f') := func_call f a in Some (Some (Returns r), <[id := Some f']> m)
      end
  | Destroy id => _ ← m !! id; Some (None, delete id m)
  end.

(** New wrappers are new, others exist. *)
Definition legal (ev : Event) (m : Spec) : Prop :=
  match ev with
  | Empty id | Make id _ => m !! id = None
  | Move id other => m !! id = None /\ is_Some (m !! other)
  | MoveAssign id other => is_Some (m !! id) /\ is_Some (m !! other)
  | Call id _ | Destroy id => is_Some (m !! id)
  end.

(** What a wrapper holds, and the representation: every heap object belongs to exactly one wrapper. *)
Definition content (h : gmap nat F) (b : SboStorage) (o : option F) : Prop :=
  match b with SNull => o = None | SBuf f => o = Some f | SHeap p => exists f, h !! p = Some f /\ o = Some f end.

Record represents (w : World) (m : Spec) : Prop := {
  rep_boxes id : match boxes w !! id, m !! id with
    | Some b, Some o => content (heap w) b o
    | None, None => True
    | _, _ => False
    end;
  rep_unique id id' p : boxes w !! id = Some (SHeap p) -> boxes w !! id' = Some (SHeap p) -> id = id';
  rep_no_leak p : is_Some (heap w !! p) -> exists id, boxes w !! id = Some (SHeap p)
}.

(** ** Facts *)

Lemma rep_lookup w m id o : represents w m -> m !! id = Some o -> exists b, boxes w !! id = Some b /\ content (heap w) b o.
Proof. intros [Hb _ _] Hm. specialize (Hb id). rewrite Hm in Hb. destruct (boxes w !! id); [eauto|done]. Qed.

Lemma rep_lookup_None w m id : represents w m -> m !! id = None -> boxes w !! id = None.
Proof. intros [Hb _ _] Hm. specialize (Hb id). rewrite Hm in Hb. by destruct (boxes w !! id). Qed.

(** A wrapper that held nothing on the heap gets a content that is not on the heap. *)
Lemma set_box_rep w m id b o :
  represents w m -> (forall p, boxes w !! id <> Some (SHeap p)) -> (forall p, b <> SHeap p) -> content (heap w) b o ->
  represents (set_box id b w) (<[id := o]> m).
Proof.
  intros [Hb Hu Hn] Hold Hnew Hc. split; cbn [set_box boxes heap].
  - intros j. destruct (decide (j = id)) as [->|Hne]; [by rewrite !lookup_insert_eq|]. rewrite !lookup_insert_ne by done. apply Hb.
  - intros j j' p [[_ E]|[_ Hj]]%lookup_insert_Some [[_ E']|[_ Hj']]%lookup_insert_Some; try (by apply Hnew in E); try (by apply Hnew in E'). eauto.
  - intros p Hp. destruct (Hn p Hp) as [j Hj]. exists j. destruct (decide (j = id)) as [->|]; [by apply Hold in Hj|].
    by rewrite lookup_insert_ne.
Qed.

(** The callable of the wrapper is destroyed, and its memory is freed. *)
Lemma reset_rep w m id o :
  represents w m -> m !! id = Some o ->
  exists w', sbo_reset id w = Some w' /\ represents w' (<[id := None]> m) /\ boxes w' !! id = Some SNull.
Proof.
  intros Hrep Hm. destruct (rep_lookup _ _ _ _ Hrep Hm) as (b & Hb & Hc). unfold sbo_reset. rewrite Hb. cbn [mbind option_bind].
  destruct b as [|f|p]; cbn [content] in Hc.
  - subst o. exists w. rewrite insert_id by done. done.
  - subst o. eexists. split; [reflexivity|]. split; [|by cbn; rewrite lookup_insert_eq].
    apply (set_box_rep w m id SNull None); [done|naive_solver congruence..].
  - destruct Hc as (f & Hf & ->). rewrite Hf. cbn [mbind option_bind]. eexists. split; [reflexivity|].
    split; [|by cbn; rewrite lookup_insert_eq]. destruct Hrep as [Hbx Hu Hn]. split; cbn [boxes heap].
    + intros j. destruct (decide (j = id)) as [->|Hne]; [by rewrite !lookup_insert_eq|]. rewrite !lookup_insert_ne by done.
      specialize (Hbx j). destruct (boxes w !! j) as [[|g|q]|] eqn:Ej, (m !! j); try done. cbn [content] in *.
      rewrite lookup_delete_ne; [done|]. intros <-. by destruct Hne; eapply Hu.
    + intros j j' q [[_ E]|[_ Hj]]%lookup_insert_Some [[_ E']|[_ Hj']]%lookup_insert_Some; try done. eauto.
    + intros q [g [Hq Hg]%lookup_delete_Some]. destruct (Hn q) as [j Hj]; [eauto|]. exists j.
      rewrite lookup_insert_ne; [done|]. intros ->. congruence.
Qed.

(** Something on the heap is handed over. *)
Lemma hand_over_rep w m id other p o :
  represents w m -> id <> other -> boxes w !! id = Some SNull -> boxes w !! other = Some (SHeap p) -> m !! other = Some o ->
  represents (set_box other SNull (set_box id (SHeap p) w)) (<[id := o]> (<[other := None]> m)).
Proof.
  intros Hrep Hne Hid Ho Hm. destruct (rep_lookup _ _ _ _ Hrep Hm) as (b & Hb & Hc). rewrite Ho in Hb. simplify_eq.
  destruct Hrep as [Hbx Hu Hn]. split; cbn [set_box boxes heap].
  - intros j. rewrite (insert_insert_ne m) by done. destruct (decide (j = other)) as [->|Hjo]; [by rewrite !lookup_insert_eq|].
    rewrite !(lookup_insert_ne _ other) by done.
    destruct (decide (j = id)) as [->|Hji]; [by rewrite !lookup_insert_eq|]. rewrite !lookup_insert_ne by done. apply Hbx.
  - intros j j' q. rewrite !lookup_insert_Some. naive_solver.
  - intros q Hq. destruct (Hn q Hq) as [j Hj]. destruct (decide (j = other)) as [->|Hjo].
    + exists id. rewrite lookup_insert_ne, lookup_insert_eq by done. congruence.
    + exists j. rewrite lookup_insert_ne by done. rewrite lookup_insert_ne; [done|]. congruence.
Qed.

Lemma take_over_rep w m id other o :
  represents w m -> id <> other -> boxes w !! id = Some SNull -> m !! other = Some o ->
  exists w', take_over id other w = Some w' /\ represents w' (<[id := o]> (<[other := None]> m)).
Proof.
  intros Hrep Hne Hid Hm. destruct (rep_lookup _ _ _ _ Hrep Hm) as (b & Hb & Hc). unfold take_over. rewrite Hb. cbn [mbind option_bind].
  destruct b as [|f|p].
  - eexists. split; [reflexivity|]. cbn in Hc. subst o. rewrite (insert_insert_ne m) by done.
    apply set_box_rep; [apply set_box_rep| | |]; cbn [set_box boxes]; rewrite ?lookup_insert_ne by done; naive_solver congruence.
  - cbn in Hc. subst o. set (w1 := set_box id (SBuf f) (set_box other (SBuf (moved f)) w)).
    assert (represents w1 (<[id := Some f]> (<[other := Some (moved f)]> m))) as Hrep1.
    { apply set_box_rep; [apply set_box_rep| | |]; cbn [set_box boxes]; rewrite ?lookup_insert_ne by done; naive_solver congruence. }
    destruct (reset_rep w1 _ other (Some (moved f)) Hrep1) as (w2 & -> & Hrep2 & _).
    { by rewrite lookup_insert_ne, lookup_insert_eq. }
    exists w2. split; [done|]. by rewrite (insert_insert_ne _ other), insert_insert_eq in Hrep2 by done.
  - eexists. split; [reflexivity|]. by apply hand_over_rep.
Qed.

Lemma make_rep w m id f : represents w m -> m !! id = None -> represents (sbo_make id f w) (<[id := Some f]> m).
Proof.
  intros Hrep Hm. pose proof (rep_lookup_None _ _ _ Hrep Hm) as Hid. unfold sbo_make. destruct (fits f).
  - apply set_box_rep; naive_solver congruence.
  - set (p := fresh (dom (heap w))). assert (heap w !! p = None) as Hp by apply not_elem_of_dom, is_fresh.
    destruct Hrep as [Hbx Hu Hn]. split; cbn [boxes heap].
    + intros j. destruct (decide (j = id)) as [->|Hne]; [rewrite !lookup_insert_eq; cbn; exists f; by rewrite lookup_insert_eq|].
      rewrite !(lookup_insert_ne _ id) by done. specialize (Hbx j). destruct (boxes w !! j) as [[|g|q]|], (m !! j); try done.
      cbn [content] in *. destruct Hbx as (g & Hg & ->). exists g. rewrite lookup_insert_ne by congruence. done.
    + assert (forall j, boxes w !! j <> Some (SHeap p)) as Hnp.
      { intros j Hj. specialize (Hbx j). rewrite Hj in Hbx. destruct (m !! j); [|done]. cbn in Hbx. naive_solver congruence. }
      intros j j' q. rewrite !lookup_insert_Some. naive_solver.
    + intros q Hq. destruct (decide (q = p)) as [->|Hqp]; [exists id; by rewrite lookup_insert_eq|].
      rewrite lookup_insert_ne in Hq by done. destruct (Hn q Hq) as [j Hj]. exists j. rewrite lookup_insert_ne; [done|]. congruence.
Qed.

Lemma call_rep w m id a o :
  represents w m -> m !! id = Some o ->
  exists r w' m', mof_call id a w = Some (r, w') /\ spec_step (Call id a) m = Some (Some r, m') /\ represents w' m'.
Proof.
  intros Hrep Hm. destruct (rep_lookup _ _ _ _ Hrep Hm) as (b & Hb & Hc). unfold mof_call. cbn [spec_step]. rewrite Hb, Hm. cbn [mbind option_bind].
  destruct b as [|f|p]; cbn [content] in Hc.
  - subst o. eauto 10.
  - subst o. destruct (func_call f a) as [r f']. do 3 eexists. split; [reflexivity|]. split; [reflexivity|].
    apply set_box_rep; naive_solver congruence.
  - destruct Hc as (f & Hf & ->). rewrite Hf. cbn [mbind option_bind]. destruct (func_call f a) as [r f']. do 3 eexists.
    split; [reflexivity|]. split; [reflexivity|]. destruct Hrep as [Hbx Hu Hn]. split; cbn [boxes heap].
    + intros j. destruct (decide (j = id)) as [->|Hne].
      * rewrite Hb, lookup_insert_eq. cbn. exists f'. by rewrite lookup_insert_eq.
      * rewrite (lookup_insert_ne _ id) by done. specialize (Hbx j). destruct (boxes w !! j) as [[|g|q]|] eqn:Ej, (m !! j); try done.
        cbn [content] in *. destruct Hbx as (g & Hg & ->). exists g. rewrite lookup_insert_ne; [done|]. intros <-. by destruct Hne; eapply Hu.
    + done.
    + intros q [g Hq]. apply Hn. destruct (decide (q = p)) as [->|]; [eauto|]. rewrite lookup_insert_ne in Hq by done. eauto.
Qed.

(** The wrapper with its small buffer refines a variable that holds a callable or nothing: when a
    wrapper is made, moved (also to itself), called or destroyed, no freed memory is used, the call answers what
    the callable answers, or throws when there is none, a wrapper that was moved from is empty, and afterwards
    the heap again holds just the callables of the wrappers that are there, each of one wrapper. *)
Theorem move_only_function_refines ev w m :
  represents w m -> legal ev m ->
  exists r w' m', step ev w = Some (r, w') /\ spec_step ev m = Some (r, m') /\ represents w' m'.
Proof.
  intros Hrep Hl. destruct ev as [id|id f|id other|id other|id a|id]; cbn [legal] in Hl.
  - pose proof (rep_lookup_None _ _ _ Hrep Hl). do 3 eexists. split; [reflexivity|]. split; [reflexivity|].
    apply set_box_rep; naive_solver congruence.
  - do 3 eexists. split; [reflexivity|]. split; [reflexivity|]. by apply make_rep.
  - destruct Hl as [Hid [o Ho]]. pose proof (rep_lookup_None _ _ _ Hrep Hid) as Hb. assert (id <> other) as Hne by congruence.
    destruct (take_over_rep (set_box id SNull w) (<[id := None]> m) id other o) as (w' & E & Hrep').
    { apply set_box_rep; naive_solver congruence. }
    { done. } { cbn. by rewrite lookup_insert_eq. } { by rewrite lookup_insert_ne. }
    cbn [step spec_step]. unfold sbo_move. rewrite E, Ho. cbn [mbind option_bind]. do 3 eexists. split; [reflexivity|].
    split; [reflexivity|]. by rewrite (insert_insert_ne m), insert_insert_eq in Hrep' by done.
  - destruct Hl as [[o' Hid] [o Ho]]. cbn [step spec_step]. rewrite Hid, Ho. unfold sbo_move_assign.
    destruct (Nat.eqb_spec id other) as [->|Hne]; cbn [negb mbind option_bind]; [eauto 10|].
    destruct (reset_rep w m id o' Hrep Hid) as (w1 & -> & Hrep1 & Hb1). cbn [mbind option_bind].
    destruct (take_over_rep w1 (<[id := None]> m) id other o Hrep1 Hne Hb1) as (w' & -> & Hrep'); [by rewrite lookup_insert_ne|].
    do 3 eexists. split; [reflexivity|]. split; [reflexivity|]. by rewrite (insert_insert_ne m), insert_insert_eq in Hrep' by done.
  - destruct Hl as [o Ho]. destruct (call_rep w m id a o Hrep Ho) as (r & w' & m' & E & Es & Hrep'). cbn [step]. rewrite E. eauto 10.
  - destruct Hl as [o Ho]. cbn [step spec_step]. rewrite Ho. unfold sbo_destroy.
    destruct (reset_rep w m id o Hrep Ho) as (w1 & -> & [Hbx Hu Hn] & Hb1). cbn [mbind option_bind]. do 3 eexists.
    split; [reflexivity|]. split; [reflexivity|]. split; cbn [boxes heap].
    + intros j. destruct (decide (j = id)) as [->|Hne]; [by rewrite !lookup_delete_eq|]. rewrite !lookup_delete_ne by done.
      specialize (Hbx j). by rewrite lookup_insert_ne in Hbx by done.
    + intros j j' q. rewrite !lookup_delete_Some. naive_solver.
    + intros q Hq. destruct (Hn q Hq) as [j Hj]. exists j. rewrite lookup_delete_ne; [done|]. congruence.
Qed.
End MoveOnlyFunction.
