(* ===== verification/SystemError.v ===== *)
(** * System errors: [common/error.cpp], [common/system_error.cpp]

    The Windows branches; elsewhere they hand the code to the C library.  What the system knows of a code
    and the conversion of wide strings are arguments. *)

From S2P Require Import StringView Utils Cidr.

(** ** Socket errors *)

Inductive errc :=
| bad_file_descriptor | not_enough_memory | invalid_argument | interrupted | permission_denied | bad_address
| too_many_files_open | operation_would_block | operation_in_progress | connection_already_in_progress
| not_a_socket | destination_address_required | message_size | wrong_protocol_type | no_protocol_option
| protocol_not_supported | not_supported | operation_not_supported | address_family_not_supported | address_in_use
| address_not_available | network_down | network_unreachable | network_reset | connection_aborted
| connection_reset | no_buffer_space | already_connected | not_connected | bad_message | timed_out
| connection_refused | too_many_symbolic_link_levels | filename_too_long | directory_not_empty | host_unreachable
| too_many_files_open_in_system | broken_pipe | state_not_recoverable | inappropriate_io_control_operation.

Definition socket_errors : list (Z * errc) :=
  [
   (6, bad_file_descriptor) (* WSA_INVALID_HANDLE *);
   (8, not_enough_memory) (* WSA_NOT_ENOUGH_MEMORY *);
   (87, invalid_argument) (* WSA_INVALID_PARAMETER *);
   (10004, interrupted) (* WSAEINTR *);
   (10009, bad_file_descriptor) (* WSAEBADF *);
   (10013, permission_denied) (* WSAEACCES *);
   (10014, bad_address) (* WSAEFAULT *);
   (10022, invalid_argument) (* WSAEINVAL *);
   (10024, too_many_files_open) (* WSAEMFILE *);
   (10035, operation_would_block) (* WSAEWOULDBLOCK *);
   (10036, operation_in_progress) (* WSAEINPROGRESS *);
   (10037, connection_already_in_progress) (* WSAEALREADY *);
   (10038, not_a_socket) (* WSAENOTSOCK *);
   (10039, destination_address_required) (* WSAEDESTADDRREQ *);
   (10040, message_size) (* WSAEMSGSIZE *);
   (10041, wrong_protocol_type) (* WSAEPROTOTYPE *);
   (10042, no_protocol_option) (* WSAENOPROTOOPT *);
   (10043, protocol_not_supported) (* WSAEPROTONOSUPPORT *);
   (10044, not_supported) (* WSAESOCKTNOSUPPORT *);
   (10045, operation_not_supported) (* WSAEOPNOTSUPP *);
   (10046, address_family_not_supported) (* WSAEPFNOSUPPORT *);
   (10047, address_family_not_supported) (* WSAEAFNOSUPPORT *);
   (10048, address_in_use) (* WSAEADDRINUSE *);
   (10049, address_not_available) (* WSAEADDRNOTAVAIL *);
   (10050, network_down) (* WSAENETDOWN *);
   (10051, network_unreachable) (* WSAENETUNREACH *);
   (10052, network_reset) (* WSAENETRESET *);
   (10053, connection_aborted) (* WSAECONNABORTED *);
   (10054, connection_reset) (* WSAECONNRESET *);
   (10055, no_buffer_space) (* WSAENOBUFS *);
   (10056, already_connected) (* WSAEISCONN *);
   (10057, not_connected) (* WSAENOTCONN *);
   (10059, bad_message) (* WSAETOOMANYREFS *);
   (10060, timed_out) (* WSAETIMEDOUT *);
   (10061, connection_refused) (* WSAECONNREFUSED *);
   (10062, too_many_symbolic_link_levels) (* WSAELOOP *);
   (10063, filename_too_long) (* WSAENAMETOOLONG *);
   (10066, directory_not_empty) (* WSAENOTEMPTY *);
   (10064, host_unreachable) (* WSAEHOSTDOWN *);
   (10065, host_unreachable) (* WSAEHOSTUNREACH *);
   (10067, too_many_files_open_in_system) (* WSAEPROCLIM *);
   (10068, too_many_files_open_in_system) (* WSAEUSERS *);
   (10069, too_many_files_open_in_system) (* WSAEDQUOT *);
   (10070, bad_file_descriptor) (* WSAESTALE *);
   (10071, bad_address) (* WSAEREMOTE *);
   (10058, broken_pipe) (* WSAESHUTDOWN *);
   (10101, broken_pipe) (* WSAEDISCON *);
   (10091, state_not_recoverable) (* WSASYSNOTREADY *);
   (10092, not_supported) (* WSAVERNOTSUPPORTED *);
   (10093, inappropriate_io_control_operation) (* WSANOTINITIALISED *)
  ]%Z.

(** The [switch] has no default: for another code the result was never assigned ([None]). *)
Fixpoint switch (cases : list (Z * errc)) (err : Z) : option errc :=
  match cases with
  | [] => None
  | (label, e) :: cases' => if (err =? label)%Z then Some e else switch cases' err
  end.

Definition errc_from_socket_error (err : Z) : option errc := switch socket_errors err.

(** ** Messages *)

Section Messages.
(** [FormatMessageW] into a buffer of so many characters, nothing when it fails; [from_wstring]. *)
Context (FormatMessageW : Z -> nat -> list Z) (from_wstring : list Z -> bytes).

(** The number of characters and the buffer; an end of a full stop and a space is cut off. *)
Definition get_wide_error_message (code : Z) (dst_cap : nat) : nat * list Z :=
  let dst := FormatMessageW code dst_cap in
  let n := length dst in
  if n =? 0 then (0, dst)
  else if (2 <? n) && (dst !!! (n - 2)%nat =? chr ".")%Z && (dst !!! (n - 1)%nat =? chr " ")%Z then (n - 2, dst) else (n, dst).

Definition WIDE_SIZE : nat := 255.
Definition BUFFER_SIZE : nat := 255.

Definition get_error_message (code : Z) : bytes :=
  let '(n, w) := get_wide_error_message code WIDE_SIZE in from_wstring (take n w).

(** The written part of the buffer. *)
Definition strerror (code : Z) : bytes :=
  let s := get_error_message (code mod 2 ^ 32) in
  let len := Nat.min (length s) (BUFFER_SIZE - 1) in
  take len s ++ [0%Z].

Lemma c_str_end l : Forall (fun c => c <> 0%Z) l -> c_str (l ++ [0%Z]) = l.
Proof.
  unfold c_str. induction 1 as [|c l Hc _ IH]; [done|]. cbn [app take_while].
  destruct (Z.eqb_spec c 0); [done|]. cbn [negb]. by rewrite IH.
Qed.

(** The text that a caller reads is the start of the message, and the buffer is not exceeded. *)
Lemma strerror_text code :
  let s := get_error_message (code mod 2 ^ 32) in
  Forall (fun c => c <> 0%Z) s ->
  c_str (strerror code) = take (BUFFER_SIZE - 1) s /\ length (strerror code) <= BUFFER_SIZE.
Proof.
  intros s Hs. unfold strerror. fold s. set (len := Nat.min (length s) (BUFFER_SIZE - 1)).
  assert (take len s = take (BUFFER_SIZE - 1) s) as Ht.
  { unfold len. destruct (Nat.le_gt_cases (length s) (BUFFER_SIZE - 1)); [|f_equal; lia]. rewrite !take_ge by lia. done. }
  rewrite Ht. split.
  - by apply c_str_end, Forall_take.
  - rewrite length_app, length_take. unfold BUFFER_SIZE. cbn [length]. lia.
Qed.

(** A code the system has no message for. *)
Lemma strerror_unknown code : FormatMessageW (code mod 2 ^ 32) WIDE_SIZE = [] -> from_wstring [] = [] -> c_str (strerror code) = [].
Proof.
  intros Hf Hw. unfold strerror, get_error_message, get_wide_error_message. rewrite Hf. cbn [length Nat.eqb take]. by rewrite Hw.
Qed.
End Messages.

(** Every label is there once, and every code of the range of socket errors that the system documents without
    gaps has a result. *)
Lemma socket_errors_labels : NoDup (map fst socket_errors).
Proof. apply (bool_decide_eq_true_1 (NoDup (map fst socket_errors))). by vm_compute. Qed.

Lemma switch_spec cases err e : NoDup (map fst cases) -> switch cases err = Some e <-> (err, e) ∈ cases.
Proof.
  induction cases as [|[l x] cases IH]; cbn [map switch]; [set_solver|]. intros [Hl Hnd]%NoDup_cons. rewrite elem_of_cons.
  destruct (Z.eqb_spec err l) as [->|Hne]; [|rewrite IH by done; naive_solver]. split; [naive_solver|].
  intros [[= ->]|Hin]; [done|]. destruct Hl. apply list_elem_of_fmap. by exists (l, e).
Qed.

Lemma socket_error_known err : (10035 <= err <= 10071)%Z -> is_Some (errc_from_socket_error err).
Proof.
  intros H. assert (forallb (fun i => match errc_from_socket_error (10035 + Z.of_nat i) with Some _ => true | None => false end) (seq 0 37) = true) as Ha
    by (by vm_compute). rewrite forallb_forall in Ha. specialize (Ha (Z.to_nat (err - 10035))).
  rewrite in_seq, Z2Nat.id in Ha by lia. replace (10035 + (err - 10035))%Z with err in Ha by lia.
  destruct (errc_from_socket_error err); [by eexists|]. discriminate Ha. lia.
Qed.

(** A resolver's "host not found" and a cancelled operation have none. *)
Lemma socket_error_unassigned : errc_from_socket_error 11001 = None /\ errc_from_socket_error 995 = None.
Proof. done. Qed.
