(* ===== verification/Logger.v ===== *)
(** * The logger: [common/logger.cpp], [logger.h]

    The formatter and the clock are arguments, a callback is what it does to a state of its own, and the
    atomic accesses to the global level and callback are single steps. *)

From S2P Require Import StringView Utils.

(** [enum LogLevel], any number of its underlying type. *)
Definition LOG_LEVEL_INFO : Z := 2.

Record Logger := MkLogger { m_name : bytes; m_log_level_override : option Z }.

(** The global level and callback; a callback is what it does to a state of its own. *)
Section Logger.
Context {S : Type} (log_to_stderr : Z -> bytes -> S -> S).

Record Global := MkGlobal { g_log_level : Z; g_log_callback : Z -> bytes -> S -> S }.

Definition global_init : Global := MkGlobal LOG_LEVEL_INFO log_to_stderr.
Definition set_log_level (level : Z) (g : Global) : Global := MkGlobal level (g_log_callback g).
Definition set_callback (callback : option (Z -> bytes -> S -> S)) (g : Global) : Global :=
  match callback with
  | Some c => MkGlobal (g_log_level g) c
  | None => MkGlobal (g_log_level g) log_to_stderr
  end.
Definition get_log_level (g : Global) : Z := g_log_level g.

Definition is_enabled (l : Logger) (level : Z) (g : Global) : bool :=
  match m_log_level_override l with Some o => (level <=? o)%Z | None => (level <=? g_log_level g)%Z end.

Definition log_impl (level : Z) (message : bytes) (g : Global) (s : S) : S := g_log_callback g level message s.

(** [format] is what the formatter makes of the format and its arguments. *)
Definition vlog (l : Logger) (level : Z) (format : unit -> bytes) (g : Global) (s : S) : S :=
  if is_enabled l level g then log_impl level (m_name l ++ str " " ++ format tt) g s else s.
End Logger.
Arguments Global S : clear implicits.

Definition ENUM_NAMES : list bytes := [str "ERROR"; str "WARN"; str "INFO"; str "DEBUG"; str "TRACE"].

(** [{:5}] of a string. *)
Definition pad_right (w : nat) (s : bytes) : bytes := s ++ replicate (w - length s) 32%Z.

(** The line for a time [date] with [us] microseconds, written by the thread [tid]. *)
Definition log_line (date : bytes) (us tid level : Z) (message : bytes) : bytes :=
  let level_str := if ((0 <=? level) && (level <? Z.of_nat (length ENUM_NAMES)))%Z then ENUM_NAMES !!! Z.to_nat level else str "UNKNOWN" in
  date ++ str "." ++ pad_zero 6 (fmt_dec us) ++ str " " ++ pad_right 5 level_str ++ str " [" ++ fmt_dec tid ++ str "] " ++ message ++ [10%Z].

(** Messages reach the callback in order: those, and only those, whose level the logger's override, or else the
    global level, lets through. *)
Lemma messages_delivered l g (msgs : list (Z * bytes)) (s : list (Z * bytes)) :
  g_log_callback g = (fun level m acc => acc ++ [(level, m)]) ->
  fold_left (fun acc m => vlog l m.1 (fun _ => m.2) g acc) msgs s =
  s ++ map (fun m => (m.1, m_name l ++ str " " ++ m.2))
    (List.filter (fun m => (m.1 <=? default (g_log_level g) (m_log_level_override l))%Z) msgs).
Proof.
  intros Hc. revert s. induction msgs as [|m msgs IH]; intros s; cbn [fold_left List.filter map]; [by rewrite app_nil_r|].
  rewrite IH. unfold vlog, is_enabled, log_impl. rewrite Hc.
  destruct (m_log_level_override l); cbn [default]; destruct (_ <=? _)%Z; cbn [map]; by rewrite <- ?app_assoc.
Qed.
