(* ===== verification/FormatCheck.v ===== *)
(** * Checking of format strings: [common/format.h]

    A format string is checked when the program is compiled: the parser of [fmt] calls the checker for every
    replacement field, and the checker counts the arguments the fields take.  The parser, the parse context and the
    traits of argument types are code of [fmt]: a string is here the sequence of the calls the parser makes, the
    context and the traits classes of operations with the laws its documentation gives.  An error of the checker
    stops the compilation. *)

From stdpp Require Import strings.
From S2P Require Import Prelude.

(** What a replacement field says about its argument: nothing, a number, a name. *)
Inductive ArgRef := Auto | Index (id : nat) | Named (name : string).

(** The calls of the parser, with the specification behind the colon of a field. *)
Inductive FmtEvent (S : Type) := OnText | OnField (r : ArgRef) | OnFieldSpecs (r : ArgRef) (s : S) | OnMalformed.
Arguments OnText {S}.
Arguments OnField {S} _.
Arguments OnFieldSpecs {S} _ _.
Arguments OnMalformed {S}.

Definition bind_sum {E A B} (x : E + A) (f : A -> E + B) : E + B := match x with inl e => inl e | inr a => f a end.
Notation "'let?' x := e 'in' f" := (bind_sum e (fun x => f)) (at level 10, x pattern, e at level 100, f at level 200).

(** The traits of the types of arguments, and the type of the argument the macro adds. *)
Class FormatArgs (ARG : Type) := {
  lvalue_view : ARG -> bool;
  is_named_arg : ARG -> bool;
  is_static_named_arg : ARG -> bool;
  is_integral : ARG -> bool;
  int_arg : ARG }.

Class FormatArgsLaws (ARG : Type) {FA : FormatArgs ARG} := {
  static_named a : is_static_named_arg a -> is_named_arg a;
  int_plain : lvalue_view int_arg = false /\ is_named_arg int_arg = false }.

(** The parse context of [fmt].  [base_check_dynamic_spec] is its check of an argument that gives a width or a
    precision. *)
Class CompileParseContext (ARG C : Type) := {
  new_context : list ARG -> C;
  base_next_arg_id : C -> string + (nat * C);
  base_check_arg_id : nat -> C -> string + C;
  base_check_dynamic_spec : nat -> C -> string + unit;
  context_args : C -> list ARG }.

Definition num_args {ARG C : Type} {CPC : CompileParseContext ARG C} (c : C) : nat := length (context_args c).

Definition fails {A} (r : string + A) : Prop := exists e, r = inl e.

(** Its behaviour: arguments are numbered from zero until there are no more, and a string numbers either all of
    its fields or none. *)
Class CompileParseLaws (ARG C : Type) {FA : FormatArgs ARG} {CPC : CompileParseContext ARG C} := {
  automatic : nat -> C -> Prop;
  manual : C -> Prop;
  new_automatic args : automatic 0 (new_context args) /\ context_args (new_context args) = args;
  next_ok i c : automatic i c -> i < num_args c ->
    exists c', base_next_arg_id c = inr (i, c') /\ automatic (S i) c' /\ context_args c' = context_args c;
  next_missing i c : automatic i c -> num_args c <= i -> fails (base_next_arg_id c);
  next_manual c : manual c -> fails (base_next_arg_id c);
  check_ok id c : automatic 0 c \/ manual c -> id < num_args c ->
    exists c', base_check_arg_id id c = inr c' /\ manual c' /\ context_args c' = context_args c;
  check_missing id c : num_args c <= id -> fails (base_check_arg_id id c);
  check_automatic i id c : automatic (S i) c -> fails (base_check_arg_id id c);
  dynamic_ok id a c : context_args c !! id = Some a -> is_integral a -> base_check_dynamic_spec id c = inr tt;
  dynamic_other id a c : context_args c !! id = Some a -> is_integral a = false -> fails (base_check_dynamic_spec id c) }.

Section checker.
Context {ARG C : Type} {FA : FormatArgs ARG} {CPC : CompileParseContext ARG C} {SPEC : Type}.
(** The parser of the argument's type: the arguments a specification itself refers to, or an error.  [None] is
    the empty specification. *)
Variable parse_one : ARG -> option SPEC -> string + list ArgRef.

(** ** The context that predicts the next argument *)

Record Counting := MkCounting { base : C; next_arg_id_prediction : Z }.

Definition next_arg_id (c : Counting) : string + (nat * Counting) :=
  let? (ret, b) := base_next_arg_id (base c) in inr (ret, MkCounting b (Z.of_nat ret + 1)).

Definition check_arg_id (id : nat) (c : Counting) : string + Counting :=
  let? b := base_check_arg_id id (base c) in inr (MkCounting b (-1)).

(** ** The checker *)

Definition on_finishing_arg (c : Counting) : string + Counting :=
  if (next_arg_id_prediction c =? -1)%Z then inr c else let? (_, c) := next_arg_id c in inr c.

Definition on_arg_id (r : ArgRef) (c : Counting) : string + (nat * Counting) :=
  match r with
  | Auto => next_arg_id c
  | Index id => let? c := check_arg_id id c in inr (id, c)
  | Named _ => inl "named arguments are not supported"%string
  end.

(** The parser of a specification asks the context of [fmt], not the counting one. *)
Definition nested_arg (r : ArgRef) (b : C) : string + C :=
  match r with
  | Auto => let? (id, b) := base_next_arg_id b in let? _ := base_check_dynamic_spec id b in inr b
  | Index id => let? b := base_check_arg_id id b in let? _ := base_check_dynamic_spec id b in inr b
  | Named _ => inl "named arguments are not supported"%string
  end.

Fixpoint nested_args (rs : list ArgRef) (b : C) : string + C :=
  match rs with
  | [] => inr b
  | r :: rs => let? b := nested_arg r b in nested_args rs b
  end.

Definition on_format_specs (id : nat) (s : option SPEC) (c : Counting) : string + Counting :=
  match context_args (base c) !! id with
  | Some a =>
    let? rs := parse_one a s in
    let? b := nested_args rs (base c) in
    inr (MkCounting b (next_arg_id_prediction c))
  | None => inr c
  end.

Definition on_replacement_field (id : nat) (c : Counting) : string + Counting := on_format_specs id None c.

Definition check_num_args (c : Counting) : string + unit :=
  if negb (next_arg_id_prediction c =? -1)%Z && negb (next_arg_id_prediction c =? Z.of_nat (num_args (base c)))%Z
  then inl "Number of arguments does not match"%string
  else inr tt.

Definition handle (ev : FmtEvent SPEC) (c : Counting) : string + Counting :=
  match ev with
  | OnText => inr c
  | OnField r => let? (id, c) := on_arg_id r c in on_replacement_field id c
  | OnFieldSpecs r s => let? (id, c) := on_arg_id r c in on_format_specs id (Some s) c
  | OnMalformed => inl "invalid format string"%string
  end.

Fixpoint parse_format_string (evs : list (FmtEvent SPEC)) (c : Counting) : string + Counting :=
  match evs with
  | [] => inr c
  | ev :: evs => let? c := handle ev c in parse_format_string evs c
  end.

(** The trait [count<...>] of [fmt]: how many of the types have a property. *)
Definition count (p : ARG -> bool) (args : list ARG) : nat := length (List.filter p args).

(** The constructor of the format string of a call with [args] in its list: an argument that is a reference to a
    view is refused, and the string is checked unless an argument is named in a way only known at run time. *)
Definition BasicStrictFormatString (args : list ARG) (evs : list (FmtEvent SPEC)) : string + unit :=
  if negb (count lvalue_view args =? 0) then inl "passing views as lvalues is disallowed"%string
  else if count is_named_arg args =? count is_static_named_arg args then
    let? c := parse_format_string evs (MkCounting (new_context args) 0) in
    let? c := on_finishing_arg c in
    check_num_args c
  else inr tt.

(** One argument more than the caller gives. *)
Definition StrictFormatString (args : list ARG) (evs : list (FmtEvent SPEC)) : string + unit :=
  BasicStrictFormatString (args ++ [int_arg]) evs.

(** ** What a string takes *)

(** The arguments left when a string without numbers has taken its own, from left to right: a field takes one, its
    specification must be one the formatter of that argument accepts, and takes as many whole numbers as it has
    braces. *)
Fixpoint take_nested (rs : list ArgRef) (args : list ARG) : option (list ARG) :=
  match rs, args with
  | [], _ => Some args
  | Auto :: rs, a :: args => if is_integral a then take_nested rs args else None
  | _, _ => None
  end.

Definition take_field (s : option SPEC) (args : list ARG) : option (list ARG) :=
  match args with
  | a :: args => match parse_one a s with inr rs => take_nested rs args | inl _ => None end
  | [] => None
  end.

Definition take_event (ev : FmtEvent SPEC) (args : list ARG) : option (list ARG) :=
  match ev with
  | OnText => Some args
  | OnField Auto => take_field None args
  | OnFieldSpecs Auto s => take_field (Some s) args
  | _ => None
  end.

Fixpoint take_string (evs : list (FmtEvent SPEC)) (args : list ARG) : option (list ARG) :=
  match evs with
  | [] => Some args
  | ev :: evs => match take_event ev args with Some args => take_string evs args | None => None end
  end.

(** No field has a number. *)
Definition unnumbered (ev : FmtEvent SPEC) : bool :=
  match ev with OnField (Index _) | OnFieldSpecs (Index _) _ => false | _ => true end.

(** An argument the compiler cannot check: its name is known at run time only. *)
Definition run_time_named (a : ARG) : bool := is_named_arg a && negb (is_static_named_arg a).

(** ** Facts *)

(** *** Taking arguments in front of one more *)

Definition keeps_last (take : list ARG -> option (list ARG)) : Prop := forall x args,
  match take args with
  | Some rest => take (args ++ [x]) = Some (rest ++ [x])
  | None => take (args ++ [x]) = None \/ take (args ++ [x]) = Some []
  end.

Definition takes_front (take : list ARG -> option (list ARG)) : Prop := take [] = None \/ take [] = Some [].

Lemma take_nested_last rs : keeps_last (take_nested rs).
Proof.
  intros x. induction rs as [|[|id|name] rs IH]; intros args; cbn; [done| |by left|by left].
  destruct args as [|a args]; cbn.
  - destruct (is_integral x); [|by left]. destruct rs as [|[| |] rs]; cbn; auto.
  - destruct (is_integral a); [apply IH|by left].
Qed.

Lemma take_nested_nil rs : takes_front (take_nested rs).
Proof. destruct rs as [|[| |] rs]; [by right|by left..]. Qed.

Lemma take_field_last s : keeps_last (take_field s).
Proof.
  intros x [|a args]; cbn.
  - destruct (parse_one x s); [by left|]. apply take_nested_nil.
  - destruct (parse_one a s); [by left|]. apply take_nested_last.
Qed.

Lemma take_event_last ev : keeps_last (take_event ev).
Proof. destruct ev as [|[| |]|[| |] s|]; intros x args; cbn; try (by left); [done|apply take_field_last..]. Qed.

Lemma take_string_nil evs : takes_front (take_string evs).
Proof. induction evs as [|[|[| |]|[| |] s|] evs IH]; cbn; [by right|done|by left..]. Qed.

Lemma take_string_last evs : keeps_last (take_string evs).
Proof.
  intros x. induction evs as [|ev evs IH]; intros args; cbn; [done|].
  pose proof (take_event_last ev x args) as He. destruct (take_event ev args) as [rest|]; [rewrite He; apply IH|].
  destruct He as [-> | ->]; [by left|]. apply take_string_nil.
Qed.

(** The string takes all but one of the arguments exactly when it takes all of those before the last. *)
Lemma take_string_all evs args x :
  (exists y, take_string evs (args ++ [x]) = Some [y]) <-> take_string evs args = Some [].
Proof.
  pose proof (take_string_last evs x args) as H. destruct (take_string evs args) as [rest|].
  - rewrite H. split.
    + intros [y Hy]. destruct rest as [|a [|b rest]]; [done|discriminate..].
    + intros [= ->]. by exists x.
  - split; [|discriminate]. intros [y Hy]. destruct H; congruence.
Qed.

(** *** The checker takes what the string takes *)

Context {FAL : FormatArgsLaws ARG} {LAWS : CompileParseLaws ARG C}.

(** [rest] of the arguments [all] are left. *)
Definition left_of (all rest : list ARG) (b : C) : Prop :=
  exists i, automatic i b /\ context_args b = all /\ rest = drop i all /\ i <= length all.

Definition counted (all rest : list ARG) (c : Counting) : Prop :=
  left_of all rest (base c) /\ (0 <= next_arg_id_prediction c)%Z.

Definition agrees {A} (st : list ARG -> A -> Prop) (r : string + A) (o : option (list ARG)) : Prop :=
  match o with Some rest => exists a, r = inr a /\ st rest a | None => fails r end.

Lemma agrees_bind {A B} (st : list ARG -> A -> Prop) (st' : list ARG -> B -> Prop) r o f (g : list ARG -> option (list ARG)) :
  agrees st r o -> (forall rest a, st rest a -> agrees st' (f a) (g rest)) ->
  agrees st' (bind_sum r f) (match o with Some rest => g rest | None => None end).
Proof. intros Hr Hf. destruct o as [rest|]; [|by destruct Hr as [e ->]; exists e]. destruct Hr as (a & -> & Ha). by apply Hf. Qed.

Lemma drop_cons_next i (all rest : list ARG) a : a :: rest = drop i all -> all !! i = Some a /\ rest = drop (S i) all /\ S i <= length all.
Proof.
  intros H. assert (Ha : all !! i = Some a) by (rewrite <- (Nat.add_0_r i), <- lookup_drop, <- H; done).
  split; [done|]. apply lookup_lt_Some in Ha as Hi. split; [|lia].
  replace (S i) with (i + 1) by lia. by rewrite <- drop_drop, <- H.
Qed.

Lemma left_args all rest b : left_of all rest b -> context_args b = all.
Proof. by intros (i & _ & ? & _). Qed.

Lemma next_left all rest b : left_of all rest b ->
  match rest with
  | a :: rest => exists i b', base_next_arg_id b = inr (i, b') /\ all !! i = Some a /\ left_of all rest b' /\ length all = i + 1 + length rest
  | [] => fails (base_next_arg_id b)
  end.
Proof.
  intros (i & Ha & Hall & Hrest & Hi). destruct rest as [|a rest].
  - apply (next_missing i); [done|]. unfold num_args. rewrite Hall. apply (f_equal length) in Hrest. rewrite length_drop in Hrest. cbn in Hrest. lia.
  - apply drop_cons_next in Hrest as (Hia & Hrest & HS).
    destruct (next_ok i b) as (b' & Hb & Ha' & Hall'); [done|unfold num_args; rewrite Hall; lia|].
    exists i, b'. split_and!; [done..| |rewrite Hrest, length_drop; lia].
    exists (S i). rewrite Hall', Hall. by split_and!.
Qed.

(** Once an argument was taken by its place, none can be taken by its number. *)
Lemma check_left all rest b id : left_of all rest b -> length rest < length all -> fails (base_check_arg_id id b).
Proof.
  intros (i & Ha & _ & -> & _) Hl. rewrite length_drop in Hl. destruct i as [|i]; [lia|]. by apply (check_automatic i).
Qed.

Lemma nested_agrees all rs rest b :
  left_of all rest b -> length rest < length all -> agrees (left_of all) (nested_args rs b) (take_nested rs rest).
Proof.
  revert rest b. induction rs as [|r rs IH]; intros rest b Hb Hl; cbn [nested_args take_nested].
  { by exists b. }
  destruct r as [|id|name]; cbn [nested_arg]; [| |by eexists].
  - pose proof (next_left all rest b Hb) as Hn. destruct rest as [|a rest].
    { destruct Hn as [e ->]. by eexists. }
    destruct Hn as (i & b' & -> & Hi & Hb' & _). cbn [bind_sum]. cbn in Hl.
    rewrite <- (left_args all rest b' Hb') in Hi. destruct (is_integral a) eqn:Ea.
    + rewrite (dynamic_ok i a) by auto. apply IH; [done|lia].
    + destruct (dynamic_other i a b') as [e ->]; [done..|by eexists].
  - destruct (check_left all rest b id) as [e ->]; [done..|by eexists].
Qed.

Lemma field_agrees all s rest c :
  counted all rest c -> agrees (counted all) (let? (id, c) := next_arg_id c in on_format_specs id s c) (take_field s rest).
Proof.
  intros [Hb Hp]. pose proof (next_left all rest (base c) Hb) as Hn. unfold next_arg_id. destruct rest as [|a rest]; cbn [take_field].
  { destruct Hn as [e ->]. by eexists. }
  destruct Hn as (i & b' & -> & Hi & Hb' & Hl). cbn [bind_sum]. unfold on_format_specs. cbn [base].
  rewrite (left_args all rest b' Hb'), Hi. destruct (parse_one a s) as [e|rs]; [by exists e|]. cbn [bind_sum].
  pose proof (nested_agrees all rs rest b' Hb' ltac:(lia)) as Hr. destruct (take_nested rs rest) as [rest'|]; cbn in Hr |- *.
  - destruct Hr as (b'' & -> & Hb''). cbn. eexists. split; [done|]. split; [done|]. cbn. lia.
  - destruct Hr as [e ->]. by exists e.
Qed.

Lemma handle_agrees all ev rest c : counted all rest c -> unnumbered ev -> agrees (counted all) (handle ev c) (take_event ev rest).
Proof.
  intros Hc Hu. destruct ev as [|[| |]|[| |] s|]; cbn [handle on_arg_id take_event] in *; try done; try (by eexists).
  - by apply (field_agrees all None).
  - by apply field_agrees.
Qed.

Lemma parse_agrees all evs rest c :
  counted all rest c -> Forall unnumbered evs -> agrees (counted all) (parse_format_string evs c) (take_string evs rest).
Proof.
  intros Hc Hu. revert rest c Hc. induction Hu as [|ev evs Hev Hu IH]; intros rest c Hc; cbn [parse_format_string take_string].
  { by exists c. }
  apply (agrees_bind (counted all)); [by apply handle_agrees|done].
Qed.

(** The argument that is added is the one left at the end. *)
Lemma finish_agrees all rest c :
  counted all rest c -> ((let? c := on_finishing_arg c in check_num_args c) = inr tt <-> exists y, rest = [y]).
Proof.
  intros [Hb Hp]. unfold on_finishing_arg. rewrite (proj2 (Z.eqb_neq _ _)) by lia.
  pose proof (next_left all rest (base c) Hb) as Hn. unfold next_arg_id. destruct rest as [|a rest].
  { destruct Hn as [e ->]. split; [discriminate|by intros [? ?]]. }
  destruct Hn as (i & b' & -> & _ & Hb' & Hl). cbn [bind_sum]. unfold check_num_args, num_args. cbn [base next_arg_id_prediction].
  rewrite (left_args all rest b' Hb'), (proj2 (Z.eqb_neq _ (-1)%Z)) by lia. cbn [negb andb].
  destruct (Z.eqb_spec (Z.of_nat i + 1) (Z.of_nat (length all))) as [E|E]; cbn [negb].
  - split; [intros _|done]. exists a. f_equal. apply length_zero_iff_nil. lia.
  - split; [discriminate|]. intros [y [= -> ->]]. cbn in Hl. lia.
Qed.

Lemma checked_string all evs :
  Forall unnumbered evs ->
  (let? c := parse_format_string evs (MkCounting (new_context all) 0) in let? c := on_finishing_arg c in check_num_args c) = inr tt <->
  (exists y, take_string evs all = Some [y]).
Proof.
  intros Hu. destruct (new_automatic all) as [Ha Hall].
  assert (Hc : counted all all (MkCounting (new_context all) 0)) by (split; [exists 0; split_and!; [done..|lia]|done]).
  pose proof (parse_agrees all evs all _ Hc Hu) as Hp. destruct (take_string evs all) as [rest|]; cbn [agrees] in Hp.
  - destruct Hp as (c & -> & Hc'). cbn [bind_sum]. rewrite (finish_agrees all rest c Hc').
    split; intros [y Hy]; exists y; congruence.
  - destruct Hp as [e ->]. split; [discriminate|by intros [? ?]].
Qed.

(** *** The traits *)

Lemma count_app p (a b : list ARG) : count p (a ++ b) = count p a + count p b.
Proof. unfold count. by rewrite List.filter_app, length_app. Qed.

Lemma count_zero p (args : list ARG) : (count p args =? 0) = negb (existsb p args).
Proof. unfold count. induction args as [|a args IH]; cbn; [done|]. by destruct (p a). Qed.

Lemma count_named args : count is_named_arg args = count is_static_named_arg args + count run_time_named args.
Proof.
  unfold count, run_time_named. induction args as [|a args IH]; cbn; [done|]. pose proof (static_named a) as Hs.
  destruct (is_named_arg a), (is_static_named_arg a); cbn; try lia. by destruct Hs.
Qed.

Lemma int_counts : count lvalue_view [int_arg] = 0 /\ count run_time_named [int_arg] = 0.
Proof. unfold count, run_time_named. cbn. destruct int_plain as [-> ->]. done. Qed.

(** C26: When no argument is a reference to a view and none has a name known at run time only, a format string
    without numbered fields compiles exactly when its fields and their specifications take all the arguments,
    from left to right: with one argument too few or too many, a specification the argument's formatter refuses, a
    width that is not an integer, a named field or an unbalanced brace the program does not compile.  A reference
    to a view never compiles; otherwise, with an argument whose name is known at run time only, every string
    does. *)
Theorem strict_format_counts args evs :
  Forall unnumbered evs ->
  if existsb lvalue_view args then StrictFormatString args evs = inl "passing views as lvalues is disallowed"%string
  else if existsb run_time_named args then StrictFormatString args evs = inr tt
  else StrictFormatString args evs = inr tt <-> take_string evs args = Some [].
Proof.
  intros Hu. unfold StrictFormatString, BasicStrictFormatString. destruct int_counts as [Hv Hn].
  rewrite (count_named (args ++ [int_arg])), !count_app, Hv, Hn, !Nat.add_0_r, count_zero, negb_involutive.
  destruct (existsb lvalue_view args); [done|].
  replace (_ =? _) with (negb (existsb run_time_named args)); [|rewrite <- count_zero; apply eq_true_iff_eq; rewrite !Nat.eqb_eq; lia].
  destruct (existsb run_time_named args); [done|]. cbn [negb]. rewrite checked_string by done. apply take_string_all.
Qed.

(** A string that numbers its fields is not checked for spare arguments, and the argument added for the count can
    be named: a field with the number of the arguments given compiles, though there is no such argument. *)
Theorem indexed_past_the_end args :
  existsb lvalue_view args = false -> existsb run_time_named args = false -> parse_one int_arg None = inr [] ->
  StrictFormatString args [OnField (Index (length args))] = inr tt.
Proof.
  intros Hv Hn H0. unfold StrictFormatString, BasicStrictFormatString. rewrite count_zero, existsb_app, Hv. cbn.
  destruct int_plain as [-> _]. cbn. case (_ =? _); [|done].
  set (all := args ++ [int_arg]). destruct (new_automatic all) as [Ha Hall].
  destruct (check_ok (length args) (new_context all)) as (b & Hb & _ & Hbn); [by left|unfold num_args, all in *; rewrite Hall, length_app; cbn; lia|].
  unfold check_arg_id, on_replacement_field, on_format_specs. cbn [base]. rewrite Hb. cbn [bind_sum base].
  rewrite Hbn, Hall. unfold all. rewrite list_lookup_middle by done. by rewrite H0.
Qed.
End checker.

(** ** A context *)

(** Arguments that are integers, strings, or named. *)
Inductive SomeArg := IntArg | StringArg | ViewRef | NamedArg | StaticNamedArg.

#[export] Instance some_args : FormatArgs SomeArg := {
  lvalue_view a := match a with ViewRef => true | _ => false end;
  is_named_arg a := match a with NamedArg | StaticNamedArg => true | _ => false end;
  is_static_named_arg a := match a with StaticNamedArg => true | _ => false end;
  is_integral a := match a with IntArg => true | _ => false end;
  int_arg := IntArg }.

#[export] Program Instance some_args_laws : FormatArgsLaws SomeArg.
Next Obligation. by intros []. Qed.
Next Obligation. done. Qed.

(** The count of [fmt]: the next number, negative once numbers are given. *)
Record FmtContext := MkFmt { fmt_args : list SomeArg; fmt_next : option nat }.

#[export] Instance fmt_context : CompileParseContext SomeArg FmtContext := {
  new_context args := MkFmt args (Some 0);
  base_next_arg_id c :=
    match fmt_next c with
    | None => inl "cannot switch from manual to automatic argument indexing"%string
    | Some i => if bool_decide (i < length (fmt_args c)) then inr (i, MkFmt (fmt_args c) (Some (S i))) else inl "argument not found"%string
    end;
  base_check_arg_id id c :=
    match fmt_next c with
    | Some (S _) => inl "cannot switch from automatic to manual argument indexing"%string
    | _ => if bool_decide (id < length (fmt_args c)) then inr (MkFmt (fmt_args c) None) else inl "argument not found"%string
    end;
  base_check_dynamic_spec id c :=
    match fmt_args c !! id with
    | Some a => if is_integral a then inr tt else inl "width/precision is not integer"%string
    | None => inr tt
    end;
  context_args c := fmt_args c }.

#[export] Program Instance fmt_context_laws : CompileParseLaws SomeArg FmtContext := {
  automatic i c := fmt_next c = Some i;
  manual c := fmt_next c = None }.
Next Obligation. done. Qed.
Next Obligation. unfold num_args. intros i [n [j|]] ? ?; simplify_eq/=. rewrite bool_decide_true by done. by eexists. Qed.
Next Obligation. unfold num_args. intros i [n [j|]] ? ?; simplify_eq/=. rewrite bool_decide_false by lia. by eexists. Qed.
Next Obligation. intros [n [j|]] ?; simplify_eq/=. by eexists. Qed.
Next Obligation. unfold num_args. intros id [n [j|]] [?|?] ?; simplify_eq/=; rewrite bool_decide_true by done; by eexists. Qed.
Next Obligation. unfold num_args. intros id [n [[|j]|]] ?; simplify_eq/=; try (rewrite bool_decide_false by lia); by eexists. Qed.
Next Obligation. intros i id [n [j|]] ?; simplify_eq/=. by eexists. Qed.
Next Obligation. intros id a [n j] Ha Hi; cbn in *. rewrite Ha. by destruct a. Qed.
Next Obligation. intros id a [n j] Ha Hi; cbn in *. rewrite Ha. destruct a; [discriminate|by eexists..]. Qed.

(** Specifications are here the letter of a type, with the number of arguments they take. *)
Definition parse_letter (a : SomeArg) (s : option (string * nat)) : string + list ArgRef :=
  match s with
  | None => inr []
  | Some (letter, n) => if bool_decide (letter = match a with IntArg => "d" | _ => "s" end)%string then inr (replicate n Auto) else inl "invalid format specifier"%string
  end.

Definition strict_string := StrictFormatString (C := FmtContext) parse_letter.

(** ["{} {:{}s}"] takes three arguments, the last an integer. *)
Lemma strict_format_counts_witness :
  let evs := [OnField Auto; OnText; OnFieldSpecs Auto ("s"%string, 1)] in
  (strict_string [IntArg; StringArg; IntArg] evs = inr tt <-> Some (@nil SomeArg) = Some []) /\
  (strict_string [IntArg; StringArg; StringArg] evs = inr tt <-> None = Some (@nil SomeArg)) /\
  strict_string [IntArg; NamedArg] evs = inr tt /\
  strict_string [ViewRef] evs = inl "passing views as lvalues is disallowed"%string.
Proof.
  cbv zeta. assert (Hu : Forall (fun ev => unnumbered ev) [OnField Auto; OnText; OnFieldSpecs Auto ("s"%string, 1)]).
  { repeat constructor. }
  split; [exact (strict_format_counts (C := FmtContext) parse_letter [IntArg; StringArg; IntArg] _ Hu)|].
  split; [exact (strict_format_counts (C := FmtContext) parse_letter [IntArg; StringArg; StringArg] _ Hu)|].
  split; [exact (strict_format_counts (C := FmtContext) parse_letter [IntArg; NamedArg] _ Hu)|].
  exact (strict_format_counts (C := FmtContext) parse_letter [ViewRef] _ Hu).
Defined.

Example format_extra_argument : strict_string [IntArg; IntArg] [OnField Auto] = inl "Number of arguments does not match"%string.
Proof. reflexivity. Qed.
