(* ===== verification/Containers.v ===== *)
(** * Linked lists with stable iterators, indexed by key

    The caches pair a [std::list] (or [std::multimap]) with an [std::unordered_map] from keys to
    iterators into it.  Here a list is a list of nodes, each with an identity that plays the role of
    the iterator, and an index is a finite map from keys to identities. *)

From S2P Require Export Prelude.

Abbreviation node A := (nat * A)%type.

Section Nodes.
Context {A : Type}.
Implicit Types (l : list (node A)) (id : nat).

Definition is_node id (n : node A) : bool := n.1 =? id.

(** [*it]. *)
Definition node_find l id : option (node A) := List.find (is_node id) l.
Definition node_get l id : option A := snd <$> node_find l id.

(** [list.erase(it)]. *)
Definition node_erase id l : list (node A) := List.filter (fun n => negb (is_node id n)) l.

(** [list.splice(list.begin(), list, it)] and [list.splice(list.end(), list, it)]. *)
Definition splice_front id l : list (node A) :=
  match node_find l id with
  | Some n => n :: node_erase id l
  | None => l
  end.

Definition splice_back id l : list (node A) :=
  match node_find l id with
  | Some n => node_erase id l ++ [n]
  | None => l
  end.

(** Assignment through an iterator. *)
Definition node_set id (f : A -> A) l : list (node A) :=
  map (fun n => if is_node id n then (n.1, f n.2) else n) l.

Definition pop_back l : list (node A) := removelast l.

(** The contents, without identities. *)
Definition contents l : list A := map snd l.

#[global] Instance node_erase_proper id : Proper ((≡ₚ) ==> (≡ₚ)) (node_erase id).
Proof.
  unfold node_erase. induction 1 as [|x l k _ IH|x y l|l k k' _ IH1 _ IH2]; cbn; [done|..].
  - destruct (negb (is_node id x)); by rewrite IH.
  - destruct (negb (is_node id x)), (negb (is_node id y)); try done. apply Permutation_swap.
  - by rewrite IH1.
Qed.

#[global] Instance contents_proper : Proper ((≡ₚ) ==> (≡ₚ)) contents.
Proof. intros l k Hp. unfold contents. by rewrite Hp. Qed.

Lemma node_set_find id f l : node_find (node_set id f l) id = (fun n => (n.1, f n.2)) <$> node_find l id.
Proof.
  unfold node_find, node_set. induction l as [|n l IH]; [done|]. cbn. destruct (is_node id n) eqn:E; cbn; [|by rewrite E].
  unfold is_node in *. cbn. by rewrite E.
Qed.

Lemma node_erase_set id f l : node_erase id (node_set id f l) = node_erase id l.
Proof.
  unfold node_erase, node_set. induction l as [|n l IH]; [done|]. cbn. destruct (is_node id n) eqn:E; cbn; [|by rewrite E, IH].
  unfold is_node in *. cbn. by rewrite E.
Qed.

Lemma node_erase_cons_ne id (n : node A) l : n.1 <> id -> node_erase id (n :: l) = n :: node_erase id l.
Proof. intros Hn. unfold node_erase, is_node. cbn. by rewrite (proj2 (Nat.eqb_neq _ _) Hn). Qed.
End Nodes.

(** ** An index agrees with the list *)

Section Index.
Context {A K : Type} `{Countable K} (key : A -> K).
Implicit Types (l : list (node A)) (m : gmap K nat) (id : nat) (k : K).

Record indexed l m : Prop := {
  ix_ids : NoDup (map fst l);
  ix_keys : forall k id, m !! k = Some id <-> exists a, (id, a) ∈ l /\ key a = k
}.

(** The same list by keys: the first element with key [k], and the list without it. *)
Definition has_key k (a : A) : bool := bool_decide (key a = k).
Definition find_key k (s : list A) : option A := List.find (has_key k) s.
Definition remove_key k (s : list A) : list A := List.filter (fun a => negb (has_key k a)) s.

#[global] Instance indexed_perm : Proper ((≡ₚ) ==> (=) ==> iff) indexed.
Proof.
  assert (forall l1 l2 m, l1 ≡ₚ l2 -> indexed l1 m -> indexed l2 m) as Hone.
  { intros l1 l2 m Hp [Hi Hk]. split; [by rewrite <- Hp|]. intros k id. rewrite Hk. by setoid_rewrite Hp. }
  intros l1 l2 Hp m ? <-. split; by apply Hone.
Qed.

Lemma indexed_empty : indexed [] ∅.
Proof.
  split; [constructor|]. intros k id. rewrite lookup_empty. split; [done|].
  by intros (a & Hin%elem_of_nil & _).
Qed.

Lemma indexed_node l m n : indexed l m -> n ∈ l -> m !! key n.2 = Some n.1.
Proof. intros [_ Hk] Hn. apply Hk. exists n.2. by destruct n. Qed.

Lemma indexed_is_node l m k id n :
  indexed l m -> m !! k = Some id -> n ∈ l -> is_node id n = has_key k n.2.
Proof.
  intros Hix Hm Hn. pose proof (indexed_node l m n Hix Hn) as Hn'. unfold is_node, has_key.
  apply eq_true_iff_eq. rewrite Nat.eqb_eq, bool_decide_eq_true. split; [|intros E; congruence].
  intros E. destruct Hix as [Hids Hk]. apply Hk in Hm as (a & Ha & <-).
  destruct n as [i b]. cbn in *. subst i. f_equal.
  clear -Hids Hn Ha. induction l as [|[j c] l IH]; [by apply elem_of_nil in Ha|].
  cbn in Hids. apply NoDup_cons in Hids as [Hj Hids]. rewrite elem_of_cons in Hn, Ha.
  assert (forall x, (id, x) ∈ l -> id ∈ map fst l) as Hmem by (intros x Hx; by apply (list_elem_of_fmap_2 fst) in Hx).
  destruct Hn as [Hn|Hn], Ha as [Ha|Ha]; simplify_eq; [done|exfalso; eauto..|by apply IH].
Qed.

Lemma find_contents l k id :
  (forall n, n ∈ l -> is_node id n = has_key k n.2) -> node_get l id = find_key k (contents l).
Proof.
  induction l as [|n l IH]; intros Hl; [done|]. unfold node_get, node_find, find_key, contents. cbn.
  rewrite (Hl n) by left. destruct (has_key k n.2); [done|]. apply IH. intros n' Hn'. apply Hl. by right.
Qed.

Lemma erase_contents l k id :
  (forall n, n ∈ l -> is_node id n = has_key k n.2) -> contents (node_erase id l) = remove_key k (contents l).
Proof.
  unfold node_erase, remove_key, contents. induction l as [|n l IH]; intros Hl; [done|]. cbn.
  rewrite (Hl n) by left. rewrite <- IH by (intros n' Hn'; apply Hl; by right).
  by destruct (has_key k n.2).
Qed.

Lemma indexed_contents l m k id :
  indexed l m -> m !! k = Some id ->
  exists a, node_find l id = Some (id, a) /\ key a = k /\ find_key k (contents l) = Some a /\
            contents (node_erase id l) = remove_key k (contents l).
Proof.
  intros Hix Hm. assert (forall n, n ∈ l -> is_node id n = has_key k n.2) as Hl
    by (intros; by eapply indexed_is_node).
  destruct (proj1 (ix_keys _ _ Hix k id) Hm) as (a & Ha & Hka).
  assert (exists b, node_find l id = Some (id, b)) as [b Hb].
  { unfold node_find. destruct (List.find (is_node id) l) as [[i b]|] eqn:E.
    - apply List.find_some in E as [_ E]. apply Nat.eqb_eq in E. cbn in E. subst. by exists b.
    - assert (is_node id (id, a) = false) as Hf by (apply (List.find_none _ _ E); by apply list_elem_of_In).
      unfold is_node in Hf. cbn in Hf. by rewrite Nat.eqb_refl in Hf. }
  exists b. split; [done|]. split.
  - unfold node_find in Hb. apply List.find_some in Hb as [Hin%list_elem_of_In Hn].
    rewrite (Hl _ Hin) in Hn. by apply bool_decide_eq_true in Hn.
  - rewrite <- (find_contents l k id Hl). unfold node_get. rewrite Hb. split; [done|]. by apply erase_contents.
Qed.

Lemma find_key_None k (s : list A) : find_key k s = None <-> forall a, a ∈ s -> key a <> k.
Proof.
  unfold find_key. split.
  - intros E a Ha Hk. assert (has_key k a = false) as Hf by (apply (List.find_none _ _ E); by apply list_elem_of_In).
    unfold has_key in Hf. by rewrite bool_decide_eq_false in Hf.
  - intros Hs. destruct (List.find (has_key k) s) as [a|] eqn:E; [|done].
    apply List.find_some in E as [Hin%list_elem_of_In Hk]. apply bool_decide_eq_true in Hk. by apply Hs in Hin.
Qed.

Lemma find_key_Some k (s : list A) a : find_key k s = Some a -> a ∈ s /\ key a = k.
Proof.
  intros [Hin%list_elem_of_In Hk]%List.find_some. split; [done|]. by apply bool_decide_eq_true in Hk.
Qed.

Lemma remove_key_absent k (s : list A) : find_key k s = None -> remove_key k s = s.
Proof.
  rewrite find_key_None. induction s as [|a s IH]; intros Hs; [done|]. unfold remove_key. cbn.
  unfold has_key at 1. rewrite bool_decide_false by (apply Hs; left). cbn. f_equal. apply IH.
  intros b Hb. apply Hs. by right.
Qed.

Lemma indexed_absent l m k : indexed l m -> m !! k = None <-> find_key k (contents l) = None.
Proof.
  intros Hix. rewrite find_key_None. split.
  - intros Hm a (n & -> & Hn)%list_elem_of_fmap <-. rewrite (indexed_node l m n) in Hm; done.
  - intros Hc. destruct (m !! k) as [id|] eqn:E; [|done].
    apply (ix_keys _ _ Hix) in E as (a & Ha & Hk). exfalso. apply (Hc a); [|done].
    by apply (list_elem_of_fmap_2 snd) in Ha.
Qed.

(** A new node with a new key. *)
Lemma indexed_add l m id a :
  indexed l m -> Forall (fun n => n.1 < id) l -> m !! key a = None ->
  indexed ((id, a) :: l) (<[key a := id]> m).
Proof.
  intros Hix Hf Hm. destruct Hix as [Hids Hk]. split.
  - cbn. constructor; [|done]. intros ([i b] & -> & Hn)%list_elem_of_fmap. rewrite Forall_forall in Hf.
    specialize (Hf _ Hn). cbn in Hf. lia.
  - intros k i. rewrite lookup_insert_Some. setoid_rewrite elem_of_cons. split.
    + intros [[<- <-]|[Hne Hi]]; [exists a; by split; [left|]|].
      apply Hk in Hi as (b & Hb & Hkb). exists b. by split; [right|].
    + intros (b & [[= -> ->]|Hb] & <-); [by left|]. right.
      assert (m !! key b = Some i) as Hb' by (apply Hk; eauto). split; [congruence|done].
Qed.

(** Erasing a node and its key. *)
Lemma node_erase_elem id l n : n ∈ node_erase id l <-> n ∈ l /\ n.1 <> id.
Proof.
  unfold node_erase, is_node. rewrite !list_elem_of_In, List.filter_In, negb_true_iff, Nat.eqb_neq. done.
Qed.

Lemma node_erase_ids id l : NoDup (map fst l) -> NoDup (map fst (node_erase id l)).
Proof.
  unfold node_erase. induction l as [|n l IH]; [done|]. cbn. intros [Hn Hids]%NoDup_cons.
  destruct (negb (is_node id n)); [|by apply IH]. cbn. constructor; [|by apply IH].
  intros (n' & E & Hn')%list_elem_of_fmap. apply Hn. rewrite E. apply list_elem_of_fmap_2.
  apply node_erase_elem in Hn'. apply Hn'.
Qed.

Lemma indexed_erase l m k id :
  indexed l m -> m !! k = Some id -> indexed (node_erase id l) (delete k m).
Proof.
  intros Hix Hm. split; [apply node_erase_ids, Hix|]. intros k' i.
  rewrite lookup_delete_Some, (ix_keys _ _ Hix). setoid_rewrite node_erase_elem. cbn. split.
  - intros [Hne (a & Ha & <-)]. exists a. split; [|done]. split; [done|]. intros ->. apply Hne.
    pose proof (indexed_is_node l m k id (id, a) Hix Hm Ha) as Hx. unfold is_node, has_key in Hx. cbn in Hx.
    rewrite Nat.eqb_refl in Hx. symmetry in Hx. by apply bool_decide_eq_true in Hx.
  - intros (a & [Ha Hne] & <-). split; [|eauto]. intros ->.
    pose proof (indexed_node l m (i, a) Hix Ha). cbn in *. congruence.
Qed.

(** Moving a node keeps the index. *)
Lemma node_erase_perm id l a : NoDup (map fst l) -> node_find l id = Some (id, a) -> (id, a) :: node_erase id l ≡ₚ l.
Proof.
  unfold node_find, node_erase, is_node. induction l as [|[i b] l IH]; cbn; [done|]. intros Hnd Hf.
  apply NoDup_cons in Hnd as [Hi Hnd]. destruct (Nat.eqb_spec i id) as [->|Hne]; cbn.
  - injection Hf as ->. f_equiv. rewrite List.forallb_filter_id; [done|]. apply List.forallb_forall.
    intros n Hn%list_elem_of_In. apply negb_true_iff, Nat.eqb_neq. intros <-. apply Hi.
    by apply list_elem_of_fmap_2.
  - rewrite Permutation_swap. f_equiv. by apply IH.
Qed.

Lemma splice_front_spec l m k id a :
  indexed l m -> m !! k = Some id -> node_find l id = Some (id, a) ->
  indexed (splice_front id l) m /\ contents (splice_front id l) = a :: remove_key k (contents l).
Proof.
  intros Hix Hm Hf. destruct (indexed_contents l m k id Hix Hm) as (b & Hf' & Hk & _ & He).
  rewrite Hf in Hf'. injection Hf' as <-. unfold splice_front. rewrite Hf.
  unfold contents in *. cbn [map snd]. rewrite He. split; [|done].
  rewrite node_erase_perm; [done|apply Hix|done].
Qed.

Lemma splice_back_spec l m k id a :
  indexed l m -> m !! k = Some id -> node_find l id = Some (id, a) ->
  indexed (splice_back id l) m /\ contents (splice_back id l) = remove_key k (contents l) ++ [a].
Proof.
  intros Hix Hm Hf. destruct (indexed_contents l m k id Hix Hm) as (b & Hf' & Hk & _ & He).
  rewrite Hf in Hf'. injection Hf' as <-. unfold splice_back. rewrite Hf. unfold contents in *.
  rewrite map_app, He. split; [|done].
  rewrite <- Permutation_cons_append, node_erase_perm; [done|apply Hix|done].
Qed.

(** An assignment that keeps the key keeps the index. *)
Lemma node_set_indexed l m id f :
  indexed l m -> (forall a, (id, a) ∈ l -> key (f a) = key a) -> indexed (node_set id f l) m.
Proof.
  intros [Hids Hk] Hf. split.
  - unfold node_set. rewrite map_map. erewrite map_ext; [exact Hids|]. intros n. by destruct (is_node id n).
  - intros k i. rewrite Hk. unfold node_set, is_node. split.
    + intros (a & Ha & <-). exists (if i =? id then f a else a). split.
      * apply list_elem_of_fmap. exists (i, a). split; [|done]. cbn. by destruct (i =? id).
      * destruct (Nat.eqb_spec i id); [subst; by apply Hf|done].
    + intros (a & Ha & <-). apply list_elem_of_fmap in Ha as ([j b] & E & Hb). cbn in E.
      destruct (Nat.eqb_spec j id) as [->|]; injection E as -> ->; exists b; split; try done. symmetry. by apply Hf.
Qed.

Lemma find_key_contents l m k :
  indexed l m -> find_key k (contents l) = m !! k ≫= node_get l.
Proof.
  intros Hix. destruct (m !! k) as [id|] eqn:E; cbn.
  - destruct (indexed_contents l m k id Hix E) as (a & Hf & _ & -> & _). unfold node_get. by rewrite Hf.
  - by apply (indexed_absent l m k Hix).
Qed.

(** The first node, without the others. *)
Lemma indexed_tail id a l m : indexed ((id, a) :: l) m -> indexed l (delete (key a) m) /\ m !! key a = Some id.
Proof.
  intros Hix. pose proof (indexed_node _ m (id, a) Hix ltac:(left)) as Hm. cbn in Hm. split; [|done].
  pose proof (indexed_erase _ m (key a) id Hix Hm) as He.
  enough (node_erase id ((id, a) :: l) = l) as El by (by rewrite El in He).
  pose proof (ix_ids _ _ Hix) as Hn. cbn in Hn. apply NoDup_cons in Hn as [Hn _].
  unfold node_erase, is_node. cbn. rewrite Nat.eqb_refl. cbn. apply List.forallb_filter_id, List.forallb_forall.
  intros n Hin%list_elem_of_In. apply negb_true_iff, Nat.eqb_neq. intros <-. apply Hn. by apply list_elem_of_fmap_2.
Qed.

(** The index has one entry per node. *)
Lemma indexed_size l m : indexed l m -> size m = length l.
Proof.
  revert m. induction l as [|[id a] l IH]; intros m Hix.
  - apply map_size_empty_iff, map_empty. intros k. by apply (indexed_absent [] m k Hix).
  - apply indexed_tail in Hix as [Hix Hm]. apply IH in Hix. rewrite map_size_delete_Some in Hix by eauto.
    assert (size m <> 0) by (apply map_size_ne_0_lookup_2 with (key a); eauto). cbn [length]. lia.
Qed.

Lemma indexed_keys_nodup l m : indexed l m -> NoDup (map key (contents l)).
Proof.
  intros [Hids Hk]. unfold contents. rewrite map_map.
  assert (forall n, n ∈ l -> m !! key n.2 = Some n.1) as Hm by (intros [i a] Hn; apply Hk; eauto).
  clear Hk. induction l as [|n l IH]; [constructor|]. cbn in *. apply NoDup_cons in Hids as [Hn Hids]. constructor.
  - intros (n' & E & Hn')%list_elem_of_fmap. apply Hn.
    assert (Some n.1 = Some n'.1) as [= ->] by (rewrite <- (Hm n), <- (Hm n') by set_solver; by rewrite E).
    by apply list_elem_of_fmap_2.
  - apply IH; [done|]. set_solver.
Qed.

Lemma find_key_iff (s : list A) k a : NoDup (map key s) -> find_key k s = Some a <-> a ∈ s /\ key a = k.
Proof.
  intros Hnd. split; [apply find_key_Some|]. intros [Ha Hk].
  destruct (find_key k s) as [b|] eqn:E; [|rewrite find_key_None in E; by apply E in Ha].
  apply find_key_Some in E as [Hb Hkb]. f_equal. clear -Hnd Ha Hb Hk Hkb.
  induction s as [|x s IH]; [by apply elem_of_nil in Ha|]. cbn in Hnd. apply NoDup_cons in Hnd as [Hx Hnd].
  rewrite elem_of_cons in Ha, Hb.
  assert (forall y, y ∈ s -> key y = key x -> False) as Hy
    by (intros y Hy E; apply Hx; rewrite <- E; by apply list_elem_of_fmap_2).
  destruct Ha as [-> | Ha], Hb as [-> | Hb]; [done| | |by apply IH]; exfalso; eapply Hy; try done; congruence.
Qed.
End Index.

Arguments contents : simpl never.
Arguments find_key : simpl never.
Arguments remove_key : simpl never.
Arguments node_erase : simpl never.
Arguments node_find : simpl never.
Arguments node_get : simpl never.
Arguments node_set : simpl never.
