(* ===== verification/LruCache.v ===== *)
(** * The least-recently-used cache: class [LruCache] of [common/include/common/cache.h]

    The state is the list of nodes, the map from keys to list iterators and the capacity.  The
    abstract cache is the list of key-value pairs with the most recently used first; every operation
    refines its counterpart there, and so does every sequence of operations. *)

From S2P Require Export Containers.

(** [assert] with a false condition. *)
Inductive assertion_failure := AssertionFailure.

Section Lru.
Context {K V : Type} `{Countable K}.

Record LruCache := MkLru {
  m_capacity : nat;
  m_key_values : list (node (K * V));
  m_mapped_values : gmap K nat;
  m_fresh : nat                      (* identity of the next list node *)
}.

(** ** Operations *)

Definition DEFAULT_CAPACITY : nat := 128.

Definition lru_size (c : LruCache) : nat := size (m_mapped_values c).
Definition lru_max_size (c : LruCache) : nat := m_capacity c.

(** [m_mapped_values.erase(m_key_values.back().first); m_key_values.pop_back();] *)
Definition drop_last (c : LruCache) : LruCache :=
  match last (m_key_values c) with
  | Some n => MkLru (m_capacity c) (pop_back (m_key_values c)) (delete n.2.1 (m_mapped_values c)) (m_fresh c)
  | None => c
  end.

Definition set_capacity (max_size : nat) (c : LruCache) : LruCache :=
  let c := if max_size <? lru_size c then Nat.iter (lru_size c - max_size) drop_last c else c in
  MkLru max_size (m_key_values c) (m_mapped_values c) (m_fresh c).

Definition lru_new (max_size : nat) : LruCache := set_capacity max_size (MkLru 0 [] ∅ 0).

(** An [Accessor] is empty or designates an entry of the map. *)
Abbreviation Accessor := (option K).

Definition deref (c : LruCache) (acc : Accessor) : option V :=
  acc ≫= fun k => m_mapped_values c !! k ≫= fun id => snd <$> node_get (m_key_values c) id.

(** [insert] with the virtual [on_key_evicted] of the object, which acts on a state of its own. *)
Definition lru_insert {T} (on_key_evicted : K -> T -> T) (k : K) (v : V) (c : LruCache) (s : T)
  : outcome assertion_failure (bool * LruCache * T) :=
  match m_mapped_values c !! k with
  | Some id =>
      let kvs := splice_front id (m_key_values c) in
      let kvs := node_set id (fun kv => (kv.1, v)) kvs in
      Returns (false, MkLru (m_capacity c) kvs (m_mapped_values c) (m_fresh c), s)
  | None =>
      if negb (0 <? m_capacity c) then Throws AssertionFailure
      else
        let '(c, s) :=
          if length (m_key_values c) =? m_capacity c then
            match last (m_key_values c) with
            | Some n => let s := on_key_evicted n.2.1 s in (drop_last c, s)
            | None => (c, s)
            end
          else (c, s) in
        let id := m_fresh c in
        Returns (true,
                 MkLru (m_capacity c) ((id, (k, v)) :: m_key_values c) (<[k := id]> (m_mapped_values c)) (S id),
                 s)
  end.

Definition lru_get (k : K) (c : LruCache) : Accessor * LruCache :=
  match m_mapped_values c !! k with
  | None => (None, c)
  | Some id =>
      (Some k, MkLru (m_capacity c) (splice_front id (m_key_values c)) (m_mapped_values c) (m_fresh c))
  end.

Definition make_lru (acc : Accessor) (c : LruCache) : LruCache :=
  match acc ≫= fun k => m_mapped_values c !! k with
  | Some id => MkLru (m_capacity c) (splice_back id (m_key_values c)) (m_mapped_values c) (m_fresh c)
  | None => c
  end.

(** The calls of [f], which threads a state and says whether to go on. *)
Fixpoint iterate_loop {T} (f : K -> V -> T -> bool * T) (l : list (node (K * V))) (s : T) : T :=
  match l with
  | [] => s
  | i :: l' => let '(go_on, s') := f i.2.1 i.2.2 s in if negb go_on then s' else iterate_loop f l' s'
  end.

Definition iterate_values {T} (f : K -> V -> T -> bool * T) (c : LruCache) (s : T) : T :=
  iterate_loop f (m_key_values c) s.

Definition lru_erase (k : K) (c : LruCache) : LruCache :=
  match m_mapped_values c !! k with
  | Some id =>
      MkLru (m_capacity c) (node_erase id (m_key_values c)) (delete k (m_mapped_values c)) (m_fresh c)
  | None => c
  end.

Definition lru_clear (c : LruCache) : LruCache := MkLru (m_capacity c) [] ∅ (m_fresh c).

(** ** The abstract cache *)

Record Lru := MkSpec { capacity : nat; entries : list (K * V) }.

Definition lookup_key (k : K) (l : list (K * V)) : option V := snd <$> find_key fst k l.
Abbreviation without := (remove_key fst).

Definition spec_insert (k : K) (v : V) (s : Lru) : outcome assertion_failure (bool * option K * Lru) :=
  match lookup_key k (entries s) with
  | Some _ => Returns (false, None, MkSpec (capacity s) ((k, v) :: without k (entries s)))
  | None =>
      if capacity s =? 0 then Throws AssertionFailure
      else if length (entries s) =? capacity s
      then Returns (true, fst <$> last (entries s), MkSpec (capacity s) ((k, v) :: removelast (entries s)))
      else Returns (true, None, MkSpec (capacity s) ((k, v) :: entries s))
  end.

Definition spec_get (k : K) (s : Lru) : option V * Lru :=
  match lookup_key k (entries s) with
  | Some v => (Some v, MkSpec (capacity s) ((k, v) :: without k (entries s)))
  | None => (None, s)
  end.

Definition spec_make_lru (k : K) (s : Lru) : Lru :=
  match lookup_key k (entries s) with
  | Some v => MkSpec (capacity s) (without k (entries s) ++ [(k, v)])
  | None => s
  end.

Definition spec_erase (k : K) (s : Lru) : Lru := MkSpec (capacity s) (without k (entries s)).
Definition spec_clear (s : Lru) : Lru := MkSpec (capacity s) [].
Definition spec_set_capacity (n : nat) (s : Lru) : Lru := MkSpec n (take n (entries s)).

(** ** The invariant and the abstraction *)

Record lru_inv (c : LruCache) : Prop := {
  inv_index : indexed fst (m_key_values c) (m_mapped_values c);
  inv_fresh : Forall (fun n => n.1 < m_fresh c) (m_key_values c);
  inv_bound : length (m_key_values c) <= m_capacity c
}.

Definition abs (c : LruCache) : Lru := MkSpec (m_capacity c) (contents (m_key_values c)).

Lemma fresh_erase id (l : list (node (K * V))) fr :
  Forall (fun n => n.1 < fr) l -> Forall (fun n => n.1 < fr) (node_erase id l).
Proof. rewrite !Forall_forall. intros Hl n [Hn _]%node_erase_elem. by apply Hl. Qed.

Lemma contents_length {A} (l : list (node A)) : length (contents l) = length l.
Proof. apply length_map. Qed.

Lemma size_entries c : lru_inv c -> lru_size c = length (entries (abs c)).
Proof. intros Hc. unfold lru_size, abs. cbn. rewrite contents_length. by eapply indexed_size, inv_index. Qed.

Lemma lookup_key_map c k :
  lru_inv c -> lookup_key k (entries (abs c)) = deref c (Some k).
Proof.
  intros Hc. unfold lookup_key, abs, deref. cbn. rewrite (find_key_contents fst _ _ _ (inv_index c Hc)).
  by destruct (m_mapped_values c !! k).
Qed.

Lemma lookup_key_absent c k : lru_inv c -> m_mapped_values c !! k = None <-> lookup_key k (entries (abs c)) = None.
Proof.
  intros Hc. rewrite (indexed_absent fst _ _ k (inv_index c Hc)). unfold lookup_key. cbn.
  by destruct (find_key fst k (contents (m_key_values c))).
Qed.

Lemma lookup_key_present c k id :
  lru_inv c -> m_mapped_values c !! k = Some id ->
  exists v, node_find (m_key_values c) id = Some (id, (k, v)) /\ lookup_key k (entries (abs c)) = Some v /\
            contents (node_erase id (m_key_values c)) = without k (entries (abs c)).
Proof.
  intros Hc Hm. destruct (indexed_contents fst _ _ k id (inv_index c Hc) Hm) as ([k' v] & Hf & Hk & Hfk & He).
  cbn in Hk. subst k'. exists v. split; [done|]. unfold lookup_key, abs. cbn. by rewrite Hfk, He.
Qed.

(** A splice moves a node and loses none. *)
Lemma splice_inv c k id l :
  lru_inv c -> m_mapped_values c !! k = Some id -> l ≡ₚ m_key_values c ->
  lru_inv (MkLru (m_capacity c) l (m_mapped_values c) (m_fresh c)).
Proof.
  intros [Hi Hf Hb] Hm Hp. split; cbn; by rewrite Hp.
Qed.

Lemma splice_front_perm c k id :
  lru_inv c -> m_mapped_values c !! k = Some id -> splice_front id (m_key_values c) ≡ₚ m_key_values c.
Proof.
  intros Hc Hm. destruct (lookup_key_present c k id Hc Hm) as (v & Hf & _). unfold splice_front. rewrite Hf.
  apply node_erase_perm; [apply Hc|done].
Qed.

Lemma splice_back_perm c k id :
  lru_inv c -> m_mapped_values c !! k = Some id -> splice_back id (m_key_values c) ≡ₚ m_key_values c.
Proof.
  intros Hc Hm. destruct (lookup_key_present c k id Hc Hm) as (v & Hf & _). unfold splice_back. rewrite Hf.
  rewrite <- Permutation_cons_append. apply node_erase_perm; [apply Hc|done].
Qed.

(** ** Each operation refines the abstract one *)

Lemma lru_get_refines k c :
  lru_inv c ->
  let '(acc, c') := lru_get k c in
  lru_inv c' /\ spec_get k (abs c) = (deref c' acc, abs c') /\ (acc = None \/ acc = Some k).
Proof.
  intros Hc. unfold lru_get, spec_get. destruct (m_mapped_values c !! k) as [id|] eqn:Hm.
  - pose proof (splice_inv c k id _ Hc Hm (splice_front_perm c k id Hc Hm)) as Hc'.
    split; [done|]. split; [|by right].
    rewrite <- (lookup_key_map _ k Hc'). destruct (lookup_key_present c k id Hc Hm) as (v & Hf & -> & He).
    unfold abs, lookup_key. cbn. destruct (splice_front_spec fst _ _ k id (k, v) (inv_index c Hc) Hm Hf) as [_ ->].
    unfold find_key, has_key. cbn. by rewrite bool_decide_true.
  - split; [done|]. split; [|by left]. by rewrite (proj1 (lookup_key_absent c k Hc) Hm).
Qed.

Lemma make_lru_refines k c :
  lru_inv c -> lru_inv (make_lru (Some k) c) /\ abs (make_lru (Some k) c) = spec_make_lru k (abs c).
Proof.
  intros Hc. unfold make_lru, spec_make_lru. cbn [mbind option_bind]. destruct (m_mapped_values c !! k) as [id|] eqn:Hm.
  - split; [apply (splice_inv c k id); [done..|by eapply splice_back_perm]|].
    destruct (lookup_key_present c k id Hc Hm) as (v & Hf & -> & He).
    unfold abs. cbn. by destruct (splice_back_spec fst _ _ k id (k, v) (inv_index c Hc) Hm Hf) as [_ ->].
  - split; [done|]. by rewrite (proj1 (lookup_key_absent c k Hc) Hm).
Qed.

Lemma remove_key_length k (l : list (K * V)) : length (without k l) <= length l.
Proof. apply List.filter_length_le. Qed.

Lemma lru_erase_refines k c :
  lru_inv c -> lru_inv (lru_erase k c) /\ abs (lru_erase k c) = spec_erase k (abs c).
Proof.
  intros Hc. unfold lru_erase, spec_erase. destruct (m_mapped_values c !! k) as [id|] eqn:Hm.
  - destruct (lookup_key_present c k id Hc Hm) as (v & Hf & _ & He). split.
    + split; cbn; [by apply indexed_erase; [apply Hc|]|by apply fresh_erase; apply Hc|].
      rewrite <- contents_length, He. unfold abs. cbn.
      pose proof (remove_key_length k (contents (m_key_values c))). rewrite contents_length in *.
      pose proof (inv_bound c Hc). lia.
    + unfold abs at 1. cbn. by rewrite He.
  - split; [done|]. unfold abs. f_equal. cbn. symmetry. apply remove_key_absent.
    by apply (indexed_absent fst _ _ k (inv_index c Hc)).
Qed.

Lemma lru_clear_refines c : lru_inv c -> lru_inv (lru_clear c) /\ abs (lru_clear c) = spec_clear (abs c).
Proof. intros Hc. split; [|done]. split; cbn; [apply indexed_empty|constructor|lia]. Qed.

Lemma last_removelast {A} (l : list A) x : last l = Some x -> l = removelast l ++ [x].
Proof. intros [l' ->]%last_Some. by rewrite removelast_last. Qed.

Lemma drop_last_refines c :
  lru_inv c -> m_key_values c <> [] ->
  lru_inv (drop_last c) /\ contents (m_key_values (drop_last c)) = removelast (contents (m_key_values c)) /\
  m_capacity (drop_last c) = m_capacity c /\ m_fresh (drop_last c) = m_fresh c /\
  lru_size (drop_last c) = lru_size c - 1 /\ length (m_key_values (drop_last c)) = length (m_key_values c) - 1.
Proof.
  intros Hc Hne. unfold drop_last. destruct (last (m_key_values c)) as [n|] eqn:E.
  2:{ by apply last_None in E. }
  apply last_removelast in E. unfold pop_back. set (l := removelast (m_key_values c)) in *.
  pose proof Hc as [Hi Hf Hb]. rewrite E in Hi, Hf, Hb.
  assert (m_mapped_values c !! n.2.1 = Some n.1) as Hm.
  { apply (indexed_node fst _ _ n Hi). set_solver. }
  assert (node_erase n.1 (l ++ [n]) = l) as He.
  { unfold node_erase, is_node. rewrite List.filter_app. cbn. rewrite Nat.eqb_refl. cbn. rewrite app_nil_r.
    apply List.forallb_filter_id, List.forallb_forall. intros x Hx%list_elem_of_In.
    apply negb_true_iff, Nat.eqb_neq. intros Ex. pose proof (ix_ids _ _ _ Hi) as Hnd.
    rewrite map_app in Hnd. apply NoDup_app in Hnd as (_ & Hd & _). apply (Hd x.1); [by apply list_elem_of_fmap_2|].
    rewrite Ex. by left. }
  pose proof (indexed_erase fst _ _ _ _ Hi Hm) as Hi'. rewrite He in Hi'.
  rewrite length_app in Hb. cbn in Hb. apply Forall_app in Hf as [Hf _].
  assert (lru_inv (MkLru (m_capacity c) l (delete n.2.1 (m_mapped_values c)) (m_fresh c))) as Hc'
    by (split; cbn; [done..|lia]).
  split; [done|].
  assert (length l = length (m_key_values c) - 1) as Hl by (rewrite E, length_app; cbn; lia).
  split; [|split; [done|split; [done|split; [|done]]]].
  - cbn. rewrite E. unfold contents. rewrite map_app. cbn. by rewrite removelast_last.
  - rewrite !size_entries by done. unfold abs. cbn. by rewrite !contents_length.
Qed.

Lemma iter_drop_last i c :
  lru_inv c -> i <= length (m_key_values c) ->
  let c' := Nat.iter i drop_last c in
  lru_inv c' /\ contents (m_key_values c') = take (length (m_key_values c) - i) (contents (m_key_values c)) /\
  m_capacity c' = m_capacity c /\ length (m_key_values c') = length (m_key_values c) - i.
Proof.
  intros Hc. induction i as [|i IH]; intros Hi.
  - rewrite Nat.sub_0_r. split; [done|]. split; [|done]. by rewrite firstn_all2 by (rewrite contents_length; lia).
  - destruct IH as (Hc' & E & Hcap & Hl); [lia|]. change (Nat.iter (S i) drop_last c) with (drop_last (Nat.iter i drop_last c)).
    set (d := Nat.iter i drop_last c) in *. clearbody d.
    destruct (drop_last_refines d Hc') as (Hd & Ed & Hcd & _ & _ & Hld); [intros E0; rewrite E0 in Hl; cbn in Hl; lia|].
    split; [done|]. rewrite Ed, E, Hcd, Hcap, Hld, Hl. split; [|split; [done|lia]].
    rewrite removelast_firstn_len, take_take, length_take, contents_length. f_equal. lia.
Qed.

Lemma set_capacity_refines n c :
  lru_inv c -> lru_inv (set_capacity n c) /\ abs (set_capacity n c) = spec_set_capacity n (abs c).
Proof.
  intros Hc. unfold set_capacity, spec_set_capacity. pose proof (size_entries c Hc) as Hs.
  unfold abs in Hs. cbn in Hs. rewrite contents_length in Hs. rewrite Hs.
  destruct (Nat.ltb_spec n (length (m_key_values c))) as [Hlt|Hge].
  - destruct (iter_drop_last (length (m_key_values c) - n) c Hc) as ([Hi Hf Hb] & E & Hcap & Hl); [lia|].
    set (d := Nat.iter _ drop_last c) in *. clearbody d. split; [split; cbn; [done..|lia]|].
    unfold abs. cbn. rewrite E. do 2 f_equal. lia.
  - destruct Hc as [Hi Hf Hb]. split; [by split|]. unfold abs. cbn.
    by rewrite firstn_all2 by (rewrite contents_length; lia).
Qed.

Lemma lru_new_refines n : lru_inv (lru_new n) /\ abs (lru_new n) = MkSpec n [].
Proof.
  destruct (set_capacity_refines n (MkLru 0 [] ∅ 0)) as [Hi Ha].
  { split; cbn; [apply indexed_empty|constructor|lia]. }
  split; [done|]. unfold lru_new. rewrite Ha. unfold spec_set_capacity, abs, contents. cbn. by rewrite take_nil.
Qed.

Lemma node_set_front id (k : K) (v w : V) (l : list (node (K * V))) :
  Forall (fun n => n.1 <> id) l ->
  node_set id (fun kv => (kv.1, w)) ((id, (k, v)) :: l) = (id, (k, w)) :: l.
Proof.
  intros Hl. unfold node_set, is_node. cbn. rewrite Nat.eqb_refl. f_equal.
  induction Hl as [|n l Hn _ IH]; [done|]. cbn. by rewrite (proj2 (Nat.eqb_neq _ _) Hn), IH.
Qed.

(** The update branch of [insert]. *)
Lemma lru_update_refines k v id c :
  lru_inv c -> m_mapped_values c !! k = Some id ->
  let c' := MkLru (m_capacity c) (node_set id (fun kv => (kv.1, v)) (splice_front id (m_key_values c)))
                  (m_mapped_values c) (m_fresh c) in
  lru_inv c' /\ abs c' = MkSpec (m_capacity c) ((k, v) :: without k (entries (abs c))).
Proof.
  intros Hc Hm. destruct (lookup_key_present c k id Hc Hm) as (w & Hf & _ & He).
  pose proof (splice_inv c k id _ Hc Hm (splice_front_perm c k id Hc Hm)) as [Hi Hfr Hb]. cbn in *.
  unfold splice_front in *. rewrite Hf in *.
  assert (Forall (fun n : node (K * V) => n.1 <> id) (node_erase id (m_key_values c))) as Hne.
  { apply Forall_forall. by intros n [_ Hn]%node_erase_elem. }
  split; [split; cbn|].
  - by apply node_set_indexed.
  - rewrite node_set_front by done. by rewrite Forall_cons in *.
  - by rewrite node_set_front.
  - unfold abs. cbn. rewrite node_set_front by done. unfold contents in *. cbn. by rewrite He.
Qed.

(** The branch of [insert] that adds a node. *)
Lemma lru_push_refines k v c :
  lru_inv c -> m_mapped_values c !! k = None -> length (m_key_values c) < m_capacity c ->
  let c' := MkLru (m_capacity c) ((m_fresh c, (k, v)) :: m_key_values c)
                  (<[k := m_fresh c]> (m_mapped_values c)) (S (m_fresh c)) in
  lru_inv c' /\ abs c' = MkSpec (m_capacity c) ((k, v) :: entries (abs c)).
Proof.
  intros [Hi Hf Hb] Hm Hl. split; [|done]. split; cbn.
  - by apply (indexed_add fst _ _ _ (k, v)).
  - constructor; [cbn; lia|]. eapply Forall_impl; [exact Hf|]. cbn. lia.
  - lia.
Qed.

Lemma lru_insert_refines {T} (hook : K -> T -> T) k v c (s : T) :
  lru_inv c ->
  match spec_insert k v (abs c) with
  | Returns (b, evicted, a') =>
      exists c', lru_insert hook k v c s = Returns (b, c', from_option (fun e => hook e s) s evicted) /\
                 lru_inv c' /\ abs c' = a'
  | Throws e => lru_insert hook k v c s = Throws e
  end.
Proof.
  intros Hc. unfold spec_insert, lru_insert. destruct (m_mapped_values c !! k) as [id|] eqn:Hm.
  - destruct (lookup_key_present c k id Hc Hm) as (w & _ & -> & _). eexists. split; [done|].
    by apply lru_update_refines.
  - rewrite (proj1 (lookup_key_absent c k Hc) Hm). unfold abs. cbn [entries capacity]. pose proof (inv_bound c Hc) as Hb.
    destruct (Nat.eqb_spec (m_capacity c) 0) as [E0|E0]; [by rewrite E0|].
    rewrite (proj2 (Nat.ltb_lt 0 (m_capacity c))) by lia. cbn [negb]. rewrite contents_length.
    destruct (Nat.eqb_spec (length (m_key_values c)) (m_capacity c)) as [Ec|Ec].
    + destruct (last (m_key_values c)) as [n|] eqn:El.
      2:{ apply last_None in El. rewrite El in Ec. cbn in Ec. lia. }
      destruct (drop_last_refines c Hc) as (Hd & Ed & Hcd & Hfd & _ & Hld); [intros E; rewrite E in El; done|].
      unfold contents at 1. rewrite fmap_last, El. cbn. eexists. split; [done|].
      destruct (lru_push_refines k v (drop_last c) Hd) as [Hp Ep].
      * unfold drop_last. rewrite El. cbn. by rewrite lookup_delete_None; right.
      * lia.
      * split; [exact Hp|]. etrans; [exact Ep|]. unfold abs. cbn [entries]. by rewrite Ed, Hcd.
    + eexists. split; [done|]. apply lru_push_refines; [done..|]. lia.
Qed.

(** ** Sequences of operations *)

Inductive lru_op :=
| OpInsert (k : K) (v : V)
| OpGet (k : K)
| OpMakeLru (k : K)                       (* [if (auto a = get(k)) make_lru(a)] *)
| OpErase (k : K)
| OpClear
| OpSetCapacity (n : nat)
| OpSize
| OpIterate (go_on : K -> V -> bool).

Inductive lru_obs :=
| ObsBool (b : bool)
| ObsValue (v : option V)
| ObsSize (n : nat)
| ObsVisited (l : list (K * V))
| ObsUnit.

(** The pairs [iterate_values] shows to a callback that answers [go_on]. *)
Definition visit (go_on : K -> V -> bool) : K -> V -> list (K * V) -> bool * list (K * V) :=
  fun k v seen => (go_on k v, seen ++ [(k, v)]).

Definition lru_step (op : lru_op) (c : LruCache) : outcome assertion_failure (lru_obs * LruCache) :=
  match op with
  | OpInsert k v =>
      match lru_insert (fun _ u => u) k v c tt with
      | Returns (b, c', _) => Returns (ObsBool b, c')
      | Throws e => Throws e
      end
  | OpGet k => let '(acc, c') := lru_get k c in Returns (ObsValue (deref c' acc), c')
  | OpMakeLru k =>
      let '(acc, c') := lru_get k c in
      Returns (ObsValue (deref c' acc), match acc with Some _ => make_lru acc c' | None => c' end)
  | OpErase k => Returns (ObsUnit, lru_erase k c)
  | OpClear => Returns (ObsUnit, lru_clear c)
  | OpSetCapacity n => Returns (ObsUnit, set_capacity n c)
  | OpSize => Returns (ObsSize (lru_size c), c)
  | OpIterate go_on => Returns (ObsVisited (iterate_values (visit go_on) c []), c)
  end.

(** The prefix of the entries up to the first one that stops the iteration, that one included. *)
Fixpoint visited (go_on : K -> V -> bool) (l : list (K * V)) : list (K * V) :=
  match l with
  | [] => []
  | (k, v) :: l' => (k, v) :: (if go_on k v then visited go_on l' else [])
  end.

Definition spec_step (op : lru_op) (s : Lru) : outcome assertion_failure (lru_obs * Lru) :=
  match op with
  | OpInsert k v =>
      match spec_insert k v s with
      | Returns (b, _, s') => Returns (ObsBool b, s')
      | Throws e => Throws e
      end
  | OpGet k => let '(v, s') := spec_get k s in Returns (ObsValue v, s')
  | OpMakeLru k => let '(v, s') := spec_get k s in Returns (ObsValue v, spec_make_lru k s')
  | OpErase k => Returns (ObsUnit, spec_erase k s)
  | OpClear => Returns (ObsUnit, spec_clear s)
  | OpSetCapacity n => Returns (ObsUnit, spec_set_capacity n s)
  | OpSize => Returns (ObsSize (length (entries s)), s)
  | OpIterate go_on => Returns (ObsVisited (visited go_on (entries s)), s)
  end.

(** The observations of a run, up to a failed assertion. *)
Fixpoint run {C} (step : lru_op -> C -> outcome assertion_failure (lru_obs * C)) (ops : list lru_op) (c : C)
  : list lru_obs * outcome assertion_failure C :=
  match ops with
  | [] => ([], Returns c)
  | op :: ops' =>
      match step op c with
      | Returns (o, c') => let '(os, end_) := run step ops' c' in (o :: os, end_)
      | Throws e => ([], Throws e)
      end
  end.

Lemma iterate_loop_visited go_on l seen :
  iterate_loop (visit go_on) l seen = seen ++ visited go_on (contents l).
Proof.
  revert seen. induction l as [|[id [k v]] l IH]; intros seen; [by rewrite app_nil_r|].
  unfold contents. cbn [iterate_loop map snd visited]. unfold visit at 1. cbn [fst snd].
  destruct (go_on k v); cbn [negb]; [|done]. rewrite IH, <- app_assoc. done.
Qed.

Lemma lru_step_refines op c :
  lru_inv c ->
  match lru_step op c, spec_step op (abs c) with
  | Returns (o, c'), Returns (o', s') => lru_inv c' /\ o = o' /\ abs c' = s'
  | Throws e, Throws e' => e = e'
  | _, _ => False
  end.
Proof.
  intros Hc. destruct op as [k v|k|k|k| |n| |go_on]; cbn [lru_step spec_step].
  - pose proof (lru_insert_refines (fun _ u => u) k v c tt Hc) as Hr.
    destruct (spec_insert k v (abs c)) as [[[b ev] a]|e]; [|by rewrite Hr].
    by destruct Hr as (c' & -> & Hc' & Ha).
  - pose proof (lru_get_refines k c Hc) as Hr. destruct (lru_get k c) as [acc c'].
    by destruct Hr as (Hc' & -> & _).
  - pose proof (lru_get_refines k c Hc) as Hr. destruct (lru_get k c) as [acc c'].
    destruct Hr as (Hc' & E & [-> | ->]); rewrite E.
    + split; [done|]. split; [done|]. unfold spec_make_lru.
      unfold spec_get in E. destruct (lookup_key k (entries (abs c))) eqn:El; [done|].
      injection E as E1 E2. unfold abs in *. by rewrite <- E1, <- E2, El.
    + destruct (make_lru_refines k c' Hc') as [Hm Ea]. done.
  - destruct (lru_erase_refines k c Hc) as [? ?]. done.
  - destruct (lru_clear_refines c Hc) as [? ?]. done.
  - destruct (set_capacity_refines n c Hc) as [? ?]. done.
  - by rewrite size_entries.
  - split; [done|]. split; [|done]. unfold iterate_values. by rewrite iterate_loop_visited.
Qed.

Lemma lru_run_refines ops c :
  lru_inv c ->
  (run lru_step ops c).1 = (run spec_step ops (abs c)).1 /\
  match (run lru_step ops c).2, (run spec_step ops (abs c)).2 with
  | Returns c', Returns s' => lru_inv c' /\ abs c' = s'
  | Throws e, Throws e' => e = e'
  | _, _ => False
  end.
Proof.
  revert c. induction ops as [|op ops IH]; intros c Hc; cbn [run]; [done|].
  pose proof (lru_step_refines op c Hc) as Hs.
  destruct (lru_step op c) as [[o c']|e], (spec_step op (abs c)) as [[o' s']|e']; try done.
  - destruct Hs as (Hc' & -> & <-). destruct (IH c' Hc') as [E1 E2].
    destruct (run lru_step ops c') as [os r], (run spec_step ops (abs c')) as [os' r']. cbn in *.
    by rewrite E1.
Qed.

(** Operations for which the documentation gives the capacity a meaning of its own: none sets it to zero. *)
Definition has_room (op : lru_op) : bool := match op with OpSetCapacity n => negb (n =? 0) | _ => true end.

(** With room for one entry the abstract cache never fails, and keeps its room. *)
Lemma spec_run_returns ops s : 0 < capacity s -> Forall (fun op => has_room op = true) ops -> exists s', (run spec_step ops s).2 = Returns s'.
Proof.
  revert s. induction ops as [|op ops IH]; intros s Hs Hops; cbn [run]; [by eexists|]. apply Forall_cons in Hops as [Hop Hops].
  assert (exists o s1, spec_step op s = Returns (o, s1) /\ 0 < capacity s1) as (o & s1 & -> & H1).
  { destruct op as [k v|k|k|k| |n| |go_on]; cbn [spec_step has_room] in *; unfold spec_insert, spec_get, spec_make_lru.
    - rewrite (proj2 (Nat.eqb_neq (capacity s) 0)) by lia. repeat case_match; simplify_eq/=; by eauto.
    - repeat case_match; simplify_eq/=; by eauto.
    - repeat case_match; simplify_eq/=; by eauto.
    - by eauto.
    - by eauto.
    - apply negb_true_iff, Nat.eqb_neq in Hop. eexists _, _. split; [done|]. cbn. lia.
    - by eauto.
    - by eauto. }
  destruct (IH s1 H1 Hops) as [s' E]. exists s'. by destruct (run spec_step ops s1).
Qed.

(** C3: Every sequence of operations on a new cache, as long as no capacity is zero, ends without a failed
    assertion, shows what the abstract list of recency shows, with every result, and ends in the state of that
    list: the entries by their last use, no more of them than the capacity, index and list in agreement. *)
Theorem lru_refinement n ops :
  0 < n -> Forall (fun op => has_room op = true) ops ->
  exists os c, run lru_step ops (lru_new n) = (os, Returns c) /\ run spec_step ops (MkSpec n []) = (os, Returns (abs c)) /\
    lru_inv c /\ length (entries (abs c)) <= capacity (abs c).
Proof.
  intros Hn Hops. destruct (lru_new_refines n) as [Hc Ha]. destruct (lru_run_refines ops _ Hc) as [E1 E2].
  rewrite Ha in E1, E2. destruct (spec_run_returns ops (MkSpec n []) Hn Hops) as [s' Es].
  destruct (run lru_step ops (lru_new n)) as [os [c|e]], (run spec_step ops (MkSpec n [])) as [os' r]; cbn [fst snd] in *; subst; try done.
  destruct E2 as [Hi <-]. exists os', c. split_and!; try done. cbn. rewrite contents_length. apply Hi.
Qed.

(** ** Which entry is evicted *)

(** Uses of other keys: an insertion or a lookup. *)
Definition is_use (k : K) (op : lru_op) : Prop :=
  match op with OpInsert k' _ | OpGet k' => k' <> k | _ => False end.
Definition used_key (op : lru_op) : option K :=
  match op with OpInsert k' _ | OpGet k' => Some k' | _ => None end.

(** The distinct keys used. *)
Definition used_keys (ops : list lru_op) : gset K := list_to_set (omap used_key ops).

(** [k] with value [v] sits behind entries whose keys are in [T]. *)
Definition behind (k : K) (v : V) (T : gset K) (s : Lru) : Prop :=
  exists pre post, entries s = pre ++ (k, v) :: post /\ NoDup (map fst (entries s)) /\
    (forall x, x ∈ pre -> x.1 ∈ T).

Lemma without_app k (l1 l2 : list (K * V)) : without k (l1 ++ l2) = without k l1 ++ without k l2.
Proof. apply List.filter_app. Qed.

Lemma without_NoDup k (l : list (K * V)) : NoDup (map fst l) -> NoDup (map fst (without k l)).
Proof.
  induction l as [|x l IH]; [done|]. cbn. intros [Hx Hn]%NoDup_cons. unfold remove_key. cbn.
  destruct (negb (has_key fst k x)); cbn; [|by apply IH]. constructor; [|by apply IH].
  intros (y & E & Hy)%list_elem_of_fmap. apply Hx. rewrite E. apply list_elem_of_fmap_2.
  apply list_elem_of_In, List.filter_In in Hy. apply list_elem_of_In, Hy.
Qed.

Lemma without_elem k (l : list (K * V)) x : x ∈ without k l <-> x ∈ l /\ x.1 <> k.
Proof.
  unfold remove_key, has_key. rewrite !list_elem_of_In, List.filter_In, negb_true_iff, bool_decide_eq_false. done.
Qed.

Lemma behind_front k v k' v' T s cap :
  k' <> k -> behind k v T s ->
  behind k v ({[ k' ]} ∪ T) (MkSpec cap ((k', v') :: without k' (entries s))).
Proof.
  intros Hk (pre & post & E & Hnd & Hpre). exists ((k', v') :: without k' pre), (without k' post). cbn.
  split; [|split].
  - rewrite E, without_app. f_equal. cbn. f_equal. unfold remove_key at 1. cbn. unfold has_key at 1. cbn.
    by rewrite bool_decide_false.
  - constructor; [|by apply without_NoDup]. intros (y & Ey & Hy)%list_elem_of_fmap.
    apply without_elem in Hy as [_ Hy]. congruence.
  - intros x [-> | Hx]%elem_of_cons; [set_solver|]. apply without_elem in Hx as [Hx _]. set_solver.
Qed.

Lemma find_key_absent_nodup k (l : list (K * V)) : lookup_key k l = None -> k ∉ map fst l.
Proof.
  unfold lookup_key. intros E (x & -> & Hx)%list_elem_of_fmap.
  destruct (find_key fst x.1 l) eqn:F; [done|]. rewrite find_key_None in F. by apply (F x).
Qed.

Lemma behind_length k v (T : gset K) s pre post :
  entries s = pre ++ (k, v) :: post -> NoDup (map fst (entries s)) -> (forall x, x ∈ pre -> x.1 ∈ T) ->
  length pre <= size T.
Proof.
  intros E Hnd Hpre. rewrite E, map_app in Hnd. apply NoDup_app in Hnd as (Hnd & _ & _).
  rewrite <- (length_map fst pre), <- (size_list_to_set (C := gset K)) by done. apply subseteq_size.
  intros x (y & -> & Hy)%elem_of_list_to_set%list_elem_of_fmap. by apply Hpre.
Qed.

Lemma behind_step k v (T : gset K) op s o s' :
  is_use k op -> behind k v T s -> size (used_keys [op] ∪ T) < capacity s ->
  spec_step op s = Returns (o, s') ->
  behind k v (used_keys [op] ∪ T) s' /\ capacity s' = capacity s.
Proof.
  intros Hu Hb Hsz Hs. destruct op as [k' w|k'| | | | | |]; try done; cbn in *;
    rewrite (right_id_L ∅ (∪)) in *.
  - unfold spec_insert in Hs. destruct (lookup_key k' (entries s)) eqn:El.
    + injection Hs as <- <-. split; [|done]. by apply behind_front.
    + apply find_key_absent_nodup in El. destruct (capacity s =? 0); [done|]. destruct Hb as (pre & post & E & Hnd & Hpre).
      assert (forall q t, entries s = (pre ++ (k, v) :: q) ++ t ->
                behind k v ({[ k' ]} ∪ T) (MkSpec (capacity s) ((k', w) :: pre ++ (k, v) :: q))) as Hadd.
      { intros q t El'. exists ((k', w) :: pre), q. cbn. split; [done|]. rewrite El', map_app in Hnd, El.
        apply NoDup_app in Hnd as (Hnd & _). split; [constructor; [set_solver|done]|].
        intros x [-> | Hx]%elem_of_cons; set_solver. }
      destruct (Nat.eqb_spec (length (entries s)) (capacity s)) as [Ec|Ec]; injection Hs as <- <-; (split; [|done]).
      * destruct post as [|p post] using rev_ind.
        -- exfalso. assert (length ((k', w) :: pre) <= size ({[ k' ]} ∪ T)) as Hl.
           { eapply (behind_length k v _ (MkSpec 0 (((k', w) :: pre) ++ [(k, v)])) _ []); [done|..].
             - cbn. rewrite <- E. by constructor.
             - intros x [-> | Hx]%elem_of_cons; set_solver. }
           rewrite E, length_app in Ec. cbn in *. lia.
        -- rewrite app_comm_cons, app_assoc in E. rewrite E, removelast_last. by apply (Hadd post [p]).
      * rewrite E. apply (Hadd post []). by rewrite app_nil_r.
  - unfold spec_get in Hs. destruct (lookup_key k' (entries s)) as [w|] eqn:El; injection Hs as <- <-; (split; [|done]).
    + by apply behind_front.
    + destruct Hb as (pre & post & E & Hnd & Hpre). exists pre, post. set_solver.
Qed.

Lemma behind_run k v T ops s :
  Forall (is_use k) ops -> behind k v T s -> size (used_keys ops ∪ T) < capacity s ->
  exists os s', run spec_step ops s = (os, Returns s') /\ lookup_key k (entries s') = Some v.
Proof.
  revert T s. induction ops as [|op ops IH]; intros T s Hu Hb Hsz; cbn [run].
  - exists [], s. split; [done|]. destruct Hb as (pre & post & E & Hnd & _). unfold lookup_key.
    rewrite E, map_app in *. destruct (find_key fst k (pre ++ (k, v) :: post)) as [[k' w]|] eqn:F.
    + pose proof F as [Hin Hk]%find_key_Some. cbn in Hk. subst k'.
      apply elem_of_app in Hin as [Hin|[[= ->]|Hin]%elem_of_cons]; [exfalso|done|exfalso].
      * apply NoDup_app in Hnd as (_ & Hd & _). apply (Hd k); [by apply (list_elem_of_fmap_2 fst) in Hin|by left].
      * apply NoDup_app in Hnd as (_ & _ & [Hn _]%NoDup_cons). apply Hn. by apply (list_elem_of_fmap_2 fst) in Hin.
    + rewrite find_key_None in F. exfalso. apply (F (k, v)); [set_solver|done].
  - apply Forall_cons in Hu as [Hop Hu].
    assert (used_keys (op :: ops) ∪ T = used_keys ops ∪ (used_keys [op] ∪ T)) as Eu.
    { unfold used_keys. cbn. destruct (used_key op); set_solver. }
    rewrite Eu in Hsz.
    assert (size (used_keys [op] ∪ T) <= size (used_keys ops ∪ (used_keys [op] ∪ T))) by (apply subseteq_size; set_solver).
    destruct (spec_step op s) as [[o s']|e] eqn:Es.
    + destruct (behind_step k v T op s o s' Hop Hb) as [Hb' Hcap]; [lia|done|].
      destruct (IH _ s' Hu Hb') as (os & s2 & -> & El); [lia|]. by exists (o :: os), s2.
    + exfalso. destruct op as [k' w|k'| | | | | |]; try done; cbn in Es.
      * unfold spec_insert in Es. destruct (lookup_key k' (entries s)); [done|].
        destruct (Nat.eqb_spec (capacity s) 0); [lia|]. by destruct (_ =? _).
      * by destruct (spec_get k' s).
Qed.

(** An entry that was just inserted is still found, with its value, after any insertions and
    lookups of other keys as long as these are fewer distinct keys than the capacity. *)
Theorem lru_recent_survives k v ops c b c1 :
  lru_inv c -> lru_insert (fun _ u => u) k v c tt = Returns (b, c1, tt) ->
  Forall (is_use k) ops -> size (used_keys ops) < m_capacity c ->
  exists os c2, run lru_step ops c1 = (os, Returns c2) /\
    let '(acc, c3) := lru_get k c2 in deref c3 acc = Some v.
Proof.
  intros Hc Hins Hu Hsz. pose proof (lru_insert_refines (fun _ u => u) k v c tt Hc) as Hr.
  destruct (spec_insert k v (abs c)) as [[[b' ev] a]|e] eqn:Es; [|congruence].
  destruct Hr as (c' & E & Hc1 & Ha). rewrite Hins in E. injection E as <- <- _.
  assert (behind k v ∅ a /\ capacity a = m_capacity c) as [Hb Hcap].
  { assert (exists post, entries a = (k, v) :: post /\ capacity a = m_capacity c) as (post & Ep & Hcap).
    { unfold spec_insert in Es. repeat case_match; simplify_eq/=; eauto. }
    split; [|done]. exists [], post. split; [done|]. split; [|set_solver].
    rewrite <- Ha. unfold abs. cbn. by eapply indexed_keys_nodup, inv_index. }
  destruct (behind_run k v ∅ ops a Hu Hb) as (os & s' & E & El).
  { rewrite Hcap. by rewrite (right_id_L ∅ (∪)). }
  destruct (lru_run_refines ops c1 Hc1) as [E1 E2]. rewrite Ha, E in E1, E2. cbn in E1, E2.
  destruct (run lru_step ops c1) as [os' [c2|]]; cbn in *; [|done]. destruct E2 as [Hc2 Ea2]. subst.
  exists os, c2. split; [done|]. pose proof (lru_get_refines k c2 Hc2) as Hg. destruct (lru_get k c2) as [acc c3].
  destruct Hg as (_ & Hg & _). unfold spec_get in Hg. rewrite El in Hg. by injection Hg.
Qed.
End Lru.

Lemma lru_refinement_witness :
  exists c, run (K := Z) (V := Z) lru_step [OpInsert 1 10; OpInsert 2 20; OpGet 1; OpInsert 3 30; OpGet 2; OpSetCapacity 1; OpSize]%Z (lru_new 2) =
              ([ObsBool true; ObsBool true; ObsValue (Some 10%Z); ObsBool true; ObsValue None; ObsUnit; ObsSize 1], Returns c) /\
            entries (abs c) = [(3, 30)]%Z.
Proof.
  destruct (lru_refinement (K := Z) (V := Z) 2 [OpInsert 1 10; OpInsert 2 20; OpGet 1; OpInsert 3 30; OpGet 2; OpSetCapacity 1; OpSize]%Z)
    as (os & c & E & Es & _); [lia|by repeat constructor|]. exists c. 
  assert (run (K := Z) (V := Z) spec_step [OpInsert 1 10; OpInsert 2 20; OpGet 1; OpInsert 3 30; OpGet 2; OpSetCapacity 1; OpSize]%Z (MkSpec 2 []) =
    ([ObsBool true; ObsBool true; ObsValue (Some 10%Z); ObsBool true; ObsValue None; ObsUnit; ObsSize 1], Returns (MkSpec 1 [(3, 30)%Z]))) as Hs
    by by vm_compute.
  rewrite Hs in Es. injection Es as <- Ec En. split; [exact E|symmetry; exact En].
Defined.

Definition one_entry : LruCache (K := Z) (V := Z) :=
  match lru_insert (fun _ u => u) 1%Z 10%Z (lru_new 3) tt with
  | Returns (_, c, _) => c
  | Throws _ => lru_new 3
  end.

Lemma lru_recent_survives_witness :
  exists os c2, run lru_step [OpInsert 2%Z 20%Z; OpGet 7%Z; OpInsert 2%Z 21%Z] one_entry = (os, Returns c2) /\
    let '(acc, c3) := lru_get 1%Z c2 in deref c3 acc = Some 10%Z.
Proof.
  apply (lru_recent_survives 1%Z 10%Z _ (lru_new 3) true).
  - apply lru_new_refines.
  - by vm_compute.
  - by repeat constructor.
  - apply (bool_decide_eq_true (_ < _)). by vm_compute.
Defined.
