(* ===== verification/LruTimeoutCache.v ===== *)
(** * The cache with timeouts and recency: class [LruTimeoutCache] of [common/include/common/cache.h]

    It adds to [LruCache] a [std::multimap] from expiry times to keys and a map from keys to its
    iterators.  Times are nanoseconds; each reading of the clock is an argument. *)

From S2P Require Export LruCache.
From stdpp Require Import sorting.
From S2P Require Import StringView.

Section LruTimeout.
Context {K V : Type} `{Countable K}.

Local Abbreviation store := (LruCache (K := K) (V := V)).
Local Abbreviation Accessor := (option K).

(** An element of the multimap: the time point, and [TimeoutKey] with the timeout and the key. *)
Abbreviation entry := (Z * (Z * K))%type.

(** [m_timeout_keys] and [m_keys_timeout_iters]. *)
Record Timeouts := MkTimeouts {
  m_timeout_keys : list (node entry);
  m_keys_timeout_iters : gmap K nat;
  t_fresh : nat
}.

Record LruTimeoutCache := MkTimeoutCache {
  base : store;
  timeouts : Timeouts;
  TIMEOUT : Z;
  AUTO_UPDATE : bool
}.

(** ** Operations *)

Definition ltc_new (s : nat) (to : Z) (up : bool) : LruTimeoutCache :=
  MkTimeoutCache (lru_new s) (MkTimeouts [] ∅ 0) to up.

(** [multimap::emplace]: behind the elements with the same key. *)
Fixpoint emplace (n : node entry) (l : list (node entry)) : list (node entry) :=
  match l with
  | [] => [n]
  | x :: l' => if (n.2.1 <? x.2.1)%Z then n :: l else x :: emplace n l'
  end.

(** [on_key_evicted]; the same two erasures open [insert] and [erase]. *)
Definition on_key_evicted (k : K) (t : Timeouts) : Timeouts :=
  match m_keys_timeout_iters t !! k with
  | Some id => MkTimeouts (node_erase id (m_timeout_keys t)) (delete k (m_keys_timeout_iters t)) (t_fresh t)
  | None => t
  end.

(** Adding the entry of [k], which the index does not have. *)
Definition add_timeout (time to : Z) (k : K) (t : Timeouts) : Timeouts :=
  let id := t_fresh t in
  MkTimeouts (emplace (id, (time, (to, k))) (m_timeout_keys t)) (<[k := id]> (m_keys_timeout_iters t)) (S id).

(** The loop of [update] from [begin()] to [lower_bound(current_time)]. *)
Fixpoint update_loop (current_time : Z) (l : list (node entry)) (iters : gmap K nat) (b : store)
  : list (node entry) * gmap K nat * store :=
  match l with
  | [] => ([], iters, b)
  | i :: l' =>
      if (i.2.1 <? current_time)%Z then
        update_loop current_time l' (delete i.2.2.2 iters) (lru_erase i.2.2.2 b)
      else (l, iters, b)
  end.

Definition update (current_time : Z) (c : LruTimeoutCache) : LruTimeoutCache :=
  let t := timeouts c in
  let '(l, iters, b) := update_loop current_time (m_timeout_keys t) (m_keys_timeout_iters t) (base c) in
  MkTimeoutCache b (MkTimeouts l iters (t_fresh t)) (TIMEOUT c) (AUTO_UPDATE c).

Definition auto_update (now : Z) (c : LruTimeoutCache) : LruTimeoutCache :=
  if AUTO_UPDATE c then update now c else c.

(** What [insert] keeps of an existing timeout. *)
Definition effective_timeout (k : K) (to : Z) (preserve_longer_timeout : bool) (t : Timeouts) : Z :=
  match m_keys_timeout_iters t !! k ≫= node_get (m_timeout_keys t) with
  | Some e => if preserve_longer_timeout && (to <? e.2.1)%Z then e.2.1 else to
  | None => to
  end.

(** [insert(k, v, to, preserve_longer_timeout)]; [now1] is read by [update], [now2] after it. *)
Definition ltc_insert_to (now1 now2 : Z) (k : K) (v : V) (to : Z) (preserve_longer_timeout : bool)
    (c : LruTimeoutCache) : outcome assertion_failure (bool * LruTimeoutCache) :=
  let c := auto_update now1 c in
  let to := effective_timeout k to preserve_longer_timeout (timeouts c) in
  let t := on_key_evicted k (timeouts c) in
  let t := add_timeout (now2 + to) to k t in
  match lru_insert on_key_evicted k v (base c) t with
  | Returns (b, base', t') => Returns (b, MkTimeoutCache base' t' (TIMEOUT c) (AUTO_UPDATE c))
  | Throws e => Throws e
  end.

Definition ltc_insert (now1 now2 : Z) (k : K) (v : V) (c : LruTimeoutCache) :=
  ltc_insert_to now1 now2 k v (TIMEOUT c) false c.

(** The part of [get] that moves the entry of a found key: emplace the copy, erase the old node. *)
Definition refresh_timeout (now : Z) (k : K) (t : Timeouts) : option Timeouts :=
  match m_keys_timeout_iters t !! k with
  | None => None
  | Some keyi =>
      match node_get (m_timeout_keys t) keyi with
      | None => None
      | Some e =>
          let toi := t_fresh t in
          let l := emplace (toi, ((now + e.2.1)%Z, e.2)) (m_timeout_keys t) in
          Some (MkTimeouts (node_erase keyi l) (<[k := toi]> (m_keys_timeout_iters t)) (S toi))
      end
  end.

Definition ltc_get (now1 now2 : Z) (k : K) (c : LruTimeoutCache)
  : outcome assertion_failure (Accessor * LruTimeoutCache) :=
  let c := auto_update now1 c in
  let '(v, b) := lru_get k (base c) in
  match v with
  | None => Returns (None, MkTimeoutCache b (timeouts c) (TIMEOUT c) (AUTO_UPDATE c))
  | Some _ =>
      match refresh_timeout now2 k (timeouts c) with
      | None => Throws AssertionFailure
      | Some t => Returns (v, MkTimeoutCache b t (TIMEOUT c) (AUTO_UPDATE c))
      end
  end.

Definition ltc_clear (c : LruTimeoutCache) : LruTimeoutCache :=
  MkTimeoutCache (lru_clear (base c)) (MkTimeouts [] ∅ (t_fresh (timeouts c))) (TIMEOUT c) (AUTO_UPDATE c).

Definition ltc_erase (now1 : Z) (k : K) (c : LruTimeoutCache) : LruTimeoutCache :=
  let c := auto_update now1 c in
  MkTimeoutCache (lru_erase k (base c)) (on_key_evicted k (timeouts c)) (TIMEOUT c) (AUTO_UPDATE c).

(** [set_capacity] and [make_lru] are inherited. *)
Definition ltc_set_capacity (n : nat) (c : LruTimeoutCache) : LruTimeoutCache :=
  MkTimeoutCache (set_capacity n (base c)) (timeouts c) (TIMEOUT c) (AUTO_UPDATE c).

Definition ltc_make_lru (acc : Accessor) (c : LruTimeoutCache) : LruTimeoutCache :=
  MkTimeoutCache (make_lru acc (base c)) (timeouts c) (TIMEOUT c) (AUTO_UPDATE c).

(** ** What is observed of a key *)

Definition entry_key (e : entry) : K := e.2.2.

(** Expiry time and timeout of [k]. *)
Definition deadline (c : LruTimeoutCache) (k : K) : option (Z * Z) :=
  (fun e => (e.1, e.2.1)) <$> find_key entry_key k (contents (m_timeout_keys (timeouts c))).

(** Value stored under [k]. *)
Definition value_of (c : LruTimeoutCache) (k : K) : option V := lookup_key k (entries (abs (base c))).

(** ** The invariant *)

Definition by_time (a b : node entry) : Prop := (a.2.1 <= b.2.1)%Z.

Record tinv (t : Timeouts) : Prop := {
  t_index : indexed entry_key (m_timeout_keys t) (m_keys_timeout_iters t);
  t_ids : Forall (fun n => n.1 < t_fresh t) (m_timeout_keys t);
  t_sorted : StronglySorted by_time (m_timeout_keys t)
}.

Record ltc_inv (c : LruTimeoutCache) : Prop := {
  i_base : lru_inv (base c);
  i_timeouts : tinv (timeouts c);
  i_covered : forall k, is_Some (m_mapped_values (base c) !! k) -> is_Some (m_keys_timeout_iters (timeouts c) !! k)
}.

(** No timeout without an entry. *)
Definition no_leak (c : LruTimeoutCache) : Prop :=
  forall k, is_Some (m_keys_timeout_iters (timeouts c) !! k) -> is_Some (m_mapped_values (base c) !! k).

Lemma emplace_perm n l : emplace n l ≡ₚ n :: l.
Proof. induction l as [|x l IH]; [done|]. cbn. destruct (_ <? _)%Z; [done|]. rewrite IH. apply Permutation_swap. Qed.

Lemma emplace_sorted n l : StronglySorted by_time l -> StronglySorted by_time (emplace n l).
Proof.
  induction 1 as [|x l Hl IH Hx]; cbn; [by repeat constructor|].
  destruct (Z.ltb_spec n.2.1 x.2.1) as [Hlt|Hge].
  - constructor; [by constructor|]. constructor; [unfold by_time; lia|].
    eapply Forall_impl; [exact Hx|]. unfold by_time. lia.
  - constructor; [done|]. rewrite emplace_perm. by constructor.
Qed.

Lemma filter_sorted {A} (R : A -> A -> Prop) p (l : list A) :
  StronglySorted R l -> StronglySorted R (List.filter p l).
Proof.
  induction 1 as [|x l Hl IH Hx]; cbn; [constructor|]. destruct (p x); [|done]. constructor; [done|].
  rewrite Forall_forall in *. intros y [Hy _]%list_elem_of_In%List.filter_In. apply Hx. by apply list_elem_of_In.
Qed.

(** Erasing and adding entries keeps the invariant; what they do to the deadlines. *)
Lemma on_key_evicted_spec k t :
  tinv t ->
  tinv (on_key_evicted k t) /\ m_keys_timeout_iters (on_key_evicted k t) = delete k (m_keys_timeout_iters t) /\
  contents (m_timeout_keys (on_key_evicted k t)) = remove_key entry_key k (contents (m_timeout_keys t)) /\
  t_fresh (on_key_evicted k t) = t_fresh t.
Proof.
  intros [Hi Hf Hs]. unfold on_key_evicted. destruct (m_keys_timeout_iters t !! k) as [id|] eqn:E; cbn.
  - destruct (indexed_contents _ _ _ k id Hi E) as (e & _ & _ & _ & He). split; [|done]. split; cbn.
    + by apply indexed_erase.
    + rewrite Forall_forall in *. intros n [Hn _]%node_erase_elem. by apply Hf.
    + by apply filter_sorted.
  - split; [done|]. rewrite delete_id by done. split; [done|]. split; [|done]. symmetry.
    by apply remove_key_absent, (indexed_absent entry_key _ (m_keys_timeout_iters t)).
Qed.

Lemma add_timeout_spec time to k t :
  tinv t -> m_keys_timeout_iters t !! k = None ->
  tinv (add_timeout time to k t) /\
  contents (m_timeout_keys (add_timeout time to k t)) ≡ₚ (time, (to, k)) :: contents (m_timeout_keys t).
Proof.
  intros [Hi Hf Hs] Hk. unfold add_timeout. cbn. split.
  - split; cbn.
    + rewrite emplace_perm. by apply (indexed_add entry_key _ _ _ (time, (to, k))).
    + rewrite emplace_perm. constructor; [cbn; lia|]. eapply Forall_impl; [exact Hf|]. cbn. lia.
    + by apply emplace_sorted.
  - unfold contents. by rewrite emplace_perm.
Qed.

Lemma contents_keys_nodup t : tinv t -> NoDup (map entry_key (contents (m_timeout_keys t))).
Proof. intros Ht. by eapply indexed_keys_nodup, t_index. Qed.

Lemma deadline_iff c k d :
  ltc_inv c -> deadline c k = Some d <-> (d.1, (d.2, k)) ∈ contents (m_timeout_keys (timeouts c)).
Proof.
  intros Hc. pose proof (contents_keys_nodup _ (i_timeouts c Hc)) as Hn. unfold deadline.
  rewrite fmap_Some. setoid_rewrite (find_key_iff entry_key); [|done]. split.
  - intros ([t [to k']] & [Hin Hk] & ->). cbn in *. unfold entry_key in Hk. cbn in Hk. by subst.
  - intros Hin. exists (d.1, (d.2, k)). by destruct d.
Qed.

(** ** [update] removes the expired entries and nothing else *)

Lemma lru_erase_map k (b : store) : m_mapped_values (lru_erase k b) = delete k (m_mapped_values b).
Proof. unfold lru_erase. destruct (m_mapped_values b !! k) eqn:E; [done|]. by rewrite delete_id. Qed.

(** The entries of a list of pairs whose key is not in [ks]. *)
Definition except (ks : list K) (l : list (K * V)) : list (K * V) :=
  List.filter (fun kv => negb (bool_decide (kv.1 ∈ ks))) l.

Lemma except_cons k ks l : except ks (remove_key fst k l) = except (k :: ks) l.
Proof.
  unfold except, remove_key, has_key. induction l as [|kv l IH]; [done|]. cbn.
  destruct (decide (kv.1 = k)) as [->|Hne].
  - rewrite !bool_decide_true by (done || left). cbn. apply IH.
  - rewrite (bool_decide_false _ Hne). cbn. rewrite IH.
    rewrite (bool_decide_ext (kv.1 ∈ k :: ks) (kv.1 ∈ ks)); [done|]. set_solver.
Qed.

Lemma except_abs (b : store) : MkSpec (capacity (abs b)) (except [] (entries (abs b))) = abs b.
Proof.
  unfold except. destruct (abs b) as [cap es]. cbn. f_equal.
  by apply List.forallb_filter_id, List.forallb_forall.
Qed.

Lemma lookup_except k ks l :
  lookup_key k (except ks l) = if bool_decide (k ∈ ks) then None else lookup_key (V := V) k l.
Proof.
  unfold lookup_key, find_key, except, has_key. induction l as [|kv l IH]; cbn; [by case_bool_decide|].
  destruct (decide (kv.1 = k)) as [<-|Hne].
  - rewrite (bool_decide_true (kv.1 = kv.1)) by done. case_bool_decide; cbn; [done|].
    by rewrite bool_decide_true.
  - rewrite (bool_decide_false _ Hne). destruct (negb _); cbn; [rewrite (bool_decide_false _ Hne)|]; done.
Qed.

Lemma update_loop_spec now l iters (b : store) :
  indexed entry_key l iters -> StronglySorted by_time l -> lru_inv b ->
  let '(l', iters', b') := update_loop now l iters b in
  exists pre, l = pre ++ l' /\ Forall (fun n => n.2.1 < now)%Z pre /\ Forall (fun n => now <= n.2.1)%Z l' /\
    indexed entry_key l' iters' /\ lru_inv b' /\
    abs b' = MkSpec (capacity (abs b)) (except (map entry_key (contents pre)) (entries (abs b))) /\
    (forall k, m_mapped_values b' !! k = if bool_decide (k ∈ map entry_key (contents pre)) then None else m_mapped_values b !! k) /\
    (forall k, iters' !! k = if bool_decide (k ∈ map entry_key (contents pre)) then None else iters !! k).
Proof.
  revert iters b. induction l as [|[id e] l IH]; intros iters b Hi Hs Hb; cbn [update_loop].
  { exists []. do 5 (split; [done || constructor|]). by rewrite except_abs. }
  inversion Hs as [|? ? Hs' Hx]; subst. cbn [snd fst]. destruct (Z.ltb_spec e.1 now) as [Hlt|Hge].
  - apply indexed_tail in Hi as [Hi Hm]. destruct (lru_erase_refines e.2.2 b Hb) as [Hb' Ha].
    specialize (IH _ _ Hi Hs' Hb'). unfold entry_key in IH at 1. destruct (update_loop now l _ _) as [[l' iters'] b'].
    destruct IH as (pre & -> & Hp & Hl & Hi' & Hb2 & Ha2 & Hm2 & Hit). exists ((id, e) :: pre).
    split; [done|]. split; [by constructor|]. do 3 (split; [done|]). split; [|split].
    + rewrite Ha2, Ha. cbn. f_equal. apply except_cons.
    + intros k. rewrite Hm2, lru_erase_map. unfold contents. cbn. destruct (decide (k = e.2.2)) as [->|Hne].
      * rewrite (bool_decide_true (_ ∈ _ :: _)) by left. rewrite lookup_delete_eq. by case_bool_decide.
      * rewrite lookup_delete_ne by done. rewrite (bool_decide_ext (k ∈ _ :: _) (k ∈ map entry_key (map snd pre))); [done|]. set_solver.
    + intros k. rewrite Hit. unfold contents. cbn. destruct (decide (k = e.2.2)) as [->|Hne].
      * rewrite (bool_decide_true (_ ∈ _ :: _)) by left. unfold entry_key at 2. rewrite lookup_delete_eq. by case_bool_decide.
      * unfold entry_key at 2. rewrite lookup_delete_ne by done.
        rewrite (bool_decide_ext (k ∈ _ :: _) (k ∈ map entry_key (map snd pre))); [done|]. set_solver.
  - exists []. split; [done|]. split; [constructor|]. split.
    { constructor; [done|]. eapply Forall_impl; [exact Hx|]. unfold by_time. cbn. lia. }
    do 2 (split; [done|]). by rewrite except_abs.
Qed.

(** A deadline that has not passed at [now]. *)
Definition alive (now : Z) (d : option (Z * Z)) : bool :=
  match d with Some (t, _) => negb (t <? now)%Z | None => false end.

Lemma deadline_None c k : ltc_inv c -> deadline c k = None -> value_of c k = None.
Proof.
  intros Hc Hd. unfold value_of. apply lookup_key_absent; [apply Hc|].
  destruct (m_mapped_values (base c) !! k) as [id|] eqn:E; [|done].
  destruct (i_covered c Hc k ltac:(eauto)) as [id' E']. unfold deadline in Hd.
  destruct (indexed_contents _ _ _ k id' (t_index _ (i_timeouts c Hc)) E') as (e & _ & _ & F & _).
  by rewrite F in Hd.
Qed.

(** The keys of the expired run at the front of the multimap. *)
Lemma expired_keys now c pre l k :
  ltc_inv c -> m_timeout_keys (timeouts c) = pre ++ l ->
  Forall (fun n => n.2.1 < now)%Z pre -> Forall (fun n => now <= n.2.1)%Z l ->
  k ∈ map entry_key (contents pre) <-> deadline c k <> None /\ alive now (deadline c k) = false.
Proof.
  intros Hc El Hp Hl. rewrite Forall_forall in Hp, Hl. split.
  - intros (e & -> & ([id [t [to k']]] & -> & Hn)%list_elem_of_fmap)%list_elem_of_fmap. cbn.
    specialize (Hp _ Hn). cbn in Hp.
    assert (deadline c k' = Some (t, to)) as ->.
    { apply deadline_iff; [done|]. rewrite El. unfold contents. rewrite map_app, elem_of_app. left.
      by apply (list_elem_of_fmap_2 snd) in Hn. }
    split; [done|]. cbn. lia.
  - intros [Hne Ha]. destruct (deadline c k) as [[t to]|] eqn:Hd; [|done]. cbn in Ha.
    apply deadline_iff in Hd; [|done]. rewrite El in Hd. unfold contents in Hd.
    rewrite map_app, elem_of_app in Hd. destruct Hd as [Hd|Hd]; [by apply (list_elem_of_fmap_2 entry_key) in Hd|].
    apply list_elem_of_fmap in Hd as (n & En & Hn). specialize (Hl _ Hn). cbn in En. rewrite <- En in Hl. cbn in Hl. lia.
Qed.

(** The deadlines left when the expired run is dropped. *)
Lemma deadline_rest now c c' pre k :
  ltc_inv c -> ltc_inv c' -> m_timeout_keys (timeouts c) = pre ++ m_timeout_keys (timeouts c') ->
  Forall (fun n => n.2.1 < now)%Z pre -> Forall (fun n => now <= n.2.1)%Z (m_timeout_keys (timeouts c')) ->
  deadline c' k = if alive now (deadline c k) then deadline c k else None.
Proof.
  intros Hc Hc' El Hp Hl. pose proof (expired_keys now c pre _ k Hc El Hp Hl) as Hk.
  assert (forall d, deadline c' k = Some d -> deadline c k = Some d /\ (now <= d.1)%Z) as Hsub.
  { intros d Hd. apply deadline_iff in Hd; [|done]. split.
    - apply deadline_iff; [done|]. rewrite El. unfold contents. rewrite map_app. set_solver.
    - apply list_elem_of_fmap in Hd as (n & En & Hn). rewrite Forall_forall in Hl. specialize (Hl _ Hn).
      rewrite <- En in Hl. done. }
  destruct (alive now (deadline c k)) eqn:Ha.
  - destruct (deadline c k) as [d|] eqn:Hd; [|done]. apply deadline_iff; [done|].
    apply deadline_iff in Hd; [|done]. rewrite El in Hd. unfold contents in Hd.
    rewrite map_app, elem_of_app in Hd. destruct Hd as [Hd|Hd]; [|done].
    apply (list_elem_of_fmap_2 entry_key) in Hd. apply Hk in Hd as [_ Hd]. done.
  - destruct (deadline c' k) as [d|] eqn:Hd; [|done]. destruct (Hsub d eq_refl) as [E Hge].
    rewrite E in Ha. destruct d as [t to]. cbn in *. lia.
Qed.

(** Invariant, deadlines, values and leaks after [update]. *)
Lemma update_spec now c :
  ltc_inv c ->
  let c' := update now c in
  ltc_inv c' /\
  (forall k, deadline c' k = if alive now (deadline c k) then deadline c k else None) /\
  (forall k, value_of c' k = if alive now (deadline c k) then value_of c k else None) /\
  (no_leak c -> no_leak c') /\ TIMEOUT c' = TIMEOUT c /\ AUTO_UPDATE c' = AUTO_UPDATE c.
Proof.
  intros Hc. pose proof Hc as [Hb [Hi Hf Hs] Hcov]. unfold update.
  pose proof (update_loop_spec now _ _ _ Hi Hs Hb) as Hu.
  destruct (update_loop _ _ _ _) as [[l' iters'] b'].
  destruct Hu as (pre & El & Hp & Hl & Hi' & Hb' & Ha & Hm & Hit).
  set (c' := MkTimeoutCache b' _ _ _).
  assert (ltc_inv c') as Hc'.
  { rewrite El in Hf, Hs. split; cbn; [done| |].
    - split; cbn; [done|by apply Forall_app in Hf as [_ Hf]|by apply StronglySorted_app_1_r in Hs].
    - intros k. rewrite Hm, Hit. case_bool_decide; [by intros [??]|]. apply Hcov. }
  split; [done|]. split; [intros k; by apply (deadline_rest now c c' pre)|]. split; [|split; [|done]].
  - intros k. unfold value_of at 1. change (base c') with b'. rewrite Ha. cbn [entries]. rewrite lookup_except.
    pose proof (expired_keys now c pre l' k Hc El Hp Hl) as Hk. destruct (alive now (deadline c k)) eqn:Hal.
    + by rewrite bool_decide_false by (rewrite Hk; naive_solver).
    + case_bool_decide as Hin; [done|]. apply deadline_None; [done|].
      destruct (deadline c k) eqn:Hd; [|done]. exfalso. apply Hin, Hk. done.
  - intros Hn k. cbn. rewrite Hm, Hit. case_bool_decide; [by intros [??]|]. apply Hn.
Qed.

(** [update] keeps the invariant and removes exactly the entries whose deadline is before the
    current time: their value and their timeout go, all others stay. *)
Theorem update_removes_expired now c :
  ltc_inv c ->
  ltc_inv (update now c) /\
  (forall k, deadline (update now c) k = if alive now (deadline c k) then deadline c k else None) /\
  (forall k, value_of (update now c) k = if alive now (deadline c k) then value_of c k else None).
Proof. intros Hc. by destruct (update_spec now c Hc) as (? & ? & ? & _). Qed.

Lemma auto_update_inv now c :
  ltc_inv c -> ltc_inv (auto_update now c) /\ (no_leak c -> no_leak (auto_update now c)) /\
               TIMEOUT (auto_update now c) = TIMEOUT c /\ AUTO_UPDATE (auto_update now c) = AUTO_UPDATE c.
Proof.
  intros Hc. unfold auto_update. destruct (AUTO_UPDATE c) eqn:E; [|done].
  destruct (update_spec now c Hc) as (? & _ & _ & ? & -> & ->). done.
Qed.

(** ** [get] *)

Lemma refresh_timeout_spec now k t :
  tinv t -> is_Some (m_keys_timeout_iters t !! k) ->
  exists t' e, refresh_timeout now k t = Some t' /\ tinv t' /\
    find_key entry_key k (contents (m_timeout_keys t)) = Some e /\
    contents (m_timeout_keys t') ≡ₚ ((now + e.2.1)%Z, e.2) :: remove_key entry_key k (contents (m_timeout_keys t)) /\
    (forall x, is_Some (m_keys_timeout_iters t' !! x) <-> is_Some (m_keys_timeout_iters t !! x)).
Proof.
  intros [Hi Hf Hs] [id Hk]. destruct (indexed_contents _ _ _ k id Hi Hk) as (e & Hfd & Hek & Hfk & He).
  unfold refresh_timeout. rewrite Hk. unfold node_get. rewrite Hfd. cbn [fmap option_fmap option_map snd].
  eexists _, e. split; [done|]. set (n := (t_fresh t, ((now + e.2.1)%Z, e.2))).
  assert (node_erase id (emplace n (m_timeout_keys t)) ≡ₚ n :: node_erase id (m_timeout_keys t)) as Hp.
  { rewrite emplace_perm, node_erase_cons_ne; [done|]. cbn.
    unfold node_find in Hfd. apply List.find_some in Hfd as [Hin%list_elem_of_In _].
    rewrite Forall_forall in Hf. specialize (Hf _ Hin). cbn in Hf. lia. }
  assert (m_keys_timeout_iters t !! entry_key ((now + e.2.1)%Z, e.2) = Some id) as Hke by (unfold entry_key in *; cbn in *; by rewrite Hek).
  split; [|split; [done|split]].
  - split; cbn.
    + rewrite Hp, <- insert_delete_eq. rewrite <- Hek.
      apply (indexed_add entry_key _ _ (t_fresh t) ((now + e.2.1)%Z, e.2)).
      * apply indexed_erase; [done|]. by rewrite Hek.
      * rewrite Forall_forall in *. intros x [Hx _]%node_erase_elem. by apply Hf.
      * rewrite Hek. unfold entry_key in *. cbn. rewrite Hek. by rewrite lookup_delete_eq.
    + rewrite Hp. constructor; [cbn; lia|]. rewrite Forall_forall in *.
      intros x [Hx _]%node_erase_elem. specialize (Hf _ Hx). lia.
    + apply filter_sorted. by apply emplace_sorted.
  - cbn. unfold contents at 1. rewrite Hp. cbn. fold (contents (node_erase id (m_timeout_keys t))). by rewrite He.
  - intros x. cbn. rewrite lookup_insert_is_Some. destruct (decide (k = x)) as [<-|]; [|naive_solver].
    rewrite Hk. naive_solver.
Qed.

Lemma mapped_value (b : store) k :
  lru_inv b -> is_Some (m_mapped_values b !! k) <-> is_Some (lookup_key k (entries (abs b))).
Proof.
  intros Hb. rewrite <- !not_eq_None_Some. by rewrite lookup_key_absent.
Qed.

(** The deadlines after one entry was replaced. *)
Lemma deadline_replaced c c' k d l :
  ltc_inv c -> ltc_inv c' -> l = contents (m_timeout_keys (timeouts c)) ->
  contents (m_timeout_keys (timeouts c')) ≡ₚ (d.1, (d.2, k)) :: remove_key entry_key k l ->
  deadline c' k = Some d /\ forall x, x <> k -> deadline c' x = deadline c x.
Proof.
  intros Hc Hc' -> Hp. split; [apply deadline_iff; [done|]; rewrite Hp; by left|]. intros x Hx.
  apply option_eq. intros d'. rewrite !deadline_iff, Hp, elem_of_cons by done.
  unfold remove_key, has_key. rewrite (list_elem_of_In (List.filter _ _)), List.filter_In, <- list_elem_of_In.
  rewrite negb_true_iff, bool_decide_eq_false. unfold entry_key. cbn. naive_solver.
Qed.

Lemma ltc_get_spec now1 now2 k c :
  ltc_inv c ->
  let c0 := auto_update now1 c in
  exists acc c', ltc_get now1 now2 k c = Returns (acc, c') /\ ltc_inv c' /\ (no_leak c -> no_leak c') /\
    deref (base c') acc = value_of c0 k /\
    (forall x, x <> k -> deadline c' x = deadline c0 x) /\
    deadline c' k = match value_of c0 k with
                    | Some _ => (fun d => (now2 + d.2, d.2)%Z) <$> deadline c0 k
                    | None => deadline c0 k
                    end /\
    AUTO_UPDATE c' = AUTO_UPDATE c.
Proof.
  intros Hc. destruct (auto_update_inv now1 c Hc) as (Hc0 & Hleak & _ & HA). cbv zeta. unfold ltc_get.
  set (c0 := auto_update now1 c) in *. clearbody c0. pose proof Hc0 as [Hb Ht Hcov].
  pose proof (lru_get_refines k (base c0) Hb) as Hg.
  assert (forall x, m_mapped_values (lru_get k (base c0)).2 !! x = m_mapped_values (base c0) !! x) as Hmap.
  { intros x. unfold lru_get. by destruct (m_mapped_values (base c0) !! k). }
  assert ((lru_get k (base c0)).1 = None <-> m_mapped_values (base c0) !! k = None) as Hnone.
  { unfold lru_get. by destruct (m_mapped_values (base c0) !! k). }
  destruct (lru_get k (base c0)) as [acc b]. cbn [fst snd] in *. destruct Hg as (Hb' & Hspec & Hacc).
  assert (deref b acc = value_of c0 k) as Hd.
  { unfold spec_get in Hspec. unfold value_of. destruct (lookup_key k (entries (abs (base c0)))); by injection Hspec. }
  assert (forall t, tinv t -> (forall x, is_Some (m_keys_timeout_iters t !! x) <-> is_Some (m_keys_timeout_iters (timeouts c0) !! x)) ->
            let c' := MkTimeoutCache b t (TIMEOUT c0) (AUTO_UPDATE c0) in
            ltc_inv c' /\ (no_leak c -> no_leak c')) as Hmk.
  { intros t Ht' Hdom. split.
    - split; cbn; [done..|]. intros x. rewrite Hmap, Hdom. apply Hcov.
    - intros Hn x. cbn. rewrite Hmap, Hdom. apply Hleak, Hn. }
  destruct acc as [k'|].
  - destruct Hacc as [|[= ->]]; [done|].
    assert (is_Some (m_mapped_values (base c0) !! k)) as Hk by (rewrite <- not_eq_None_Some, <- Hnone; done).
    destruct (refresh_timeout_spec now2 k (timeouts c0) Ht (Hcov k Hk)) as (t' & e & -> & Ht' & Hfk & Hp & Hdom).
    destruct (Hmk t' Ht' Hdom) as [Hc' Hl']. eexists _, _. split; [done|]. split; [done|]. split; [done|]. split; [done|].
    apply (mapped_value _ k Hb) in Hk as [v Hv].
    pose proof (find_key_Some _ _ _ _ Hfk) as [_ Hek].
    destruct (deadline_replaced c0 _ k (now2 + e.2.1, e.2.1)%Z _ Hc0 Hc' eq_refl) as [Hdk Hdx].
    { cbn. rewrite Hp. unfold entry_key in Hek. by destruct e as [t [to k']]; cbn in *; subst. }
    split; [done|]. split; [|done]. rewrite Hdk. unfold value_of. rewrite Hv. unfold deadline. by rewrite Hfk.
  - destruct (Hmk (timeouts c0) Ht) as [Hc' Hl']; [done|]. eexists _, _. split; [done|]. do 4 (split; [done|]).
    split; [|done]. by rewrite <- Hd.
Qed.

(** [get] never fails its assertion and keeps the invariant.  With automatic update it returns the
    value exactly when the deadline of the key has not passed, and then moves the deadline of that key
    alone to the current time plus its timeout. *)
Theorem ltc_get_correct now1 now2 k c :
  ltc_inv c -> AUTO_UPDATE c = true ->
  exists acc c', ltc_get now1 now2 k c = Returns (acc, c') /\ ltc_inv c' /\
    deref (base c') acc = (if alive now1 (deadline c k) then value_of c k else None) /\
    (forall v, deref (base c') acc = Some v ->
       exists t to, deadline c k = Some (t, to) /\ deadline c' k = Some (now2 + to, to)%Z) /\
    (forall x, x <> k -> deadline c' x = if alive now1 (deadline c x) then deadline c x else None).
Proof.
  intros Hc HA. destruct (ltc_get_spec now1 now2 k c Hc) as (acc & c' & E & Hc' & _ & Hd & Hx & Hk & _).
  exists acc, c'. split; [done|]. split; [done|].
  destruct (update_spec now1 c Hc) as (_ & Hdl & Hv & _). unfold auto_update in *. rewrite HA in *.
  rewrite Hd, Hv in *. split; [done|]. split; [|intros x Hne; by rewrite Hx, Hdl].
  intros v Hval. rewrite Hval in Hk. rewrite Hdl in Hk.
  destruct (deadline c k) as [[t to]|]; cbn in *; [|done].
  destruct (negb (t <? now1)%Z); [|done]. by exists t, to.
Qed.

(** ** [insert] *)

Lemma lookup_cons_eq k (v : V) (l : list (K * V)) : lookup_key k ((k, v) :: l) = Some v.
Proof. unfold lookup_key, find_key, has_key. cbn. by rewrite bool_decide_true. Qed.

Lemma lookup_cons_ne k x (v : V) (l : list (K * V)) : x <> k -> lookup_key x ((k, v) :: l) = lookup_key x l.
Proof. intros Hx. unfold lookup_key, find_key, has_key. cbn. by rewrite bool_decide_false. Qed.

Lemma lookup_without k x (l : list (K * V)) : x <> k -> lookup_key x (remove_key fst k l) = lookup_key x l.
Proof.
  intros Hx. pose proof (lookup_except x [k] l) as Hl. rewrite <- except_cons in Hl. unfold except in Hl at 1.
  rewrite List.forallb_filter_id in Hl by (by apply List.forallb_forall). rewrite Hl.
  by rewrite bool_decide_false by set_solver.
Qed.

(** Without its last element a list still finds every other key. *)
Lemma lookup_removelast x e (l : list (K * V)) :
  NoDup (map fst l) -> last l = Some e ->
  lookup_key x (removelast l) = if bool_decide (x = e.1) then None else lookup_key x l.
Proof.
  intros Hnd Ee. pose proof (last_removelast _ _ Ee) as Es. rewrite Es, map_app in Hnd.
  apply NoDup_app in Hnd as (_ & Hn & _). rewrite Es at 2. case_bool_decide as Heq.
  - unfold lookup_key. rewrite (proj2 (find_key_None _ _ _)); [done|].
    intros a Ha Hk. apply (Hn e.1); [|by left]. rewrite <- Heq, <- Hk. by apply list_elem_of_fmap_2.
  - unfold lookup_key, find_key. generalize (removelast l). intros k. induction k as [|y k IH]; cbn.
    + unfold has_key. rewrite bool_decide_false; [done|congruence].
    + by destruct (has_key fst x y).
Qed.

Lemma spec_insert_lookup (k : K) (v : V) s b (ev : option K) s' :
  NoDup (map fst (entries s)) -> spec_insert k v s = Returns (b, ev, s') ->
  lookup_key k (entries s') = Some v /\
  (forall x, x <> k -> lookup_key x (entries s') = if bool_decide (ev = Some x) then None else lookup_key x (entries s)) /\
  ev <> Some k /\ b = bool_decide (lookup_key k (entries s) = None).
Proof.
  intros Hnd Hs. unfold spec_insert in Hs. destruct (lookup_key k (entries s)) as [w|] eqn:El.
  - injection Hs as <- <- <-. cbn. rewrite lookup_cons_eq. split; [done|]. split; [|done].
    intros x Hx. rewrite lookup_cons_ne by done. by apply lookup_without.
  - destruct (capacity s =? 0); [done|].
    destruct (_ =? _); injection Hs as <- <- <-; cbn [entries]; rewrite lookup_cons_eq; (split; [done|]).
    + destruct (last (entries s)) as [e|] eqn:Ee; cbn.
      * split; [|split; [|done]].
        -- intros x Hx. rewrite lookup_cons_ne, (lookup_removelast x e) by done.
           erewrite bool_decide_ext; [done|]. naive_solver.
        -- intros [= <-]. unfold lookup_key in El. rewrite fmap_None, find_key_None in El. apply (El e); [|done].
           rewrite (last_removelast _ _ Ee). set_solver.
      * apply last_None in Ee. rewrite Ee. cbn. split; [|done]. intros x Hx. by rewrite lookup_cons_ne.
    + split; [|done]. intros x Hx. by rewrite lookup_cons_ne.
Qed.

(** Replacing the timeout of [k], the opening of [insert]. *)
Lemma put_timeout time to k t :
  tinv t ->
  let t' := add_timeout time to k (on_key_evicted k t) in
  tinv t' /\ (forall x, is_Some (m_keys_timeout_iters t' !! x) <-> x = k \/ is_Some (m_keys_timeout_iters t !! x)) /\
  contents (m_timeout_keys t') ≡ₚ (time, (to, k)) :: remove_key entry_key k (contents (m_timeout_keys t)).
Proof.
  intros Ht. destruct (on_key_evicted_spec k t Ht) as (Ht1 & Hm1 & Hp1 & _).
  destruct (add_timeout_spec time to k _ Ht1) as (Ht2 & Hp2); [by rewrite Hm1, lookup_delete_eq|].
  split; [done|]. split; [|by rewrite <- Hp1]. intros x. cbn. rewrite Hm1, insert_delete_eq, lookup_insert_is_Some.
  destruct (decide (k = x)); naive_solver.
Qed.

(** The timeouts after the eviction of a key, if any. *)
Lemma evict_timeouts (ev : option K) t :
  tinv t ->
  let t' := from_option (fun e => on_key_evicted e t) t ev in
  tinv t' /\
  (forall x, is_Some (m_keys_timeout_iters t' !! x) <-> ev <> Some x /\ is_Some (m_keys_timeout_iters t !! x)) /\
  (forall e, e ∈ contents (m_timeout_keys t') <-> ev <> Some (entry_key e) /\ e ∈ contents (m_timeout_keys t)).
Proof.
  intros Ht. destruct ev as [k|]; cbn; [|naive_solver].
  destruct (on_key_evicted_spec k t Ht) as (Hta & Hma & Hpa & _). split; [done|]. split.
  - intros x. rewrite Hma. destruct (decide (k = x)) as [->|Hne].
    + rewrite lookup_delete_eq. split; [by intros [??]|naive_solver].
    + rewrite lookup_delete_ne by done. naive_solver congruence.
  - intros e. rewrite Hpa. unfold remove_key, has_key.
    rewrite !list_elem_of_In, List.filter_In, negb_true_iff, bool_decide_eq_false. naive_solver congruence.
Qed.

(** [insert] after [update]: the new state, key by key. *)
Lemma ltc_insert_spec now1 now2 k v to preserve c :
  ltc_inv c ->
  let c0 := auto_update now1 c in
  let to' := effective_timeout k to preserve (timeouts c0) in
  match ltc_insert_to now1 now2 k v to preserve c with
  | Returns (b, c') =>
      ltc_inv c' /\ (no_leak c -> no_leak c') /\ b = bool_decide (value_of c0 k = None) /\
      value_of c' k = Some v /\ deadline c' k = Some (now2 + to', to')%Z /\
      forall x, x <> k ->
        (value_of c' x = value_of c0 x /\ deadline c' x = deadline c0 x) \/
        (value_of c' x = None /\ deadline c' x = None)
  | Throws _ => m_capacity (base c0) = 0 /\ value_of c0 k = None
  end.
Proof.
  intros Hc. destruct (auto_update_inv now1 c Hc) as (Hc0 & Hleak & _ & HA). cbv zeta. unfold ltc_insert_to.
  set (c0 := auto_update now1 c) in *. clearbody c0. pose proof Hc0 as [Hb Ht Hcov].
  set (to' := effective_timeout k to preserve (timeouts c0)).
  destruct (put_timeout (now2 + to') to' k _ Ht) as (Ht2 & Hm2 & Hp2).
  set (t2 := add_timeout (now2 + to') to' k _) in *. clearbody t2.
  pose proof (lru_insert_refines on_key_evicted k v (base c0) t2 Hb) as Hr.
  destruct (spec_insert k v (abs (base c0))) as [[[b ev] a]|e] eqn:Es.
  2:{ rewrite Hr. unfold spec_insert in Es. unfold value_of. destruct (lookup_key k (entries (abs (base c0)))); [done|].
      destruct (Nat.eqb_spec (capacity (abs (base c0))) 0) as [E|E]; [done|]. by destruct (_ =? _). }
  destruct Hr as (b' & -> & Hb' & Ha).
  assert (NoDup (map fst (entries (abs (base c0))))) as Hnd by (by eapply indexed_keys_nodup, inv_index).
  destruct (spec_insert_lookup k v _ b ev a Hnd Es) as (Hk & Hx & Hev & Hbv). rewrite <- Ha in Hk, Hx.
  destruct (evict_timeouts ev t2 Ht2) as (Ht3 & Hm3 & Hp3). set (t3 := from_option _ _ ev) in *. clearbody t3.
  set (c' := MkTimeoutCache b' t3 _ _).
  assert (forall x, is_Some (m_mapped_values b' !! x) <-> x = k \/ ev <> Some x /\ is_Some (m_mapped_values (base c0) !! x)) as Hm'.
  { intros x. rewrite !mapped_value by done. destruct (decide (x = k)) as [->|Hne].
    { rewrite Hk. split; [by left|done]. }
    rewrite Hx by done. destruct (decide (ev = Some x)) as [E|E].
    - rewrite bool_decide_true by done. split; [by intros [??]|]. by intros [?|[??]].
    - rewrite bool_decide_false by done. split; [by right|]. by intros [?|[??]]. }
  assert (ltc_inv c') as Hc'.
  { split; cbn; [done..|]. intros x. rewrite Hm', Hm3, Hm2. specialize (Hcov x).
    intros [-> | [? ?]]; tauto. }
  split; [done|]. split; [intros Hn x; cbn; rewrite Hm', Hm3, Hm2; specialize (Hleak Hn x); tauto|].
  split; [done|]. split; [done|]. split.
  - apply deadline_iff; [done|]. cbn. rewrite Hp3, Hp2. split; [done|left].
  - intros x Hne. unfold value_of. cbn. rewrite Hx by done. destruct (decide (ev = Some x)) as [E|E].
    + right. rewrite bool_decide_true by done. split; [done|]. destruct (deadline c' x) as [d|] eqn:Hd; [|done]. exfalso.
      apply deadline_iff in Hd; [|done]. by apply Hp3 in Hd as [Hd _].
    + left. rewrite bool_decide_false by done. split; [done|]. apply option_eq. intros d. rewrite !deadline_iff by done. cbn. rewrite Hp3, Hp2, elem_of_cons.
      unfold remove_key, has_key. rewrite (list_elem_of_In (List.filter _ _)), List.filter_In, <- list_elem_of_In.
      rewrite negb_true_iff, bool_decide_eq_false. unfold entry_key. cbn. naive_solver.
Qed.

(** [insert] stores the value with a deadline of the current time plus the timeout, keeping a
    longer previous timeout when asked to; every other key keeps its value and deadline, expires, or
    is evicted with both; the answer says whether the key was absent; only a cache of capacity zero
    fails its assertion. *)
Theorem ltc_insert_correct now1 now2 k v to preserve c :
  ltc_inv c ->
  let c0 := auto_update now1 c in
  let to' := match deadline c0 k with
             | Some (_, old) => if preserve && (to <? old)%Z then old else to
             | None => to
             end in
  match ltc_insert_to now1 now2 k v to preserve c with
  | Returns (b, c') =>
      ltc_inv c' /\ b = bool_decide (value_of c0 k = None) /\
      value_of c' k = Some v /\ deadline c' k = Some (now2 + to', to')%Z /\
      forall x, x <> k ->
        (value_of c' x = value_of c0 x /\ deadline c' x = deadline c0 x) \/
        (value_of c' x = None /\ deadline c' x = None)
  | Throws _ => m_capacity (base c0) = 0 /\ value_of c0 k = None
  end.
Proof.
  intros Hc. pose proof (ltc_insert_spec now1 now2 k v to preserve c Hc) as Hs. cbv zeta in *.
  destruct (auto_update_inv now1 c Hc) as ([_ [Hi _ _] _] & _).
  set (c0 := auto_update now1 c) in *. clearbody c0.
  assert (effective_timeout k to preserve (timeouts c0)
          = match deadline c0 k with
            | Some (_, old) => if preserve && (to <? old)%Z then old else to
            | None => to
            end) as <-.
  { unfold effective_timeout, deadline. rewrite <- (find_key_contents entry_key _ _ _ Hi).
    by destruct (find_key entry_key k _) as [[t [old k']]|]. }
  destruct (ltc_insert_to _ _ _ _ _ _ _) as [[b c']|]; [|done]. by destruct Hs as (? & _ & ?).
Qed.

(** ** Reachable states *)

(** One operation of a cache that did not fail an assertion. *)
Inductive ltc_step : LruTimeoutCache -> LruTimeoutCache -> Prop :=
| StepInsert now1 now2 k v to preserve c b c' :
    ltc_insert_to now1 now2 k v to preserve c = Returns (b, c') -> ltc_step c c'
| StepGet now1 now2 k c acc c' : ltc_get now1 now2 k c = Returns (acc, c') -> ltc_step c c'
| StepErase now k c : ltc_step c (ltc_erase now k c)
| StepUpdate now c : ltc_step c (update now c)
| StepClear c : ltc_step c (ltc_clear c)
| StepMakeLru k c : ltc_step c (ltc_make_lru (Some k) c).

(** The same with [set_capacity], which [LruCache] declares without a virtual hook. *)
Inductive ltc_step_any (c c' : LruTimeoutCache) : Prop :=
| AnyStep : ltc_step c c' -> ltc_step_any c c'
| AnySetCapacity n : c' = ltc_set_capacity n c -> ltc_step_any c c'.

Lemma ltc_erase_inv now k c : ltc_inv c -> ltc_inv (ltc_erase now k c) /\ (no_leak c -> no_leak (ltc_erase now k c)).
Proof.
  intros Hc. destruct (auto_update_inv now c Hc) as (Hc0 & Hleak & _). unfold ltc_erase.
  set (c0 := auto_update now c) in *. clearbody c0. pose proof Hc0 as [Hb Ht Hcov].
  destruct (on_key_evicted_spec k _ Ht) as (Ht' & Hm & _). destruct (lru_erase_refines k _ Hb) as [Hb' _]. split.
  - split; cbn; [done..|]. intros x. rewrite lru_erase_map, Hm, !lookup_delete_is_Some. specialize (Hcov x). naive_solver.
  - intros Hn x. cbn. rewrite lru_erase_map, Hm, !lookup_delete_is_Some. specialize (Hleak Hn x). naive_solver.
Qed.

Lemma make_lru_map acc (b : store) : m_mapped_values (make_lru acc b) = m_mapped_values b.
Proof. unfold make_lru. by destruct (acc ≫= _). Qed.

Lemma ltc_step_inv c c' : ltc_step c c' -> ltc_inv c -> ltc_inv c' /\ (no_leak c -> no_leak c').
Proof.
  intros Hs Hc. destruct Hs as [now1 now2 k v to p c b c' E|now1 now2 k c acc c' E|now k c|now c|c|k c].
  - pose proof (ltc_insert_spec now1 now2 k v to p c Hc) as Hi. rewrite E in Hi. naive_solver.
  - destruct (ltc_get_spec now1 now2 k c Hc) as (a & d & E' & Hd & Hn & _). rewrite E in E'. by injection E' as -> ->.
  - by apply ltc_erase_inv.
  - by destruct (update_spec now c Hc) as (? & _ & _ & ? & _).
  - split.
    + split; cbn; [by apply lru_clear_refines, Hc| |by intros k []%lookup_empty_is_Some].
      split; cbn; [apply indexed_empty|constructor..].
    + intros _ k. cbn. by intros []%lookup_empty_is_Some.
  - destruct Hc as [Hb Ht Hcov]. split.
    + split; cbn; [by apply make_lru_refines|done|]. intros x. rewrite make_lru_map. apply Hcov.
    + intros Hn x. cbn. rewrite make_lru_map. apply Hn.
Qed.

Lemma ltc_step_any_inv c c' : ltc_step_any c c' -> ltc_inv c -> ltc_inv c'.
Proof.
  intros [Hs|n ->] Hc; [by apply (ltc_step_inv c c')|]. destruct Hc as [Hb Ht Hcov].
  destruct (set_capacity_refines n (base c) Hb) as [Hb' Ha]. split; [done..|].
  intros k Hk. apply Hcov. change (base (ltc_set_capacity n c)) with (set_capacity n (base c)) in Hk.
  rewrite mapped_value, Ha in Hk by done. rewrite mapped_value by done.
  destruct Hk as [v (e & [Hin%subseteq_take Hk]%find_key_Some & _)%fmap_Some].
  unfold lookup_key. destruct (find_key fst k (entries (abs (base c)))) eqn:E; [by eexists|].
  rewrite find_key_None in E. by apply E in Hin.
Qed.

Lemma ltc_new_inv n to up : ltc_inv (ltc_new n to up) /\ no_leak (ltc_new n to up).
Proof.
  split; [|intros k; cbn; by intros []%lookup_empty_is_Some]. split.
  - apply lru_new_refines.
  - split; cbn; [apply indexed_empty|constructor..].
  - intros k. change (base (ltc_new n to up)) with (lru_new (K := K) (V := V) n). rewrite mapped_value by apply lru_new_refines. rewrite (proj2 (lru_new_refines n)).
    by intros [??].
Qed.

(** C30: In every state reachable from a new cache the invariant holds: the multimap is sorted and
    agrees with its index, and every cached key has a deadline.  Without [set_capacity] there is also
    no deadline without a cached key. *)
Theorem ltc_reachable n to up c :
  (rtc ltc_step_any (ltc_new n to up) c -> ltc_inv c) /\
  (rtc ltc_step (ltc_new n to up) c ->
   forall k, is_Some (m_keys_timeout_iters (timeouts c) !! k) <-> is_Some (m_mapped_values (base c) !! k)).
Proof.
  destruct (ltc_new_inv n to up) as [Hi Hn]. generalize dependent (ltc_new n to up). intros c0 Hi Hn. split.
  - clear Hn. intros Hr. induction Hr as [|c0 c1 c2 Hs _ IH]; [done|]. eauto using ltc_step_any_inv.
  - intros Hr. enough (ltc_inv c /\ no_leak c) as [Hc Hl] by (intros k; split; [apply Hl|apply Hc]).
    induction Hr as [|c0 c1 c2 Hs _ IH]; [done|]. destruct (ltc_step_inv c0 c1 Hs Hi). auto.
Qed.
End LruTimeout.

(** [set_capacity] drops entries without [on_key_evicted], so their deadlines stay behind. *)
Lemma ltc_set_capacity_leaks :
  exists c1 c2 : LruTimeoutCache (K := Z) (V := Z),
    ltc_insert 0 0 1%Z 10%Z (ltc_new 2 1000 true) = Returns (true, c1) /\
    ltc_insert 0 0 2%Z 20%Z c1 = Returns (true, c2) /\
    value_of (ltc_set_capacity 1 c2) 1%Z = None /\
    deadline (ltc_set_capacity 1 c2) 1%Z = Some (1000, 1000)%Z.
Proof. do 2 eexists. split; [vm_compute; reflexivity|]. split; [vm_compute; reflexivity|]. by vm_compute. Qed.

(** A cache with one entry, whose deadline is at 1000. *)
Definition one_timed : LruTimeoutCache (K := Z) (V := Z) :=
  match ltc_insert_to 0 0 1%Z 10%Z 1000 false (ltc_new 2 1000 true) with
  | Returns (_, c) => c
  | Throws _ => ltc_new 2 1000 true
  end.

Lemma one_timed_inv : ltc_inv one_timed.
Proof.
  apply (ltc_step_inv (ltc_new 2 1000 true)); [|apply ltc_new_inv].
  apply (StepInsert 0 0 1%Z 10%Z 1000 false _ true). by vm_compute.
Qed.

Lemma update_removes_expired_witness :
  value_of (update 1000 one_timed) 1%Z = Some 10%Z /\ value_of (update 1001 one_timed) 1%Z = None.
Proof.
  destruct (update_removes_expired 1000 one_timed one_timed_inv) as (_ & _ & H0).
  destruct (update_removes_expired 1001 one_timed one_timed_inv) as (_ & _ & H1).
  rewrite H0, H1. by vm_compute.
Defined.

Lemma ltc_get_correct_witness :
  exists acc c', ltc_get 500 501 1%Z one_timed = Returns (acc, c') /\ deref (base c') acc = Some 10%Z /\
    deadline c' 1%Z = Some (1501, 1000)%Z.
Proof.
  destruct (ltc_get_correct 500 501 1%Z one_timed one_timed_inv) as (acc & c' & E & _ & Hd & Hv & _); [by vm_compute|].
  assert (deref (base c') acc = Some 10%Z) as Ha by (rewrite Hd; by vm_compute).
  exists acc, c'. split; [done|]. split; [done|]. destruct (Hv _ Ha) as (t & to & E1 & E2).
  assert (deadline one_timed 1%Z = Some (1000, 1000)%Z) as E3 by (by vm_compute).
  rewrite E3 in E1. injection E1 as <- <-. exact E2.
Defined.

Lemma ltc_insert_correct_witness :
  match ltc_insert_to 100 100 1%Z 11%Z 50 true one_timed with
  | Returns (b, c') => b = false /\ value_of c' 1%Z = Some 11%Z /\ deadline c' 1%Z = Some (1100, 1000)%Z
  | Throws _ => False
  end.
Proof.
  pose proof (ltc_insert_correct 100 100 1%Z 11%Z 50 true one_timed one_timed_inv) as H. cbv zeta in H.
  destruct (ltc_insert_to _ _ _ _ _ _ _) as [[b c']|]; [|destruct H as [H _]; by vm_compute in H].
  destruct H as (_ & -> & -> & -> & _). split; [by vm_compute|]. split; [done|by vm_compute].
Defined.
