(* ===== verification/TimeoutCache.v ===== *)
(** * The cache with a constant time to live ([TimeoutCache] of [common/include/common/cache.h]) and
    [ExpiringValue] of [common/include/common/clock.h] *)

From stdpp Require Import sorting.
From S2P Require Export Containers.
From S2P Require Import StringView.

Section Timeout.
Context {K V : Type} `{Countable K}.

Record Entry := MkEntry { key : K; value : V; expires : Z }.

Record TimeoutCache := MkTimeoutCache {
  m_entries : list (node Entry);               (* newer entries go to the front *)
  m_entry_iter_by_key : gmap K nat;
  TIMEOUT : Z;
  CAPACITY : nat;                              (* zero means unlimited *)
  e_fresh : nat
}.

(** ** Operations *)

Definition tc_new (timeout : Z) (maxSize : nat) : TimeoutCache := MkTimeoutCache [] ∅ timeout maxSize 0.

Definition with_entries (l : list (node Entry)) (m : gmap K nat) (c : TimeoutCache) : TimeoutCache :=
  MkTimeoutCache l m (TIMEOUT c) (CAPACITY c) (e_fresh c).

(** The removal of the entry at [--m_entries.end()]. *)
Definition drop_oldest (c : TimeoutCache) : TimeoutCache :=
  match last (m_entries c) with
  | Some oldest =>
      with_entries (node_erase oldest.1 (m_entries c)) (delete (key oldest.2) (m_entry_iter_by_key c)) c
  | None => c
  end.

Definition tc_insert (now : Z) (k : K) (v : V) (c : TimeoutCache) : TimeoutCache :=
  let c := if negb (CAPACITY c =? 0) && (size (m_entry_iter_by_key c) =? CAPACITY c) then drop_oldest c else c in
  let e := (now + TIMEOUT c)%Z in
  match m_entry_iter_by_key c !! k with
  | Some entry_it =>
      let l := node_set entry_it (fun x => MkEntry (key x) v e) (m_entries c) in
      with_entries (splice_front entry_it l) (m_entry_iter_by_key c) c
  | None =>
      let id := e_fresh c in
      MkTimeoutCache ((id, MkEntry k v e) :: m_entries c) (<[k := id]> (m_entry_iter_by_key c))
                     (TIMEOUT c) (CAPACITY c) (S id)
  end.

Definition tc_erase (k : K) (c : TimeoutCache) : TimeoutCache :=
  match m_entry_iter_by_key c !! k with
  | None => c
  | Some it => with_entries (node_erase it (m_entries c)) (delete k (m_entry_iter_by_key c)) c
  end.

Definition tc_get (now : Z) (k : K) (c : TimeoutCache) : option V * TimeoutCache :=
  match m_entry_iter_by_key c !! k with
  | None => (None, c)
  | Some it =>
      match node_get (m_entries c) it with
      | None => (None, c)
      | Some x =>
          if (expires x <=? now)%Z
          then (None, with_entries (node_erase it (m_entries c)) (delete k (m_entry_iter_by_key c)) c)
          else (Some (value x), c)
      end
  end.

Definition tc_clear (c : TimeoutCache) : TimeoutCache := with_entries [] ∅ c.
Definition tc_size (c : TimeoutCache) : nat := length (m_entries c).
Definition tc_empty (c : TimeoutCache) : bool := bool_decide (m_entries c = []).

(** ** Invariant *)

Definition newer (a b : node Entry) : Prop := (expires b.2 <= expires a.2)%Z.

(** [T] is a time no earlier than the last insertion. *)
Record tc_inv (T : Z) (c : TimeoutCache) : Prop := {
  c_index : indexed key (m_entries c) (m_entry_iter_by_key c);
  c_fresh : Forall (fun n => n.1 < e_fresh c) (m_entries c);
  c_bound : CAPACITY c <> 0 -> length (m_entries c) <= CAPACITY c;
  c_sorted : StronglySorted newer (m_entries c);
  c_past : Forall (fun n => expires n.2 <= T + TIMEOUT c)%Z (m_entries c)
}.

(** What a key is bound to: value and expiry. *)
Definition binding (c : TimeoutCache) (k : K) : option (V * Z) :=
  (fun e => (value e, expires e)) <$> find_key key k (contents (m_entries c)).

Lemma erase_filter_sorted (l : list (node Entry)) id : StronglySorted newer l -> StronglySorted newer (node_erase id l).
Proof.
  intros Hs. unfold node_erase. induction Hs as [|x l _ IH Hx]; cbn; [constructor|].
  destruct (negb (is_node id x)); [|done]. constructor; [done|].
  rewrite Forall_forall in *. intros y [Hy _]%list_elem_of_In%List.filter_In. apply Hx. by apply list_elem_of_In.
Qed.

Lemma erase_Forall (P : node Entry -> Prop) l id : Forall P l -> Forall P (node_erase id l).
Proof. rewrite !Forall_forall. intros Hl n [Hn _]%node_erase_elem. by apply Hl. Qed.

Lemma erase_length_le (l : list (node Entry)) id : length (node_erase id l) <= length l.
Proof. apply List.filter_length_le. Qed.

Lemma binding_iff T c k d :
  tc_inv T c -> binding c k = Some d <-> MkEntry k d.1 d.2 ∈ contents (m_entries c).
Proof.
  intros Hc. assert (NoDup (map key (contents (m_entries c)))) as Hn by (by eapply indexed_keys_nodup, c_index).
  unfold binding. rewrite fmap_Some. setoid_rewrite (find_key_iff key); [|done]. split.
  - intros ([k' v e] & [Hin Hk] & ->). cbn in *. by subst.
  - intros Hin. exists (MkEntry k d.1 d.2). by destruct d.
Qed.

(** Erasing the node of a key. *)
Lemma erase_inv T c k id :
  tc_inv T c -> m_entry_iter_by_key c !! k = Some id ->
  let c' := with_entries (node_erase id (m_entries c)) (delete k (m_entry_iter_by_key c)) c in
  tc_inv T c' /\ forall x, binding c' x = if bool_decide (x = k) then None else binding c x.
Proof.
  intros Hc Hk. pose proof Hc as [Hi Hf Hb Hs Hp].
  destruct (indexed_contents _ _ _ k id Hi Hk) as (e & _ & _ & _ & He).
  assert (tc_inv T (with_entries (node_erase id (m_entries c)) (delete k (m_entry_iter_by_key c)) c)) as Hc'.
  { split; cbn; [by apply indexed_erase|by apply erase_Forall| |by apply erase_filter_sorted|by apply erase_Forall].
    intros Hcap. pose proof (erase_length_le (m_entries c) id). specialize (Hb Hcap). lia. }
  split; [done|]. intros x. apply option_eq. intros d. rewrite (binding_iff T) by done. cbn. rewrite He.
  unfold remove_key, has_key. rewrite list_elem_of_In, List.filter_In, <- list_elem_of_In. cbn.
  rewrite negb_true_iff, bool_decide_eq_false. case_bool_decide; [naive_solver|].
  rewrite (binding_iff T c x d Hc). naive_solver.
Qed.

Lemma index_binding T c k : tc_inv T c -> m_entry_iter_by_key c !! k = None <-> binding c k = None.
Proof.
  intros Hc. unfold binding. rewrite fmap_None. apply indexed_absent, Hc.
Qed.

(** [get] answers the value exactly when the key is bound and its expiry is in the future; an
    expired entry is removed, nothing else changes. *)
Theorem tc_get_correct T now k c :
  tc_inv T c ->
  let '(r, c') := tc_get now k c in
  tc_inv T c' /\
  r = match binding c k with Some (v, e) => if (now <? e)%Z then Some v else None | None => None end /\
  forall x, binding c' x = match binding c x with
                           | Some (v, e) => if bool_decide (x = k) && (e <=? now)%Z then None else Some (v, e)
                           | None => None
                           end.
Proof.
  intros Hc. unfold tc_get. destruct (m_entry_iter_by_key c !! k) as [id|] eqn:Hk.
  - destruct (indexed_contents _ _ _ k id (c_index T c Hc) Hk) as (x & Hf & _ & Hfk & _).
    unfold node_get. rewrite Hf. cbn.
    assert (binding c k = Some (value x, expires x)) as Hbk by (unfold binding; by rewrite Hfk).
    destruct (Z.leb_spec (expires x) now) as [Hle|Hlt].
    + destruct (erase_inv T c k id Hc Hk) as [Hc' Hb']. split; [done|]. rewrite Hbk.
      rewrite (proj2 (Z.ltb_ge _ _)) by lia. split; [done|]. intros y. rewrite Hb'. case_bool_decide.
      * subst. rewrite Hbk. cbn. by rewrite (proj2 (Z.leb_le _ _)).
      * by destruct (binding c y) as [[??]|].
    + split; [done|]. rewrite Hbk, (proj2 (Z.ltb_lt _ _)) by lia. split; [done|]. intros y.
      destruct (binding c y) as [[v e]|] eqn:Ey; [|done]. case_bool_decide; [|done]. subst.
      rewrite Hbk in Ey. injection Ey as <- <-. cbn. by rewrite (proj2 (Z.leb_gt _ _)) by lia.
  - apply (index_binding T c k Hc) in Hk as Hb. rewrite Hb. split; [done|]. split; [done|]. intros x.
    destruct (binding c x) as [[v e]|] eqn:Ex; [|done]. case_bool_decide; [|done]. subst. congruence.
Qed.

(** ** [insert] *)

(** No room is left for one more entry. *)
Definition full (c : TimeoutCache) : bool := negb (CAPACITY c =? 0) && (tc_size c =? CAPACITY c).

(** The key of the entry at the end of the list. *)
Definition oldest (c : TimeoutCache) : option K := key <$> last (contents (m_entries c)).

Lemma drop_oldest_inv T c :
  tc_inv T c -> full c = true ->
  tc_inv T (drop_oldest c) /\ length (m_entries (drop_oldest c)) < CAPACITY c /\
  CAPACITY (drop_oldest c) = CAPACITY c /\ TIMEOUT (drop_oldest c) = TIMEOUT c /\
  forall x, binding (drop_oldest c) x = if bool_decide (oldest c = Some x) then None else binding c x.
Proof.
  intros Hc [Hcap%negb_true_iff%Nat.eqb_neq Hfull%Nat.eqb_eq]%andb_true_iff. unfold tc_size in Hfull.
  unfold drop_oldest, oldest, contents. rewrite fmap_last. destruct (last (m_entries c)) as [n|] eqn:El.
  2:{ apply last_None in El. rewrite El in Hfull. cbn in Hfull. lia. }
  assert (n ∈ m_entries c) as Hn by (apply last_Some in El as [l ->]; set_solver).
  pose proof (indexed_node key _ _ n (c_index T c Hc) Hn) as Hm.
  destruct (erase_inv T c (key n.2) n.1 Hc Hm) as [Hc' Hb]. split; [done|]. split.
  - cbn. enough (length (m_entries c) = S (length (node_erase n.1 (m_entries c)))) by lia.
    destruct (indexed_contents _ _ _ _ _ (c_index T c Hc) Hm) as (e & Hf & _).
    by rewrite <- (Permutation_length (node_erase_perm n.1 _ e (ix_ids _ _ _ (c_index T c Hc)) Hf)).
  - split; [done|]. split; [done|]. intros x. rewrite Hb. cbn. erewrite bool_decide_ext; [done|]. naive_solver.
Qed.

(** Putting an entry in front of a list that has no entry of the same key. *)
Lemma front_inv T now c l m k v id fr :
  tc_inv T c -> (T <= now)%Z -> indexed key ((id, MkEntry k v (now + TIMEOUT c)) :: l) m -> id < fr -> e_fresh c <= fr ->
  contents l = remove_key key k (contents (m_entries c)) -> StronglySorted newer l ->
  Forall (fun n => n.1 < e_fresh c) l -> Forall (fun n => expires n.2 <= T + TIMEOUT c)%Z l ->
  (CAPACITY c <> 0 -> length l < CAPACITY c) ->
  let c' := MkTimeoutCache ((id, MkEntry k v (now + TIMEOUT c)) :: l) m (TIMEOUT c) (CAPACITY c) fr in
  tc_inv now c' /\ binding c' k = Some (v, (now + TIMEOUT c)%Z) /\ forall x, x <> k -> binding c' x = binding c x.
Proof.
  intros Hc HT Hi Hid Hfr Hcont Hs Hids Hexp Hlen.
  set (c' := MkTimeoutCache _ m _ _ _). assert (tc_inv now c') as Hc'.
  { split; cbn; [done| |intros Hcap; specialize (Hlen Hcap); lia| |].
    - constructor; [done|]. eapply Forall_impl; [exact Hids|]. cbn. lia.
    - constructor; [done|]. eapply Forall_impl; [exact Hexp|]. unfold newer. cbn. lia.
    - constructor; [cbn; lia|]. eapply Forall_impl; [exact Hexp|]. cbn. lia. }
  split; [done|]. split; [apply (binding_iff now); [done|]; by left|]. intros x Hx. apply option_eq. intros d.
  rewrite (binding_iff now c' x d Hc'), (binding_iff T c x d Hc). unfold c', contents at 1. cbn.
  fold (contents l). rewrite Hcont, elem_of_cons. unfold remove_key, has_key.
  rewrite (list_elem_of_In (List.filter _ _)), List.filter_In, <- list_elem_of_In. cbn.
  rewrite negb_true_iff, bool_decide_eq_false. naive_solver.
Qed.

(** The rest of [insert], once there is room. *)
Lemma insert_with_room T now k v c :
  tc_inv T c -> (T <= now)%Z -> full c = false ->
  let c' := tc_insert now k v c in
  tc_inv now c' /\ binding c' k = Some (v, (now + TIMEOUT c)%Z) /\ (forall x, x <> k -> binding c' x = binding c x) /\
  TIMEOUT c' = TIMEOUT c /\ CAPACITY c' = CAPACITY c.
Proof.
  intros Hc HT Hroom. pose proof Hc as [Hi Hf Hb Hs Hp]. unfold tc_insert.
  rewrite (indexed_size key _ _ Hi). fold (tc_size c). fold (full c). rewrite Hroom.
  assert (CAPACITY c <> 0 -> length (m_entries c) < CAPACITY c) as Hlen.
  { intros Hcap. specialize (Hb Hcap). unfold full, tc_size in Hroom. bool_to_prop. lia. }
  destruct (m_entry_iter_by_key c !! k) as [id|] eqn:Hk.
  - destruct (indexed_contents _ _ _ k id Hi Hk) as (x & Hfd & Hkx & _ & He).
    assert (splice_front id (node_set id (fun x => MkEntry (key x) v (now + TIMEOUT c)%Z) (m_entries c))
            = (id, MkEntry k v (now + TIMEOUT c)%Z) :: node_erase id (m_entries c)) as Esp.
    { unfold splice_front. rewrite node_set_find, Hfd. cbn. by rewrite node_erase_set, Hkx. }
    rewrite Esp. assert (id < e_fresh c) as Hid.
    { unfold node_find in Hfd. apply List.find_some in Hfd as [Hin%list_elem_of_In _].
      rewrite Forall_forall in Hf. by specialize (Hf _ Hin). }
    unfold with_entries. edestruct (front_inv T now c (node_erase id (m_entries c)) (m_entry_iter_by_key c) k v id (e_fresh c))
      as (H1 & H2 & H3); try done.
    + assert (indexed key (node_set id (fun x => MkEntry (key x) v (now + TIMEOUT c)%Z) (m_entries c)) (m_entry_iter_by_key c)) as Hset
        by (by apply node_set_indexed).
      eapply (splice_front_spec key _ _ k id) in Hset as [Hset _]; [by rewrite Esp in Hset|done|].
      rewrite node_set_find, Hfd. done.
    + by apply erase_filter_sorted.
    + by apply erase_Forall.
    + by apply erase_Forall.
    + intros Hcap. pose proof (erase_length_le (m_entries c) id). specialize (Hlen Hcap). lia.
  - edestruct (front_inv T now c (m_entries c) (<[k := e_fresh c]> (m_entry_iter_by_key c)) k v (e_fresh c) (S (e_fresh c)))
      as (H1 & H2 & H3); try done; [|lia..|].
    + by apply (indexed_add key _ _ _ (MkEntry k v (now + TIMEOUT c)%Z)).
    + symmetry. by apply remove_key_absent, (indexed_absent key _ (m_entry_iter_by_key c)).
Qed.

(** [insert] at a time not before the previous ones binds the key to the value until the time plus
    the timeout, and keeps every other binding except that of the oldest entry when the cache is full;
    the number of entries stays within the capacity and the order by age is kept. *)
Theorem tc_insert_correct T now k v c :
  tc_inv T c -> (T <= now)%Z ->
  let c' := tc_insert now k v c in
  tc_inv now c' /\ binding c' k = Some (v, (now + TIMEOUT c)%Z) /\
  forall x, x <> k -> binding c' x = if full c && bool_decide (oldest c = Some x) then None else binding c x.
Proof.
  intros Hc HT. destruct (full c) eqn:Hfull.
  - destruct (drop_oldest_inv T c Hc Hfull) as (Hd & Hlen & Hcap & Hto & Hb).
    assert (full (drop_oldest c) = false) as Hroom
      by (unfold full, tc_size; rewrite Hcap; apply andb_false_iff; right; apply Nat.eqb_neq; lia).
    destruct (insert_with_room T now k v (drop_oldest c) Hd HT Hroom) as (H1 & H2 & H3 & _).
    assert (tc_insert now k v c = tc_insert now k v (drop_oldest c)) as ->.
    { unfold tc_insert. rewrite !(indexed_size key _ _ (c_index T _ Hc)), !(indexed_size key _ _ (c_index T _ Hd)).
      fold (tc_size c) (full c) (tc_size (drop_oldest c)) (full (drop_oldest c)). by rewrite Hfull, Hroom. }
    rewrite Hto in H2. split; [done|]. split; [done|]. intros x Hx. rewrite H3, Hb by done. done.
  - destruct (insert_with_room T now k v c Hc HT Hfull) as (H1 & H2 & H3 & _). done.
Qed.

(** The victim is an entry that expires first. *)
Lemma oldest_expires_first T c k v e :
  tc_inv T c -> oldest c = Some k -> binding c k = Some (v, e) ->
  forall x w e', binding c x = Some (w, e') -> (e <= e')%Z.
Proof.
  intros Hc Ho Hk x w e' Hx. unfold oldest in Ho. apply fmap_Some in Ho as ([k0 v0 e0] & El & ->).
  pose proof El as [l El']%last_Some. apply (binding_iff T) in Hx; [|done].
  assert (binding c k0 = Some (v0, e0)) as E.
  { apply (binding_iff T); [done|]. rewrite El'. set_solver. }
  cbn in Hk. rewrite Hk in E. injection E as -> ->.
  pose proof (c_sorted T c Hc) as Hs. cbn in Hx. unfold contents in *.
  clear -Hs Hx El'. revert l El'. induction Hs as [|n ns _ IH Hn]; intros l El'; [by destruct l|].
  cbn in *. destruct l as [|y l]; cbn in El'.
  - injection El' as En Ens. apply map_eq_nil in Ens. subst ns. rewrite En in Hx.
    apply list_elem_of_singleton in Hx. by injection Hx as -> -> ->.
  - injection El' as <- El'. apply elem_of_cons in Hx as [Hx|Hx]; [|by eapply IH].
    rewrite Forall_forall in Hn. assert (MkEntry k0 v0 e0 ∈ map snd ns) as Hin by (rewrite El'; set_solver).
    apply list_elem_of_fmap in Hin as (m & Em & Hm). specialize (Hn m Hm). unfold newer in Hn.
    rewrite <- Em, <- Hx in Hn. done.
Qed.

Lemma tc_erase_inv T k c :
  tc_inv T c -> tc_inv T (tc_erase k c) /\ forall x, binding (tc_erase k c) x = if bool_decide (x = k) then None else binding c x.
Proof.
  intros Hc. unfold tc_erase. destruct (m_entry_iter_by_key c !! k) as [id|] eqn:Hk; [by apply erase_inv|].
  split; [done|]. intros x. case_bool_decide; [|done]. subst. by apply (index_binding T).
Qed.

Lemma tc_clear_inv T c : tc_inv T c -> tc_inv T (tc_clear c) /\ forall x, binding (tc_clear c) x = None.
Proof. intros Hc. split; [|done]. split; cbn; [apply indexed_empty|constructor|lia|constructor..]. Qed.

Lemma tc_new_inv T timeout n : tc_inv T (tc_new timeout n).
Proof. split; cbn; [apply indexed_empty|constructor|lia|constructor..]. Qed.
End Timeout.

(** Updating a key of a full cache evicts the oldest entry although no room is needed. *)
Lemma tc_update_evicts :
  let c := tc_insert (K := Z) (V := Z) 1 2%Z 20%Z (tc_insert 0 1%Z 10%Z (tc_new 100 2)) in
  let c' := tc_insert 2 2%Z 21%Z c in
  binding c 1%Z = Some (10, 100)%Z /\ binding c' 1%Z = None /\ tc_size c' = 1.
Proof. by vm_compute. Qed.

(** A full cache with two entries, the older one bound until 100. *)
Definition two_entries : TimeoutCache (K := Z) (V := Z) := tc_insert 1 2%Z 20%Z (tc_insert 0 1%Z 10%Z (tc_new 100 2)).

Lemma two_entries_inv : tc_inv 1 two_entries.
Proof.
  apply (insert_with_room 0); [|done|by vm_compute]. apply (insert_with_room 0); [apply tc_new_inv|done|by vm_compute].
Qed.

Lemma tc_get_correct_witness :
  (tc_get 99 1%Z two_entries).1 = Some 10%Z /\ (tc_get 100 1%Z two_entries).1 = None.
Proof.
  pose proof (tc_get_correct 1 99 1%Z two_entries two_entries_inv) as H0.
  pose proof (tc_get_correct 1 100 1%Z two_entries two_entries_inv) as H1.
  destruct (tc_get 99 1%Z two_entries) as [r0 c0], (tc_get 100 1%Z two_entries) as [r1 c1].
  destruct H0 as (_ & -> & _), H1 as (_ & -> & _). by vm_compute.
Defined.

Lemma tc_insert_correct_witness :
  let c' := tc_insert 5 3%Z 30%Z two_entries in
  binding c' 3%Z = Some (30, 105)%Z /\ binding c' 1%Z = None /\ binding c' 2%Z = Some (20, 101)%Z.
Proof.
  destruct (tc_insert_correct 1 5 3%Z 30%Z two_entries two_entries_inv) as (_ & H3 & Hx); [done|].
  intros c'. unfold c'. rewrite H3, !Hx by done. by vm_compute.
Defined.

(** ** [SteadyClock] and [ExpiringValue] of [clock.h] *)

Module Clock.

(** [now] with the shift set by [add_time_shift]. *)
Record SteadyClock := MkClock { m_time_shift : Z }.
Definition now (base_now : Z) (c : SteadyClock) : Z := (base_now + m_time_shift c)%Z.
Definition get_time_shift (c : SteadyClock) : Z := m_time_shift c.
Definition add_time_shift (value : Z) (c : SteadyClock) : SteadyClock := MkClock (m_time_shift c + value).
Definition reset_time_shift (c : SteadyClock) : SteadyClock := MkClock 0.

Section Expiring.
Context {T : Type} (DEFAULT_VALUE : T).

Record ExpiringValue := MkExpiring {
  m_value : T;
  m_expire_timestamp : option Z;
  m_duration : Z
}.

Definition ev_with_value (t : Z) (v : T) (d : Z) : ExpiringValue := MkExpiring v (Some (t + d)%Z) d.
Definition ev_with_duration (d : Z) : ExpiringValue := MkExpiring DEFAULT_VALUE None d.
Definition ev_default : ExpiringValue := MkExpiring DEFAULT_VALUE None 0.

Definition ev_assign (t : Z) (v : T) (e : ExpiringValue) : ExpiringValue :=
  MkExpiring v (Some (t + m_duration e)%Z) (m_duration e).

Definition is_timed_out (t : Z) (e : ExpiringValue) : bool :=
  match m_expire_timestamp e with Some ts => (ts <? t)%Z | None => false end.

(** [get] is const in the source and writes its mutable members. *)
Definition ev_get (t : Z) (e : ExpiringValue) : T * ExpiringValue :=
  let e := if is_timed_out t e then MkExpiring DEFAULT_VALUE None (m_duration e) else e in
  (m_value e, e).

Definition ev_reset (e : ExpiringValue) : ExpiringValue := MkExpiring DEFAULT_VALUE None (m_duration e).

(** Reads at the times of a list, in order. *)
Fixpoint ev_reads (ts : list Z) (e : ExpiringValue) : list T * ExpiringValue :=
  match ts with
  | [] => ([], e)
  | t :: ts' => let '(v, e1) := ev_get t e in let '(vs, e2) := ev_reads ts' e1 in (v :: vs, e2)
  end.

(** After an assignment every read up to the deadline gives the value, and every read after it the
    default, whatever reads came in between, until the next assignment. *)
Theorem expiring_value_reads t0 v e ts :
  StronglySorted Z.le ts ->
  (ev_reads ts (ev_assign t0 v e)).1
  = map (fun t => if (t <=? t0 + m_duration e)%Z then v else DEFAULT_VALUE) ts.
Proof.
  intros Hs. assert (forall ts d, (ev_reads ts (MkExpiring DEFAULT_VALUE None d)).1 = map (fun _ => DEFAULT_VALUE) ts) as Hdef.
  { clear. intros ts d. induction ts as [|t ts IH]; [done|]. cbn in *. destruct (ev_reads ts _). cbn in *. by rewrite IH. }
  induction Hs as [|t ts _ IH Ht]; [done|]. cbn [ev_reads map]. unfold ev_get.
  change (is_timed_out t (ev_assign t0 v e)) with (t0 + m_duration e <? t)%Z.
  destruct (Z.ltb_spec (t0 + m_duration e) t) as [Hlt|Hge].
  - rewrite (proj2 (Z.leb_gt _ _)) by lia. specialize (Hdef ts (m_duration e)).
    cbn [m_duration m_value]. destruct (ev_reads ts _) as [vs e2]. cbn in *. f_equal. rewrite Hdef.
    apply map_ext_in. intros a Ha. rewrite Forall_forall in Ht. apply list_elem_of_In, Ht in Ha.
    by rewrite (proj2 (Z.leb_gt _ _)) by lia.
  - rewrite (proj2 (Z.leb_le _ _)) by lia. destruct (ev_reads ts _) as [vs e2]. cbn in *. by rewrite IH.
Qed.


End Expiring.

Lemma expiring_value_reads_witness :
  (ev_reads 0%Z [0; 10; 11]%Z (ev_assign 0 7%Z (MkExpiring 0%Z None 10))).1 = [7; 7; 0]%Z.
Proof. rewrite expiring_value_reads; [by vm_compute|]. repeat constructor; lia. Defined.
End Clock.
