(* ===== verification/Headers.v ===== *)
(** * HTTP messages: [http/headers.cpp], [http/util.cpp] and their headers

    Header lists, requests and responses, the iterators over them and their text. *)

From S2P Require Import StringView Utils.

(** ** Versions ([util.h]): an enum, kept as its number *)

Definition HTTP_0_9 : Z := 0x0009.
Definition HTTP_1_0 : Z := 0x0100.
Definition HTTP_1_1 : Z := 0x0101.
Definition HTTP_2_0 : Z := 0x0200.
Definition HTTP_3_0 : Z := 0x0300.

Definition version_get_major (v : Z) : Z := Z.shiftr v 8.
Definition version_get_minor (v : Z) : Z := Z.land v 0xff.

Definition make_version (major minor : Z) : option Z :=
  let v := Z.lor (u32 (Z.shiftl major 8)) minor in
  let conv_major := version_get_major v in
  let conv_minor := version_get_minor v in
  if (major =? conv_major)%Z && (minor =? conv_minor)%Z then Some v else None.

Definition version_str (v : Z) : bytes :=
  str "HTTP/" ++ fmt_dec (version_get_major v) ++ str "." ++ fmt_dec (version_get_minor v).

(** ** Header lists *)

Definition PSEUDO_HEADER_NAME_METHOD : bytes := str ":method".
Definition PSEUDO_HEADER_NAME_SCHEME : bytes := str ":scheme".
Definition PSEUDO_HEADER_NAME_AUTHORITY : bytes := str ":authority".
Definition PSEUDO_HEADER_NAME_PATH : bytes := str ":path".
Definition PSEUDO_HEADER_NAME_STATUS : bytes := str ":status".

Record Header := make_header { name : bytes; value : bytes }.

#[export] Instance header_eq_dec : EqDecision Header.
Proof. solve_decision. Defined.

Definition header_eqb (this other : Header) : bool :=
  bool_decide (name this = name other) && bool_decide (value this = value other).

Record Headers := MkHeaders { m_headers : list Header; m_has_body : bool }.

Definition no_headers : Headers := MkHeaders [] false.

Definition get (n : bytes) (h : Headers) : option bytes :=
  value <$> List.find (fun x => iequals (name x) n) (m_headers h).

Definition gets (n : bytes) (h : Headers) : bytes := default [] (get n h).

Definition put (n v : bytes) (h : Headers) : Headers :=
  MkHeaders (m_headers h ++ [make_header n v]) (m_has_body h).

Definition contains (n : bytes) (h : Headers) : bool := if get n h is Some _ then true else false.

(** [std::remove_if] keeps the other elements in order; the count is the distance to the old end. *)
Definition remove (n : bytes) (h : Headers) : nat * Headers :=
  let kept := List.filter (fun x => negb (bool_decide (name x = n))) (m_headers h) in
  (length (m_headers h) - length kept, MkHeaders kept (m_has_body h)).

(** [erase(iter)], an iterator being an index. *)
Definition erase (iter : nat) (h : Headers) : nat * Headers :=
  (iter, MkHeaders (take iter (m_headers h) ++ drop (S iter) (m_headers h)) (m_has_body h)).

Definition headers_length (h : Headers) : nat := length (m_headers h).
Definition has_body (h : Headers) : bool := m_has_body h.
Definition set_has_body (flag : bool) (h : Headers) : Headers := MkHeaders (m_headers h) flag.

Definition header_str (h : Header) : bytes := name h ++ str ": " ++ value h.

Definition CRLF : bytes := [13; 10]%Z.

Definition headers_str (h : Headers) : bytes := join (map header_str (m_headers h)) CRLF ++ CRLF.

(** ** The iterator over the values of one name *)

Record ValueIterator := MkValueIterator {
  vi_current : nat;
  vi_name : bytes;
  vi_value : option bytes
}.

(** The [do]-[while] loop of [operator++] once [m_current] was advanced, on the headers from there. *)
Fixpoint advance (rest : list Header) (current : nat) (n : bytes) : ValueIterator :=
  match rest with
  | [] => MkValueIterator current n None
  | x :: rest' => if negb (iequals (name x) n) then advance rest' (S current) n
                  else MkValueIterator current n (Some (value x))
  end.

Definition vi_next (h : Headers) (it : ValueIterator) : ValueIterator :=
  advance (drop (S (vi_current it)) (m_headers h)) (S (vi_current it)) (vi_name it).

Definition vi_new (h : Headers) (begin : nat) (n : bytes) : ValueIterator :=
  let it := MkValueIterator begin n None in
  match m_headers h !! begin with
  | Some x => if iequals (name x) n then MkValueIterator begin n (Some (value x)) else vi_next h it
  | None => it
  end.

Definition vi_eqb (a b : ValueIterator) : bool := vi_current a =? vi_current b.

Definition value_range (h : Headers) (n : bytes) : ValueIterator * ValueIterator :=
  (vi_new h 0 n, vi_new h (headers_length h) n).

(** [erase(ValueIterator)]: the iterator built at the position of the erased element. *)
Definition erase_value (it : ValueIterator) (h : Headers) : ValueIterator * Headers :=
  let '(pos, h') := erase (vi_current it) h in (vi_new h' pos (vi_name it), h').

(** [for (; it != end; ++it) use( *it )]: the values seen; [None] when the fuel runs out or an empty
    iterator is read. *)
Fixpoint vi_collect (fuel : nat) (h : Headers) (it end_ : ValueIterator) : option (list bytes) :=
  if vi_eqb it end_ then Some []
  else match fuel, vi_value it with
       | S f, Some v => cons v <$> vi_collect f h (vi_next h it) end_
       | _, _ => None
       end.

(** ** Requests *)

Record Request := MkRequest {
  m_version : Z;
  m_method : bytes;
  m_path : bytes;
  m_scheme : bytes;
  m_authority : bytes;
  r_headers : Headers
}.

Definition request_new (version : Z) (method path : bytes) : Request :=
  MkRequest version method path [] [] no_headers.

Definition with_headers (h : Headers) (r : Request) : Request :=
  MkRequest (m_version r) (m_method r) (m_path r) (m_scheme r) (m_authority r) h.

Definition or_else (s alternative : bytes) : bytes := if bool_decide (s = []) then alternative else s.

Definition request_str (r : Request) : bytes :=
  let line := or_else (m_method r) (str "OPTIONS") ++ str " " in
  let v := m_version r in
  let rest :=
    if (v =? HTTP_0_9)%Z || (v =? HTTP_1_0)%Z || (v =? HTTP_1_1)%Z then
      or_else (m_path r) (str "*") ++ str " " ++ version_str v ++ CRLF
    else if (v =? HTTP_2_0)%Z || (v =? HTTP_3_0)%Z then
      let is_connect := bool_decide (m_method r = str "CONNECT") in
      (if is_connect then or_else (m_authority r) (str "<empty :authority>") ++ str " " ++ version_str v ++ CRLF
       else or_else (m_path r) (str "<empty :path>") ++ str " " ++ version_str v ++ CRLF)
      ++ (if bool_decide (m_scheme r = []) then [] else str ":scheme: " ++ m_scheme r ++ CRLF)
      ++ (if is_connect then
            if bool_decide (m_path r = []) then [] else str ":path: " ++ m_path r ++ CRLF
          else
            if bool_decide (m_authority r = []) then [] else str ":authority: " ++ m_authority r ++ CRLF)
    else [] in
  line ++ rest ++ headers_str (r_headers r) ++ CRLF.

(** The iterator: [m_obj] is the request or null. *)
Module RequestIterator.

Inductive State := METHOD | SCHEME | PATH | AUTHORITY | HEADERS | DONE.

Definition state_num (s : State) : nat :=
  match s with METHOD => 0 | SCHEME => 1 | PATH => 2 | AUTHORITY => 3 | HEADERS => 4 | DONE => 5 end.

Definition state_of_num (n : nat) : State :=
  match n with 0 => METHOD | 1 => SCHEME | 2 => PATH | 3 => AUTHORITY | 4 => HEADERS | _ => DONE end.

Record Iterator := MkIterator {
  m_obj : option Request;
  m_state : State;
  m_current : option Header;
  m_headers_iter : option nat
}.

(** [case DONE:] and the code after a failed [case HEADERS:]. *)
Definition finish (hi : option nat) : Iterator := MkIterator None DONE None hi.

Definition at_headers (r : Request) (hi : option nat) : Iterator :=
  let hs := m_headers (r_headers r) in
  match hi with
  | Some i =>
      match hs !! S i with
      | Some x => MkIterator (Some r) HEADERS (Some (make_header (name x) (value x))) (Some (S i))
      | None => finish (Some (S i))
      end
  | None =>
      match hs with
      | x :: _ => MkIterator (Some r) HEADERS (Some (make_header (name x) (value x))) (Some 0)
      | [] => finish None
      end
  end.

(** One [case] of the switch: the pseudo-header if it is not empty, the next case otherwise. *)
Definition at_pseudo (r : Request) (s : State) (n field : bytes) (hi : option nat) (next : Iterator) : Iterator :=
  if bool_decide (field = []) then next else MkIterator (Some r) s (Some (make_header n field)) hi.

Definition update_current (it : Iterator) : Iterator :=
  match m_obj it with
  | None => MkIterator None DONE None (m_headers_iter it)
  | Some r =>
      let hi := m_headers_iter it in
      let headers := at_headers r hi in
      let authority := at_pseudo r AUTHORITY PSEUDO_HEADER_NAME_AUTHORITY (m_authority r) hi headers in
      let path := at_pseudo r PATH PSEUDO_HEADER_NAME_PATH (m_path r) hi authority in
      let scheme := at_pseudo r SCHEME PSEUDO_HEADER_NAME_SCHEME (m_scheme r) hi path in
      let method := at_pseudo r METHOD PSEUDO_HEADER_NAME_METHOD (m_method r) hi scheme in
      match m_state it with
      | METHOD => method
      | SCHEME => scheme
      | PATH => path
      | AUTHORITY => authority
      | HEADERS => headers
      | DONE => finish hi
      end
  end.

Definition new (obj : option Request) : Iterator :=
  update_current (MkIterator obj (if obj is Some _ then METHOD else DONE) None None).

Definition next (it : Iterator) : Iterator :=
  let state :=
    match m_state it with
    | HEADERS =>
        match m_headers_iter it, m_obj it with
        | Some i, Some r => if i =? length (m_headers (r_headers r)) then DONE else HEADERS
        | _, _ => HEADERS
        end
    | s => state_of_num (Nat.min (state_num DONE) (state_num s + 1))
    end in
  update_current (MkIterator (m_obj it) state (m_current it) (m_headers_iter it)).

Definition eqb (a b : Iterator) : bool :=
  (state_num (m_state a) =? state_num (m_state b))
  && (negb (state_num (m_state a) =? state_num HEADERS)
      || bool_decide (m_headers_iter a = m_headers_iter b)).

Definition begin (r : Request) : Iterator := new (Some r).
Definition end_ : Iterator := new None.

(** The headers a range-for loop sees; [None] when the fuel runs out or an empty iterator is read. *)
Fixpoint collect (fuel : nat) (it : Iterator) : option (list Header) :=
  if eqb it end_ then Some []
  else match fuel, m_current it with
       | S f, Some x => cons x <$> collect f (next it)
       | _, _ => None
       end.
End RequestIterator.

(** ** Responses *)

Record Response := MkResponse {
  s_version : Z;
  m_status_code : Z;
  m_status_string : bytes;
  s_headers : Headers
}.

Definition response_new (version : Z) : Response := MkResponse version 200 [] no_headers.

Definition set_status_code (code : Z) (r : Response) : Response :=
  MkResponse (s_version r) code
    (if (HTTP_1_1 <? s_version r)%Z then fmt_dec code else m_status_string r) (s_headers r).

Definition response_new_code (version status_code : Z) : Response := set_status_code status_code (response_new version).

Definition set_status_string (val : bytes) (r : Response) : Response :=
  MkResponse (s_version r) (m_status_code r) val (s_headers r).

Definition set_response_headers (h : Headers) (r : Response) : Response :=
  MkResponse (s_version r) (m_status_code r) (m_status_string r) h.

Definition response_str (r : Response) : bytes :=
  let status_message := if (s_version r <? HTTP_2_0)%Z then m_status_string r else [] in
  let line := version_str (s_version r) ++ str " " ++ fmt_dec (m_status_code r)
              ++ (if bool_decide (status_message = []) then [] else str " ") ++ status_message ++ CRLF in
  if headers_length (s_headers r) =? 0 then line ++ CRLF
  else line ++ headers_str (s_headers r) ++ CRLF.

Module ResponseIterator.

Inductive State := STATUS | HEADERS | DONE.

Definition state_num (s : State) : nat := match s with STATUS => 0 | HEADERS => 1 | DONE => 2 end.
Definition state_of_num (n : nat) : State := match n with 0 => STATUS | 1 => HEADERS | _ => DONE end.

Record Iterator := MkIterator {
  m_obj : option Response;
  m_state : State;
  m_current : option Header;
  m_headers_iter : option nat
}.

Definition finish (hi : option nat) : Iterator := MkIterator None DONE None hi.

Definition at_headers (r : Response) (hi : option nat) : Iterator :=
  let hs := m_headers (s_headers r) in
  match hi with
  | Some i =>
      match hs !! S i with
      | Some x => MkIterator (Some r) HEADERS (Some (make_header (name x) (value x))) (Some (S i))
      | None => finish (Some (S i))
      end
  | None =>
      match hs with
      | x :: _ => MkIterator (Some r) HEADERS (Some (make_header (name x) (value x))) (Some 0)
      | [] => finish None
      end
  end.

Definition update_current (it : Iterator) : Iterator :=
  match m_obj it with
  | None => MkIterator None DONE None (m_headers_iter it)
  | Some r =>
      match m_state it with
      | STATUS => MkIterator (Some r) STATUS (Some (make_header PSEUDO_HEADER_NAME_STATUS (m_status_string r))) (m_headers_iter it)
      | HEADERS => at_headers r (m_headers_iter it)
      | DONE => finish (m_headers_iter it)
      end
  end.

Definition new (obj : option Response) : Iterator :=
  update_current (MkIterator obj (if obj is Some _ then STATUS else DONE) None None).

Definition next (it : Iterator) : Iterator :=
  let state :=
    match m_state it with
    | HEADERS =>
        match m_headers_iter it, m_obj it with
        | Some i, Some r => if i =? length (m_headers (s_headers r)) then DONE else HEADERS
        | _, _ => HEADERS
        end
    | s => state_of_num (Nat.min (state_num DONE) (state_num s + 1))
    end in
  update_current (MkIterator (m_obj it) state (m_current it) (m_headers_iter it)).

Definition eqb (a b : Iterator) : bool :=
  (state_num (m_state a) =? state_num (m_state b))
  && (negb (state_num (m_state a) =? state_num HEADERS)
      || bool_decide (m_headers_iter a = m_headers_iter b)).

Definition begin (r : Response) : Iterator := new (Some r).
Definition end_ : Iterator := new None.

Fixpoint collect (fuel : nat) (it : Iterator) : option (list Header) :=
  if eqb it end_ then Some []
  else match fuel, m_current it with
       | S f, Some x => cons x <$> collect f (next it)
       | _, _ => None
       end.
End ResponseIterator.

(** ** Versions *)

Lemma version_parts major minor :
  is_byte major -> is_byte minor ->
  let v := Z.lor (u32 (Z.shiftl major 8)) minor in
  version_get_major v = major /\ version_get_minor v = minor.
Proof.
  unfold is_byte. intros Ha Hi. unfold u32, version_get_major, version_get_minor. cbv zeta.
  rewrite wrap_small by (rewrite Z.shiftl_mul_pow2 by lia; simpl; lia).
  change 255%Z with (Z.ones 8). rewrite Z.shiftr_lor, Z.shiftr_shiftl_l, Z.land_lor_distr_l, !Z.land_ones by lia.
  rewrite Z.shiftr_div_pow2, (Z.div_small minor) by (simpl; lia). rewrite Z.lor_0_r, Z.shiftl_0_r. split; [done|].
  rewrite Z.shiftl_mul_pow2, Z.mod_mul, Z.lor_0_l, Z.mod_small by (simpl; lia). done.
Qed.

(** Every pair of version bytes makes a version with these parts, so [make_version] never refuses. *)
Theorem make_version_total major minor :
  is_byte major -> is_byte minor ->
  exists v, make_version major minor = Some v /\ version_get_major v = major /\ version_get_minor v = minor.
Proof.
  intros Ha Hi. destruct (version_parts major minor Ha Hi) as [E1 E2]. eexists. split; [|split; [exact E1|exact E2]].
  unfold make_version. by rewrite E1, E2, !Z.eqb_refl.
Qed.

(** ** Header lists *)

(** Values of all the headers with a name, in order. *)
Definition values_of (n : bytes) (l : list Header) : list bytes :=
  map value (List.filter (fun x => iequals (name x) n) l).

Lemma get_first n h : get n h = head (values_of n (m_headers h)).
Proof.
  unfold get, values_of. destruct h as [l b]. cbn. induction l as [|x l IH]; [done|]. cbn.
  by destruct (iequals (name x) n).
Qed.

Lemma iequals_refl n : iequals n n = true.
Proof. by apply iequals_spec. Qed.

Lemma put_values n v m h : iequals n m = true -> values_of m (m_headers (put n v h)) = values_of m (m_headers h) ++ [v].
Proof. intros E. unfold values_of, put. cbn. rewrite List.filter_app, map_app. cbn. by rewrite E. Qed.

(** A field that was put is found under any spelling of its name: the first value put wins and the
    others follow; other names are not affected. *)
Theorem headers_put_get n v m h :
  get m (put n v h) = (if iequals n m then Some (default v (get m h)) else get m h) /\
  contains m (put n v h) = iequals n m || contains m h.
Proof.
  assert (get m (put n v h) = if iequals n m then Some (default v (get m h)) else get m h) as E.
  { rewrite !get_first. destruct (iequals n m) eqn:E.
    - rewrite put_values by done. by destruct (values_of m (m_headers h)).
    - unfold values_of, put. cbn. rewrite List.filter_app. cbn. by rewrite E, app_nil_r. }
  split; [done|]. unfold contains. rewrite E. by destruct (iequals n m).
Qed.

Lemma advance_values rest current n :
  match values_of n rest with
  | [] => advance rest current n = MkValueIterator (current + length rest) n None
  | v :: vs =>
      exists i x, rest !! i = Some x /\ value x = v /\ advance rest current n = MkValueIterator (current + i) n (Some v) /\
                  values_of n (drop (S i) rest) = vs
  end.
Proof.
  revert current. induction rest as [|x rest IH]; intros current; cbn; [by rewrite Nat.add_0_r|].
  unfold values_of in *. cbn. destruct (iequals (name x) n) eqn:E; cbn.
  - exists 0, x. rewrite Nat.add_0_r. by rewrite drop_0.
  - specialize (IH (S current)). destruct (map value (List.filter (fun x0 => iequals (name x0) n) rest)) as [|v vs].
    + rewrite IH. f_equal. lia.
    + destruct IH as (i & y & Hi & Hv & -> & Hd). exists (S i), y. split; [done|]. split; [done|]. split; [|done].
      f_equal. lia.
Qed.

Lemma vi_collect_values fuel h it n :
  length (m_headers h) <= fuel + vi_current it -> vi_name it = n ->
  (exists x, m_headers h !! vi_current it = Some x /\ vi_value it = Some (value x)) ->
  vi_collect fuel h it (vi_new h (headers_length h) n)
  = Some (default [] (vi_value it) :: values_of n (drop (S (vi_current it)) (m_headers h))).
Proof.
  revert it. induction fuel as [|fuel IH]; intros it Hf <- (x & Hx & Hv).
  { apply lookup_lt_Some in Hx. cbn in Hf. lia. }
  assert (vi_new h (headers_length h) (vi_name it) = MkValueIterator (length (m_headers h)) (vi_name it) None) as Eend.
  { unfold vi_new, headers_length. by rewrite lookup_ge_None_2. }
  rewrite Eend in *. pose proof (lookup_lt_Some _ _ _ Hx) as Hlt. cbn [vi_collect]. unfold vi_eqb. cbn [vi_current].
  rewrite (proj2 (Nat.eqb_neq _ _)) by lia. rewrite Hv. cbn [from_option default id].
  pose proof (advance_values (drop (S (vi_current it)) (m_headers h)) (S (vi_current it)) (vi_name it)) as Ha.
  unfold vi_next. destruct (values_of _ _) as [|v vs].
  - rewrite Ha, length_drop. replace (S (vi_current it) + _) with (length (m_headers h)) by lia.
    destruct fuel; cbn [vi_collect]; unfold vi_eqb; cbn; by rewrite Nat.eqb_refl.
  - destruct Ha as (i & y & Hi & <- & -> & Hd). rewrite lookup_drop in Hi. rewrite (IH _); cbn.
    + rewrite drop_drop in Hd. rewrite <- Hd. by replace (S (S (vi_current it + i))) with (S (vi_current it) + S i) by lia.
    + lia.
    + done.
    + exists y. split; [|done]. by rewrite <- Hi.
Qed.

(** The loop over [value_range(name)] ends and sees exactly the values of the headers with that
    name, in any letter case, in the order of the list. *)
Theorem value_range_values h n :
  let '(it, end_) := value_range h n in
  vi_collect (headers_length h) h it end_ = Some (values_of n (m_headers h)).
Proof.
  unfold value_range. assert (vi_new h (headers_length h) n = MkValueIterator (headers_length h) n None) as Eend.
  { unfold vi_new, headers_length. by rewrite lookup_ge_None_2. }
  destruct (m_headers h !! 0) as [x|] eqn:E0.
  2:{ apply lookup_ge_None, Nat.le_0_r, length_zero_iff_nil in E0. unfold headers_length, vi_new. by rewrite E0. }
  assert (values_of n (m_headers h) = (if iequals (name x) n then [value x] else []) ++ values_of n (drop 1 (m_headers h))) as ->.
  { destruct (m_headers h) as [|y l]; [done|]. injection E0 as ->. unfold values_of. cbn. rewrite drop_0.
    by destruct (iequals (name x) n). }
  unfold vi_new at 1. rewrite E0. destruct (iequals (name x) n).
  - rewrite vi_collect_values with (n := n); cbn [vi_current vi_value vi_name]; [done|unfold headers_length; lia|done|by exists x].
  - unfold vi_next. cbn [vi_current vi_name]. pose proof (advance_values (drop 1 (m_headers h)) 1 n) as Ha.
    pose proof (lookup_lt_Some _ _ _ E0) as Hlt. destruct (values_of n (drop 1 (m_headers h))) as [|v vs].
    + rewrite Ha, Eend, length_drop. unfold headers_length in *. replace (1 + _) with (length (m_headers h)) by lia.
      destruct (length (m_headers h)); cbn [vi_collect]; unfold vi_eqb; cbn; by rewrite ?Nat.eqb_refl.
    + destruct Ha as (i & y & Hi & <- & -> & Hd). rewrite lookup_drop in Hi.
      rewrite vi_collect_values with (n := n); cbn [vi_current vi_value vi_name]; [|unfold headers_length; lia|done|by exists y].
      rewrite drop_drop in Hd. cbn. by rewrite <- Hd.
Qed.

(** [remove] is exact about letter case while [get] and [contains] are not. *)
Lemma remove_case_sensitive :
  let h := put (str "Host") (str "a") no_headers in
  remove (str "host") h = (0, h) /\ contains (str "host") h = true.
Proof. by vm_compute. Qed.

(** ** The iterators list the pseudo-headers that are present, then the headers *)

Module RequestIteratorFacts.
Import RequestIterator.

Definition pseudo (n field : bytes) : list Header :=
  if bool_decide (field = []) then [] else [make_header n field].

Definition listing (r : Request) : list Header :=
  pseudo PSEUDO_HEADER_NAME_METHOD (m_method r) ++ pseudo PSEUDO_HEADER_NAME_SCHEME (m_scheme r)
  ++ pseudo PSEUDO_HEADER_NAME_PATH (m_path r) ++ pseudo PSEUDO_HEADER_NAME_AUTHORITY (m_authority r)
  ++ m_headers (r_headers r).

Lemma collect_finish fuel hi : collect fuel (finish hi) = Some [].
Proof. by destruct fuel. Qed.

(** The part of the loop on the plain headers, from the one at index [i]. *)
Lemma collect_headers fuel r i x :
  m_headers (r_headers r) !! i = Some x -> length (m_headers (r_headers r)) <= fuel + i ->
  collect fuel (MkIterator (Some r) HEADERS (Some (make_header (name x) (value x))) (Some i))
  = Some (drop i (m_headers (r_headers r))).
Proof.
  revert i x. induction fuel as [|fuel IH]; intros i x Hx Hf; pose proof (lookup_lt_Some _ _ _ Hx) as Hlt; [lia|].
  cbn [collect]. replace (eqb _ end_) with false by done. cbn [m_current]. unfold next. cbn [m_state m_headers_iter m_obj].
  rewrite (proj2 (Nat.eqb_neq _ _)) by lia. cbn [update_current RequestIterator.m_obj m_state m_headers_iter].
  unfold at_headers. rewrite (drop_S _ x i Hx). destruct (m_headers (r_headers r) !! S i) as [y|] eqn:Ey.
  - rewrite IH by (done || lia). cbn. by destruct x.
  - rewrite collect_finish. cbn. rewrite drop_ge by (by apply lookup_ge_None). by destruct x.
Qed.

Lemma collect_at_headers fuel r :
  length (m_headers (r_headers r)) <= fuel -> collect fuel (at_headers r None) = Some (m_headers (r_headers r)).
Proof.
  intros Hf. unfold at_headers. destruct (m_headers (r_headers r)) as [|x l] eqn:E; [apply collect_finish|].
  rewrite <- E in *. rewrite (collect_headers fuel r 0 x); [by rewrite drop_0|by rewrite E|lia].
Qed.

(** One pseudo-header of the listing, given that the rest of the loop is right. *)
Lemma collect_pseudo fuel r s n field rest_it rest :
  s <> HEADERS -> s <> DONE ->
  next (MkIterator (Some r) s (Some (make_header n field)) None) = rest_it ->
  collect fuel rest_it = Some rest ->
  collect (S fuel) (at_pseudo r s n field None rest_it) = Some (pseudo n field ++ rest) \/ field = [].
Proof.
  intros H1 H2 Hn Hc. unfold at_pseudo, pseudo. case_bool_decide; [by right|left].
  cbn [collect]. replace (eqb _ end_) with false by (by destruct s). cbn [m_current]. by rewrite Hn, Hc.
Qed.

Lemma collect_mono fuel it l : collect fuel it = Some l -> collect (S fuel) it = Some l.
Proof.
  revert it l. induction fuel as [|fuel IH]; intros it l; cbn [collect].
  - destruct (eqb it end_); [done|]. by destruct (m_current it).
  - destruct (eqb it end_); [done|]. destruct (m_current it) as [x|]; [|done].
    destruct (collect fuel (next it)) as [k|] eqn:E; [|done]. apply IH in E. cbn [collect] in E. by rewrite E.
Qed.

Lemma collect_step fuel r s n field rest_it rest :
  s <> HEADERS -> s <> DONE ->
  next (MkIterator (Some r) s (Some (make_header n field)) None) = rest_it ->
  collect fuel rest_it = Some rest ->
  collect (S fuel) (at_pseudo r s n field None rest_it) = Some (pseudo n field ++ rest).
Proof.
  intros H1 H2 Hn Hc. destruct (collect_pseudo fuel r s n field rest_it rest H1 H2 Hn Hc) as [| ->]; [done|].
  unfold at_pseudo, pseudo. rewrite bool_decide_true by done. by apply collect_mono.
Qed.

(** The loop over a request ends and yields the method, scheme, path and authority that are not
    empty, in this order, and then every header. *)
Theorem request_iteration r :
  collect (4 + length (m_headers (r_headers r))) (begin r) = Some (listing r).
Proof.
  unfold begin, new, update_current, listing. cbn [m_obj m_headers_iter m_state].
  apply collect_step; [done..|]. apply collect_step; [done..|]. apply collect_step; [done..|].
  apply collect_step; [done..|]. by apply collect_at_headers.
Qed.
End RequestIteratorFacts.

Module ResponseIteratorFacts.
Import ResponseIterator.

Lemma response_finish fuel hi : collect fuel (finish hi) = Some [].
Proof. by destruct fuel. Qed.

Lemma response_headers fuel r i x :
  m_headers (s_headers r) !! i = Some x -> length (m_headers (s_headers r)) <= fuel + i ->
  collect fuel (MkIterator (Some r) HEADERS (Some (make_header (name x) (value x))) (Some i))
  = Some (drop i (m_headers (s_headers r))).
Proof.
  revert i x. induction fuel as [|fuel IH]; intros i x Hx Hf; pose proof (lookup_lt_Some _ _ _ Hx) as Hlt; [lia|].
  cbn [collect]. replace (eqb _ end_) with false by done. cbn [m_current]. unfold next. cbn [m_state m_headers_iter m_obj].
  rewrite (proj2 (Nat.eqb_neq _ _)) by lia. cbn [update_current ResponseIterator.m_obj m_state m_headers_iter].
  unfold at_headers. rewrite (drop_S _ x i Hx). destruct (m_headers (s_headers r) !! S i) as [y|] eqn:Ey.
  - rewrite IH by (done || lia). cbn. by destruct x.
  - rewrite response_finish. cbn. rewrite drop_ge by (by apply lookup_ge_None). by destruct x.
Qed.

(** The loop over a response ends and yields its status string as [:status], then every header. *)
Theorem response_iteration r :
  collect (1 + length (m_headers (s_headers r))) (begin r)
  = Some (make_header PSEUDO_HEADER_NAME_STATUS (m_status_string r) :: m_headers (s_headers r)).
Proof.
  unfold begin, new, update_current. cbn [m_obj m_headers_iter m_state]. cbn [Nat.add collect].
  replace (eqb _ end_) with false by done. cbn [m_current]. unfold next. cbn [m_state m_headers_iter m_obj].
  cbn [state_num Nat.add Nat.min state_of_num]. unfold update_current. cbn [m_obj m_headers_iter m_state].
  unfold at_headers. destruct (m_headers (s_headers r)) as [|x l] eqn:E; [done|].
  cbn [length]. rewrite <- E. rewrite (response_headers _ r 0 x); [by rewrite drop_0|by rewrite E|rewrite E; cbn; lia].
Qed.
End ResponseIteratorFacts.

(** ** The text of a message head, against a reader of lines and fields *)

Definition take_line (s : bytes) : option (bytes * bytes) :=
  match find_sub CRLF s with
  | Some i => Some (take i s, drop (i + 2) s)
  | None => None
  end.

(** Fields up to the first empty line; then what follows it. *)
Fixpoint read_fields (fuel : nat) (s : bytes) : option (list Header * bytes) :=
  match fuel, take_line s with
  | S f, Some ([], rest) => Some ([], rest)
  | S f, Some (line, rest) =>
      match find_sub (str ": ") line, read_fields f rest with
      | Some j, Some (hs, body) => Some (make_header (take j line) (drop (j + 2) line) :: hs, body)
      | _, _ => None
      end
  | _, _ => None
  end.

(** Start line, fields and body. *)
Definition read_head (fuel : nat) (s : bytes) : option (bytes * list Header * bytes) :=
  match take_line s with
  | Some (line, rest) =>
      match read_fields fuel rest with Some (hs, body) => Some (line, hs, body) | None => None end
  | None => None
  end.

(** Text without the characters that end a line. *)
Definition one_line (s : bytes) : Prop := Forall (fun c => c <> 13%Z) s.

Definition clean_header (h : Header) : Prop :=
  one_line (name h) /\ one_line (value h) /\ Forall (fun c => c <> chr ":") (name h).

#[export] Instance one_line_dec s : Decision (one_line s).
Proof. unfold one_line. apply _. Defined.

#[export] Instance clean_header_dec h : Decision (clean_header h).
Proof. unfold clean_header. apply _. Defined.

Lemma take_line_app line rest : one_line line -> take_line (line ++ CRLF ++ rest) = Some (line, rest).
Proof.
  intros Hl. unfold take_line, CRLF. rewrite find_sub_app by done.
  rewrite take_app_length, drop_app_ge by lia. by replace (length line + 2 - length line) with 2 by lia.
Qed.

Lemma header_str_line h : clean_header h -> one_line (header_str h) /\ header_str h <> [].
Proof.
  intros (Hn & Hv & _). unfold header_str, one_line. split.
  - apply Forall_app. split; [done|]. apply Forall_app. split; [|done]. repeat constructor; done.
  - intros E. apply app_eq_nil in E as [_ E]. done.
Qed.

Lemma read_fields_headers hs tail fuel :
  Forall clean_header hs -> length hs < fuel ->
  read_fields fuel (List.concat (map (fun h => header_str h ++ CRLF) hs) ++ CRLF ++ tail) = Some (hs, tail).
Proof.
  intros Hc. revert fuel. induction Hc as [|h hs Hh _ IH]; intros [|fuel] Hf; cbn [length] in Hf; try lia.
  - pose proof (take_line_app [] tail ltac:(constructor)) as E. cbn [read_fields map List.concat]. by rewrite E.
  - cbn [map List.concat read_fields]. destruct (header_str_line h Hh) as [Hl Hne].
    rewrite <- !app_assoc, take_line_app by done. rewrite IH by lia.
    destruct (header_str h) as [|c line] eqn:E; [done|]. rewrite <- E. unfold header_str at 1.
    destruct Hh as (_ & _ & Hn). change (str ": ") with (chr ":" :: [32%Z]).
    rewrite find_sub_app by done. unfold header_str. rewrite take_app_length, drop_app_ge by lia.
    replace (length (name h) + 2 - length (name h)) with 2 by lia. by destruct h.
Qed.

Lemma headers_str_concat h : m_headers h <> [] -> headers_str h = List.concat (map (fun x => header_str x ++ CRLF) (m_headers h)).
Proof.
  unfold headers_str. intros Hne. destruct (m_headers h) as [|x l]; [done|]. clear Hne h.
  revert x. induction l as [|y l IH]; intros x; [cbn; by rewrite app_nil_r|].
  cbn [map]. rewrite join_cons. cbn [List.concat]. rewrite <- !app_assoc. do 2 f_equal.
  specialize (IH y). cbn [map List.concat] in IH. rewrite IH. by rewrite <- app_assoc.
Qed.

(** The status line: version, code, and for HTTP/1 a reason that is not empty. *)
Definition status_line (r : Response) : bytes :=
  version_str (s_version r) ++ str " " ++ fmt_dec (m_status_code r)
  ++ match (if (s_version r <? HTTP_2_0)%Z then m_status_string r else []) with
     | [] => []
     | reason => str " " ++ reason
     end.

Lemma fmt_dec_one_line n : one_line (fmt_dec n).
Proof.
  assert (forall m, (0 <= m)%Z -> one_line (fmt_dec m)) as Hd.
  { intros m Hm. destruct (fmt_dec_digits m Hm) as [H _]. eapply Forall_impl; [exact H|]. unfold isdigit. cbn. lia. }
  destruct (Z.leb_spec 0 n); [by apply Hd|]. specialize (Hd (- n)%Z ltac:(lia)). unfold one_line, fmt_dec in *.
  rewrite (proj2 (Z.ltb_ge _ _)) in Hd by lia. rewrite (proj2 (Z.ltb_lt _ _)) by done. by constructor.
Qed.

Lemma status_line_one_line r : one_line (m_status_string r) -> one_line (status_line r).
Proof.
  intros Hs. unfold status_line, version_str, one_line.
  repeat (apply Forall_app; split); try apply fmt_dec_one_line; try (repeat constructor; done).
  destruct (_ <? _)%Z; [|constructor]. destruct (m_status_string r); [constructor|].
  apply Forall_app. split; [repeat constructor; done|done].
Qed.

(** A response head reads back as its status line and its header fields, with nothing left over,
    with or without headers. *)
Theorem response_str_reads_back r tail :
  one_line (m_status_string r) -> Forall clean_header (m_headers (s_headers r)) ->
  read_head (S (headers_length (s_headers r))) (response_str r ++ tail)
  = Some (status_line r, m_headers (s_headers r), tail).
Proof.
  intros Hs Hc. pose proof (status_line_one_line r Hs) as Hl. unfold response_str, read_head.
  set (msg := if (s_version r <? HTTP_2_0)%Z then m_status_string r else []) in *.
  assert (forall rest, (version_str (s_version r) ++ str " " ++ fmt_dec (m_status_code r)
            ++ (if bool_decide (msg = []) then [] else str " ") ++ msg ++ CRLF) ++ rest
            = status_line r ++ CRLF ++ rest) as Eline
    by (intros; unfold status_line; fold msg; by destruct msg; rewrite <- !app_assoc).
  destruct (Nat.eqb_spec (headers_length (s_headers r)) 0) as [E0|E0].
  - rewrite <- app_assoc, Eline, take_line_app by done. apply length_zero_iff_nil in E0. rewrite E0.
    by rewrite (read_fields_headers [] tail) by (done || cbn; lia).
  - rewrite <- app_assoc, Eline, take_line_app by done.
    rewrite headers_str_concat by (intros E; unfold headers_length in E0; by rewrite E in E0).
    rewrite <- app_assoc. by rewrite read_fields_headers by (done || unfold headers_length; lia).
Qed.

Lemma response_str_reads_back_witness :
  let r := set_response_headers (put (str "Host") (str "a: b") (put (str "X") [] no_headers)) 
             (set_status_string (str "Not Found") (response_new_code HTTP_1_1 404)) in
  read_head 3 (response_str r ++ str "body") = Some (str "HTTP/1.1 404 Not Found", m_headers (s_headers r), str "body").
Proof.
  intros r. pose proof (response_str_reads_back r (str "body")) as H. apply H.
  - by apply (bool_decide_eq_true (one_line _)).
  - by apply (bool_decide_eq_true (Forall clean_header _)).
Defined.

(** The text of a request without headers has one empty line too many. *)
Lemma request_str_no_headers :
  read_head 1 (request_str (request_new HTTP_1_1 (str "GET") (str "/"))) = Some (str "GET / HTTP/1.1", [], CRLF).
Proof. by vm_compute. Qed.
