(* ===== verification/Message.v ===== *)
(** * Messages of binary HTTP: what [http/http2.cpp] and [http/http3.cpp] share

    Both sessions are templates over [Server] or [Client]; the message a stream collects is a
    [Request] or a [Response] accordingly.  The field dispatch of [on_header] and the lists of
    fields handed to the libraries are here, and the interface of libevent's buffer. *)

From S2P Require Import StringView Utils Headers.

(** The template argument. *)
Inductive side := Server | Client.

#[export] Instance side_eq_dec : EqDecision side.
Proof. solve_decision. Defined.

(** [std::conditional_t<std::is_same_v<T, Http2Server>, Request, Response>]. *)
Definition Message (T : side) : Type := match T with Server => Request | Client => Response end.

Definition message_new (T : side) (version : Z) : Message T :=
  match T return Message T with
  | Server => request_new version [] []
  | Client => response_new version
  end.

Definition message_headers {T : side} : Message T -> Headers :=
  match T return Message T -> Headers with Server => r_headers | Client => s_headers end.

Definition set_message_headers {T : side} (h : Headers) : Message T -> Message T :=
  match T return Message T -> Message T with Server => with_headers h | Client => set_response_headers h end.

(** [message.headers().put(name, value)]. *)
Definition put_field {T : side} (n v : bytes) (m : Message T) : Message T :=
  set_message_headers (put n v (message_headers m)) m.

(** [Message::into_headers]. *)
Definition into_headers {T : side} (m : Message T) : Headers := message_headers m.

Definition set_method (v : bytes) (r : Request) : Request :=
  MkRequest (m_version r) v (m_path r) (m_scheme r) (m_authority r) (r_headers r).
Definition set_scheme (v : bytes) (r : Request) : Request :=
  MkRequest (m_version r) (m_method r) (m_path r) v (m_authority r) (r_headers r).
Definition set_authority (v : bytes) (r : Request) : Request :=
  MkRequest (m_version r) (m_method r) (m_path r) (m_scheme r) v (r_headers r).
Definition set_path (v : bytes) (r : Request) : Request :=
  MkRequest (m_version r) (m_method r) v (m_scheme r) (m_authority r) (r_headers r).

(** One field of a request. *)
Definition request_field (n v : bytes) (r : Request) : Request :=
  if bool_decide (n = PSEUDO_HEADER_NAME_METHOD) then set_method v r
  else if bool_decide (n = PSEUDO_HEADER_NAME_SCHEME) then set_scheme v r
  else if bool_decide (n = PSEUDO_HEADER_NAME_AUTHORITY) then set_authority v r
  else if bool_decide (n = PSEUDO_HEADER_NAME_PATH) then set_path v r
  else put_field (T := Server) n v r.

(** One field of a response; nothing when the status is not a number. *)
Definition response_field (n v : bytes) (r : Response) : option Response :=
  if bool_decide (n = PSEUDO_HEADER_NAME_STATUS) then
    (fun code => set_status_code (i32 code) r) <$> to_integer false 32 10 v
  else Some (put_field (T := Client) n v r).

Definition message_field {T : side} (n v : bytes) : Message T -> option (Message T) :=
  match T return Message T -> option (Message T) with
  | Server => fun r => Some (request_field n v r)
  | Client => response_field n v
  end.

(** The range of fields given to the library. *)
Definition request_fields (r : Request) : list Header :=
  default [] (RequestIterator.collect (4 + length (m_headers (r_headers r))) (RequestIterator.begin r)).

Definition response_fields (r : Response) : list Header :=
  default [] (ResponseIterator.collect (1 + length (m_headers (s_headers r))) (ResponseIterator.begin r)).

(** ** libevent's [evbuffer] *)

(** The operations used.  [evbuffer_remove] answers the count it copied, or a negative number, and
    the bytes. *)
Class EvBuffer (B : Type) := {
  evbuffer_new : option B;
  evbuffer_add : B -> bytes -> Z * B;
  evbuffer_remove : B -> nat -> Z * bytes * B;
  evbuffer_get_length : B -> nat
}.

(** What libevent documents of them: a queue of bytes.  A failed operation leaves it as it was. *)
Class EvBufferLaws (B : Type) `{EvBuffer B} := {
  contents : B -> bytes;
  evbuffer_new_empty : forall b, evbuffer_new = Some b -> contents b = [];
  evbuffer_add_appends : forall b d,
    contents (evbuffer_add b d).2 = contents b ++ (if ((evbuffer_add b d).1 =? 0)%Z then d else []);
  evbuffer_length : forall b, evbuffer_get_length b = length (contents b);
  evbuffer_remove_takes : forall b n r d b', evbuffer_remove b n = (r, d, b') -> (0 <= r)%Z ->
    r = Z.of_nat (length d) /\ d = take n (contents b) /\ contents b' = drop n (contents b);
  evbuffer_remove_fails : forall b n r d b', evbuffer_remove b n = (r, d, b') -> (r < 0)%Z -> contents b' = contents b
}.

(** The plain queue has them. *)
#[export] Instance list_evbuffer : EvBuffer bytes := {
  evbuffer_new := Some [];
  evbuffer_add := fun b d => (0%Z, b ++ d);
  evbuffer_remove := fun b n => (Z.of_nat (length (take n b)), take n b, drop n b);
  evbuffer_get_length := @length Z
}.

#[export] Instance list_evbuffer_laws : EvBufferLaws bytes.
Proof.
  refine {| contents := fun b : bytes => b |}; cbn.
  - by intros b [= <-].
  - done.
  - done.
  - by intros b n r d b' [= <- <- <-] _.
  - intros b n r d b' [= <- <- <-]. lia.
Defined.

(** ** Facts *)

Lemma response_fields_listing r :
  response_fields r = make_header PSEUDO_HEADER_NAME_STATUS (m_status_string r) :: m_headers (s_headers r).
Proof. unfold response_fields. by rewrite ResponseIteratorFacts.response_iteration. Qed.

(** The value a list of fields gives to a name: the last one. *)
Definition last_value (n : bytes) (fields : list (bytes * bytes)) (d : bytes) : bytes :=
  fold_left (fun acc nv => if bool_decide (nv.1 = n) then nv.2 else acc) fields d.

Definition request_pseudo (n : bytes) : bool :=
  bool_decide (n ∈ [PSEUDO_HEADER_NAME_METHOD; PSEUDO_HEADER_NAME_SCHEME; PSEUDO_HEADER_NAME_AUTHORITY; PSEUDO_HEADER_NAME_PATH]).

Definition to_header (nv : bytes * bytes) : Header := make_header nv.1 nv.2.

(** The message a block of fields makes, by its parts. *)
Definition request_of (fields : list (bytes * bytes)) (r : Request) : Request :=
  MkRequest (m_version r)
    (last_value PSEUDO_HEADER_NAME_METHOD fields (m_method r)) (last_value PSEUDO_HEADER_NAME_PATH fields (m_path r))
    (last_value PSEUDO_HEADER_NAME_SCHEME fields (m_scheme r)) (last_value PSEUDO_HEADER_NAME_AUTHORITY fields (m_authority r))
    (MkHeaders (m_headers (r_headers r) ++ map to_header (filter (fun nv => request_pseudo nv.1 = false) fields))
       (m_has_body (r_headers r))).

Lemma request_field_of n v r : request_field n v r = request_of [(n, v)] r.
Proof.
  unfold request_field, request_of, last_value. cbn [fold_left fst snd].
  destruct r as [ver me pa sc au [hs hb]]. cbn [m_version m_method m_path m_scheme m_authority r_headers m_headers m_has_body].
  rewrite filter_cons, filter_nil. cbn [fst].
  destruct (decide (n = PSEUDO_HEADER_NAME_METHOD)) as [->|H1]; [by rewrite app_nil_r|].
  destruct (decide (n = PSEUDO_HEADER_NAME_SCHEME)) as [->|H2]; [by rewrite app_nil_r|].
  destruct (decide (n = PSEUDO_HEADER_NAME_AUTHORITY)) as [->|H3]; [by rewrite app_nil_r|].
  destruct (decide (n = PSEUDO_HEADER_NAME_PATH)) as [->|H4]; [by rewrite app_nil_r|].
  rewrite !bool_decide_false by done. rewrite decide_True; [done|].
  unfold request_pseudo. apply bool_decide_eq_false. set_solver.
Qed.

Lemma request_of_app a b r : request_of b (request_of a r) = request_of (a ++ b) r.
Proof.
  unfold request_of, last_value. cbn [m_version m_method m_path m_scheme m_authority r_headers m_headers m_has_body].
  by rewrite !fold_left_app, filter_app, map_app, app_assoc.
Qed.

Lemma request_fields_fold fields r :
  fold_left (fun m nv => request_field nv.1 nv.2 m) fields r = request_of fields r.
Proof.
  revert r. induction fields as [|[n v] fields IH]; intros r; cbn [fold_left fst snd].
  - destruct r as [? ? ? ? ? []]. unfold request_of. cbn. by rewrite app_nil_r.
  - by rewrite IH, request_field_of, request_of_app.
Qed.

