(* ===== verification/Http1.v ===== *)
(** * HTTP/1 sessions: [http/http1.cpp] and [http1.h]

    The session keeps its streams, the message being parsed and the parser.  The parser, llhttp, is
    not part of this code: [llhttp_execute] is a parameter that answers a tree of callbacks, each of
    which continues with the number the callback returns.  A session operation gives its answer, the
    new session and the calls it makes to the user's callbacks, in order. *)

From S2P Require Import StringView Utils Error Headers Message.

(** ** Data *)

Inductive ContentLength := ContentLengthUnset | ContentLengthChunked | ContentLengthSize (n : Z).

Inductive Flag :=
  REQ_SENT | BODY_DATA_STARTED | UPGRADE_REQUEST | HEAD_REQUEST | HAS_BODY | INTERMEDIATE_RESPONSE | ZERO_CHUNK_SENT.

#[export] Instance flag_eq_dec : EqDecision Flag.
Proof. solve_decision. Defined.

Record Stream := MkStream { id : Z; flags : Flag -> bool; content_length : ContentLength }.

Definition new_stream (i : Z) : Stream := MkStream i (fun _ => false) ContentLengthUnset.

Definition set_flag (f : Flag) (b : bool) (s : Stream) : Stream :=
  MkStream (id s) (fun g => if decide (g = f) then b else flags s g) (content_length s).

Definition set_content_length (c : ContentLength) (s : Stream) : Stream := MkStream (id s) (flags s) c.

Record ParserContext := MkContext {
  path : bytes;
  status_string : bytes;
  headers : list (bytes * bytes)
}.

Inductive Http1Error := MkHttp1Error.
#[export] Instance http1_error_string : ErrorCodeToString Http1Error := fun _ => [].

(** Calls of the user's callbacks. *)
Inductive Out :=
| OnRequest (stream_id : Z) (r : Request)
| OnResponse (stream_id : Z) (r : Response)
| OnTrailerHeaders (stream_id : Z) (h : Headers)
| OnBody (stream_id : Z) (chunk : bytes)
| OnBodyFinished (stream_id : Z)
| OnStreamFinished (stream_id : Z) (error_code : Z)
| OnOutput (chunk : bytes).

(** Which callbacks are not null. *)
Record Callbacks := MkCallbacks {
  on_message : bool;             (* [on_request] or [on_response] *)
  on_trailer_headers : bool;
  on_body : bool;
  on_body_finished : bool;
  on_stream_finished : bool;
  on_output : bool
}.

(** What [on_headers_complete] reads of the parser. *)
Record HeadInfo := MkHead {
  http_major : Z;
  http_minor : Z;
  method : Z;
  status_code : Z;
  f_chunked : bool;
  f_content_length : bool;
  parser_content_length : Z;
  upgrade : bool
}.

Inductive Event :=
| MessageBegin
| Url (at_ : bytes)
| Status (at_ : bytes)
| HeaderField (at_ : bytes)
| HeaderValue (at_ : bytes)
| HeadersComplete (info : HeadInfo)
| Body (at_ : bytes)
| MessageComplete.

Inductive errno := HPE_OK | HPE_PAUSED_UPGRADE | HPE_OTHER (errno_name enum_name : bytes).

Definition HTTP_HEAD : Z := 2.
Definition HTTP_STATUS_CONTINUE : Z := 100.
Definition HTTP_STATUS_EARLY_HINTS : Z := 103.
Definition HTTP_STATUS_OK : Z := 200.
Definition HTTP_STATUS_NO_CONTENT : Z := 204.
Definition HTTP_STATUS_RESET_CONTENT : Z := 205.
Definition HTTP_STATUS_NOT_MODIFIED : Z := 304.

Section Session.

(** The parser of llhttp: its state, one run over a chunk, its error state and its reset. *)
Context {Parser : Type}.

Inductive Exec :=
| Finished (p : Parser) (err : errno)
| Call (e : Event) (k : Z -> Exec).

Context (llhttp_execute : Parser -> bytes -> Exec).
Context (llhttp_get_errno : Parser -> errno).
Context (llhttp_reset : Parser -> Parser).
Context (llhttp_method_name : Z -> bytes).

(** Place the compiler writes into an error. *)
Context (loc : SourceLocation).

Record Session := MkSession {
  m_parser : Parser;
  m_parser_context : option ParserContext;
  m_next_stream_id : Z;
  m_streams : list Stream
}.

Definition session_new (p : Parser) : Session := MkSession p None 1 [].

(** ** A computation over a session: answer, new session, callbacks made *)

Definition M (A : Type) : Type := Session -> A * Session * list Out.

#[local] Instance M_ret : MRet M := fun A a s => (a, s, []).
#[local] Instance M_bind : MBind M := fun A B f m s =>
  let '(a, s1, o1) := m s in let '(b, s2, o2) := f a s1 in (b, s2, o1 ++ o2).

Definition get_streams : M (list Stream) := fun s => (m_streams s, s, []).
Definition put_streams (l : list Stream) : M unit :=
  fun s => (tt, MkSession (m_parser s) (m_parser_context s) (m_next_stream_id s) l, []).
Definition get_context : M (option ParserContext) := fun s => (m_parser_context s, s, []).
Definition put_context (c : option ParserContext) : M unit :=
  fun s => (tt, MkSession (m_parser s) c (m_next_stream_id s) (m_streams s), []).
Definition get_parser : M Parser := fun s => (m_parser s, s, []).
Definition put_parser (p : Parser) : M unit :=
  fun s => (tt, MkSession p (m_parser_context s) (m_next_stream_id s) (m_streams s), []).

(** [m_next_stream_id++] on a [uint32_t]. *)
Definition take_stream_id : M Z :=
  fun s => (m_next_stream_id s,
            MkSession (m_parser s) (m_parser_context s) (u32 (m_next_stream_id s + 1)) (m_streams s), []).

(** [if (h.callback != nullptr) h.callback(...)]. *)
Definition emit (present : bool) (o : Out) : M unit := fun s => (tt, s, if present then [o] else []).

Section Side.
Context (T : side) (h : Callbacks).

(** [active_stream()]: the newest request of a server, the oldest one of a client. *)
Definition active_stream (l : list Stream) : option Stream :=
  match T with Server => last l | Client => head l end.

Definition alter_active (f : Stream -> Stream) (l : list Stream) : list Stream :=
  match T with
  | Server => alter f (length l - 1) l
  | Client => alter f 0 l
  end.

Definition update_active (f : Stream -> Stream) : M unit := l ← get_streams; put_streams (alter_active f l).
Definition update_front (f : Stream -> Stream) : M unit := l ← get_streams; put_streams (alter f 0 l).
Definition pop_front : M unit := l ← get_streams; put_streams (tail l).

(** ** Parser callbacks; the answer is the number returned to llhttp *)

Definition on_message_begin : M Z :=
  match T with
  | Server =>
      i ← take_stream_id;
      l ← get_streams;
      put_streams (l ++ [new_stream i]);;
      put_context (Some (MkContext [] [] []));;
      mret 0%Z
  | Client =>
      l ← get_streams;
      match active_stream l with
      | None => mret (-1)%Z
      | Some _ =>
          update_active (fun s => set_flag INTERMEDIATE_RESPONSE false (set_flag HAS_BODY false s));;
          put_context (Some (MkContext [] [] []));;
          mret 0%Z
      end
  end.

(** The checks that open most callbacks: an active stream, and a message being parsed. *)
Definition with_stream (f : Stream -> M Z) : M Z :=
  l ← get_streams;
  match active_stream l with None => mret (-1)%Z | Some s => f s end.

Definition with_context (f : ParserContext -> M Z) : M Z :=
  c ← get_context;
  match c with None => mret (-1)%Z | Some c => f c end.

Definition on_url (at_ : bytes) : M Z :=
  with_stream (fun _ =>
    match T with
    | Client => mret (-1)%Z
    | Server =>
        with_context (fun c =>
          put_context (Some (MkContext (path c ++ at_) (status_string c) (headers c)));; mret 0%Z)
    end).

Definition on_status (at_ : bytes) : M Z :=
  match T with
  | Server => mret (-1)%Z
  | Client =>
      with_stream (fun _ =>
        with_context (fun c =>
          put_context (Some (MkContext (path c) (status_string c ++ at_) (headers c)));; mret 0%Z))
  end.

(** The header list after a piece of a name. *)
Definition add_field (field : bytes) (hs : list (bytes * bytes)) : list (bytes * bytes) :=
  match last hs with
  | None => hs ++ [(field, [])]
  | Some (n, v) =>
      if negb (bool_decide (v = [])) then hs ++ [(field, [])]
      else removelast hs ++ [(n ++ field, v)]
  end.

Definition on_header_field (at_ : bytes) : M Z :=
  with_stream (fun _ =>
    with_context (fun c =>
      put_context (Some (MkContext (path c) (status_string c) (add_field at_ (headers c))));; mret 0%Z)).

Definition on_header_value (at_ : bytes) : M Z :=
  with_stream (fun _ =>
    with_context (fun c =>
      match last (headers c) with
      | None => mret (-1)%Z
      | Some (n, v) =>
          put_context (Some (MkContext (path c) (status_string c) (removelast (headers c) ++ [(n, v ++ at_)])));;
          mret 0%Z
      end)).

Definition headers_of (l : list (bytes * bytes)) : Headers :=
  fold_left (fun hs nv => put nv.1 nv.2 hs) l no_headers.

Definition PROCEED_NORMALLY : Z := 0.
Definition HAS_NO_BODY_PROCEED_PARSING : Z := 1.
Definition HAS_NO_BODY_RETURN_PAUSED_UPGRADE : Z := 2.

Definition on_headers_complete (info : HeadInfo) : M Z :=
  with_stream (fun stream =>
    with_context (fun c =>
      match make_version (http_major info) (http_minor info) with
      | None => mret (-1)%Z
      | Some version =>
          let hs := headers_of (headers c) in
          match T with
          | Server =>
              let hs := set_has_body (f_chunked info || (f_content_length info && (0 <? parser_content_length info)%Z)) hs in
              let request := with_headers hs (request_new version (llhttp_method_name (method info)) (path c)) in
              put_context (Some (MkContext [] (status_string c) []));;
              update_active (fun s =>
                set_flag HAS_BODY (has_body hs)
                  (set_flag HEAD_REQUEST (method info =? HTTP_HEAD)%Z
                    (set_flag UPGRADE_REQUEST (upgrade info) s)));;
              emit (on_message h) (OnRequest (id stream) request);;
              mret (if upgrade info then HAS_NO_BODY_RETURN_PAUSED_UPGRADE
                    else if negb (has_body hs) then HAS_NO_BODY_PROCEED_PARSING
                    else PROCEED_NORMALLY)
          | Client =>
              let code := status_code info in
              let hs := set_has_body
                (negb (code =? HTTP_STATUS_CONTINUE)%Z && negb (code =? HTTP_STATUS_EARLY_HINTS)%Z
                 && (f_chunked info || negb (f_content_length info) || negb (parser_content_length info =? 0)%Z)) hs in
              let response :=
                set_response_headers hs (set_status_string (status_string c)
                  (set_status_code code (response_new_code version code))) in
              put_context (Some (MkContext (path c) [] []));;
              update_active (fun s =>
                set_flag INTERMEDIATE_RESPONSE (code <? HTTP_STATUS_OK)%Z (set_flag HAS_BODY (has_body hs) s));;
              emit (on_message h) (OnResponse (id stream) response);;
              let pseudo_http := negb (flags stream REQ_SENT) && negb (code =? HTTP_STATUS_CONTINUE)%Z
                                 && negb (code =? HTTP_STATUS_EARLY_HINTS)%Z in
              mret (if upgrade info || pseudo_http then HAS_NO_BODY_RETURN_PAUSED_UPGRADE
                    else if negb (has_body hs) then HAS_NO_BODY_PROCEED_PARSING
                    else PROCEED_NORMALLY)
          end
      end)).

Definition on_body_data (at_ : bytes) : M Z :=
  with_stream (fun stream =>
    update_active (set_flag BODY_DATA_STARTED true);;
    emit (on_body h) (OnBody (id stream) at_);;
    mret 0%Z).

Definition on_message_complete : M Z :=
  with_stream (fun stream =>
    (if flags stream HAS_BODY then
       c ← get_context;
       match c with
       | Some c =>
           if on_trailer_headers h && negb (bool_decide (headers c = [])) then
             put_context (Some (MkContext (path c) (status_string c) []));;
             emit true (OnTrailerHeaders (id stream) (headers_of (headers c)))
           else mret tt
       | None => mret tt
       end;;
       emit (on_body_finished h) (OnBodyFinished (id stream))
     else mret tt);;
    match T with
    | Client =>
        if negb (flags stream INTERMEDIATE_RESPONSE) then
          emit (on_stream_finished h) (OnStreamFinished (id stream) 0);;
          pop_front;;
          put_context None;;
          mret 0%Z
        else mret 0%Z
    | Server => mret 0%Z
    end).

Definition callback (e : Event) : M Z :=
  match e with
  | MessageBegin => on_message_begin
  | Url at_ => on_url at_
  | Status at_ => on_status at_
  | HeaderField at_ => on_header_field at_
  | HeaderValue at_ => on_header_value at_
  | HeadersComplete info => on_headers_complete info
  | Body at_ => on_body_data at_
  | MessageComplete => on_message_complete
  end.

(** ** Input *)

Inductive InputResult := InputOk | InputUpgrade.

Fixpoint run_exec (t : Exec) : M errno :=
  match t with
  | Finished p err => put_parser p;; mret err
  | Call e k => r ← callback e; run_exec (k r)
  end.

Definition reset_parser : M unit := p ← get_parser; put_parser (llhttp_reset p);; put_context None.

Definition input_impl (chunk : bytes) : M (Result InputResult Http1Error) :=
  p ← get_parser;
  match llhttp_get_errno p with HPE_OK => mret tt | _ => reset_parser end;;
  p ← get_parser;
  err ← run_exec (llhttp_execute p chunk);
  mret match err with
       | HPE_OK => RValue InputOk
       | HPE_PAUSED_UPGRADE => RValue InputUpgrade
       | HPE_OTHER n e => RError (make_error_msg loc MkHttp1Error (n ++ str " (" ++ e ++ str ")") None)
       end.

(** ** Output *)

Definition CHUNK_FOOTER : bytes := CRLF.

Definition no_active : option (ErrorImpl Http1Error) :=
  Some (make_error_msg loc MkHttp1Error (str "There're no active streams") None).
Definition invalid_id (got expected : Z) : option (ErrorImpl Http1Error) :=
  Some (make_error_msg loc MkHttp1Error
          (str "Invalid stream ID (" ++ fmt_dec got ++ str "), expected " ++ fmt_dec expected) None).

(** [send_body_impl]; a call with an empty chunk and no end makes no further call, so two levels of
    the recursion are all there are. *)
Fixpoint send_body_rec (fuel : nat) (stream_id : Z) (chunk : bytes) (eof : bool) : M (option (ErrorImpl Http1Error)) :=
  match fuel with
  | O => mret None
  | S fuel =>
      l ← get_streams;
      match active_stream l with
      | None => mret no_active
      | Some stream =>
          if negb (stream_id =? id stream)%Z then mret (invalid_id stream_id (id stream))
          else
            let finish (eof : bool) : M (option (ErrorImpl Http1Error)) :=
              if eof then
                match T with
                | Server => pop_front;; emit (on_stream_finished h) (OnStreamFinished stream_id 0);; mret None
                | Client => update_active (set_flag REQ_SENT true);; mret None
                end
              else mret None in
            match content_length stream with
            | ContentLengthChunked =>
                update_active (set_flag ZERO_CHUNK_SENT (bool_decide (chunk = [])));;
                if on_output h then
                  emit true (OnOutput (fmt_HEX (Z.of_nat (length chunk)) ++ CRLF));;
                  e ← (if negb (bool_decide (chunk = [])) then
                         emit true (OnOutput chunk);;
                         emit true (OnOutput CHUNK_FOOTER);;
                         if eof then send_body_rec fuel stream_id [] false else mret None
                       else mret None);
                  match e with
                  | Some e => mret (Some (make_error loc MkHttp1Error (Some (to_base e))))
                  | None =>
                      (if eof then emit true (OnOutput CHUNK_FOOTER) else mret tt);;
                      finish eof
                  end
                else finish eof
            | ContentLengthSize n =>
                emit (on_output h && negb (bool_decide (chunk = []))) (OnOutput chunk);;
                let n' := if (Z.of_nat (length chunk) <=? n)%Z then (n - Z.of_nat (length chunk))%Z else 0%Z in
                update_active (set_content_length (ContentLengthSize n'));;
                finish (n' =? 0)%Z
            | ContentLengthUnset =>
                emit (on_output h && negb (bool_decide (chunk = []))) (OnOutput chunk);;
                finish eof
            end
      end
  end.

Definition send_body_impl := send_body_rec 2.

Definition send_trailer_impl (stream_id : Z) (hs : Headers) (eof : bool) : M (option (ErrorImpl Http1Error)) :=
  l ← get_streams;
  match head l with
  | None => mret no_active
  | Some stream =>
      if negb (stream_id =? id stream)%Z then mret (invalid_id stream_id (id stream))
      else
        let zero_chunk_sent := flags stream ZERO_CHUNK_SENT in
        update_front (set_flag ZERO_CHUNK_SENT true);;
        if negb (on_output h) then mret None
        else
          e ← (if negb zero_chunk_sent then
                 e ← send_body_impl stream_id [] false;
                 match e with
                 | Some e => mret (Some (make_error loc MkHttp1Error (Some (to_base e))))
                 | None => emit true (OnOutput CHUNK_FOOTER);; mret None
                 end
               else mret None);
          match e with
          | Some e => mret (Some e)
          | None =>
              emit true (OnOutput (headers_str hs));;
              if eof then
                emit true (OnOutput CHUNK_FOOTER);;
                pop_front;;
                emit (on_stream_finished h) (OnStreamFinished stream_id 0);;
                mret None
              else mret None
          end
  end.
End Side.

Arguments active_stream : simpl never.
Arguments alter_active : simpl never.
Arguments send_body_impl : simpl never.

(** ** [Http1Server] and [Http1Client] *)

(** [utils::to_integer<size_t>(s).has_value()], stored in a [std::optional<bool>]. *)
Definition parsed_length (s : bytes) : option bool :=
  Some (match to_integer false 64 10 s with Some _ => true | None => false end).

Definition send_response (h : Callbacks) (stream_id : Z) (response : Response) : M (option (ErrorImpl Http1Error)) :=
  l ← get_streams;
  match head l with
  | None => mret no_active
  | Some stream =>
      if negb (stream_id =? id stream)%Z then mret (invalid_id stream_id (id stream))
      else
        let hs := s_headers response in
        let cl :=
          if iequals (gets (str "Transfer-Encoding") hs) (str "chunked") then ContentLengthChunked
          else match parsed_length (gets (str "Content-Length") hs) with
               | Some x => ContentLengthSize (Z.b2z x)
               | None => ContentLengthUnset
               end in
        update_front (set_content_length cl);;
        emit (on_output h) (OnOutput (response_str response));;
        let code := m_status_code response in
        let cant_have_body := (Z.quot code 100 =? 1)%Z || (code =? HTTP_STATUS_NO_CONTENT)%Z
          || (code =? HTTP_STATUS_RESET_CONTENT)%Z || (code =? HTTP_STATUS_NOT_MODIFIED)%Z || flags stream HEAD_REQUEST in
        let empty_msg := cant_have_body || (match cl with ContentLengthSize n => (n =? 0)%Z | _ => false end) in
        if empty_msg then
          let is_upgrade := flags stream UPGRADE_REQUEST
            && (negb (bool_decide (gets (str "Upgrade") hs = []))
                || (if ifind (gets (str "Connection") hs) (str "upgrade") is Some _ then true else false)) in
          if negb is_upgrade && negb (code =? HTTP_STATUS_CONTINUE)%Z && negb (code =? HTTP_STATUS_EARLY_HINTS)%Z then
            pop_front;;
            emit (on_stream_finished h) (OnStreamFinished stream_id 0);;
            mret None
          else mret None
        else mret None
  end.

Definition send_request (h : Callbacks) (request : Request) : M Z :=
  stream_id ← take_stream_id;
  l ← get_streams;
  let hs := r_headers request in
  let cl :=
    if iequals (gets (str "Transfer-Encoding") hs) (str "chunked") then ContentLengthChunked
    else match get (str "Content-Length") hs with
         | Some v => match parsed_length v with
                     | Some x => ContentLengthSize (Z.b2z x)
                     | None => ContentLengthUnset
                     end
         | None => ContentLengthUnset
         end in
  let empty_msg := bool_decide (m_method request = str "HEAD")
    || match cl with ContentLengthUnset => true | ContentLengthSize n => (n =? 0)%Z | ContentLengthChunked => false end in
  put_streams (l ++ [set_content_length cl (new_stream stream_id)]);;
  emit (on_output h) (OnOutput (request_str request));;
  put_streams (l ++ [set_flag REQ_SENT empty_msg (set_content_length cl (new_stream stream_id))]);;
  mret stream_id.

(** ** Active streams *)

Lemma active_alter T f l s : active_stream T l = Some s -> active_stream T (alter_active T f l) = Some (f s).
Proof.
  unfold active_stream, alter_active. destruct T.
  - intros [l' ->]%last_Some. rewrite length_app. cbn. replace (length l' + 1 - 1) with (length l') by lia.
    rewrite alter_app_r_alt, Nat.sub_diag by lia. cbn. apply last_snoc.
  - destruct l; [done|]. by intros [= ->].
Qed.

Definition with_streams (l : list Stream) (s : Session) : Session :=
  MkSession (m_parser s) (m_parser_context s) (m_next_stream_id s) l.

Lemma update_active_run T f s : update_active T f s = (tt, with_streams (alter_active T f (m_streams s)) s, []).
Proof. done. Qed.

Lemma update_front_run f s : update_front f s = (tt, with_streams (alter f 0 (m_streams s)) s, []).
Proof. done. Qed.

Lemma pop_front_run s : pop_front s = (tt, with_streams (tail (m_streams s)) s, []).
Proof. done. Qed.

(** ** Chunked bodies *)

(** The raw bytes handed to the user for the peer. *)
Definition output_bytes (o : list Out) : bytes :=
  List.concat (map (fun x => match x with OnOutput c => c | _ => [] end) o).

Lemma output_bytes_app o1 o2 : output_bytes (o1 ++ o2) = output_bytes o1 ++ output_bytes o2.
Proof. unfold output_bytes. by rewrite map_app, List.concat_app. Qed.

Definition chunk_text (c : bytes) : bytes := fmt_HEX (Z.of_nat (length c)) ++ CRLF ++ c ++ CRLF.

Section ChunkedBody.
Context (T : side) (h : Callbacks) (sid : Z).
Hypothesis Hout : on_output h = true.

(** [sid] is the active stream and its body is chunked. *)
Definition chunked_active (s : Session) : Prop :=
  exists st, active_stream T (m_streams s) = Some st /\ id st = sid /\ content_length st = ContentLengthChunked.

Lemma send_chunk s c :
  chunked_active s -> c <> [] ->
  exists s' o, send_body_impl T h sid c false s = (None, s', o) /\ output_bytes o = chunk_text c /\ chunked_active s'.
Proof.
  intros (st & Ha & Hid & Hcl) Hc. unfold send_body_impl. cbn [send_body_rec]. unfold mbind, M_bind, get_streams at 1. cbn.
  rewrite Ha. cbn. rewrite Hid, Z.eqb_refl. cbn. rewrite Hcl, Hout. rewrite bool_decide_false by done. cbn.
  do 2 eexists. split; [done|]. split.
  - unfold output_bytes, chunk_text, CHUNK_FOOTER. cbn [map List.concat app]. by rewrite app_nil_r, <- app_assoc.
  - eexists. cbn. split; [apply (active_alter T _ _ st Ha)|]. done.
Qed.

Lemma send_last_chunk s c :
  chunked_active s ->
  exists s' o, send_body_impl T h sid c true s = (None, s', o) /\
    output_bytes o = (if bool_decide (c = []) then [] else chunk_text c) ++ str "0" ++ CRLF ++ CRLF.
Proof.
  intros (st & Ha & Hid & Hcl). unfold send_body_impl. cbn [send_body_rec]. unfold mbind, M_bind, get_streams at 1.
  cbn beta iota. rewrite Ha. cbn beta iota. rewrite Hid, Z.eqb_refl. cbn [negb]. rewrite Hcl, Hout.
  destruct (decide (c = [])) as [->|Hc].
  - rewrite bool_decide_true by done. rewrite update_active_run.
    destruct T; cbn; do 2 eexists; (split; [done|]); unfold output_bytes; cbn [map List.concat app];
      destruct (on_stream_finished h); done.
  - rewrite bool_decide_false by done. rewrite update_active_run. cbn. rewrite (active_alter T _ _ st Ha). cbn.
    rewrite Hid, Z.eqb_refl. cbn. rewrite Hcl, update_active_run.
    destruct T; cbn; do 2 eexists; (split; [done|]); unfold output_bytes, chunk_text, CHUNK_FOOTER;
      cbn [map List.concat app]; rewrite <- !app_assoc; destruct (on_stream_finished h); done.
Qed.

(** A body in pieces, the last one with the end of the stream. *)
Fixpoint send_chunks (cs : list bytes) : M (option (ErrorImpl Http1Error)) :=
  match cs with
  | [] => send_body_impl T h sid [] true
  | [c] => send_body_impl T h sid c true
  | c :: cs' => send_body_impl T h sid c false;; send_chunks cs'
  end.

(** What the receiver of a chunked body reads: sizes in hexadecimal, data, an empty last chunk. *)
Fixpoint dechunk (fuel : nat) (s : bytes) : option (bytes * bytes) :=
  match fuel, take_line s with
  | S f, Some (line, rest) =>
      match to_integer false 64 16 line with
      | Some n =>
          if (n =? 0)%Z then
            match take_line rest with Some ([], rest') => Some ([], rest') | _ => None end
          else
            let k := Z.to_nat n in
            match take_line (drop k rest) with
            | Some ([], rest') =>
                match dechunk f rest' with Some (body, t) => Some (take k rest ++ body, t) | None => None end
            | _ => None
            end
      | None => None
      end
  | _, _ => None
  end.

Lemma hex_line n :
  (0 <= n < 2 ^ 64)%Z -> one_line (fmt_HEX n) /\ to_integer false 64 16 (fmt_HEX n) = Some n.
Proof.
  intros Hn. split.
  - destruct (fmt_num_read true 16 n) as (Hd & _ & _); [lia..|]. eapply Forall_impl; [exact Hd|].
    intros c [d Hc] ->. done.
  - apply to_integer_unsigned_fmt; unfold int_max, int_min; lia.
Qed.

Lemma take_line_empty rest : take_line (CRLF ++ rest) = Some ([], rest).
Proof. apply (take_line_app []). constructor. Qed.

Lemma dechunk_end fuel tail : dechunk (S fuel) (str "0" ++ CRLF ++ CRLF ++ tail) = Some ([], tail).
Proof.
  cbn [dechunk]. rewrite take_line_app by (repeat constructor; done). by rewrite take_line_empty.
Qed.

Lemma dechunk_chunk fuel c tail :
  c <> [] -> (Z.of_nat (length c) < 2 ^ 64)%Z ->
  dechunk (S fuel) (chunk_text c ++ tail)
  = match dechunk fuel tail with Some (body, t) => Some (c ++ body, t) | None => None end.
Proof.
  intros Hc Hl. destruct (hex_line (Z.of_nat (length c))) as [H1 H2]; [lia|]. unfold chunk_text.
  cbn [dechunk]. rewrite <- !app_assoc, take_line_app, H2 by done.
  assert (length c <> 0) by (by destruct c). rewrite (proj2 (Z.eqb_neq _ _)) by lia.
  rewrite Nat2Z.id, drop_app_length, take_line_empty, take_app_length. done.
Qed.

(** C27: A chunked body reads back, by a reader of the chunked coding, as the concatenation of the pieces it was sent
    in, for a client and for a server, with nothing left over.  Only the last piece, with which the stream ends, may
    be empty: an empty piece before it is sent as the chunk that ends a body. *)
Theorem chunked_roundtrip s cs :
  chunked_active s -> Forall (fun c => Z.of_nat (length c) < 2 ^ 64)%Z cs -> Forall (fun c => c <> []) (removelast cs) ->
  exists s' o, send_chunks cs s = (None, s', o) /\
    dechunk (S (length cs)) (output_bytes o) = Some (List.concat cs, []).
Proof.
  intros Hs Hc. revert s Hs. induction Hc as [|c cs Hl Hc IH]; intros s Hs Hne.
  - destruct (send_last_chunk s [] Hs) as (s' & o & E & Ho). exists s', o. split; [done|]. rewrite Ho.
    apply (dechunk_end 0 []).
  - destruct cs as [|c' cs].
    + destruct (send_last_chunk s c Hs) as (s' & o & E & Ho). exists s', o. split; [done|]. rewrite Ho.
      change (str "0" ++ CRLF ++ CRLF) with (str "0" ++ CRLF ++ CRLF ++ []). case_bool_decide as Hempty.
      { subst c. apply (dechunk_end 1 []). }
      cbn [length]. rewrite dechunk_chunk, dechunk_end by done. cbn. by rewrite app_nil_r.
    + change (removelast (c :: c' :: cs)) with (c :: removelast (c' :: cs)) in Hne. apply Forall_cons in Hne as [Hn1 Hne].
      destruct (send_chunk s c Hs Hn1) as (s1 & o1 & E1 & Ho1 & Hs1). destruct (IH s1 Hs1 Hne) as (s2 & o2 & E2 & Ho2).
      exists s2, (o1 ++ o2). split.
      * change (send_chunks (c :: c' :: cs)) with (send_body_impl T h sid c false;; send_chunks (c' :: cs)).
        unfold mbind, M_bind. by rewrite E1, E2.
      * rewrite output_bytes_app, Ho1. change (length (c :: c' :: cs)) with (S (length (c' :: cs))).
        by rewrite dechunk_chunk, Ho2.
Qed.
End ChunkedBody.

(** ** Messages arrive in pieces *)

(** A run of parser callbacks, with the numbers they return. *)
Fixpoint feed (T : side) (h : Callbacks) (es : list Event) : M (list Z) :=
  match es with
  | [] => mret []
  | e :: es' => r ← callback T h e; rs ← feed T h es'; mret (r :: rs)
  end.

(** A header as the parser delivers it: pieces of the name, then pieces of the value. *)
Definition field_events (f : list bytes * list bytes) : list Event :=
  map HeaderField f.1 ++ map HeaderValue f.2.

Definition field_of (f : list bytes * list bytes) : bytes * bytes := (List.concat f.1, List.concat f.2).

(** A field whose value is not empty. *)
Definition full_field (f : list bytes * list bytes) : Prop := f.1 <> [] /\ List.concat f.2 <> [].

Definition with_ctx (c : ParserContext) (s : Session) : Session :=
  MkSession (m_parser s) (Some c) (m_next_stream_id s) (m_streams s).

Lemma feed_app T h es1 es2 s :
  feed T h (es1 ++ es2) s
  = let '(r1, s1, o1) := feed T h es1 s in let '(r2, s2, o2) := feed T h es2 s1 in (r1 ++ r2, s2, o1 ++ o2).
Proof.
  revert s. induction es1 as [|e es1 IH]; intros s; cbn [app feed].
  - cbn. by destruct (feed T h es2 s) as [[??]?].
  - unfold mbind, M_bind. destruct (callback T h e s) as [[r s1] o1]. rewrite IH.
    destruct (feed T h es1 s1) as [[rs s2] o2]. cbn. destruct (feed T h es2 s2) as [[rs' s3] o3]. cbn.
    by rewrite !app_nil_r, app_assoc.
Qed.

Section Head.
Context (T : side) (h : Callbacks).

(** A stream is active and the message context is [c]. *)
Definition ready (c : ParserContext) (s : Session) : Prop :=
  (exists st, active_stream T (m_streams s) = Some st) /\ m_parser_context s = Some c.

Lemma ready_with_ctx c c' s : ready c s -> ready c' (with_ctx c' s).
Proof. intros [Ha _]. split; [exact Ha|done]. Qed.

Lemma feed_context {A} (ev : A -> Event) (step : A -> ParserContext -> ParserContext) (l : list A) c s :
  (forall a c s, ready c s -> callback T h (ev a) s = (0%Z, with_ctx (step a c) s, [])) ->
  ready c s ->
  exists s', feed T h (map ev l) s = (replicate (length l) 0%Z, s', []) /\
             s' = with_ctx (fold_left (fun c a => step a c) l c) s /\ ready (fold_left (fun c a => step a c) l c) s'.
Proof.
  intros Hstep. revert c s. induction l as [|a l IH]; intros c s Hr.
  - exists s. split; [done|]. split; [|done]. destruct Hr as [_ Hc]. destruct s. cbn in *. by subst.
  - cbn [map feed length replicate fold_left]. unfold mbind, M_bind. rewrite (Hstep a c s Hr).
    destruct (IH (step a c) (with_ctx (step a c) s)) as (s' & -> & -> & Hr'); [by eapply ready_with_ctx|].
    eexists. split; [done|]. split; [done|]. done.
Qed.

Definition add_value (v : bytes) (hs : list (bytes * bytes)) : list (bytes * bytes) :=
  match last hs with
  | Some (n, w) => removelast hs ++ [(n, w ++ v)]
  | None => hs
  end.

Definition set_headers (f : list (bytes * bytes) -> list (bytes * bytes)) (c : ParserContext) : ParserContext :=
  MkContext (path c) (status_string c) (f (headers c)).

Lemma callback_field f c s : ready c s -> callback T h (HeaderField f) s = (0%Z, with_ctx (set_headers (add_field f) c) s, []).
Proof.
  intros [[st Ha] Hc]. cbn [callback]. unfold on_header_field, with_stream, with_context, mbind, M_bind, get_streams, get_context.
  by rewrite Ha, Hc.
Qed.

Lemma feed_names n ns hs c s :
  ready c s -> headers c = hs -> (forall k v, last hs = Some (k, v) -> v <> []) ->
  exists s', feed T h (map HeaderField (n :: ns)) s = (replicate (S (length ns)) 0%Z, s', []) /\
    s' = with_ctx (MkContext (path c) (status_string c) (hs ++ [(n ++ List.concat ns, [])])) s.
Proof.
  intros Hr Hh Hlast. destruct (feed_context HeaderField (fun f => set_headers (add_field f)) (n :: ns) c s)
    as (s' & E & -> & _); [intros; by apply callback_field|done|].
  eexists. split; [exact E|]. f_equal. cbn [fold_left].
  assert (set_headers (add_field n) c = MkContext (path c) (status_string c) (hs ++ [(n, [])])) as ->.
  { unfold set_headers, add_field. rewrite Hh. destruct (last hs) as [[k v]|] eqn:El; [|done].
    by rewrite bool_decide_false by (by eapply Hlast). }
  clear. revert n. induction ns as [|m ns IH]; intros n; cbn [fold_left List.concat]; [by rewrite app_nil_r|].
  assert (set_headers (add_field m) (MkContext (path c) (status_string c) (hs ++ [(n, [])]))
          = MkContext (path c) (status_string c) (hs ++ [(n ++ m, [])])) as ->.
  { unfold set_headers, add_field. cbn. rewrite last_snoc, bool_decide_true by done. cbn. by rewrite removelast_last. }
  rewrite IH. by rewrite app_assoc.
Qed.

Lemma feed_values vs hs n w c s :
  ready c s -> headers c = hs ++ [(n, w)] ->
  exists s', feed T h (map HeaderValue vs) s = (replicate (length vs) 0%Z, s', []) /\
    s' = with_ctx (MkContext (path c) (status_string c) (hs ++ [(n, w ++ List.concat vs)])) s.
Proof.
  revert w c s. induction vs as [|v vs IH]; intros w c s Hr Hh.
  - exists s. split; [done|]. cbn. rewrite app_nil_r, <- Hh. destruct Hr as [_ Hc]. destruct s, c. cbn in *. by subst.
  - cbn [map feed length replicate List.concat]. unfold mbind, M_bind.
    assert (callback T h (HeaderValue v) s
            = (0%Z, with_ctx (MkContext (path c) (status_string c) (hs ++ [(n, w ++ v)])) s, [])) as ->.
    { destruct Hr as [[st Ha] Hc]. cbn [callback].
      unfold on_header_value, with_stream, with_context, mbind, M_bind, get_streams, get_context.
      rewrite Ha, Hc, Hh, last_snoc, removelast_last. done. }
    destruct (IH (w ++ v) (MkContext (path c) (status_string c) (hs ++ [(n, w ++ v)]))
                 (with_ctx (MkContext (path c) (status_string c) (hs ++ [(n, w ++ v)])) s)) as (s' & E & ->);
      [by eapply ready_with_ctx|done|].
    rewrite E. eexists. split; [done|]. cbn. by rewrite app_assoc.
Qed.

Lemma feed_fields fs hs c s :
  Forall full_field fs -> ready c s -> headers c = hs -> (forall k v, last hs = Some (k, v) -> v <> []) ->
  exists rs, feed T h (flat_map field_events fs) s
    = (rs, with_ctx (MkContext (path c) (status_string c) (hs ++ map field_of fs)) s, []) /\ Forall (eq 0%Z) rs.
Proof.
  intros Hf. revert hs c s. induction Hf as [|[ns vs] fs [Hn Hv] _ IH]; intros hs c s Hr Hh Hl.
  - exists []. split; [|constructor]. cbn. rewrite app_nil_r, <- Hh. destruct Hr as [_ Hc]. destruct s, c. cbn in *. by subst.
  - cbn [flat_map map]. unfold field_events at 1. cbn [fst snd] in *. rewrite !feed_app.
    destruct ns as [|n ns]; [done|].
    destruct (feed_names n ns hs c s Hr Hh Hl) as (s1 & E1 & Es1). rewrite E1, Es1.
    set (c1 := MkContext (path c) (status_string c) (hs ++ [(n ++ List.concat ns, [])])).
    destruct (feed_values vs hs (n ++ List.concat ns) [] c1 (with_ctx c1 s)) as (s2 & E2 & Es2);
      [by eapply ready_with_ctx|done|].
    rewrite E2, Es2.
    destruct (IH (hs ++ [(n ++ List.concat ns, List.concat vs)])
                 (MkContext (path c) (status_string c) (hs ++ [(n ++ List.concat ns, List.concat vs)]))
                 (with_ctx (MkContext (path c) (status_string c) (hs ++ [(n ++ List.concat ns, List.concat vs)])) s))
      as (rs & E3 & Hrs).
    { by eapply ready_with_ctx. }
    { done. }
    { intros k v. rewrite last_snoc. by intros [= <- <-]. }
    eexists. split.
    { cbn [path status_string] in *. unfold with_ctx in *. cbn in *. rewrite E3.
      rewrite <- (app_assoc hs). done. }
    constructor; [done|]. repeat (apply Forall_app; split); try apply Forall_replicate; done.
Qed.
End Head.

Definition header_of (nv : bytes * bytes) : Header := make_header nv.1 nv.2.

Lemma headers_of_map l : headers_of l = MkHeaders (map header_of l) false.
Proof.
  unfold headers_of. enough (forall l0 : list Header, fold_left (fun hs nv => put nv.1 nv.2 hs) l (MkHeaders l0 false)
    = MkHeaders (l0 ++ map header_of l) false) as E by (apply (E [])).
  induction l as [|nv l IH]; intros l0; cbn [fold_left map]; [by rewrite app_nil_r|].
  unfold put at 2. cbn. rewrite IH. by rewrite <- app_assoc.
Qed.

Lemma feed_head T h es fs info ctx c s s1 :
  Forall full_field fs -> feed T h es s = (replicate (length es) 0%Z, s1, []) -> ready T ctx s1 -> headers ctx = [] ->
  c = MkContext (path ctx) (status_string ctx) (map field_of fs) ->
  exists rs, Forall (eq 0%Z) rs /\
    feed T h (es ++ flat_map field_events fs ++ [HeadersComplete info]) s
    = let '(r, s', o) := on_headers_complete T h info (with_ctx c s1) in (rs ++ [r], s', o).
Proof.
  intros Hf E1 Hr Hh ->. destruct (feed_fields T h fs [] ctx s1 Hf Hr Hh) as (rs & E2 & Hrs); [done|].
  exists (replicate (length es) 0%Z ++ rs). split; [apply Forall_app; split; [by apply Forall_replicate|done]|].
  rewrite feed_app, E1, feed_app, E2. cbn [feed app]. unfold mbind, M_bind. cbn [callback].
  destruct (on_headers_complete _ _ _ _) as [[r s'] o]. cbn. by rewrite !app_nil_r, app_assoc.
Qed.

Lemma fold_path us c :
  fold_left (fun c u => MkContext (path c ++ u) (status_string c) (headers c)) us c
  = MkContext (path c ++ List.concat us) (status_string c) (headers c).
Proof.
  revert c. induction us as [|u us IH]; intros c; cbn [fold_left List.concat]; [by rewrite app_nil_r; destruct c|].
  rewrite IH. cbn. by rewrite app_assoc.
Qed.

(** C28: However the parser cuts the target and the header names and values of a request into pieces, a
    server makes one call, with a new stream number and a request that has exactly the method, the
    target, the version and the headers that were received, in order, as long as no value is empty. *)
Theorem request_assembled h s us fs info :
  on_message h = true -> Forall full_field fs -> is_byte (http_major info) -> is_byte (http_minor info) ->
  exists rs r s' req,
    feed Server h (MessageBegin :: map Url us ++ flat_map field_events fs ++ [HeadersComplete info]) s
    = (rs ++ [r], s', [OnRequest (m_next_stream_id s) req]) /\ Forall (eq 0%Z) rs /\
    m_method req = llhttp_method_name (method info) /\ m_path req = List.concat us /\
    version_get_major (m_version req) = http_major info /\ version_get_minor (m_version req) = http_minor info /\
    m_headers (r_headers req) = map (fun f => header_of (field_of f)) fs /\
    r = (if upgrade info then 2 else if has_body (r_headers req) then 0 else 1)%Z.
Proof.
  intros Hm Hf Ha Hi. destruct (make_version_total _ _ Ha Hi) as (v & Ev & Hmaj & Hmin).
  set (st := new_stream (m_next_stream_id s)).
  set (s0 := MkSession (m_parser s) (Some (MkContext [] [] [])) (u32 (m_next_stream_id s + 1)) (m_streams s ++ [st])).
  assert (active_stream Server (m_streams s0) = Some st) as Hact by apply last_snoc.
  assert (ready Server (MkContext [] [] []) s0) as Hr0 by (split; [by exists st|done]).
  destruct (feed_context Server h Url (fun u c => MkContext (path c ++ u) (status_string c) (headers c)) us
              (MkContext [] [] []) s0) as (s1 & E1 & Es1 & Hr1).
  { intros u c s' [[st' Hst] Hc]. cbn [callback]. unfold on_url, with_stream, with_context, mbind, M_bind, get_streams, get_context.
    by rewrite Hst, Hc. }
  { done. }
  rewrite fold_path in *. cbn [path status_string headers app] in Es1, Hr1.
  destruct (feed_head Server h (MessageBegin :: map Url us) fs info (MkContext (List.concat us) [] [])
              (MkContext (List.concat us) [] (map field_of fs)) s s1 Hf) as (rs & Hrs & E); [|done..|].
  { cbn [feed]. unfold mbind, M_bind.
    change (callback Server h MessageBegin s) with (0%Z, s0, [] : list Out). cbn beta iota. rewrite E1. cbn. by rewrite length_map. }
  cbn [app] in E. rewrite E, Es1. cbn [path status_string headers].
  unfold on_headers_complete, with_stream, with_context, mbind, M_bind, get_streams, get_context. cbn [m_streams with_ctx m_parser_context].
  rewrite Hact, Ev. unfold with_ctx. cbn [m_parser_context headers path status_string]. rewrite headers_of_map, Hm. cbn.
  do 4 eexists. split; [done|]. cbn. repeat (split; [done|]). split; [by rewrite map_map|].
  destruct (upgrade info); [done|]. by destruct (f_chunked info || _).
Qed.

(** ** A finished stream of a client is never mentioned again *)

Definition stream_of (o : Out) : option Z :=
  match o with
  | OnRequest i _ | OnResponse i _ | OnTrailerHeaders i _ | OnBody i _ | OnBodyFinished i | OnStreamFinished i _ => Some i
  | OnOutput _ => None
  end.

(** Calls that tell the user about stream [i] without ending it, or that output bytes. *)
Definition about (i : Z) (o : Out) : Prop :=
  match o with
  | OnOutput _ => True
  | OnStreamFinished _ _ => False
  | _ => stream_of o = Some i
  end.

Definition ids (s : Session) : list Z := map id (m_streams s).

(** Calls about [i], the last of which may end it. *)
Fixpoint ending (i : Z) (o : list Out) : Prop :=
  match o with
  | [] => True
  | [OnStreamFinished j _] => j = i
  | x :: o' => about i x /\ ending i o'
  end.

(** What one step does to the streams: it speaks about the first one, and may end and remove it. *)
Inductive shape (s s' : Session) : list Out -> Prop :=
| ShapeSame o :
    ids s' = ids s -> m_next_stream_id s' = m_next_stream_id s ->
    (o <> [] -> exists i, head (ids s) = Some i /\ Forall (about i) o) -> shape s s' o
| ShapePop i rest o :
    ids s = i :: rest -> ids s' = rest -> m_next_stream_id s' = m_next_stream_id s ->
    ending i o -> shape s s' o.

(** Solves the shape of a step that was computed. *)
Ltac same_shape := apply ShapeSame; [done|done|]; intros _; eexists; split; [done|]; repeat constructor.

(** Runs a client's step on a known list of streams. *)
Ltac run_client :=
  unfold with_stream, with_context, update_active, update_front, pop_front, mbind, M_bind; cbn;
  unfold active_stream, alter_active; cbn.

Lemma shape_quiet s s' : ids s' = ids s -> m_next_stream_id s' = m_next_stream_id s -> shape s s' [].
Proof. intros. by apply ShapeSame. Qed.

Lemma callback_shape h e s :
  let '(_, s', o) := callback Client h e s in shape s s' o.
Proof.
  destruct s as [p ctx nx l]. destruct l as [|st l].
  { destruct e; cbn; by apply shape_quiet. }
  destruct e as [|u|u|u|u|info|u|]; cbn [callback].
  - unfold on_message_begin. run_client. by apply shape_quiet.
  - unfold on_url. run_client. by apply shape_quiet.
  - unfold on_status. run_client. destruct ctx; cbn; by apply shape_quiet.
  - unfold on_header_field. run_client. destruct ctx; cbn; by apply shape_quiet.
  - unfold on_header_value. run_client. destruct ctx as [c|]; cbn; [|by apply shape_quiet].
    destruct (last (headers c)) as [[n v]|]; cbn; by apply shape_quiet.
  - unfold on_headers_complete. run_client. destruct ctx as [c|]; cbn; [|by apply shape_quiet].
    destruct (make_version _ _); cbn; [|by apply shape_quiet].
    destruct (on_message h); cbn; [same_shape|by apply shape_quiet].
  - unfold on_body_data. run_client. destruct (on_body h); cbn; [same_shape|by apply shape_quiet].
  - unfold on_message_complete. run_client.
    destruct (flags st HAS_BODY), ctx as [c|]; cbn; [destruct (on_trailer_headers h && _); cbn| | |];
      destruct (on_body_finished h), (flags st INTERMEDIATE_RESPONSE), (on_stream_finished h); cbn;
      first [by apply shape_quiet | same_shape | by eapply ShapePop].
Qed.

(** ** Traces *)

(** No call about a stream of [F] or about one that was finished earlier in the trace. *)
Fixpoint quiet (F : list Z) (o : list Out) : Prop :=
  match o with
  | [] => True
  | x :: o' =>
      (forall i, stream_of x = Some i -> i ∉ F) /\
      quiet (match x with OnStreamFinished i _ => i :: F | _ => F end) o'
  end.

Fixpoint finished (F : list Z) (o : list Out) : list Z :=
  match o with
  | [] => F
  | x :: o' => finished (match x with OnStreamFinished i _ => i :: F | _ => F end) o'
  end.

Lemma quiet_app F o1 o2 : quiet F (o1 ++ o2) <-> quiet F o1 /\ quiet (finished F o1) o2.
Proof. revert F. induction o1 as [|x o1 IH]; intros F; cbn; [tauto|]. rewrite IH. tauto. Qed.

Lemma finished_app F o1 o2 : finished F (o1 ++ o2) = finished (finished F o1) o2.
Proof. revert F. induction o1 as [|x o1 IH]; intros F; cbn; [done|]. apply IH. Qed.

Lemma finished_mono F o i : i ∈ F -> i ∈ finished F o.
Proof. revert F. induction o as [|x o IH]; intros F Hi; cbn; [done|]. apply IH. destruct x; try done. by right. Qed.

Lemma quiet_final F o1 i c o2 :
  quiet F (o1 ++ OnStreamFinished i c :: o2) -> Forall (fun x => stream_of x <> Some i) o2.
Proof.
  rewrite quiet_app. intros [_ [_ Hq]]. revert Hq. cbn. generalize (finished F o1). intros G Hq.
  assert (i ∈ i :: G) as Hi by left. revert Hi Hq. generalize (i :: G). clear.
  induction o2 as [|x o2 IH]; intros G Hi; cbn; [constructor|]. intros [Hx Hq]. constructor.
  - intros E. by apply (Hx i).
  - eapply IH; [|exact Hq]. destruct x; try done. by right.
Qed.

(** Stream numbers are distinct and below the next one, finished ones are not in the list. *)
Record client_inv (F : list Z) (s : Session) : Prop := {
  ci_nodup : NoDup (ids s);
  ci_below : forall i, i ∈ ids s -> (i < m_next_stream_id s)%Z;
  ci_past : forall i, i ∈ F -> (i < m_next_stream_id s)%Z;
  ci_apart : forall i, i ∈ F -> i ∉ ids s
}.

Lemma about_quiet F i o : i ∉ F -> Forall (about i) o -> quiet F o /\ finished F o = F.
Proof.
  intros Hi. induction 1 as [|x o Hx _ IH]; cbn; [done|].
  destruct x; cbn in *; simplify_eq; try done; destruct IH; repeat split; try done; intros ? [= <-]; done.
Qed.

Lemma ending_quiet F i o : i ∉ F -> ending i o -> quiet F o /\ (finished F o = F \/ finished F o = i :: F).
Proof.
  intros Hi. induction o as [|x o IH]; [cbn; tauto|]. intros He.
  destruct x as [j r|j r|j r|j r|j|j c|d]; cbn in He |- *.
  6:{ destruct o as [|y o]; [|by destruct He]. subst j. split; [|by right]. split; [|done]. by intros ? [= <-]. }
  all: destruct He as [Ha Ho]; simplify_eq; destruct (IH Ho) as [Hq Hf]; split; [split; [|done]|done]; by intros ? [= <-].
Qed.

Lemma shape_inv F s s' o :
  client_inv F s -> shape s s' o -> quiet F o /\ client_inv (finished F o) s'.
Proof.
  intros [Hn Hb Hp Ha] Hs. destruct Hs as [o Hi Hx Ho|i rest o Hi Hr Hx He].
  - destruct o as [|x o]; [cbn; split; [done|]; split; rewrite ?Hi, ?Hx; done|].
    destruct Ho as (i & Hh & Hf); [done|]. assert (i ∈ ids s) as Hin by (destruct (ids s); [done|]; injection Hh as ->; left).
    destruct (about_quiet F i (x :: o)) as [Hq Hfin]; [intros HF; by apply (Ha i)|done|].
    split; [done|]. rewrite Hfin. split; rewrite ?Hi, ?Hx; done.
  - rewrite Hi in *. apply NoDup_cons in Hn as [Hni Hn].
    assert (i ∉ F) as HiF by (intros HF; apply (Ha i HF); by left).
    destruct (ending_quiet F i o HiF He) as [Hq Hfin]. split; [done|].
    assert (forall j, j ∈ finished F o -> j = i \/ j ∈ F) as Hsub by (destruct Hfin as [-> | ->]; set_solver).
    split; rewrite ?Hr, ?Hx; [done| | |].
    + intros j Hj. apply Hb. by right.
    + intros j [-> | Hj]%Hsub; [apply Hb; by left|by apply Hp].
    + intros j [-> | Hj]%Hsub; [done|]. intros Hjr. apply (Ha j Hj). by right.
Qed.

Lemma run_exec_inv h t F s :
  client_inv F s -> let '(_, s', o) := run_exec Client h t s in quiet F o /\ client_inv (finished F o) s'.
Proof.
  revert F s. induction t as [p err|e k IH]; intros F s Hc; cbn [run_exec].
  - cbn. split; [done|]. destruct Hc. by split.
  - unfold mbind, M_bind. pose proof (callback_shape h e s) as Hs. destruct (callback Client h e s) as [[r s1] o1].
    destruct (shape_inv F s s1 o1 Hc Hs) as [Hq1 Hc1]. specialize (IH r _ _ Hc1).
    destruct (run_exec Client h (k r) s1) as [[err s2] o2]. destruct IH as [Hq2 Hc2].
    rewrite quiet_app, finished_app. done.
Qed.

Lemma input_inv h chunk F s :
  client_inv F s -> let '(_, s', o) := input_impl Client h chunk s in quiet F o /\ client_inv (finished F o) s'.
Proof.
  intros Hc. unfold input_impl, reset_parser, mbind, M_bind. cbn.
  assert (forall s0, client_inv F s0 ->
    let '(_, s', o) := run_exec Client h (llhttp_execute (m_parser s0) chunk) s0 in quiet F o /\ client_inv (finished F o) s') as Hrun.
  { intros s0 H0. pose proof (run_exec_inv h (llhttp_execute (m_parser s0) chunk) F s0 H0) as Hr.
    by destruct (run_exec Client h _ s0) as [[??]?]. }
  assert (client_inv F (MkSession (llhttp_reset (m_parser s)) None (m_next_stream_id s) (m_streams s))) as Hreset
    by (destruct Hc; by split).
  destruct (llhttp_get_errno (m_parser s)) eqn:E; cbn;
    [specialize (Hrun s Hc)|specialize (Hrun _ Hreset)..]; cbn in Hrun;
    (destruct (run_exec Client h _ _) as [[err s'] o]); cbn; by rewrite ?app_nil_r.
Qed.

Lemma send_body_shape h sid chunk eof s :
  let '(_, s', o) := send_body_impl Client h sid chunk eof s in shape s s' o /\ ids s' = ids s /\
    Forall (fun x => stream_of x = None) o.
Proof.
  destruct s as [p ctx nx l]. unfold send_body_impl. cbn [send_body_rec]. destruct l as [|st l].
  { cbn. split; [by apply shape_quiet|done]. }
  run_client. destruct (sid =? id st)%Z eqn:E; cbn; [|split; [by apply shape_quiet|done]].
  destruct (content_length st) as [| |n] eqn:Ecl; cbn.
  - destruct (on_output h && negb (bool_decide (chunk = []))), eof; cbn;
      (split; [first [by apply shape_quiet | same_shape]|split; [done|by repeat constructor]]).
  - destruct (on_output h); [destruct (bool_decide (chunk = [])), eof|destruct eof]; cbn; unfold active_stream, alter_active; cbn;
      rewrite ?E, ?Ecl; cbn; (split; [first [by apply shape_quiet | same_shape]|split; [done|by repeat constructor]]).
  - destruct (on_output h && negb (bool_decide (chunk = []))); cbn; destruct (_ =? 0)%Z; cbn;
      (split; [first [by apply shape_quiet | same_shape]|split; [done|by repeat constructor]]).
Qed.

Lemma send_trailer_shape h sid hs eof s :
  let '(_, s', o) := send_trailer_impl Client h sid hs eof s in shape s s' o.
Proof.
  destruct s as [p ctx nx l]. unfold send_trailer_impl. destruct l as [|st l].
  { cbn. by apply shape_quiet. }
  run_client. destruct (Z.eqb_spec sid (id st)) as [->|]; cbn; [|by apply shape_quiet].
  destruct (on_output h) eqn:Eo; cbn; [|by apply shape_quiet].
  destruct (flags st ZERO_CHUNK_SENT); cbn.
  - destruct eof, (on_stream_finished h); cbn; first [same_shape | by eapply ShapePop].
  - match goal with |- context [send_body_impl Client h (id st) [] false ?s1] =>
      pose proof (send_body_shape h (id st) [] false s1) as Hb;
      assert (ids s1 = id st :: ids (MkSession p ctx nx l)) as Hids by done;
      assert (m_next_stream_id s1 = nx) as Hnx by done;
      destruct (send_body_impl Client h (id st) [] false s1) as [[e s2] o2]
    end.
    destruct Hb as (Hsh & Hi2 & Ho2).
    assert (m_next_stream_id s2 = nx) as Hn2 by (destruct Hsh; congruence).
    assert (Forall (about (id st)) o2) as Hab
      by (eapply Forall_impl; [exact Ho2|]; intros x; by destruct x).
    destruct e as [e|]; cbn.
    { apply ShapeSame; [by rewrite Hi2, Hids|done|]. intros _. exists (id st). split; [done|].
      by rewrite ?app_nil_r. }
    assert (forall o, Forall (about (id st)) o -> Forall (about (id st)) (o2 ++ o)) as Happ
      by (intros; by apply Forall_app).
    destruct eof; cbn.
    + assert (forall o, ending (id st) o -> ending (id st) (o2 ++ o)) as Hend.
      { clear -Hab. induction Hab as [|x o2 Hx _ IH]; intros o Ho; [done|]. specialize (IH o Ho). cbn.
        destruct x; cbn in *; try done. }
      eapply ShapePop; [done| |done|].
      * unfold ids. cbn. destruct (m_streams s2) as [|x l2] eqn:El; unfold ids in Hi2; rewrite El in Hi2; cbn in *; congruence.
      * rewrite <- ?app_assoc. apply Hend. by destruct (on_stream_finished h).
    + apply ShapeSame; [by rewrite Hi2, Hids|done|]. intros _. exists (id st). split; [done|].
      rewrite <- ?app_assoc. apply Happ. repeat constructor.
Qed.

(** Calls a user makes on a client. *)
Inductive client_op :=
| Input (chunk : bytes)
| SendRequest (r : Request)
| SendBody (stream_id : Z) (chunk : bytes) (eof : bool)
| SendTrailer (stream_id : Z) (hs : Headers) (eof : bool).

Definition client_step (h : Callbacks) (op : client_op) : M unit :=
  match op with
  | Input chunk => input_impl Client h chunk;; mret tt
  | SendRequest r => send_request h r;; mret tt
  | SendBody i chunk eof => send_body_impl Client h i chunk eof;; mret tt
  | SendTrailer i hs eof => send_trailer_impl Client h i hs eof;; mret tt
  end.

Fixpoint client_run (h : Callbacks) (ops : list client_op) : M unit :=
  match ops with
  | [] => mret tt
  | op :: ops' => client_step h op;; client_run h ops'
  end.

Lemma send_request_inv h r F s :
  client_inv F s -> (0 <= m_next_stream_id s < 2 ^ 32 - 1)%Z ->
  let '(_, s', o) := send_request h r s in
  quiet F o /\ client_inv (finished F o) s' /\ m_next_stream_id s' = (m_next_stream_id s + 1)%Z.
Proof.
  intros [Hn Hb Hp Ha] Hnx. unfold send_request, mbind, M_bind. cbn.
  assert (u32 (m_next_stream_id s + 1) = m_next_stream_id s + 1)%Z as Hu by (apply wrap_small; lia).
  assert (forall st, id st = m_next_stream_id s ->
    client_inv F (MkSession (m_parser s) (m_parser_context s) (u32 (m_next_stream_id s + 1)) (m_streams s ++ [st]))) as Hinv.
  { intros st Hst. split; unfold ids in *; cbn; rewrite ?map_app, ?Hu; cbn; rewrite ?Hst.
    - apply NoDup_app. split; [done|]. split; [|apply NoDup_singleton].
      intros i Hi ->%list_elem_of_singleton. apply Hb in Hi. lia.
    - intros i [Hi|Hi]%elem_of_app; [apply Hb in Hi; lia|]. apply list_elem_of_singleton in Hi. lia.
    - intros i Hi. apply Hp in Hi. lia.
    - intros i Hi [Hin|Hin]%elem_of_app; [by apply (Ha i)|]. apply list_elem_of_singleton in Hin. apply Hp in Hi. lia. }
  split; [by destruct (on_output h)|]. split; [|done].
  assert (forall b : bool, finished F ((if b then [OnOutput (request_str r)] else []) ++ []) = F) as -> by (by intros []).
  by apply Hinv.
Qed.

Lemma shape_next s s' o : shape s s' o -> m_next_stream_id s' = m_next_stream_id s.
Proof. by destruct 1. Qed.

Lemma run_exec_next h t s : let '(_, s', _) := run_exec Client h t s in m_next_stream_id s' = m_next_stream_id s.
Proof.
  revert s. induction t as [p err|e k IH]; intros s; cbn [run_exec]; [done|].
  unfold mbind, M_bind. pose proof (callback_shape h e s) as Hs. destruct (callback Client h e s) as [[r s1] o1].
  specialize (IH r s1). destruct (run_exec Client h (k r) s1) as [[err s2] o2]. rewrite IH. by eapply shape_next.
Qed.

Lemma input_next h chunk s :
  let '(_, s', _) := input_impl Client h chunk s in m_next_stream_id s' = m_next_stream_id s.
Proof.
  unfold input_impl, reset_parser, mbind, M_bind. cbn.
  destruct (llhttp_get_errno (m_parser s)); cbn;
    match goal with |- context [run_exec Client h ?t ?s1] =>
      pose proof (run_exec_next h t s1) as Hr; destruct (run_exec Client h t s1) as [[err s2] o2] end; done.
Qed.

Lemma client_step_inv h op F s :
  client_inv F s -> (0 <= m_next_stream_id s < 2 ^ 32 - 1)%Z ->
  let '(_, s', o) := client_step h op s in
  quiet F o /\ client_inv (finished F o) s' /\ (0 <= m_next_stream_id s' <= m_next_stream_id s + 1)%Z.
Proof.
  intros Hc Hnx. destruct op as [chunk|r|i chunk eof|i hs eof]; cbn [client_step]; unfold mbind, M_bind.
  - pose proof (input_inv h chunk F s Hc) as Hi. pose proof (input_next h chunk s) as Hn.
    destruct (input_impl Client h chunk s) as [[r s'] o]. cbn. rewrite app_nil_r. destruct Hi. split; [done|]. split; [done|lia].
  - pose proof (send_request_inv h r F s Hc Hnx) as Hi. destruct (send_request h r s) as [[x s'] o]. cbn.
    rewrite app_nil_r. destruct Hi as (? & ? & ->). split; [done|]. split; [done|lia].
  - pose proof (send_body_shape h i chunk eof s) as Hi. destruct (send_body_impl Client h i chunk eof s) as [[x s'] o].
    cbn. rewrite app_nil_r. destruct Hi as (Hs & _). apply shape_next in Hs as Hn.
    destruct (shape_inv F s s' o Hc Hs). split; [done|]. split; [done|lia].
  - pose proof (send_trailer_shape h i hs eof s) as Hs. destruct (send_trailer_impl Client h i hs eof s) as [[x s'] o].
    cbn. rewrite app_nil_r. apply shape_next in Hs as Hn. destruct (shape_inv F s s' o Hc Hs). split; [done|]. split; [done|lia].
Qed.

Lemma client_run_inv h ops F s :
  client_inv F s -> (0 <= m_next_stream_id s)%Z -> (m_next_stream_id s + Z.of_nat (length ops) < 2 ^ 32)%Z ->
  let '(_, s', o) := client_run h ops s in quiet F o /\ client_inv (finished F o) s'.
Proof.
  revert F s. induction ops as [|op ops IH]; intros F s Hc H0 Hl; cbn [client_run]; [done|].
  unfold mbind, M_bind. cbn [length] in Hl. pose proof (client_step_inv h op F s Hc) as Hs.
  destruct (client_step h op s) as [[x s1] o1]. destruct Hs as (Hq1 & Hc1 & Hn1); [lia|].
  specialize (IH _ s1 Hc1). destruct (client_run h ops s1) as [[y s2] o2]. destruct IH as [Hq2 Hc2]; [lia..|].
  rewrite quiet_app, finished_app. done.
Qed.

(** C1: Whatever the parser does and whatever sequence of requests, body pieces, trailers and input
    chunks (fewer than 2^32 - 1 of them) a new client goes through: once [on_stream_finished] was
    called for a stream, no later call mentions that stream, and the open streams have distinct
    numbers. *)
Theorem client_finished_is_final h p ops o s :
  (Z.of_nat (length ops) < 2 ^ 32 - 1)%Z ->
  client_run h ops (session_new p) = (tt, s, o) ->
  NoDup (ids s) /\
  forall o1 i c o2, o = o1 ++ OnStreamFinished i c :: o2 -> Forall (fun x => stream_of x <> Some i) o2.
Proof.
  intros Hl E. assert (client_inv [] (session_new p)) as Hc
    by (split; cbn; [constructor|by intros i ?%elem_of_nil..|by intros i ?%elem_of_nil]).
  pose proof (client_run_inv h ops [] (session_new p) Hc) as Hr. rewrite E in Hr. cbn in Hr.
  destruct Hr as [Hq Hi]; [lia..|]. split; [apply Hi|]. intros o1 i c o2 ->. by eapply quiet_final.
Qed.

(** ** What is stored of a declared length *)

(** The length of a response body is never what its Content-Length says: a server keeps 1 for any
    number and 0 for none, so a plain response without the header, or with text that is not a number,
    ends its stream at once. *)
Theorem response_length_is_flag h s st rest response :
  m_streams s = st :: rest -> flags st HEAD_REQUEST = false -> flags st UPGRADE_REQUEST = false ->
  m_status_code response = 200%Z -> iequals (gets (str "Transfer-Encoding") (s_headers response)) (str "chunked") = false ->
  let '(e, s', o) := send_response h (id st) response s in
  e = None /\
  match to_integer false 64 10 (gets (str "Content-Length") (s_headers response)) with
  | Some _ => exists st', m_streams s' = st' :: rest /\ content_length st' = ContentLengthSize 1
  | None => m_streams s' = rest /\ (on_stream_finished h = true -> OnStreamFinished (id st) 0 ∈ o)
  end.
Proof using Type.
  clear llhttp_execute llhttp_get_errno llhttp_reset llhttp_method_name. intros Hs Hh Hu Hc Ht. destruct s as [p ctx nx l]. cbn in Hs. subst l.
  unfold send_response, parsed_length. cbv zeta. rewrite Ht, Hc.
  destruct (to_integer false 64 10 (gets (str "Content-Length") (s_headers response))) as [n|];
    run_client; rewrite Z.eqb_refl; cbn; rewrite Hh, ?Hu; cbn.
  - split; [done|]. eexists. done.
  - split; [done|]. split; [done|]. intros ->. set_solver.
Qed.
End Session.

(** ** Behaviours at odds with the protocol *)

(** A header with an empty value runs into the name of the next one. *)
Lemma empty_value_merges_headers :
  headers_of (add_value (str "x") (add_field (str "B") (add_value [] (add_field (str "A") []))))
  = put (str "AB") (str "x") no_headers.
Proof. by vm_compute. Qed.

Definition all_callbacks : Callbacks := MkCallbacks true true true true true true.
Definition here : SourceLocation := MkLocation [] 0.

(** Trailers sent before the empty chunk come after the blank line that ends the message. *)
Lemma trailer_after_end :
  let st := set_content_length ContentLengthChunked (new_stream 1) in
  let '(e, _, o) := send_trailer_impl here Client all_callbacks 1 (put (str "T") (str "v") no_headers) true
                      (MkSession tt None 2 [st]) in
  e = None /\ dechunk 1 (output_bytes o) = Some ([], str "T: v" ++ CRLF ++ CRLF).
Proof. by vm_compute. Qed.

(** With two requests in a pipeline a server refuses the body of the first response, and the end of
    the second body removes the first stream. *)
Lemma pipelined_body :
  let s := MkSession tt None 3 [new_stream 1; new_stream 2] in
  (let '(e, _, _) := send_body_impl here Server all_callbacks 1 (str "x") true s in e <> None) /\
  (let '(_, s', o) := send_body_impl here Server all_callbacks 2 (str "x") true s in
   map id (m_streams s') = [2%Z] /\ OnStreamFinished 2 0 ∈ o).
Proof.
  split; [done|]. cbn. split; [done|]. set_solver.
Qed.

(** ** Examples *)

(** A parser that reports one complete head without a body for every chunk. *)
Definition head_info : HeadInfo := MkHead 1 1 1 204 false false 0 false.
Definition toy_execute (p : unit) (data : bytes) : Exec :=
  Call MessageBegin (fun _ => Call (HeaderField (str "A")) (fun _ => Call (HeaderValue data) (fun _ =>
    Call (HeadersComplete head_info) (fun _ => Call MessageComplete (fun _ => Finished p HPE_OK))))).

Definition two_exchanges : unit * Session (Parser := unit) * list Out :=
  client_run toy_execute (fun _ => HPE_OK) (fun p => p) (fun _ => str "GET") here all_callbacks
    [SendRequest (request_new HTTP_1_1 (str "GET") (str "/")); SendRequest (request_new HTTP_1_1 (str "GET") (str "/b"));
     Input (str "x"); Input (str "y")] (session_new tt).

Lemma client_finished_is_final_witness :
  omap (fun x => match x with OnStreamFinished i _ => Some i | _ => None end) two_exchanges.2 = [1; 2]%Z /\
  forall o1 i c o2, two_exchanges.2 = o1 ++ OnStreamFinished i c :: o2 -> Forall (fun x => stream_of x <> Some i) o2.
Proof.
  split; [by vm_compute|].
  apply (client_finished_is_final toy_execute (fun _ => HPE_OK) (fun p => p) (fun _ => str "GET") here all_callbacks tt
    [SendRequest (request_new HTTP_1_1 (str "GET") (str "/")); SendRequest (request_new HTTP_1_1 (str "GET") (str "/b"));
     Input (str "x"); Input (str "y")] two_exchanges.2 two_exchanges.1.2); [by vm_compute|].
  unfold two_exchanges. by destruct (client_run _ _ _ _ _ _ _ _) as [[[] s] o].
Defined.

Lemma chunked_roundtrip_witness :
  let st := set_content_length ContentLengthChunked (new_stream 1) in
  exists s' o, send_chunks here Client all_callbacks 1 [str "hello "; str "world"; []] (MkSession tt None 2 [st]) = (None, s', o) /\
    dechunk 4 (output_bytes o) = Some (str "hello world", []).
Proof.
  intros st. apply (chunked_roundtrip here Client all_callbacks 1 eq_refl (MkSession tt None 2 [st]) [str "hello "; str "world"; []]).
  - by exists st.
  - by repeat constructor.
  - by repeat constructor.
Defined.

Lemma request_assembled_witness :
  exists rs r s' req,
    feed (fun _ => str "GET") Server all_callbacks
      [MessageBegin; Url (str "/a"); Url (str "/b"); HeaderField (str "Ho"); HeaderField (str "st"); HeaderValue (str "x");
       HeadersComplete head_info] (session_new tt)
    = (rs ++ [r], s', [OnRequest 1 req]) /\ m_path req = str "/a/b" /\
    m_headers (r_headers req) = [make_header (str "Host") (str "x")].
Proof.
  destruct (request_assembled (fun _ => str "GET") all_callbacks (session_new tt) [str "/a"; str "/b"]
              [([str "Ho"; str "st"], [str "x"])] head_info) as (rs & r & s' & req & E & _ & _ & Ep & _ & _ & Eh & _).
  - done.
  - by repeat constructor.
  - done.
  - done.
  - exists rs, r, s', req. done.
Defined.

Lemma response_length_is_flag_witness :
  let s := MkSession tt None 2 [new_stream 1] in
  let '(_, s', _) := send_response here all_callbacks 1
      (set_response_headers (put (str "Content-Length") (str "12") no_headers) (response_new HTTP_1_1)) s in
  exists st', m_streams s' = [st'] /\ content_length st' = ContentLengthSize 1.
Proof.
  intros s. pose proof (response_length_is_flag here all_callbacks s (new_stream 1) []
    (set_response_headers (put (str "Content-Length") (str "12") no_headers) (response_new HTTP_1_1))
    eq_refl eq_refl eq_refl eq_refl eq_refl) as H.
  change (id (new_stream 1)) with 1%Z in H.
  destruct (send_response _ _ _ _ s) as [[e s'] o]. destruct H as [_ H]. exact H.
Defined.
