(* ===== verification/Http2.v ===== *)
(** * HTTP/2 sessions: [http/http2.cpp] and [http2.h]

    A session keeps the state of each stream and drives nghttp2.  That library is not part of this
    code: its calls are operations of a class over its state, and a call that runs callbacks answers
    a tree of them.  The bodies wait in buffers of libevent.  The callbacks of the user may call the
    session again: [user] gives what they do, from the calls made so far. *)

From S2P Require Import StringView Utils Error Headers Message StateMonad.

(** ** Constants of nghttp2 *)

Definition NGHTTP2_NO_ERROR : Z := 0.
Definition NGHTTP2_CANCEL : Z := 8.
Definition NGHTTP2_ERR_BUFFER_ERROR : Z := -502.
Definition NGHTTP2_ERR_DEFERRED : Z := -508.
Definition NGHTTP2_ERR_INVALID_STATE : Z := -519.
Definition NGHTTP2_ERR_TEMPORAL_CALLBACK_FAILURE : Z := -521.
Definition NGHTTP2_ERR_CALLBACK_FAILURE : Z := -902.

Definition NGHTTP2_DATA : Z := 0.
Definition NGHTTP2_HEADERS : Z := 1.
Definition NGHTTP2_SETTINGS : Z := 4.
Definition NGHTTP2_PUSH_PROMISE : Z := 5.
Definition NGHTTP2_GOAWAY : Z := 7.
Definition NGHTTP2_WINDOW_UPDATE : Z := 8.

Definition NGHTTP2_FLAG_NONE : Z := 0.
Definition NGHTTP2_FLAG_END_STREAM : Z := 1.
Definition NGHTTP2_FLAG_ACK : Z := 1.
Definition NGHTTP2_FLAG_END_HEADERS : Z := 4.
Definition NGHTTP2_DATA_FLAG_EOF : Z := 1.

Definition NGHTTP2_SETTINGS_HEADER_TABLE_SIZE : Z := 1.
Definition NGHTTP2_SETTINGS_ENABLE_PUSH : Z := 2.
Definition NGHTTP2_SETTINGS_MAX_CONCURRENT_STREAMS : Z := 3.
Definition NGHTTP2_SETTINGS_INITIAL_WINDOW_SIZE : Z := 4.
Definition NGHTTP2_SETTINGS_MAX_FRAME_SIZE : Z := 5.

(** ** Data *)

Record Http2Settings := MkSettings {
  auto_flow_control : bool;
  header_table_size : Z;
  max_concurrent_streams : Z;
  initial_stream_window_size : Z;
  initial_session_window_size : Z;
  max_frame_size : Z
}.

Definition default_settings : Http2Settings :=
  MkSettings false (64 * 1024) 1000 131072 (8 * 1024 * 1024) (Z.shiftl 1 14).

Inductive Http2Error := MkHttp2Error.
#[export] Instance http2_error_string : ErrorCodeToString Http2Error := fun _ => [].

(** [Error<Http2Error>]: null or an error. *)
Abbreviation ErrorPtr := (option (ErrorImpl Http2Error)).

Inductive Flag := MESSAGE_ALREADY_RECEIVED | HAS_EOF | SCHEDULED | HEAD_REQUEST.

#[export] Instance h2_flag_eq_dec : EqDecision Flag.
Proof. solve_decision. Defined.

(** Calls of the user's callbacks. *)
Inductive Out :=
| OnRequest (stream_id : Z) (r : Request)
| OnResponse (stream_id : Z) (r : Response)
| OnTrailerHeaders (stream_id : Z) (h : Headers)
| OnBody (stream_id : Z) (chunk : bytes)
| OnWindowUpdate (stream_id n : Z)
| OnStreamReadFinished (stream_id : Z)
| OnStreamClosed (stream_id error_code : Z)
| OnClose (error_code : Z)
| OnOutput (chunk : bytes)
| OnDataSent (stream_id n : Z).

Definition message_out {T : side} (stream_id : Z) : Message T -> Out :=
  match T return Message T -> Out with Server => OnRequest stream_id | Client => OnResponse stream_id end.

(** Which callbacks are not null. *)
Record Callbacks := MkCallbacks {
  has_on_message : bool;             (* [on_request] or [on_response] *)
  has_on_trailer_headers : bool;
  has_on_body : bool;
  has_on_window_update : bool;
  has_on_stream_read_finished : bool;
  has_on_stream_closed : bool;
  has_on_close : bool;
  has_on_output : bool;
  has_on_data_sent : bool
}.

(** What the session reads of an [nghttp2_frame]. *)
Record Frame := MkFrame {
  hd_type : Z;
  hd_flags : Z;
  hd_stream_id : Z;
  goaway_error_code : Z;
  window_size_increment : Z
}.

Definition has_flag (f : Frame) (flag : Z) : bool := negb (Z.land (hd_flags f) flag =? 0)%Z.

(** The callbacks nghttp2 makes. *)
Inductive Event :=
| EvBeginFrame (f : Frame)
| EvFrameRecv (f : Frame)
| EvFrameSend (f : Frame)
| EvInvalidFrameRecv (f : Frame) (error_code : Z)
| EvBeginHeaders (f : Frame)
| EvHeader (f : Frame) (name value : bytes)
| EvDataChunkRecv (stream_id : Z) (data : bytes)
| EvStreamClose (stream_id error_code : Z)
| EvSend (data : bytes)
| EvError (msg : bytes)
| EvDataSourceRead (stream_id : Z) (length : nat).

(** What a callback answers: its result and, for a read of body data, the bytes and flags it stores. *)
Record Answer := MkAnswer { result : Z; stored : bytes; data_flags : Z }.

Definition answer (z : Z) : Answer := MkAnswer z [] 0.

(** What a callback of the user may ask of the session. *)
Inductive Action :=
| SubmitResponse (stream_id : Z) (r : Response) (eof : bool)
| SubmitRequest (r : Request) (eof : bool)
| SubmitTrailer (stream_id : Z) (h : Headers)
| SubmitBody (stream_id : Z) (chunk : bytes) (eof : bool)
| ResetStream (stream_id error_code : Z)
| SetSessionCloseError (error_code : Z)
| ConsumeConnection (length : Z)
| ConsumeStream (stream_id length : Z).

(** ** nghttp2 *)

(** A run of the library: at each callback its state is visible to the session, which may call the
    library again and so change it. *)
Inductive Run (Lib : Type) :=
| Finished (n : Lib) (status : Z)
| Call (n : Lib) (e : Event) (k : Lib -> Answer -> Run Lib).
Arguments Finished {Lib} n status.
Arguments Call {Lib} n e k.

(** [nghttp2_option]. *)
Record Options := MkOptions { max_reserved_remote_streams : Z; no_auto_window_update : bool }.

Class Nghttp2 (Lib : Type) := {
  nghttp2_session_new : side -> Options -> Z * Lib;
  nghttp2_session_mem_recv : bytes -> Lib -> Run Lib;
  nghttp2_session_send : Lib -> Run Lib;
  nghttp2_session_terminate_session : Z -> Lib -> Z * Lib;
  nghttp2_submit_settings : list (Z * Z) -> Lib -> Z * Lib;
  nghttp2_session_set_local_window_size : Z -> Z -> Lib -> Z * Lib;
  nghttp2_submit_headers : Z -> Z -> list Header -> Lib -> Z * Lib;
  nghttp2_submit_trailer : Z -> list Header -> Lib -> Z * Lib;
  nghttp2_submit_data : Z -> Z -> Lib -> Z * Lib;
  nghttp2_session_resume_data : Z -> Lib -> Z * Lib;
  nghttp2_submit_rst_stream : Z -> Z -> Lib -> Z * Lib;
  nghttp2_session_consume_connection : Z -> Lib -> Z * Lib;
  nghttp2_session_consume_stream : Z -> Z -> Lib -> Z * Lib;
  nghttp2_session_get_next_stream_id : Lib -> Z;
  nghttp2_session_set_next_stream_id : Z -> Lib -> Z * Lib;
  nghttp2_strerror : Z -> bytes
}.

Section Http2.
Context {Lib : Type} `{Nghttp2 Lib} {B : Type} `{EvBuffer B}.
Context (T : side) (h : Callbacks).

(** Place the compiler writes into an error. *)
Context (loc : SourceLocation).

(** The user's callbacks: what they ask for, given all calls so far, the newest last. *)
Context (user : list Out -> list Action).

Record Stream := MkStream {
  message : option (Message T);
  buffer : option B;                 (* of the [DataSource] *)
  flags : Flag -> bool
}.

Definition new_stream : Stream := MkStream None None (fun _ => false).

Definition set_message (m : option (Message T)) (s : Stream) : Stream := MkStream m (buffer s) (flags s).
Definition set_buffer (b : option B) (s : Stream) : Stream := MkStream (message s) b (flags s).
Definition set_flag (f : Flag) (v : bool) (s : Stream) : Stream :=
  MkStream (message s) (buffer s) (fun g => if decide (g = f) then v else flags s g).

(** [m_log] is the history of the calls of the user's callbacks; [m_received_handshake] is a field of
    the server only. *)
Record Session := MkSession {
  m_session : option Lib;
  m_settings : Http2Settings;
  m_streams : gmap Z Stream;
  m_error : Z;
  m_received_handshake : bool;
  m_log : list Out
}.

(** ** Computations over a session *)

Abbreviation M := (StateMonad.M Session).

Definition set_session (n : option Lib) (s : Session) : Session :=
  MkSession n (m_settings s) (m_streams s) (m_error s) (m_received_handshake s) (m_log s).
Definition set_streams (l : gmap Z Stream) (s : Session) : Session :=
  MkSession (m_session s) (m_settings s) l (m_error s) (m_received_handshake s) (m_log s).
Definition set_error (e : Z) (s : Session) : Session :=
  MkSession (m_session s) (m_settings s) (m_streams s) e (m_received_handshake s) (m_log s).
Definition set_handshake (b : bool) (s : Session) : Session :=
  MkSession (m_session s) (m_settings s) (m_streams s) (m_error s) b (m_log s).
Definition add_log (o : Out) (s : Session) : Session :=
  MkSession (m_session s) (m_settings s) (m_streams s) (m_error s) (m_received_handshake s) (m_log s ++ [o]).

(** A call of the library with [m_session.get()]. *)
Definition lib {A} (f : Lib -> A * Lib) : M A := fun s =>
  match m_session s with
  | None => None
  | Some n => let '(a, n') := f n in Some (a, set_session (Some n') s)
  end.

Definition find_stream (stream_id : Z) : M (option Stream) := gets (fun s => m_streams s !! stream_id).
Definition put_stream (stream_id : Z) (st : Stream) : M unit :=
  modify (fun s => set_streams (<[stream_id := st]> (m_streams s)) s).

(** [m_streams.emplace(stream_id, Stream{}).first->second]. *)
Definition emplace_stream (stream_id : Z) : M Stream :=
  o ← find_stream stream_id;
  match o with
  | Some st => mret st
  | None => put_stream stream_id new_stream;; mret new_stream
  end.

Definition error (msg : bytes) : ErrorPtr := Some (make_error_msg loc MkHttp2Error msg None).
Definition status_text (status : Z) : bytes := nghttp2_strerror status ++ str " (" ++ fmt_dec status ++ str ")".

(** ** Operations *)

Definition submit_settings_impl : M ErrorPtr :=
  settings ← gets m_settings;
  status ← lib (nghttp2_submit_settings
    [(NGHTTP2_SETTINGS_HEADER_TABLE_SIZE, header_table_size settings);
     (NGHTTP2_SETTINGS_ENABLE_PUSH, 0%Z);
     (NGHTTP2_SETTINGS_MAX_CONCURRENT_STREAMS, max_concurrent_streams settings);
     (NGHTTP2_SETTINGS_INITIAL_WINDOW_SIZE, initial_stream_window_size settings);
     (NGHTTP2_SETTINGS_MAX_FRAME_SIZE, max_frame_size settings)]);
  if negb (status =? NGHTTP2_NO_ERROR)%Z then mret (error (str "Couldn't submit settings: " ++ status_text status))
  else
    status ← lib (nghttp2_session_set_local_window_size 0 (i32 (initial_session_window_size settings)));
    if negb (status =? NGHTTP2_NO_ERROR)%Z then
      mret (error (str "Couldn't set session window size: " ++ status_text status))
    else mret None.

Definition submit_trailer_impl (stream_id : Z) (hs : Headers) : M ErrorPtr :=
  status ← lib (nghttp2_submit_trailer (i32 stream_id) (m_headers hs));
  mret (if negb (status =? NGHTTP2_NO_ERROR)%Z then error (status_text status) else None).

(** The new stream, and the result of [evbuffer_add]; nothing when no buffer can be made. *)
Definition push_data (stream : Stream) (chunk : bytes) (eof : bool) : option (Z * Stream) :=
  match buffer stream with Some b => Some b | None => evbuffer_new end ≫= fun b =>
  let '(r, b') := evbuffer_add b chunk in
  Some (r, set_buffer (Some b') (set_flag HAS_EOF eof stream)).

Definition schedule_send (stream_id : Z) (stream : Stream) : M Z :=
  if flags stream SCHEDULED then lib (nghttp2_session_resume_data (i32 stream_id))
  else
    put_stream stream_id (set_flag SCHEDULED true stream);;
    lib (nghttp2_submit_data NGHTTP2_FLAG_END_STREAM (i32 stream_id)).

Definition submit_body_impl (stream_id : Z) (chunk : bytes) (eof : bool) : M ErrorPtr :=
  o ← find_stream stream_id;
  match o with
  | None => mret (error (str "Stream not found"))
  | Some stream =>
      match push_data stream chunk eof with
      | None => crash
      | Some (r, stream) =>
          put_stream stream_id stream;;
          if negb (r =? 0)%Z then mret (error (str "Couldn't push data in buffer"))
          else
            status ← schedule_send stream_id stream;
            mret (if negb (status =? 0)%Z then error (str "Couldn't schedule data to send: " ++ status_text status) else None)
      end
  end.

Definition reset_stream_impl (stream_id error_code : Z) : M ErrorPtr :=
  status ← lib (nghttp2_submit_rst_stream (i32 stream_id) error_code);
  mret (if negb (status =? NGHTTP2_NO_ERROR)%Z then error (status_text status) else None).

Definition consume_connection_impl (length : Z) : M ErrorPtr :=
  status ← lib (nghttp2_session_consume_connection length);
  mret (if negb (status =? NGHTTP2_NO_ERROR)%Z then error (status_text status) else None).

Definition consume_stream_impl (stream_id length : Z) : M ErrorPtr :=
  settings ← gets m_settings;
  e ← (if negb (auto_flow_control settings) then consume_connection_impl length else mret None);
  match e with
  | Some e => mret (Some (make_error_msg loc MkHttp2Error (str "Couldn't consume connection") (Some (to_base e))))
  | None =>
      status ← lib (nghttp2_session_consume_stream (i32 stream_id) length);
      mret (if negb (status =? NGHTTP2_NO_ERROR)%Z then error (str "Couldn't consume stream: " ++ status_text status) else None)
  end.

Definition set_session_close_error (error_code : Z) : M unit := modify (set_error error_code).

(** [Http2Server::submit_response]. *)
Definition submit_response (stream_id : Z) (response : Response) (eof : bool) : M ErrorPtr :=
  o ← find_stream stream_id;
  match o with
  | None => mret (error (str "Stream not found"))
  | Some stream =>
      let eof := eof || flags stream HEAD_REQUEST in
      status ← lib (nghttp2_submit_headers (if eof then NGHTTP2_FLAG_END_STREAM else 0%Z) (i32 stream_id)
                      (response_fields response));
      mret (if negb (status =? NGHTTP2_NO_ERROR)%Z then error (status_text status) else None)
  end.

(** [Http2Client::submit_request]. *)
Definition submit_request (request : Request) (eof : bool) : M (Result Z Http2Error) :=
  stream_id ← lib (fun n => (u32 (nghttp2_session_get_next_stream_id n), n));
  status ← lib (nghttp2_session_set_next_stream_id (i32 stream_id));
  if negb (status =? NGHTTP2_NO_ERROR)%Z then
    mret (RError (make_error_msg loc MkHttp2Error (str "Couldn't set stream ID: " ++ status_text status) None))
  else
    let head_request := bool_decide (m_method request = str "HEAD") in
    let eof := eof || head_request in
    status ← lib (nghttp2_submit_headers (if eof then NGHTTP2_FLAG_END_STREAM else 0%Z) (-1) (request_fields request));
    if (status <? 0)%Z then
      mret (RError (make_error_msg loc MkHttp2Error (str "Couldn't submit request: " ++ status_text status) None))
    else
      stream ← emplace_stream stream_id;
      put_stream stream_id (set_flag HAS_EOF eof (set_flag HEAD_REQUEST head_request stream));;
      mret (RValue stream_id).

(** A call the user makes; a server has no requests to send, a client no responses. *)
Definition act (a : Action) : M unit :=
  match a with
  | SubmitResponse i r eof => if bool_decide (T = Server) then submit_response i r eof;; mret tt else mret tt
  | SubmitRequest r eof => if bool_decide (T = Client) then submit_request r eof;; mret tt else mret tt
  | SubmitTrailer i hs => submit_trailer_impl i hs;; mret tt
  | SubmitBody i chunk eof => submit_body_impl i chunk eof;; mret tt
  | ResetStream i code => reset_stream_impl i code;; mret tt
  | SetSessionCloseError code => set_session_close_error code
  | ConsumeConnection len => consume_connection_impl len;; mret tt
  | ConsumeStream i len => consume_stream_impl i len;; mret tt
  end.

Fixpoint act_all (l : list Action) : M unit :=
  match l with [] => mret tt | a :: l' => act a;; act_all l' end.

(** [if (h.callback != nullptr) h.callback(...)]. *)
Definition emit (present : bool) (o : Out) : M unit :=
  if present then modify (add_log o);; log ← gets m_log; act_all (user log) else mret tt.

(** ** Callbacks of nghttp2 *)

(** The flags of a stream whose message has come. *)
Definition mark_received (m : Message T) (stream : Stream) : Stream :=
  match T return Message T -> Stream with
  | Server => fun m =>
      set_flag HEAD_REQUEST (bool_decide (m_method m = str "HEAD")) (set_flag MESSAGE_ALREADY_RECEIVED true stream)
  | Client => fun m => set_flag MESSAGE_ALREADY_RECEIVED (200 <=? m_status_code m)%Z stream
  end m.

Definition on_end_headers (f : Frame) (stream_id : Z) (stream : Stream) : M unit :=
  match message stream with
  | None => crash
  | Some m =>
      let stream := set_message None stream in
      let m := set_message_headers (set_has_body (negb (has_flag f NGHTTP2_FLAG_END_STREAM)) (message_headers m)) m in
      if flags stream MESSAGE_ALREADY_RECEIVED then
        put_stream stream_id stream;;
        emit (has_on_trailer_headers h) (OnTrailerHeaders stream_id (into_headers m))
      else
        put_stream stream_id (mark_received m stream);;
        emit (has_on_message h) (message_out stream_id m)
  end.

Definition on_end_stream (stream_id : Z) : M unit :=
  emit (has_on_stream_read_finished h) (OnStreamReadFinished stream_id).

Definition close_stream (stream_id error_code : Z) : M unit :=
  emit (has_on_stream_closed h) (OnStreamClosed stream_id error_code).

Definition on_frame_recv (f : Frame) : M Z :=
  let stream_id := u32 (hd_stream_id f) in
  let t := hd_type f in
  stream ← (if (t =? NGHTTP2_HEADERS)%Z || (t =? NGHTTP2_DATA)%Z || (t =? NGHTTP2_PUSH_PROMISE)%Z
            then find_stream stream_id else mret None);
  (if (t =? NGHTTP2_HEADERS)%Z then
     match stream with
     | Some st =>
         if has_flag f NGHTTP2_FLAG_END_HEADERS then on_end_headers f stream_id st else mret tt
     | None => mret tt
     end
   else mret tt);;
  (if (t =? NGHTTP2_HEADERS)%Z || (t =? NGHTTP2_DATA)%Z then
     match stream with
     | Some _ => if has_flag f NGHTTP2_FLAG_END_STREAM then on_end_stream stream_id else mret tt
     | None => mret tt
     end
   else if (t =? NGHTTP2_GOAWAY)%Z then emit (has_on_close h) (OnClose (goaway_error_code f))
   else if (t =? NGHTTP2_WINDOW_UPDATE)%Z then
     if negb (stream_id =? 0)%Z && (0 <? window_size_increment f)%Z
     then emit (has_on_window_update h) (OnWindowUpdate stream_id (window_size_increment f)) else mret tt
   else mret tt);;
  mret 0%Z.

Definition on_frame_send (f : Frame) : M Z :=
  if (hd_type f =? NGHTTP2_SETTINGS)%Z then
    if bool_decide (T = Server) then
      done_ ← gets m_received_handshake;
      if has_flag f NGHTTP2_FLAG_ACK && negb done_ then
        modify (set_handshake true);;
        e ← submit_settings_impl;
        mret (match e with Some _ => NGHTTP2_ERR_CALLBACK_FAILURE | None => 0%Z end)
      else mret 0%Z
    else mret 0%Z
  else mret 0%Z.

Definition on_begin_headers (f : Frame) : M Z :=
  let stream_id := u32 (hd_stream_id f) in
  stream ← emplace_stream stream_id;
  match message stream with
  | Some _ => mret NGHTTP2_ERR_CALLBACK_FAILURE
  | None => put_stream stream_id (set_message (Some (message_new T HTTP_2_0)) stream);; mret 0%Z
  end.

Definition on_header (f : Frame) (n v : bytes) : M Z :=
  let stream_id := u32 (hd_stream_id f) in
  o ← find_stream stream_id;
  match o with
  | None => mret NGHTTP2_ERR_TEMPORAL_CALLBACK_FAILURE
  | Some stream =>
      match message stream with
      | None => mret NGHTTP2_ERR_CALLBACK_FAILURE
      | Some m =>
          match message_field n v m with
          | None => mret NGHTTP2_ERR_TEMPORAL_CALLBACK_FAILURE
          | Some m' => put_stream stream_id (set_message (Some m') stream);; mret 0%Z
          end
      end
  end.

(** The [ConsumeGuard] acts on every way out of the function. *)
Definition on_data_chunk_recv (stream_id : Z) (data : bytes) : M Z :=
  settings ← gets m_settings;
  o ← find_stream (u32 stream_id);
  r ← match o with
      | None => mret NGHTTP2_ERR_INVALID_STATE
      | Some _ => emit (has_on_body h) (OnBody (u32 stream_id) data);; mret 0%Z
      end;
  (if auto_flow_control settings then
     lib (nghttp2_session_consume_connection (Z.of_nat (length data)));; mret tt
   else mret tt);;
  mret r.

Definition on_stream_close (stream_id error_code : Z) : M Z :=
  o ← find_stream (u32 stream_id);
  match o with
  | None => mret NGHTTP2_ERR_INVALID_STATE
  | Some _ =>
      modify (fun s => set_streams (delete (u32 stream_id) (m_streams s)) s);;
      close_stream (u32 stream_id) error_code;;
      mret 0%Z
  end.

Definition on_send (data : bytes) : M Z :=
  emit (has_on_output h) (OnOutput data);; mret (Z.of_nat (length data)).

(** The data source of the call is the one of the stream: it was given to nghttp2 with its number. *)
Definition on_data_source_read (stream_id : Z) (length : nat) : M Answer :=
  o ← find_stream (u32 stream_id);
  match o with
  | None => mret (answer NGHTTP2_ERR_TEMPORAL_CALLBACK_FAILURE)
  | Some stream =>
      match buffer stream with
      | None => crash
      | Some b =>
          if negb (flags stream HAS_EOF) && (evbuffer_get_length b =? 0) then mret (answer NGHTTP2_ERR_DEFERRED)
          else
            let '(n, data, b') := evbuffer_remove b length in
            put_stream (u32 stream_id) (set_buffer (Some b') stream);;
            if (n <? 0)%Z then mret (answer NGHTTP2_ERR_BUFFER_ERROR)
            else
              let eof := flags stream HAS_EOF && (evbuffer_get_length b' =? 0) in
              emit (has_on_data_sent h) (OnDataSent (u32 stream_id) n);;
              mret (MkAnswer n data (if eof then NGHTTP2_DATA_FLAG_EOF else 0%Z))
      end
  end.

Definition callback (e : Event) : M Answer :=
  match e with
  | EvBeginFrame _ | EvInvalidFrameRecv _ _ | EvError _ => mret (answer 0)
  | EvFrameRecv f => answer <$> on_frame_recv f
  | EvFrameSend f => answer <$> on_frame_send f
  | EvBeginHeaders f => answer <$> on_begin_headers f
  | EvHeader f n v => answer <$> on_header f n v
  | EvDataChunkRecv i data => answer <$> on_data_chunk_recv i data
  | EvStreamClose i code => answer <$> on_stream_close i code
  | EvSend data => answer <$> on_send data
  | EvDataSourceRead i length => on_data_source_read i length
  end.

(** Runs the library and its callbacks. *)
Fixpoint run (t : Run Lib) : M Z :=
  match t with
  | Finished n status => modify (set_session (Some n));; mret status
  | Call n e k =>
      modify (set_session (Some n));;
      a ← callback e;
      n' ← lib (fun n => (n, n));
      run (k n' a)
  end.

(** [nghttp2_session_mem_recv] and [nghttp2_session_send] on [m_session.get()]. *)
Definition lib_run (f : Lib -> Run Lib) : M Z :=
  n ← lib (fun n => (n, n)); run (f n).

Definition input_impl (chunk : bytes) : M (Result Z Http2Error) :=
  status ← lib_run (nghttp2_session_mem_recv chunk);
  mret (if (status <? 0)%Z then RError (make_error_msg loc MkHttp2Error (status_text status) None) else RValue status).

Definition flush_impl : M ErrorPtr :=
  status ← lib_run nghttp2_session_send;
  mret (if negb (status =? NGHTTP2_NO_ERROR)%Z then error (status_text status) else None).

(** ** Life of a session *)

Definition session_new (settings : Http2Settings) : Session := MkSession None settings ∅ NGHTTP2_NO_ERROR false [].

Definition initialize_session : M ErrorPtr :=
  settings ← gets m_settings;
  let option := MkOptions 0 (negb (auto_flow_control settings)) in
  let '(status, session) := nghttp2_session_new T option in
  if negb (status =? 0)%Z then mret (error (str "Couldn't create session: " ++ status_text status))
  else
    modify (set_session (Some session));;
    if bool_decide (T = Client) then
      e ← submit_settings_impl;
      match e with
      | Some e =>
          modify (set_session None);;
          mret (Some (make_error loc MkHttp2Error (Some (to_base e))))
      | None => mret None
      end
    else mret None.

Fixpoint close_all (ids : list Z) : M unit :=
  match ids with
  | [] => mret tt
  | i :: ids' => close_stream i NGHTTP2_CANCEL;; close_all ids'
  end.

(** The destructor; [order] is the order in which the hash table lists its keys. *)
Definition destroy (order : gmap Z Stream -> list Z) : M unit :=
  streams ← gets m_streams;
  modify (set_streams ∅);;
  close_all (order streams);;
  n ← gets m_session;
  match n with
  | None => mret tt
  | Some _ =>
      e ← gets m_error;
      lib (nghttp2_session_terminate_session e);;
      lib_run nghttp2_session_send;;
      mret tt
  end.

(** [make]: the session, or the error; the session of a failed call is destroyed. *)
Definition make (order : gmap Z Stream -> list Z) (settings : Http2Settings) : option (Result Session Http2Error) :=
  match initialize_session (session_new settings) with
  | None => None
  | Some (None, s) => Some (RValue s)
  | Some (Some e, s) => match destroy order s with None => None | Some _ => Some (RError e) end
  end.

(** The operations of a live session. *)
Inductive Op := Input (chunk : bytes) | Flush | Act (a : Action).

Definition step (o : Op) : M unit :=
  match o with
  | Input chunk => input_impl chunk;; mret tt
  | Flush => flush_impl;; mret tt
  | Act a => act a
  end.

Fixpoint steps (l : list Op) : M unit :=
  match l with [] => mret tt | o :: l' => step o;; steps l' end.
End Http2.
