(* ===== verification/Http2Facts.v ===== *)
(** * HTTP/2 sessions: what the streams of a session go through

    Theorems on [Http2.v]: which callbacks may name a stream, that every stream is reported closed,
    and which states are safe for the callbacks that follow. *)

From S2P Require Import StringView Utils Error Headers Message StateMonad Http2.

(** A run that makes these calls and stops at the first one that is refused. *)
Fixpoint script {Lib} (es : list Event) (n : Lib) : Run Lib :=
  match es with
  | [] => Finished n 0
  | e :: es' => Call n e (fun n' a => if (0 <=? result a)%Z then script es' n' else Finished n' (result a))
  end.

(** The stream a call is about; updates of the peer's window are passed on for any number. *)
Definition about (o : Out) : option Z :=
  match o with
  | OnRequest i _ | OnResponse i _ | OnTrailerHeaders i _ | OnBody i _ | OnStreamReadFinished i
  | OnStreamClosed i _ | OnDataSent i _ => Some i
  | OnWindowUpdate _ _ | OnClose _ | OnOutput _ => None
  end.

Lemma about_message T i (m : Message T) : about (message_out i m) = Some i.
Proof. by destruct T. Qed.

(** Unfolds the plumbing of a computation that gave a result. *)
Ltac unmonad :=
  unfold emplace_stream, find_stream, put_stream in *;
  unfold mbind, M_bind, mret, M_ret, fmap, M_fmap, gets, modify, lib, crash in *;
  repeat (case_match; simplify_eq/=); simplify_eq/=.

Section Facts.
Context {Lib : Type} `{Nghttp2 Lib} {B : Type} `{EvBuffer B}.
Context (T : side) (h : Callbacks) (loc : SourceLocation) (user : list Out -> list Action).

Abbreviation Session := (Http2.Session (Lib := Lib) (B := B) T).
Abbreviation Stream := (Http2.Stream (B := B) T).
Abbreviation act' := (act T loc).
Abbreviation emit' := (emit T loc user).
Abbreviation callback' := (callback T h loc user).
Abbreviation run' := (run T h loc user).

(** ** What a call of the user does *)

Definition opened (s : Session) (id : Z) : Prop := is_Some (m_streams T s !! id).

(** The only call that opens a stream. *)
Definition opens (a : Action) : bool := match a with SubmitRequest _ _ => bool_decide (T = Client) | _ => false end.

Record call_effect (quiet : Prop) (s s' : Session) : Prop := {
  ce_log : m_log T s' = m_log T s;
  ce_settings : m_settings T s' = m_settings T s;
  ce_keeps : forall id, opened s id -> opened s' id;
  ce_opens : quiet -> forall id, opened s' id -> opened s id
}.

Lemma call_effect_refl q s : call_effect q s s.
Proof. by split. Qed.

Lemma call_effect_trans q s1 s2 s3 : call_effect q s1 s2 -> call_effect q s2 s3 -> call_effect q s1 s3.
Proof. intros [] []. split; [congruence..| |]; eauto. Qed.

Lemma opened_insert i st (s : Session) id :
  opened (set_streams T (<[i := st]> (m_streams T s)) s) id <-> i = id \/ opened s id.
Proof.
  unfold opened. cbn. destruct (decide (i = id)) as [->|Hne].
  - rewrite lookup_insert_eq. split; [by left|intros; by eexists].
  - rewrite lookup_insert_ne by done. naive_solver.
Qed.

(** The session after a change of one stream, or of another field. *)
Lemma call_effect_put (q : Prop) i st s :
  (q -> opened s i) -> call_effect q s (set_streams T (<[i := st]> (m_streams T s)) s).
Proof.
  intros Hi. split; [done..| |].
  - intros id Hid. apply opened_insert. by right.
  - intros Hq id [<- |Hid]%opened_insert; auto.
Qed.

Lemma call_effect_session q n s s' : call_effect q s s' -> call_effect q s (set_session T n s').
Proof. intros []. by split. Qed.

Lemma call_effect_put_after (q : Prop) i st s s' m :
  m_streams T s' = m -> (q -> opened s' i) -> call_effect q s s' -> call_effect q s (set_streams T (<[i := st]> m) s').
Proof. intros <- Hi Hs. eapply call_effect_trans; [exact Hs|]. by apply call_effect_put. Qed.

Hint Resolve call_effect_session call_effect_put_after call_effect_refl : ag.
Hint Extern 3 (opened _ _) => discriminate || (by eexists) || (apply opened_insert; by left) : ag.

Lemma act_effect a s u s' : act' a s = Some (u, s') -> call_effect (opens a = false) s s'.
Proof.
  destruct a; cbn [act opens];
    unfold submit_response, submit_request, submit_trailer_impl, submit_body_impl, schedule_send, reset_stream_impl,
      set_session_close_error, consume_stream_impl, consume_connection_impl; intros Hs; unmonad.
  all: try by split.
  all: eauto 10 with ag.
Qed.

(** ** What a callback of nghttp2 does *)

(** No callback of the user opens streams; so it is on a server. *)
Definition quiet : Prop := forall l a, a ∈ user l -> opens a = false.

Lemma server_quiet : T = Server -> quiet.
Proof. intros HT l a _. unfold opens. destruct a; try done. apply bool_decide_eq_false. by rewrite HT. Qed.

Record effect (new : list Out) (s s' : Session) : Prop := {
  e_log : m_log T s' = m_log T s ++ new;
  e_settings : m_settings T s' = m_settings T s;
  e_keeps : forall id, opened s id -> opened s' id;
  e_opens : quiet -> forall id, opened s' id -> opened s id
}.

Lemma effect_call (q : Prop) s s' : (quiet -> q) -> call_effect q s s' -> effect [] s s'.
Proof. intros Hq []. split; [by rewrite app_nil_r|done..|auto]. Qed.

Lemma effect_trans a b s1 s2 s3 : effect a s1 s2 -> effect b s2 s3 -> effect (a ++ b) s1 s3.
Proof. intros [] []. split; [by rewrite app_assoc; congruence|congruence|auto|auto]. Qed.

Lemma act_all_effect l s u s' : (quiet -> Forall (fun a => opens a = false) l) -> act_all T loc l s = Some (u, s') -> effect [] s s'.
Proof.
  revert s. induction l as [|a l IH]; intros s Hl; cbn [act_all].
  - intros [= <- <-]. eapply effect_call, call_effect_refl. exact (fun H => H).
  - unfold mbind, M_bind. destruct (act' a s) as [[[] s1]|] eqn:E; [|done]. intros Hs.
    eapply (effect_trans [] []); [|eapply (IH s1); [|exact Hs]].
    + eapply effect_call; [|by eapply act_effect]. intros Hq. by specialize (Hl Hq); inversion Hl.
    + intros Hq. by specialize (Hl Hq); inversion Hl.
Qed.

Lemma emit_effect p o s u s' : emit' p o s = Some (u, s') -> effect (if p then [o] else []) s s'.
Proof.
  unfold emit. destruct p; [|intros [= <- <-]; eapply effect_call, call_effect_refl; exact (fun H => H)].
  unfold mbind, M_bind, gets, modify. intros Hs. eapply (effect_trans [o] []); [|eapply act_all_effect; [|exact Hs]].
  - by split.
  - intros Hq. apply Forall_forall. intros a Ha. by eapply Hq.
Qed.

(** A computation that works on the open streams of [P] only. *)
Definition within (P : Z -> Prop) {A} (m : M Session A) : Prop := forall s a s',
  (forall i, P i -> opened s i) -> m s = Some (a, s') ->
  exists new, effect new s s' /\ Forall (fun o => forall i, about o = Some i -> P i) new.

Lemma effect_refl s : effect [] s s.
Proof. eapply effect_call, call_effect_refl. exact (fun H => H). Qed.

Lemma within_ret P {A} (a : A) : within P (M_ret A a).
Proof. intros s b s' _ [= <- <-]. exists []. split; [apply effect_refl|constructor]. Qed.

Lemma within_bind P {A C} (m : M Session A) (f : A -> M Session C) :
  within P m -> (forall a, within P (f a)) -> within P (M_bind A C f m).
Proof.
  intros Hm Hf s c s' Hp. unfold M_bind. destruct (m s) as [[a s1]|] eqn:E; [|done]. intros Hs.
  apply Hm in E as (n1 & H1 & F1); [|done]. apply Hf in Hs as (n2 & H2 & F2).
  - exists (n1 ++ n2). split; [by eapply effect_trans|by apply Forall_app].
  - intros i Hi. apply (e_keeps _ _ _ H1). auto.
Qed.

Lemma within_gets P {A} (f : Session -> A) : within P (gets f).
Proof. intros s b s' _ [= <- <-]. exists []. split; [apply effect_refl|constructor]. Qed.

Lemma within_crash P {A} : within P (crash (A := A)).
Proof. by intros s b s' _. Qed.

Lemma within_lib P {A} (f : Lib -> A * Lib) : within P (lib T f).
Proof.
  intros s b s' _. unfold lib. destruct (m_session T s); [|done]. destruct (f l). intros [= <- <-].
  exists []. split; [|constructor]. eapply effect_call, call_effect_session, call_effect_refl. exact (fun H => H).
Qed.

Lemma within_put (P : Z -> Prop) i st : P i -> within P (put_stream T i st).
Proof.
  intros Hi s b s' Hp [= <- <-]. exists []. split; [|constructor].
  eapply (effect_call True); [done|]. apply call_effect_put. auto.
Qed.

Lemma within_handshake P v : within P (modify (set_handshake T v)).
Proof. intros s b s' _ [= <- <-]. exists []. split; [|constructor]. split; [by rewrite app_nil_r|done..]. Qed.

Lemma within_emit (P : Z -> Prop) p o : (forall i, about o = Some i -> P i) -> within P (emit' p o).
Proof.
  intros Ho s u s' _ Hs%emit_effect. eexists. split; [exact Hs|]. destruct p; by repeat constructor.
Qed.

(** Walks through a computation. *)
Ltac walk :=
  repeat (intros; unfold mret, mbind;
    first [ apply within_ret | apply within_bind | apply within_gets | apply within_crash | apply within_lib
          | apply within_put; done | apply within_handshake
          | apply within_emit; cbn [about]; rewrite ?about_message; by intros ? [= <-]
          | case_match ]).

Lemma on_end_headers_within f i st : within (eq i) (on_end_headers T h loc user f i st).
Proof. unfold on_end_headers. walk. Qed.

Lemma submit_settings_within P : within P (submit_settings_impl T loc).
Proof. unfold submit_settings_impl. walk. Qed.

(** The event that opens a stream, and the report of the end of one. *)
Definition begins (id : Z) (e : Event) : Prop :=
  match e with EvBeginHeaders f => u32 (hd_stream_id f) = id | _ => False end.

Definition closed_in (id : Z) (new : list Out) : Prop :=
  has_on_stream_closed h = true -> exists code, OnStreamClosed id code ∈ new.

Record event_effect (e : Event) (s s' : Session) (new : list Out) : Prop := {
  ee_log : m_log T s' = m_log T s ++ new;
  ee_about : Forall (fun o => forall i, about o = Some i -> opened s i) new;
  ee_closes : forall id, opened s id -> opened s' id \/ closed_in id new;
  ee_opens : quiet -> forall id, opened s' id -> opened s id \/ begins id e
}.

Definition works (e : Event) {A} (m : M Session A) : Prop := forall s a s', m s = Some (a, s') -> exists new, event_effect e s s' new.

Lemma works_effect e s s' new :
  effect new s s' -> Forall (fun o => forall i, about o = Some i -> opened s i) new -> event_effect e s s' new.
Proof. intros [] Hn. split; auto. Qed.

Lemma works_within e {A} (m : M Session A) : within (fun _ => False) m -> works e m.
Proof.
  intros Hm s a s' Hs. apply Hm in Hs as (new & Hn & Hf); [|done]. exists new. apply works_effect; [done|].
  eapply Forall_impl; [exact Hf|]. naive_solver.
Qed.

(** A callback that looks its stream up first. *)
Lemma works_find e i {A} (f : option Stream -> M Session A) :
  (forall st, within (eq i) (f (Some st))) -> within (fun _ => False) (f None) ->
  works e (M_bind _ _ f (find_stream T i)).
Proof.
  intros Hsome Hnone s a s' Hs. unfold M_bind, find_stream, gets in Hs.
  destruct (m_streams T s !! i) as [st|] eqn:Ei; [|by eapply works_within].
  apply Hsome in Hs as (new & Hn & Hf); [|intros ? <-; by eexists]. exists new. apply works_effect; [done|].
  eapply Forall_impl; [exact Hf|]. intros o Ho j Hj. rewrite <- (Ho j Hj). by eexists.
Qed.

Lemma works_gets e {A C} (g : Session -> A) (f : A -> M Session C) : (forall a, works e (f a)) -> works e (M_bind _ _ f (gets g)).
Proof. intros Hf s a s' Hs. exact (Hf (g s) s a s' Hs). Qed.

Lemma works_ret e {A C} (a : A) (f : A -> M Session C) : works e (f a) -> works e (M_bind _ _ f (M_ret _ a)).
Proof. exact (fun Hf => Hf). Qed.

Lemma works_fmap e {A C} (g : A -> C) (m : M Session A) : works e m -> works e (M_fmap A C g m).
Proof.
  intros Hm s c s'. unfold M_fmap. destruct (m s) as [[a s1]|] eqn:E; [|done]. intros [= _ <-]. by eapply Hm.
Qed.

Lemma on_frame_recv_works e f : works e (on_frame_recv T h loc user f).
Proof.
  unfold on_frame_recv, on_end_stream. set (i := u32 (hd_stream_id f)). destruct (_ || _ || _).
  - apply works_find; [intros st|]; walk; apply on_end_headers_within.
  - apply works_ret, works_within. walk.
Qed.

Lemma on_frame_send_works e f : works e (on_frame_send T loc f).
Proof. apply works_within. unfold on_frame_send. walk. Qed.

Lemma on_header_works e f n v : works e (on_header T f n v).
Proof. unfold on_header. apply works_find; [intros st|]; walk. Qed.

Lemma on_data_chunk_recv_works e i data : works e (on_data_chunk_recv T h loc user i data).
Proof. unfold on_data_chunk_recv. apply works_gets. intros settings. apply works_find; [intros st|]; walk. Qed.

Lemma on_send_works e data : works e (on_send T h loc user data).
Proof. apply works_within. unfold on_send. walk. Qed.

Lemma on_data_source_read_works e i n : works e (on_data_source_read T h loc user i n).
Proof. unfold on_data_source_read. apply works_find; [intros st|]; walk. Qed.

Lemma on_begin_headers_works f : works (EvBeginHeaders f) (on_begin_headers T f).
Proof.
  intros s a s' Hs. exists []. unfold on_begin_headers in Hs. set (i := u32 (hd_stream_id f)) in Hs.
  set (s2 := set_streams T (<[i := new_stream T]> (m_streams T s)) s).
  assert ((exists st s1, s' = set_streams T (<[i := st]> (m_streams T s1)) s1 /\ (s1 = s \/ s1 = s2)) \/ s' = s)
    as [(st & s1 & -> & Hs1)| ->].
  { unmonad; [by right|left; eexists _, _; split; [reflexivity|by left]|left; eexists _, s2; split; [reflexivity|by right]]. }
  2:{ by apply works_effect; [apply effect_refl|]. }
  split; [by destruct Hs1 as [-> | ->]; rewrite app_nil_r|constructor| |].
  - intros id Hid. left. apply opened_insert. right. destruct Hs1 as [-> | ->]; [done|]. apply opened_insert. by right.
  - intros _ id [<- |Hid]%opened_insert; [by right|].
    destruct Hs1 as [-> | ->]; [by left|]. apply opened_insert in Hid as [<- |]; [by right|by left].
Qed.

Lemma on_stream_close_works e i code : works e (on_stream_close T h loc user i code).
Proof.
  intros s a s'. unfold on_stream_close, close_stream, mbind, M_bind at 1, find_stream, gets.
  destruct (m_streams T s !! u32 i) as [st|] eqn:Ei.
  2:{ intros [= <- <-]. exists []. by apply works_effect; [apply effect_refl|]. }
  unfold M_bind at 1, modify. set (s1 := set_streams T _ s). unfold M_bind.
  destruct (emit' _ _ s1) as [[u s2]|] eqn:E; [|done]. intros [= <- <-]. apply emit_effect in E as [Hl _ Hk Ho].
  assert (forall id, opened s1 id <-> id <> u32 i /\ opened s id) as H1.
  { intros id. unfold opened, s1. cbn. destruct (decide (id = u32 i)) as [->|Hne].
    - rewrite lookup_delete_eq. split; [by intros []|by intros []].
    - rewrite lookup_delete_ne by done. naive_solver. }
  eexists. split; [exact Hl| | |].
  - case_match; repeat constructor. intros j [= <-]. by eexists.
  - intros id Hid. destruct (decide (id = u32 i)) as [->|Hne]; [right|left; apply Hk, H1; auto].
    intros ->. eexists. apply list_elem_of_singleton. done.
  - intros Hq id Hid. left. by apply Ho, H1 in Hid as [_ ?].
Qed.

Lemma callback_works e : works e (callback' e).
Proof.
  destruct e; cbn [callback]; unfold fmap; try (apply works_within; walk; done); try apply works_fmap;
    auto using on_frame_recv_works, on_frame_send_works, on_begin_headers_works, on_header_works,
      on_data_chunk_recv_works, on_stream_close_works, on_send_works, on_data_source_read_works.
Qed.

(** ** Runs of the library *)

(** A run in which nghttp2 does not begin headers on the stream, whatever the callbacks answer. *)
Inductive never_begins (id : Z) : Run Lib -> Prop :=
| nb_finished n status : never_begins id (Finished n status)
| nb_call n e k : ~ begins id e -> (forall n' a, never_begins id (k n' a)) -> never_begins id (Call n e k).

Lemma closed_in_l id a b : closed_in id a -> closed_in id (a ++ b).
Proof. intros Ha Hh. destruct (Ha Hh) as [code Hc]. exists code. set_solver. Qed.

Lemma closed_in_r id a b : closed_in id b -> closed_in id (a ++ b).
Proof. intros Ha Hh. destruct (Ha Hh) as [code Hc]. exists code. set_solver. Qed.

(** What an operation adds to the history, and that no stream goes without a report. *)
Definition traced (s s' : Session) (new : list Out) : Prop :=
  m_log T s' = m_log T s ++ new /\ forall id, opened s id -> opened s' id \/ closed_in id new.

Lemma traced_refl s : traced s s [].
Proof. split; [by rewrite app_nil_r|auto]. Qed.

Lemma traced_trans s1 s2 s3 a b : traced s1 s2 a -> traced s2 s3 b -> traced s1 s3 (a ++ b).
Proof.
  intros [La Ha] [Lb Hb]. split; [by rewrite app_assoc, Lb, La|].
  intros id [Hid |Hid]%Ha; [|by right; apply closed_in_l]. destruct (Hb id Hid); [by left|by right; apply closed_in_r].
Qed.

Lemma traced_call q s s' : call_effect q s s' -> traced s s' [].
Proof. intros []. split; [by rewrite app_nil_r|auto]. Qed.

Lemma run_trace t s z s' :
  run' t s = Some (z, s') ->
  exists new, traced s s' new /\
    forall id, quiet -> never_begins id t -> ~ opened s id -> ~ opened s' id /\ Forall (fun o => about o <> Some id) new.
Proof.
  revert s. induction t as [n status|n e k IH]; intros s; cbn [run]; unfold mbind, M_bind, modify.
  - intros [= <- <-]. exists []. split; [eapply traced_call, call_effect_session, (call_effect_refl True)|]. by split.
  - set (s0 := set_session T (Some n) s). destruct (callback' e s0) as [[a s1]|] eqn:E; [|done].
    unfold lib. destruct (m_session T s1) as [n1|]; [|done].
    destruct (callback_works e s0 a s1 E) as (n0 & [Hl Ha Hc Ho]). intros Hs.
    destruct (IH n1 a _ Hs) as (new & Ht & Hq). exists (n0 ++ new).
    split; [eapply traced_trans; [exact (conj Hl Hc)|exact Ht]|].
    intros id Q Hnb Hid. inversion Hnb as [|? ? ? He Hk]; subst.
    destruct (Hq id Q (Hk n1 a)) as [H1 H2]; [by intros [|]%(Ho Q)|]. split; [done|]. apply Forall_app. split; [|done].
    eapply Forall_impl; [exact Ha|]. intros o Hi Hj. by apply Hid, Hi.
Qed.

Lemma lib_run_trace f s z s' :
  lib_run T h loc user f s = Some (z, s') -> exists n, m_session T s = Some n /\ run' (f n) (set_session T (Some n) s) = Some (z, s').
Proof. unfold lib_run, mbind, M_bind, lib. destruct (m_session T s) as [n|]; [|done]. by exists n. Qed.

Lemma lib_run_traced f s z s' : lib_run T h loc user f s = Some (z, s') -> exists new, traced s s' new.
Proof. intros (n & _ & (new & Hn & _)%run_trace)%lib_run_trace. by exists new. Qed.

Lemma step_traced o s u s' : step T h loc user o s = Some (u, s') -> exists new, traced s s' new.
Proof.
  destruct o as [chunk| |a]; cbn [step].
  - unfold input_impl, mbind, M_bind. destruct (lib_run _ _ _ _ _ s) as [[z s1]|] eqn:E; [|done].
    intros [= _ <-]. by eapply lib_run_traced.
  - unfold flush_impl, mbind, M_bind. destruct (lib_run _ _ _ _ _ s) as [[z s1]|] eqn:E; [|done].
    intros [= _ <-]. by eapply lib_run_traced.
  - intros Hs%act_effect. exists []. by eapply traced_call.
Qed.

Lemma steps_traced l s u s' : steps T h loc user l s = Some (u, s') -> exists new, traced s s' new.
Proof.
  revert s. induction l as [|o l IH]; intros s; cbn [steps].
  - intros [= _ <-]. exists []. apply traced_refl.
  - unfold mbind, M_bind. destruct (step _ _ _ _ o s) as [[u1 s1]|] eqn:E; [|done]. intros [b Hb]%IH.
    apply step_traced in E as [a Ha]. exists (a ++ b). by eapply traced_trans.
Qed.

Lemma close_all_log ids s u s' :
  close_all T h loc user ids s = Some (u, s') ->
  exists new, m_log T s' = m_log T s ++ new /\ forall id, id ∈ ids -> closed_in id new.
Proof.
  revert s. induction ids as [|i ids IH]; intros s; cbn [close_all].
  - intros [= _ <-]. exists []. split; [by rewrite app_nil_r|set_solver].
  - unfold close_stream, mbind, M_bind. destruct (emit' _ _ s) as [[u1 s1]|] eqn:E; [|done].
    intros (new & Hn & Hc)%IH. apply emit_effect in E as [Hl _ _ _]. eexists. split; [by rewrite Hn, Hl, <- app_assoc|].
    intros id [-> |Hid]%elem_of_cons; [|by apply closed_in_r, Hc]. apply closed_in_l. intros ->. eexists. by apply list_elem_of_singleton.
Qed.

Lemma destroy_log order s u s' :
  (forall m, order m ≡ₚ elements (dom m)) -> destroy T h loc user order s = Some (u, s') ->
  exists new, m_log T s' = m_log T s ++ new /\ forall id, opened s id -> closed_in id new.
Proof.
  intros Hord. unfold destroy, mbind, M_bind, gets, modify. set (s0 := set_streams T ∅ s).
  destruct (close_all _ _ _ _ _ s0) as [[u1 s1]|] eqn:E; [|done]. apply close_all_log in E as (n1 & H1 & Hc).
  assert (forall id, opened s id -> closed_in id n1) as Hc'.
  { intros id Hid. apply Hc. rewrite Hord, elem_of_elements. by apply elem_of_dom. }
  unfold lib at 1. destruct (m_session T s1) as [n|] eqn:En.
  2:{ intros [= _ <-]. by exists n1. }
  rewrite En. destruct (nghttp2_session_terminate_session (m_error T s1) n) as [z n'].
  destruct (lib_run T h loc user nghttp2_session_send _) as [[z2 s2]|] eqn:E2; [|done]. intros [= _ <-].
  apply lib_run_traced in E2 as (n2 & H2 & _). exists (n1 ++ n2). cbn in H2. rewrite H2, H1, <- app_assoc. split; [done|].
  intros id Hid. by apply closed_in_l, Hc'.
Qed.

(** The stream a call names, updates of windows included. *)
Definition names (o : Out) : option Z := match o with OnWindowUpdate i _ => Some i | _ => about o end.

Lemma names_about id o : about o <> Some id -> names o = Some id -> exists inc, o = OnWindowUpdate id inc.
Proof. destruct o; cbn [names about]; try congruence. intros _ [= ->]. by eexists. Qed.

(** C4: Once a stream is not open any more, a run of the library in which no new headers begin on it makes the
    session call the user about it for one thing only, an update of the peer's window: no message, body, end, close
    or report of sent data names it, and it stays closed.  On a client this is for users whose callbacks submit no
    request from within the run; the callbacks of a server cannot. *)
Theorem closed_stream_is_silent id t s z s' :
  T = Server \/ (forall l a, a ∈ user l -> opens a = false) ->
  never_begins id t -> ~ opened s id -> run' t s = Some (z, s') ->
  exists new, m_log T s' = m_log T s ++ new /\
    Forall (fun o => names o = Some id -> exists inc, o = OnWindowUpdate id inc) new /\ ~ opened s' id.
Proof.
  intros Hu Hn Hid (new & [Hl _] & Hf)%run_trace.
  destruct (Hf id) as [H1 H2]; [by destruct Hu as [HT|Hu]; [apply server_quiet|]|done|done|]. exists new. split; [done|]. split; [|done].
  eapply Forall_impl; [exact H2|]. intros o. apply names_about.
Qed.

(** ** No exceptions *)

(** A stream that nghttp2 reads data for has a buffer. *)
Definition stream_ok (st : Stream) : Prop := flags T st SCHEDULED = true -> is_Some (buffer T st).

Record wf (s : Session) : Prop := {
  wf_session : is_Some (m_session T s);
  wf_streams : forall i st, m_streams T s !! i = Some st -> stream_ok st
}.

(** What nghttp2 keeps to: a frame of headers ends after its headers began, and data is read for
    streams it was submitted for. *)
Definition legal (e : Event) (s : Session) : Prop :=
  match e with
  | EvFrameRecv f => hd_type f = NGHTTP2_HEADERS -> has_flag f NGHTTP2_FLAG_END_HEADERS = true ->
      forall st, m_streams T s !! u32 (hd_stream_id f) = Some st -> is_Some (message T st)
  | EvDataSourceRead i _ => forall st, m_streams T s !! u32 i = Some st -> flags T st SCHEDULED = true
  | _ => True
  end.

(** A run all of whose calls are legal, in the states they find. *)
Inductive follows : Run Lib -> Session -> Prop :=
| follows_finished n status s : follows (Finished n status) s
| follows_call n e k s :
    legal e (set_session T (Some n) s) ->
    (forall a s' n', callback' e (set_session T (Some n) s) = Some (a, s') -> m_session T s' = Some n' ->
       follows (k n' a) (set_session T (Some n') s')) ->
    follows (Call n e k) s.

Context (Hnew : is_Some (evbuffer_new (B := B))).

Definition safe_at {A} (m : M Session A) (s : Session) : Prop := exists a s', m s = Some (a, s') /\ wf s'.
Definition safe {A} (m : M Session A) : Prop := forall s, wf s -> safe_at m s.

Lemma safe_ret {A} (a : A) : safe (M_ret A a).
Proof. intros s Hs. by exists a, s. Qed.

Lemma safe_bind {A C} (m : M Session A) (f : A -> M Session C) : safe m -> (forall a, safe (f a)) -> safe (M_bind A C f m).
Proof. intros Hm Hf s Hs. destruct (Hm s Hs) as (a & s1 & E & H1). unfold safe_at, M_bind. rewrite E. by apply Hf. Qed.

Lemma safe_fmap {A C} (g : A -> C) (m : M Session A) s : safe_at m s -> safe_at (M_fmap A C g m) s.
Proof. intros (a & s1 & E & H1). exists (g a), s1. unfold M_fmap. by rewrite E. Qed.

Lemma safe_gets {A} (f : Session -> A) : safe (gets f).
Proof. intros s Hs. by exists (f s), s. Qed.

Lemma wf_set_session n s : wf s -> wf (set_session T (Some n) s).
Proof. intros []. split; [by exists n|done]. Qed.

Lemma safe_lib {A} (f : Lib -> A * Lib) : safe (lib T f).
Proof.
  intros s Hs. unfold safe_at, lib. destruct (wf_session s Hs) as [n ->]. destruct (f n) as [a n'].
  eexists _, _. split; [done|]. by apply wf_set_session.
Qed.

Lemma safe_put i st : stream_ok st -> safe (put_stream T i st).
Proof.
  intros Hst s [Hn Hs]. eexists _, _. split; [done|]. split; [done|]. cbn. intros j st'.
  destruct (decide (i = j)) as [->|Hne]; [by rewrite lookup_insert_eq; intros [= <-]|rewrite lookup_insert_ne by done; apply Hs].
Qed.

Lemma safe_modify f : (forall s, wf s -> wf (f s)) -> safe (modify f).
Proof. intros Hf s Hs. exists tt, (f s). split; [done|auto]. Qed.

Lemma safe_find_at i {A} (f : option Stream -> M Session A) s :
  wf s -> (forall st, m_streams T s !! i = Some st -> stream_ok st -> safe (f (Some st))) -> safe (f None) ->
  safe_at (M_bind _ _ f (find_stream T i)) s.
Proof.
  intros Hs Hsome Hnone. unfold safe_at, M_bind, find_stream, gets.
  destruct (m_streams T s !! i) as [st|] eqn:E; [|by apply Hnone]. apply Hsome; [done| |done]. by eapply wf_streams.
Qed.

Lemma safe_find i {A} (f : option Stream -> M Session A) :
  (forall st, stream_ok st -> safe (f (Some st))) -> safe (f None) -> safe (M_bind _ _ f (find_stream T i)).
Proof. intros Hf Hn s Hs. apply safe_find_at; auto. Qed.

Lemma new_stream_ok : stream_ok (new_stream T).
Proof. by intros ?. Qed.

Lemma safe_emplace i {A} (f : Stream -> M Session A) :
  (forall st, stream_ok st -> safe (f st)) -> safe (M_bind _ _ f (emplace_stream T i)).
Proof.
  intros Hf s Hs. unfold emplace_stream, safe_at, mbind, M_bind, find_stream, gets.
  destruct (m_streams T s !! i) as [st|] eqn:E; [cbn; apply Hf; [by eapply wf_streams|done]|].
  destruct (safe_put i (new_stream T) new_stream_ok s Hs) as ([] & s1 & -> & H1). apply Hf; [apply new_stream_ok|done].
Qed.

Lemma push_data_ok st chunk eof : exists r st', push_data T st chunk eof = Some (r, st') /\ is_Some (buffer T st').
Proof.
  unfold push_data. destruct Hnew as [b0 Hb]. rewrite Hb.
  destruct (buffer T st) as [b|]; cbn; destruct (evbuffer_add _ _) as [r b']; eexists _, _; by split; [|eexists].
Qed.

(** Walks through a computation that only touches well-formed streams. *)
Ltac walk_safe :=
  repeat (intros; unfold mret, mbind;
    first [ apply safe_ret | apply safe_find | apply safe_emplace | apply safe_bind | apply safe_gets | apply safe_lib
          | apply safe_put; (done || by intros ?) | apply safe_modify; by intros ? [] | case_match ]).

Lemma submit_body_safe i chunk eof : safe (submit_body_impl T loc i chunk eof).
Proof.
  unfold submit_body_impl, mbind. apply safe_find; [intros st _|apply safe_ret].
  destruct (push_data_ok st chunk eof) as (r & st' & -> & Hb). unfold schedule_send. walk_safe.
Qed.

Lemma act_safe a : safe (act' a).
Proof.
  destruct a; cbn [act];
    unfold submit_response, submit_request, submit_trailer_impl, schedule_send, reset_stream_impl,
      set_session_close_error, consume_stream_impl, consume_connection_impl; try by walk_safe.
  unfold mbind. apply safe_bind; [apply submit_body_safe|intros; apply safe_ret].
Qed.

Lemma act_all_safe l : safe (act_all T loc l).
Proof. induction l as [|a l IH]; cbn [act_all]; [apply safe_ret|]. unfold mbind. apply safe_bind; [apply act_safe|auto]. Qed.

Lemma emit_safe p o : safe (emit' p o).
Proof.
  unfold emit. destruct p; [|apply safe_ret]. unfold mbind.
  apply safe_bind; [apply safe_modify; by intros ? []|intros]. apply safe_bind; [apply safe_gets|intros; apply act_all_safe].
Qed.

Lemma mark_received_ok m st : stream_ok st -> stream_ok (mark_received T m st).
Proof.
  enough (flags T (mark_received T m st) SCHEDULED = flags T st SCHEDULED /\ buffer T (mark_received T m st) = buffer T st) as [E1 E2].
  { unfold stream_ok. by rewrite E1, E2. }
  clear. unfold mark_received. revert st m. generalize T. by intros [].
Qed.

Lemma on_end_headers_safe f i st : stream_ok st -> is_Some (message T st) -> safe (on_end_headers T h loc user f i st).
Proof.
  intros Hst [m Hm]. unfold on_end_headers. rewrite Hm. unfold mbind.
  destruct (flags T _ _); (apply safe_bind; [apply safe_put|intros; apply emit_safe]); [done|by apply mark_received_ok].
Qed.

Lemma submit_settings_safe s : wf s -> exists e s', submit_settings_impl T loc s = Some (e, s') /\ wf s' /\ m_streams T s' = m_streams T s.
Proof.
  intros Hs. assert (safe (submit_settings_impl T loc)) as Hsafe by (unfold submit_settings_impl; walk_safe).
  destruct (Hsafe s Hs) as (e & s' & E & H'). exists e, s'. split; [done|]. split; [done|].
  revert E. unfold submit_settings_impl. intros E. unmonad; done.
Qed.

Ltac walk_safe ::=
  repeat (intros; unfold mret, mbind;
    first [ apply safe_ret | apply safe_find | apply safe_emplace | apply emit_safe | apply safe_bind | apply safe_gets
          | apply safe_lib | apply safe_put; (done || by intros ?) | apply safe_modify; by intros ? [] | case_match ]).

Lemma on_frame_recv_safe f s : wf s -> legal (EvFrameRecv f) s -> safe_at (on_frame_recv T h loc user f) s.
Proof.
  intros Hs Hl. cbn [legal] in Hl. unfold on_frame_recv, on_end_stream, mbind. destruct (_ || _ || _) eqn:Et.
  - apply safe_find_at; [done|intros st Hst Hok|by walk_safe].
    destruct (hd_type f =? NGHTTP2_HEADERS)%Z eqn:Eh; [apply Z.eqb_eq in Eh|by walk_safe].
    destruct (has_flag f NGHTTP2_FLAG_END_HEADERS) eqn:Ef; [|by walk_safe].
    apply safe_bind; [by apply on_end_headers_safe; eauto|by walk_safe].
  - apply (safe_bind (M_ret _ None)); [apply safe_ret| |done]. destruct (hd_type f =? NGHTTP2_HEADERS)%Z; [done|]. by walk_safe.
Qed.

Lemma on_data_source_read_safe i n s : wf s -> legal (EvDataSourceRead i n) s -> safe_at (on_data_source_read T h loc user i n) s.
Proof.
  intros Hs Hl. cbn [legal] in Hl. unfold on_data_source_read, mbind. apply safe_find_at; [done| |by walk_safe].
  intros st Hst Hok. destruct (Hok (Hl st Hst)) as [b ->]. walk_safe.
Qed.

Lemma on_stream_close_safe i code : safe (on_stream_close T h loc user i code).
Proof.
  unfold on_stream_close, close_stream, mbind. apply safe_find; [|by walk_safe]. intros st _.
  apply safe_bind; [|by walk_safe]. apply safe_modify. intros s [Hn Hs]. split; [done|]. cbn. intros j st'.
  rewrite lookup_delete_Some. intros [_ Hj]. by apply (Hs j).
Qed.

Lemma callback_safe e s : wf s -> legal e s -> safe_at (callback' e) s.
Proof.
  intros Hs Hl. destruct e; cbn [callback]; unfold fmap; try (by apply safe_ret); try apply safe_fmap;
    try by (apply on_frame_recv_safe || apply on_stream_close_safe || apply on_data_source_read_safe).
  all: revert s Hs Hl; intros s Hs _; revert s Hs; change (forall s, wf s -> safe_at ?m s) with (safe m).
  - unfold on_frame_send. walk_safe.
  - unfold on_begin_headers. walk_safe.
  - unfold on_header. walk_safe.
  - unfold on_data_chunk_recv. walk_safe.
  - unfold on_send. walk_safe.
Qed.

Lemma run_safe t s : wf s -> follows t s -> safe_at (run' t) s.
Proof.
  revert s. induction t as [n status|n e k IH]; intros s Hs Hf; inversion Hf as [|? ? ? ? Hl Hk]; subst; unfold safe_at; cbn [run];
    unfold mbind, M_bind, modify.
  - eexists _, _. split; [done|]. by apply wf_set_session.
  - destruct (callback_safe e (set_session T (Some n) s)) as (a & s1 & E & H1); [by apply wf_set_session|done|].
    rewrite E. unfold lib. destruct (wf_session s1 H1) as [n' En]. rewrite En. apply IH; [by apply wf_set_session|]. by apply Hk.
Qed.

Lemma destroy_null order s :
  order ∅ = [] -> m_streams T s = ∅ -> m_session T s = None -> destroy T h loc user order s = Some (tt, s).
Proof.
  intros Ho E1 E2. unfold destroy, mbind, M_bind, gets, modify. rewrite E1, Ho. cbn. rewrite E2. by destruct s; cbn in *; subst.
Qed.

Lemma make_safe order settings :
  (forall m, order m ≡ₚ elements (dom m)) ->
  exists r, make T h loc user order settings = Some r /\ forall s, r = RValue s -> wf s.
Proof.
  intros Hord. assert (order ∅ = []) as Ho by (apply Permutation_nil_r; by rewrite Hord, dom_empty_L, elements_empty).
  unfold make, initialize_session, mbind, M_bind, gets. destruct (nghttp2_session_new _ _) as [status n].
  destruct (negb _); [cbn; rewrite destroy_null by done; eexists; split; [done|discriminate]|].
  unfold modify. set (s1 := set_session T (Some n) _). assert (wf s1) as H1 by (split; [by exists n|done]).
  destruct (bool_decide _); [|eexists; split; [done|by intros s [= <-]]].
  destruct (submit_settings_safe s1 H1) as (e & s2 & E & H2 & E2). rewrite E. destruct e as [e|].
  - cbn. rewrite destroy_null by done. eexists; split; [done|discriminate].
  - eexists; split; [done|by intros s [= <-]].
Qed.

(** The library keeps to its protocol in every operation of a list, and when the session is destroyed. *)
Definition run_legal (f : Lib -> Run Lib) (s : Session) : Prop :=
  forall n, m_session T s = Some n -> follows (f n) (set_session T (Some n) s).

Definition op_legal (o : Op) (s : Session) : Prop :=
  match o with
  | Input chunk => run_legal (nghttp2_session_mem_recv chunk) s
  | Flush => run_legal nghttp2_session_send s
  | Act _ => True
  end.

Fixpoint obeys (l : list Op) (s : Session) : Prop :=
  match l with
  | [] => True
  | o :: l' => op_legal o s /\ forall s', step T h loc user o s = Some (tt, s') -> obeys l' s'
  end.

(** What the destructor does before it sends the rest. *)
Definition terminate (order : gmap Z Stream -> list Z) : M Session Z :=
  M_bind _ _ (fun streams => M_bind _ _ (fun _ => M_bind _ _ (fun _ => M_bind _ _ (fun e =>
    lib T (nghttp2_session_terminate_session e)) (gets (m_error T)))
    (close_all T h loc user (order streams))) (modify (set_streams T ∅))) (gets (m_streams T)).

Definition send_legal (order : gmap Z Stream -> list Z) (s : Session) : Prop :=
  forall z s', terminate order s = Some (z, s') -> run_legal nghttp2_session_send s'.

Lemma lib_run_safe f s : wf s -> run_legal f s -> safe_at (lib_run T h loc user f) s.
Proof.
  intros Hs Hl. unfold safe_at, lib_run, mbind, M_bind, lib. destruct (wf_session s Hs) as [n En]. rewrite En.
  apply run_safe; [by apply wf_set_session|by apply Hl].
Qed.

Lemma step_safe o s : wf s -> op_legal o s -> exists s', step T h loc user o s = Some (tt, s') /\ wf s'.
Proof.
  intros Hs Hl. destruct o as [chunk| |a]; cbn [step op_legal] in *.
  - destruct (lib_run_safe _ s Hs Hl) as (z & s' & E & H'). exists s'. unfold input_impl, mbind, M_bind. by rewrite E.
  - destruct (lib_run_safe _ s Hs Hl) as (z & s' & E & H'). exists s'. unfold flush_impl, mbind, M_bind. by rewrite E.
  - destruct (act_safe a s Hs) as ([] & s' & E & H'). by exists s'.
Qed.

Lemma steps_safe l s : wf s -> obeys l s -> exists s', steps T h loc user l s = Some (tt, s') /\ wf s'.
Proof.
  revert s. induction l as [|o l IH]; intros s Hs Hl; [by exists s|]. destruct Hl as [Ho Hl].
  destruct (step_safe o s Hs Ho) as (s1 & E & H1). cbn [steps]. unfold mbind, M_bind. rewrite E. auto.
Qed.

Lemma close_all_safe ids : safe (close_all T h loc user ids).
Proof. induction ids as [|i ids IH]; cbn [close_all]; [apply safe_ret|]. unfold close_stream. apply safe_bind; [apply emit_safe|auto]. Qed.

Lemma destroy_safe order s : wf s -> send_legal order s -> exists s', destroy T h loc user order s = Some (tt, s') /\ wf s'.
Proof.
  intros Hs Hl. assert (safe (terminate order)) as Hsafe.
  { unfold terminate. apply safe_bind; [apply safe_gets|intros streams]. apply safe_bind.
    { apply safe_modify. intros s0 [Hn _]. by split. }
    intros _. apply safe_bind; [apply close_all_safe|intros _]. apply safe_bind; [apply safe_gets|intros e; apply safe_lib]. }
  destruct (Hsafe s Hs) as (z & s1 & E & H1). specialize (Hl z s1 E).
  destruct (lib_run_safe _ s1 H1 Hl) as (z2 & s2 & E2 & H2). exists s2. split; [|done].
  revert E. unfold destroy, terminate, mbind, M_bind, gets, modify.
  destruct (close_all _ _ _ _ _ _) as [[u sc]|]; [|done]. intros E. pose proof E as E'. unfold lib in E'.
  destruct (m_session T sc); [|done]. rewrite E, E2. done.
Qed.

(** The flag of a stream is set whether nghttp2 takes its data or not, so a refused submission is not
    repeated by the next chunk. *)
Lemma scheduled_even_if_refused i (st : Stream) (s : Session) z s' :
  m_streams T s !! i = Some st -> schedule_send T i st s = Some (z, s') ->
  exists st', m_streams T s' !! i = Some st' /\ flags T st' SCHEDULED = true.
Proof.
  intros Hst. unfold schedule_send. destruct (flags T st SCHEDULED) eqn:E; intros Hs; unmonad.
  - by exists st.
  - eexists. by rewrite lookup_insert_eq.
Qed.

(** nghttp2 refuses manual consumption while it updates windows itself, which is what the session asks
    for when [auto_flow_control] is set; [consume_stream] then fails on every call. *)
Lemma auto_flow_control_cannot_consume i len (s : Session) :
  (forall i len n, (nghttp2_session_consume_stream i len n).1 = NGHTTP2_ERR_INVALID_STATE) ->
  is_Some (m_session T s) -> auto_flow_control (m_settings T s) = true ->
  exists e s', consume_stream_impl T loc i len s = Some (Some e, s').
Proof.
  intros Hl [n Hn] Ha. unfold consume_stream_impl, mbind, M_bind, gets. rewrite Ha. cbn [negb]. unfold mret, M_ret, lib. rewrite Hn.
  specialize (Hl (i32 i) len n). destruct (nghttp2_session_consume_stream _ _ n) as [z n']. cbn in Hl. subst z. by eexists _, _.
Qed.
End Facts.

(** ** A small library to run the statements on *)

(** Its state counts the calls; a chunk of input is the method of a request on stream 1. *)
Definition head_frame : Frame := MkFrame NGHTTP2_HEADERS 5 1 0 0.

#[export] Instance toy_lib : Nghttp2 nat := {
  nghttp2_session_new := fun _ _ => (0%Z, 0);
  nghttp2_session_mem_recv := fun chunk n =>
    script [EvBeginHeaders head_frame; EvHeader head_frame (str ":method") chunk; EvFrameRecv head_frame] n;
  nghttp2_session_send := fun n => script [EvSend (str "bytes")] n;
  nghttp2_session_terminate_session := fun _ n => (0%Z, S n);
  nghttp2_submit_settings := fun _ n => (0%Z, S n);
  nghttp2_session_set_local_window_size := fun _ _ n => (0%Z, S n);
  nghttp2_submit_headers := fun _ _ _ n => (0%Z, S n);
  nghttp2_submit_trailer := fun _ _ n => (0%Z, S n);
  nghttp2_submit_data := fun _ _ n => (0%Z, S n);
  nghttp2_session_resume_data := fun _ n => (0%Z, S n);
  nghttp2_submit_rst_stream := fun _ _ n => (0%Z, S n);
  nghttp2_session_consume_connection := fun _ n => (0%Z, S n);
  nghttp2_session_consume_stream := fun _ _ n => (0%Z, S n);
  nghttp2_session_get_next_stream_id := fun n => Z.of_nat (2 * n + 1);
  nghttp2_session_set_next_stream_id := fun _ n => (0%Z, n);
  nghttp2_strerror := fun _ => str "error"
}.

Definition all_callbacks : Callbacks := MkCallbacks true true true true true true true true true.
Definition here : SourceLocation := MkLocation (str "f") 1.
Definition key_order {A} (m : gmap Z A) : list Z := elements (dom m).

(** A user that answers every request and adds to the body of stream 1 otherwise. *)
Definition busy_user (log : list Out) : list Action :=
  match last log with
  | Some (OnRequest i _) => [SubmitResponse i (response_new_code HTTP_2_0 200) false; SubmitBody i (str "body") true]
  | Some (OnStreamClosed _ _) => [ConsumeConnection 1]
  | _ => [SubmitBody 1 (str "more") false]
  end.

Definition live_session (streams : gmap Z (Stream (B := bytes) Server)) : Session (Lib := nat) (B := bytes) Server :=
  MkSession Server (Some 0) default_settings streams 0 false [].

Lemma never_begins_script {Lib} id es (n : Lib) : Forall (fun e => ~ begins id e) es -> never_begins id (script es n).
Proof. intros He. revert n. induction He as [|e es He _ IH]; intros n; constructor; [done|]. intros. case_match; [done|constructor]. Qed.

Definition late_events : list Event :=
  [EvFrameRecv (MkFrame NGHTTP2_WINDOW_UPDATE 0 1 0 9); EvSend (str "x"); EvStreamClose 1 0].

Lemma closed_stream_is_silent_witness :
  exists z s' new,
    run Server all_callbacks here busy_user (script late_events 0) (live_session ∅) = Some (z, s') /\
    m_log Server s' = new /\ new = [OnWindowUpdate 1 9; OnOutput (str "x")] /\
    Forall (fun o => names o = Some 1%Z -> exists inc, o = OnWindowUpdate 1 inc) new.
Proof.
  destruct (run Server all_callbacks here busy_user (script late_events 0) (live_session ∅)) as [[z s']|] eqn:E; [|by vm_compute in E].
  assert (never_begins 1 (script late_events 0)) as Hn by (apply never_begins_script; repeat constructor; by intros []).
  assert (~ opened Server (live_session ∅) 1) as Ho by (intros [? Ho]; by vm_compute in Ho).
  destruct (closed_stream_is_silent Server all_callbacks here busy_user 1 _ _ z s' (or_introl eq_refl) Hn Ho E)
    as (new & Hl & Hf & _).
  exists z, s', new. split; [done|]. split; [exact Hl|]. split; [|exact Hf].
  rewrite <- (app_nil_l new). change [] with (m_log Server (live_session ∅)) at 1. rewrite <- Hl. clear Hl Hf.
  apply (f_equal (fun o => (fun x => m_log Server x.2) <$> o)) in E. vm_compute in E. by injection E.
Defined.

Lemma toy_send_follows n (s : Session (Lib := nat) (B := bytes) Server) :
  follows Server all_callbacks here busy_user (nghttp2_session_send n) s.
Proof. constructor; [done|]. intros a s' n' _ _. cbn. case_match; constructor. Qed.

