(* ===== verification/Http2Safety.v ===== *)
(** * HTTP/2 sessions never throw

    What nghttp2 promises about the order of its callbacks, stated of its own history: which streams
    have a block of headers under way, and for which it was given data.  The theorem derives from
    it that the session finds the message and the buffer it takes for granted in every callback. *)

From S2P Require Import StringView Utils Error Headers Message StateMonad Http2 Http2Facts.

(** ** The contract of nghttp2 *)

(** The history of a session of the library: [reading] has the streams whose headers began and have not
    ended, [sources] those that data was submitted for. *)
Class Nghttp2History (Lib : Type) := { sources : Lib -> gset Z; reading : Lib -> gset Z }.

Definition ends_headers (f : Frame) : bool := (hd_type f =? NGHTTP2_HEADERS)%Z && has_flag f NGHTTP2_FLAG_END_HEADERS.

Section Orderly.
Context {Lib : Type} `{Nghttp2History Lib}.

(** A frame of headers is complete after its headers began, which they do in runs that receive; data is
    read for a stream it was given for. *)
Definition permitted (receives : bool) (n : Lib) (e : Event) : Prop :=
  match e with
  | EvBeginHeaders _ => receives = true
  | EvFrameRecv f => ends_headers f = true -> u32 (hd_stream_id f) ∈ reading n
  | EvDataSourceRead i _ => u32 i ∈ sources n
  | _ => True
  end.

(** What a callback does to the history: a block of headers begins unless the callback refuses it. *)
Definition sources_after (e : Event) (S : gset Z) : gset Z :=
  match e with EvStreamClose i _ => S ∖ {[u32 i]} | _ => S end.

Definition reading_after (e : Event) (a : Answer) (R : gset Z) : gset Z :=
  match e with
  | EvBeginHeaders f => if (result a =? 0)%Z then R ∪ {[u32 (hd_stream_id f)]} else R
  | EvFrameRecv f => if ends_headers f then R ∖ {[u32 (hd_stream_id f)]} else R
  | EvStreamClose i _ => R ∖ {[u32 i]}
  | _ => R
  end.

(** A run that makes permitted calls only, whatever they answer and whatever the library is asked in them. *)
Inductive orderly (receives : bool) (S R : gset Z) : Run Lib -> Prop :=
| orderly_finished n status : sources n ⊆ S -> reading n = R -> orderly receives S R (Finished n status)
| orderly_call n e k :
    sources n ⊆ S -> reading n = R -> permitted receives n e ->
    (forall n' a, orderly receives (sources_after e (sources n')) (reading_after e a (reading n')) (k n' a)) ->
    orderly receives S R (Call n e k).

(** A call that runs no callbacks leaves the history alone. *)
Definition no_news (n n' : Lib) : Prop := sources n' ⊆ sources n /\ reading n' = reading n.
End Orderly.

Class Nghttp2Laws (Lib : Type) `{Nghttp2 Lib} `{Nghttp2History Lib} := {
  new_history T o : sources (nghttp2_session_new T o).2 = ∅ /\ reading (nghttp2_session_new T o).2 = ∅;
  mem_recv_orderly chunk n : orderly true (sources n) (reading n) (nghttp2_session_mem_recv chunk n);
  send_orderly n : orderly false (sources n) (reading n) (nghttp2_session_send n);
  terminate_news z n : no_news n (nghttp2_session_terminate_session z n).2;
  settings_news l n : no_news n (nghttp2_submit_settings l n).2;
  window_news i z n : no_news n (nghttp2_session_set_local_window_size i z n).2;
  headers_news f i l n : no_news n (nghttp2_submit_headers f i l n).2;
  trailer_news i l n : no_news n (nghttp2_submit_trailer i l n).2;
  data_news f i n : sources (nghttp2_submit_data f i n).2 ⊆ sources n ∪ {[u32 i]} /\
    reading (nghttp2_submit_data f i n).2 = reading n;
  resume_news i n : no_news n (nghttp2_session_resume_data i n).2;
  rst_news i z n : no_news n (nghttp2_submit_rst_stream i z n).2;
  consume_connection_news z n : no_news n (nghttp2_session_consume_connection z n).2;
  consume_stream_news i z n : no_news n (nghttp2_session_consume_stream i z n).2;
  set_next_news i n : no_news n (nghttp2_session_set_next_stream_id i n).2;
  (** The number of the next stream has not been used. *)
  next_is_fresh n : u32 (nghttp2_session_get_next_stream_id n) ∉ sources n ∪ reading n
}.

Create HintDb news.

#[export] Hint Resolve terminate_news settings_news window_news headers_news trailer_news resume_news rst_news
  consume_connection_news consume_stream_news set_next_news : news.

Lemma u32_i32 x : u32 (i32 x) = u32 x.
Proof.
  unfold u32, i32, wrap. rewrite Zminus_mod_idemp_l. f_equal. lia.
Qed.

Lemma u32_u32 x : u32 (u32 x) = u32 x.
Proof. unfold u32, wrap. by rewrite Z.mod_mod. Qed.

Section Safety.
Context {Lib : Type} `{Nghttp2 Lib} `{Nghttp2History Lib} `{!Nghttp2Laws Lib} {B : Type} `{EvBuffer B}.
Context (T : side) (h : Callbacks) (loc : SourceLocation) (user : list Out -> list Action).

Abbreviation Session := (Http2.Session (Lib := Lib) (B := B) T).
Abbreviation Stream := (Http2.Stream (B := B) T).

(** ** What the session keeps in step with the library *)

(** The streams agree with a history: a message is under way exactly while headers are read, and data was
    scheduled for a stream the library reads data of. *)
Record agrees (S R : gset Z) (s : Session) : Prop := {
  ag_message i st : m_streams T s !! i = Some st -> (is_Some (message T st) <-> i ∈ R);
  ag_scheduled i st : m_streams T s !! i = Some st -> i ∈ S -> flags T st SCHEDULED = true;
  ag_keys i : opened T s i -> u32 i = i
}.

(** Every stream of the history is there. *)
Definition covers (S R : gset Z) (s : Session) : Prop := forall i, i ∈ S ∪ R -> opened T s i.

(** While the session is destroyed the streams are gone, but the library still has them. *)
Definition kept (alive : Prop) (S R : gset Z) (s : Session) : Prop := agrees S R s /\ (alive -> covers S R s).

(** A session whose library is there. *)
Record good (alive : Prop) (s : Session) : Prop := {
  good_wf : wf T s;
  good_history n : m_session T s = Some n -> kept alive (sources n) (reading n) s
}.

(** ** Calls of the user *)

(** From session [s] with the library in [n], to [s'] and [n']. *)
Record grows (n n' : Lib) (s s' : Session) : Prop := {
  g_reading : reading n' = reading n;
  g_sources i : i ∈ sources n' -> i ∈ sources n \/ exists st', m_streams T s' !! i = Some st' /\ flags T st' SCHEDULED = true;
  g_keeps i st : m_streams T s !! i = Some st -> exists st', m_streams T s' !! i = Some st' /\
    (is_Some (message T st') <-> is_Some (message T st)) /\ (flags T st SCHEDULED = true -> flags T st' SCHEDULED = true);
  g_new i st' : m_streams T s !! i = None -> m_streams T s' !! i = Some st' ->
    message T st' = None /\ (i ∉ reading n) /\ u32 i = i /\ (i ∈ sources n' -> flags T st' SCHEDULED = true)
}.

Lemma grows_refl n n' s s' : no_news n n' -> m_streams T s' = m_streams T s -> grows n n' s s'.
Proof.
  intros [Hs Hr] E. split; [done|auto|..]; rewrite E.
  - intros i st Hst. by exists st.
  - congruence.
Qed.

Lemma grows_trans n1 n2 n3 s1 s2 s3 : grows n1 n2 s1 s2 -> grows n2 n3 s2 s3 -> grows n1 n3 s1 s3.
Proof.
  intros [R1 S1 K1 N1] [R2 S2 K2 N2]. split; [congruence|..].
  - intros i [Hi|Hi]%S2; [|by right]. apply S1 in Hi as [Hi|(st & E & F)]; [by left|right].
    destruct (K2 i st E) as (st' & E' & _ & F'). eauto.
  - intros i st (st2 & E2 & M2 & F2)%K1. destruct (K2 i st2 E2) as (st3 & E3 & M3 & F3). exists st3. split; [done|]. split; [by rewrite M3|auto].
  - intros i st3 E1 E3. destruct (m_streams T s2 !! i) as [st2|] eqn:E2.
    + destruct (N1 i st2 E1 E2) as (M & HR & Hk & HS). destruct (K2 i st2 E2) as (st3' & E3' & M3 & F3). simplify_eq.
      split; [by rewrite <- not_eq_None_Some, M in M3; destruct (message T st3); naive_solver|]. split; [done|]. split; [done|]. intros [Hi|(st3' & ? & ?)]%S2; [auto|by simplify_eq].
    + destruct (N2 i st3 E2 E3) as (M & HR & Hk & HS). rewrite R1 in HR. auto.
Qed.

Lemma agrees_grows X Y n n' s s' :
  agrees (sources n ∖ X) (reading n ∖ Y) s -> grows n n' s s' -> agrees (sources n' ∖ X) (reading n' ∖ Y) s'.
Proof.
  intros [Am As Ak] [R Sc K N]. rewrite R. split.
  - intros i st' E'. destruct (m_streams T s !! i) as [st|] eqn:E.
    + destruct (K i st E) as (st2 & ? & M & _). simplify_eq. rewrite M. by apply Am.
    + destruct (N i st' E E') as (M & HR & _). rewrite M. split; [by intros []|set_solver].
  - intros i st' E' [Hi HX]%elem_of_difference. destruct (m_streams T s !! i) as [st|] eqn:E; [|by eapply N].
    destruct (K i st E) as (st2 & ? & _ & F). simplify_eq. apply Sc in Hi as [Hi|(st3 & ? & ?)]; [|by simplify_eq].
    apply F, (As i); [done|set_solver].
  - intros i [st' E']. destruct (m_streams T s !! i) as [st|] eqn:E; [apply Ak; by eexists|by eapply N].
Qed.

Lemma covers_grows X Y n n' s s' :
  covers (sources n ∖ X) (reading n ∖ Y) s -> grows n n' s s' -> covers (sources n' ∖ X) (reading n' ∖ Y) s'.
Proof.
  intros Hc [R Sc K N] i. rewrite R. intros Hi.
  assert (opened T s i -> opened T s' i) as Hk by (intros [st (st' & E & _)%K]; by eexists).
  destruct (decide (i ∈ reading n ∖ Y)); [apply Hk, Hc; set_solver|].
  assert (i ∈ sources n' /\ i ∉ X) as [[J1|(st & E & _)]%Sc J2] by set_solver; [apply Hk, Hc; set_solver|by eexists].
Qed.

(** A computation that does what calls of the user do. *)
Definition grow {A} (m : M Session A) : Prop := forall s n a s',
  m_session T s = Some n -> (forall i, opened T s i -> u32 i = i) -> m s = Some (a, s') ->
  exists n', m_session T s' = Some n' /\ grows n n' s s'.

Lemma grows_keys n n' s s' : (forall i, opened T s i -> u32 i = i) -> grows n n' s s' -> forall i, opened T s' i -> u32 i = i.
Proof.
  intros Hk [_ _ _ N] i [st' E']. destruct (m_streams T s !! i) as [st|] eqn:E; [apply Hk; by eexists|by eapply N].
Qed.

Lemma no_news_refl (n : Lib) : no_news n n.
Proof. done. Qed.

Lemma grow_same {A} (m : M Session A) :
  (forall s a s', m s = Some (a, s') -> m_session T s' = m_session T s /\ m_streams T s' = m_streams T s) -> grow m.
Proof.
  intros Hm s n a s' Hn _ Hs. apply Hm in Hs as [E1 E2]. exists n. split; [congruence|]. by apply grows_refl; [apply no_news_refl|].
Qed.

Lemma grow_ret {A} (a : A) : grow (M_ret A a).
Proof. by apply grow_same; intros s b s' [= _ <-]. Qed.

Lemma grow_gets {A} (f : Session -> A) : grow (gets f).
Proof. by apply grow_same; intros s b s' [= _ <-]. Qed.

Lemma grow_find i : grow (find_stream T i).
Proof. apply grow_gets. Qed.

Lemma grow_bind {A C} (m : M Session A) (f : A -> M Session C) : grow m -> (forall a, grow (f a)) -> grow (M_bind A C f m).
Proof.
  intros Hm Hf s n c s' Hn Hk. unfold M_bind. destruct (m s) as [[a s1]|] eqn:E; [|done]. intros Hs.
  destruct (Hm s n a s1 Hn Hk E) as (n1 & E1 & G1). destruct (Hf a s1 n1 c s' E1) as (n2 & E2 & G2); [by eapply grows_keys|done|].
  exists n2. split; [done|]. by eapply grows_trans.
Qed.

Lemma grow_lib {A} (f : Lib -> A * Lib) : (forall n, no_news n (f n).2) -> grow (lib T f).
Proof.
  intros Hf s n a s' Hn _. unfold lib. rewrite Hn. specialize (Hf n). destruct (f n) as [b n']. intros [= _ <-].
  exists n'. split; [done|]. by apply grows_refl.
Qed.

Lemma grow_modify f :
  (forall s, m_session T (f s) = m_session T s /\ m_streams T (f s) = m_streams T s) -> grow (modify f).
Proof. intros Hf. apply grow_same. intros s [] s' [= <-]. apply Hf. Qed.

(** A stream that is there gets another value. *)
Lemma grows_put n i st st' s :
  m_streams T s !! i = Some st -> (is_Some (message T st') <-> is_Some (message T st)) ->
  (flags T st SCHEDULED = true -> flags T st' SCHEDULED = true) ->
  grows n n s (set_streams T (<[i := st']> (m_streams T s)) s).
Proof.
  intros E M F. split; [done|auto|..]; cbn.
  - intros j stj Ej. destruct (decide (i = j)) as [<-|Hne]; [rewrite lookup_insert_eq|rewrite lookup_insert_ne by done].
    + simplify_eq. by exists st'.
    + by exists stj.
  - intros j stj Ej. rewrite lookup_insert_ne by congruence. congruence.
Qed.

Lemma push_data_keeps st chunk eof r st' :
  push_data T st chunk eof = Some (r, st') -> message T st' = message T st /\ flags T st' SCHEDULED = flags T st SCHEDULED.
Proof.
  unfold push_data. destruct (buffer T st); [|destruct evbuffer_new; [|done]]; cbn; destruct (evbuffer_add _ _); by intros [= <- <-].
Qed.

Lemma grow_schedule i st s n z s' :
  m_session T s = Some n -> m_streams T s !! i = Some st -> u32 i = i -> schedule_send T i st s = Some (z, s') ->
  exists n', m_session T s' = Some n' /\ grows n n' s s'.
Proof.
  intros Hn Hst Hi. unfold schedule_send. destruct (flags T st SCHEDULED) eqn:F.
  - unfold lib. rewrite Hn. destruct (nghttp2_session_resume_data (i32 i) n) as [r n'] eqn:E. intros [= _ <-].
    exists n'. split; [done|]. apply grows_refl; [|done]. pose proof (resume_news (i32 i) n) as Hr. by rewrite E in Hr.
  - unfold put_stream, mbind, M_bind, modify, lib. cbn [m_session set_streams]. rewrite Hn.
    set (s1 := set_streams T _ s). destruct (nghttp2_submit_data _ (i32 i) n) as [r n'] eqn:E. intros [= _ <-].
    exists n'. split; [done|]. destruct (data_news NGHTTP2_FLAG_END_STREAM (i32 i) n) as [Hs Hr]. rewrite E, u32_i32, Hi in Hs. rewrite E in Hr. cbn in Hs, Hr.
    apply (grows_trans n n n' s s1); [by apply (grows_put n i st)|]. split; [done|..].
    + intros j Hj%Hs. apply elem_of_union in Hj as [Hj|Hj%elem_of_singleton]; [by left|right]. subst j.
      eexists. cbn. rewrite lookup_insert_eq. by split.
    + intros j stj Ej. by exists stj.
    + intros j stj Ej. cbn in *. congruence.
Qed.

Lemma grow_submit_body i chunk eof : grow (submit_body_impl T loc i chunk eof).
Proof.
  intros s n a s' Hn Hk. unfold submit_body_impl, mbind, M_bind, find_stream, gets.
  destruct (m_streams T s !! i) as [st|] eqn:Ei; [|intros Hs; by apply (grow_ret _ s n _ _ Hn Hk) in Hs].
  destruct (push_data T st chunk eof) as [[r st']|] eqn:Ep; [|done]. apply push_data_keeps in Ep as [M F].
  unfold put_stream, modify. set (s1 := set_streams T _ s).
  assert (grows n n s s1) as G1 by (apply (grows_put n i st); [done|by rewrite M|by rewrite F]).
  destruct (negb (r =? 0)%Z); [intros [= _ <-]; by exists n|].
  destruct (schedule_send T i st' s1) as [[z s2]|] eqn:Es; [|done]. intros [= _ <-].
  apply (grow_schedule i st' s1 n) in Es as (n' & E' & G2); [|done|cbn; by rewrite lookup_insert_eq|apply Hk; by eexists].
  exists n'. split; [done|]. by eapply grows_trans.
Qed.

Lemma lib_inv {A} (f : Lib -> A * Lib) (s : Session) n a s' :
  m_session T s = Some n -> lib T f s = Some (a, s') -> a = (f n).1 /\ s' = set_session T (Some (f n).2) s.
Proof. intros Hn. unfold lib. rewrite Hn. destruct (f n). by intros [= <- <-]. Qed.

(** The stream of a new request. *)
Lemma grow_open i st s n :
  u32 i = i -> i ∉ sources n ∪ reading n ->
  (forall st0, m_streams T s !! i = Some st0 -> message T st = message T st0 /\ flags T st SCHEDULED = flags T st0 SCHEDULED) ->
  (m_streams T s !! i = None -> message T st = None) ->
  grows n n s (set_streams T (<[i := st]> (m_streams T s)) s).
Proof.
  intros Hi Hf Hold Hnew. destruct (m_streams T s !! i) as [st0|] eqn:E.
  { apply (grows_put n i st0); [done|..]; destruct (Hold st0) as [M F]; [done|by rewrite M|done|by rewrite F]. }
  split; [done|auto|..]; cbn; intros j stj Ej.
  - exists stj. by rewrite lookup_insert_ne by congruence.
  - rewrite lookup_insert_Some. intros [[<- <-]|[]]; [|congruence]. set_solver.
Qed.

Lemma grow_submit_request r eof : grow (submit_request T loc r eof).
Proof.
  intros s n a s' Hn Hk. unfold submit_request, mbind, M_bind.
  destruct (lib T _ s) as [[i s0]|] eqn:E0; [|done]. apply (lib_inv _ s n) in E0 as [-> ->]; [|done]. cbn [fst snd].
  set (i := u32 _). set (s0 := set_session T (Some n) s).
  destruct (lib T (nghttp2_session_set_next_stream_id _) s0) as [[z s1]|] eqn:E1; [|done].
  apply (lib_inv _ s0 n) in E1 as [-> ->]; [|done]. destruct (set_next_news (i32 i) n) as [S1 R1].
  set (n1 := (_ n).2) in *. set (s1 := set_session T _ s0).
  assert (forall n' s', no_news n n' -> m_streams T s' = m_streams T s -> grows n n' s s') as Hg by (intros; by apply grows_refl).
  destruct (negb _); [intros [= _ <-]; exists n1; split; [done|by apply Hg]|].
  destruct (lib T (nghttp2_submit_headers _ _ _) s1) as [[z s2]|] eqn:E2; [|done].
  apply (lib_inv _ s1 n1) in E2 as [-> ->]; [|done].
  match goal with |- context [nghttp2_submit_headers ?f ?i ?l n1] => destruct (headers_news f i l n1) as [S2 R2] end.
  set (n2 := (_ n1).2) in *. set (s2 := set_session T _ s1).
  assert (no_news n n2) as N2 by (split; [set_solver|congruence]).
  destruct (_ <? 0)%Z; [intros [= _ <-]; exists n2; split; [done|by apply Hg]|].
  assert (u32 i = i) as Hi by apply u32_u32. assert (i ∉ sources n2 ∪ reading n2) as Hf.
  { pose proof (next_is_fresh n) as Hf. fold i in Hf. destruct N2 as [? ->]. set_solver. }
  unfold emplace_stream, mbind, M_bind, find_stream, gets, put_stream, modify.
  destruct (m_streams T s2 !! i) as [st|] eqn:Est; intros [= _ <-]; exists n2; (split; [done|]).
  - eapply grows_trans; [by apply (Hg n2 s2)|]. apply (grow_open i _ s2 n2); [done..| |by rewrite Est].
    intros st0. rewrite Est. by intros [= <-].
  - eapply grows_trans; [by apply (Hg n2 s2)|]. cbn [m_streams set_streams]. rewrite insert_insert_eq.
    apply (grow_open i _ s2 n2); [done..| |done]. intros st0. by rewrite Est.
Qed.

Ltac walk_grow :=
  repeat (intros; unfold mret, mbind;
    first [ apply grow_submit_request | apply grow_submit_body | apply grow_ret | apply grow_find | apply grow_bind | apply grow_gets | apply grow_lib; auto with news
          | apply grow_modify; done | case_match ]).

Lemma act_grow a : grow (act T loc a).
Proof.
  destruct a; cbn [act];
    unfold submit_response, submit_trailer_impl, reset_stream_impl,
      set_session_close_error, consume_stream_impl, consume_connection_impl; by walk_grow.
Qed.

Lemma emit_grow p o : grow (emit T loc user p o).
Proof.
  unfold emit. destruct p; [|apply grow_ret]. apply grow_bind; [by apply grow_modify|intros _]. apply grow_bind; [apply grow_gets|intros log].
  generalize (user log). intros l. induction l as [|a l IH]; cbn [act_all]; [apply grow_ret|].
  apply grow_bind; [apply act_grow|done].
Qed.

(** ** Callbacks *)

Context (Hnew : is_Some (evbuffer_new (B := B))).

Lemma kept_grows alive X Y n n' s s' :
  kept alive (sources n ∖ X) (reading n ∖ Y) s -> grows n n' s s' -> kept alive (sources n' ∖ X) (reading n' ∖ Y) s'.
Proof. intros [Ha Hc] Hg. split; [by eapply agrees_grows|]. intros HX. by eapply covers_grows; [apply Hc|]. Qed.

(** Nothing is known of a stream that is not there. *)
Lemma kept_forget alive X i S R s :
  X ⊆ {[i]} -> m_streams T s !! i = None -> kept alive S R s -> kept alive (S ∖ X) (R ∖ {[i]}) s.
Proof.
  intros HX Hi [[Am As Ak] Hc]. split.
  - split; [|set_solver|done]. intros j st Ej. rewrite (Am j st Ej). assert (j <> i) by congruence. set_solver.
  - intros HP j Hj. apply Hc; [done|set_solver].
Qed.

Lemma kept_delete alive i S R s :
  kept alive S R s -> kept alive (S ∖ {[i]}) (R ∖ {[i]}) (set_streams T (delete i (m_streams T s)) s).
Proof.
  intros [[Am As Ak] Hc]. split; [split|].
  - intros j st. cbn. intros [Hne Ej]%lookup_delete_Some. rewrite (Am j st Ej). set_solver.
  - intros j st. cbn. intros [Hne Ej]%lookup_delete_Some Hj. apply (As j); [done|set_solver].
  - intros j [st Ej]. cbn in Ej. apply lookup_delete_Some in Ej as [Hne Ej]. apply Ak. by eexists.
  - intros HP j Hj. unfold opened. cbn. rewrite lookup_delete_ne by set_solver. apply Hc; [done|set_solver].
Qed.

(** A stream gets a value, with or without a message. *)
Lemma kept_put alive i st S R R' s :
  kept alive S R s -> u32 i = i -> (is_Some (message T st) <-> i ∈ R') -> (i ∈ S -> flags T st SCHEDULED = true) ->
  (forall j, j <> i -> j ∈ R' <-> j ∈ R) -> kept alive S R' (set_streams T (<[i := st]> (m_streams T s)) s).
Proof.
  intros [[Am As Ak] Hc] Hi Hm Hs HR. split; [split|].
  - intros j stj. cbn. rewrite lookup_insert_Some. intros [[<- <-]|[Hne Ej]]; [done|]. rewrite HR by done. by apply Am.
  - intros j stj. cbn. rewrite lookup_insert_Some. intros [[<- <-]|[Hne Ej]]; [done|]. by apply As.
  - intros j [<- |Hj]%opened_insert; [done|by apply Ak].
  - intros HP j Hj. apply opened_insert. destruct (decide (i = j)) as [|Hne]; [by left|right].
    apply Hc; [done|]. apply elem_of_union in Hj as [Hj|Hj]; [set_solver|]. apply HR in Hj; [set_solver|congruence].
Qed.

(** What a computation does that finds a stream. *)
Definition grow_from {A} (i : Z) (st : Stream) (m : M Session A) : Prop := forall s n a s',
  m_streams T s !! i = Some st -> m_session T s = Some n -> (forall i, opened T s i -> u32 i = i) -> m s = Some (a, s') ->
  exists n', m_session T s' = Some n' /\ grows n n' s s'.

Lemma grow_find_bind i {A} (f : option Stream -> M Session A) :
  (forall st, grow_from i st (f (Some st))) -> grow (f None) -> grow (M_bind _ _ f (find_stream T i)).
Proof.
  intros Hs Hn s n a s' En Hk. unfold M_bind, find_stream, gets. destruct (m_streams T s !! i) as [st|] eqn:E; [by apply Hs|by apply Hn].
Qed.

Lemma grow_from_put i st st' {A} (m : unit -> M Session A) :
  (is_Some (message T st') <-> is_Some (message T st)) -> (flags T st SCHEDULED = true -> flags T st' SCHEDULED = true) ->
  grow (m tt) -> grow_from i st (M_bind _ _ m (put_stream T i st')).
Proof.
  intros Hm Hf Hg s n a s' Hi Hn Hk. unfold M_bind, put_stream, modify. set (s1 := set_streams T _ s).
  assert (grows n n s s1) as G1 by by apply (grows_put n i st). intros Hs.
  apply (Hg s1 n) in Hs as (n' & E & G2); [|done|by eapply grows_keys]. exists n'. split; [done|]. by eapply grows_trans.
Qed.

Lemma grow_from_grow i st {A} (m : M Session A) : grow m -> grow_from i st m.
Proof. intros Hm s n a s' _. apply Hm. Qed.

Ltac walk_grow ::=
  repeat (intros; unfold mret, mbind;
    first [ apply emit_grow | apply grow_ret | apply grow_find_bind | apply grow_bind | apply grow_gets | apply grow_lib; auto with news
          | apply grow_modify; done | apply grow_from_put; [done..|] | apply grow_from_grow | case_match ]).

Lemma grow_fmap {A C} (g : A -> C) (m : M Session A) : grow m -> grow (M_fmap A C g m).
Proof.
  intros Hm s n c s' Hn Hk. unfold M_fmap. destruct (m s) as [[a s1]|] eqn:E; [|done]. intros [= _ <-]. by eapply Hm.
Qed.

Lemma on_frame_recv_grow f : ends_headers f = false -> grow (on_frame_recv T h loc user f).
Proof.
  unfold ends_headers, on_frame_recv, on_end_stream. intros Hf. destruct (hd_type f =? NGHTTP2_HEADERS)%Z; cbn [andb orb] in *.
  - rewrite Hf. by walk_grow.
  - by walk_grow.
Qed.

Lemma on_header_grow f n v : grow (on_header T f n v).
Proof.
  unfold on_header, mbind. apply grow_find_bind; [intros st|apply grow_ret]. destruct (message T st) eqn:E; [|by walk_grow].
  case_match; [|by walk_grow]. unfold mbind. apply grow_from_put; [cbn; rewrite E; by split; eexists|done|apply grow_ret].
Qed.

Lemma on_data_source_read_grow i n : grow (on_data_source_read T h loc user i n).
Proof.
  unfold on_data_source_read, mbind. apply grow_find_bind; [intros st|apply grow_ret]. case_match; [|by intros s m a s' _ _ _].
  destruct (_ && _); [by walk_grow|]. destruct (evbuffer_remove _ _) as [[k d] b']. by walk_grow.
Qed.

(** The effect of a callback on what is kept in step. *)
Definition keeps (e : Event) (m : M Session Answer) : Prop := forall alive receives s n a s',
  m_session T s = Some n -> kept alive (sources n) (reading n) s -> permitted receives n e -> (receives = true -> alive) ->
  m s = Some (a, s') ->
  exists n', m_session T s' = Some n' /\ kept alive (sources_after e (sources n')) (reading_after e a (reading n')) s'.

Lemma keeps_grow e m : (forall S, sources_after e S = S) -> (forall a R, reading_after e a R = R) -> grow m -> keeps e m.
Proof.
  intros HS HR Hm alive b s n a s' Hn Hk _ _ Hs. destruct (Hm s n a s' Hn (ag_keys _ _ _ (proj1 Hk)) Hs) as (n' & E & G).
  exists n'. split; [done|]. rewrite HS, HR. eapply (kept_grows alive ∅ ∅) in G; [|by rewrite !difference_empty_L].
  by rewrite !difference_empty_L in G.
Qed.

(** After a change of one stream, the rest of the callback does what calls of the user do. *)
Lemma kept_then alive X Y n s1 {A} (m : M Session A) a s' :
  m_session T s1 = Some n -> kept alive (sources n ∖ X) (reading n ∖ Y) s1 -> grow m -> m s1 = Some (a, s') ->
  exists n', m_session T s' = Some n' /\ kept alive (sources n' ∖ X) (reading n' ∖ Y) s'.
Proof.
  intros Hn Hk Hm Hs. destruct (Hm s1 n a s' Hn (ag_keys _ _ _ (proj1 Hk)) Hs) as (n' & E & G). exists n'.
  split; [done|]. by eapply kept_grows.
Qed.

Lemma mark_received_keeps m (st : Stream) :
  message T (mark_received T m st) = message T st /\ flags T (mark_received T m st) SCHEDULED = flags T st SCHEDULED.
Proof. clear. unfold mark_received. revert st m. generalize T. by intros []. Qed.

(** The message of a stream leaves it at the end of its headers. *)
Lemma on_end_headers_put f i (st : Stream) :
  is_Some (message T st) ->
  exists st' p o, on_end_headers T h loc user f i st = M_bind _ _ (fun _ => emit T loc user p o) (put_stream T i st') /\
    message T st' = None /\ flags T st' SCHEDULED = flags T st SCHEDULED.
Proof.
  intros [m Em]. unfold on_end_headers. rewrite Em. case_match; [by eexists _, _, _|].
  eexists _, _, _. split; [reflexivity|]. apply (mark_received_keeps _ (set_message T None st)).
Qed.

Lemma on_frame_recv_ends f s : ends_headers f = true ->
  on_frame_recv T h loc user f s =
    match m_streams T s !! u32 (hd_stream_id f) with
    | None => Some (0%Z, s)
    | Some st => M_bind _ _ (fun _ => M_bind _ _ (fun _ => M_ret _ 0%Z)
        (if has_flag f NGHTTP2_FLAG_END_STREAM then on_end_stream T h loc user (u32 (hd_stream_id f)) else M_ret _ tt))
        (on_end_headers T h loc user f (u32 (hd_stream_id f)) st) s
    end.
Proof.
  intros [Ht Hf]%andb_true_iff. unfold on_frame_recv, mbind, M_bind at 1. rewrite Ht, Hf. cbn [orb]. unfold find_stream, gets.
  by destruct (m_streams T s !! _).
Qed.

Lemma keeps_end_headers f : ends_headers f = true -> keeps (EvFrameRecv f) (answer <$> on_frame_recv T h loc user f).
Proof.
  intros Hf alive b s n a s' Hn Hk Hp _. cbn [permitted sources_after reading_after] in *. specialize (Hp Hf). rewrite Hf.
  unfold fmap, M_fmap. rewrite on_frame_recv_ends by done. set (i := u32 (hd_stream_id f)) in *.
  destruct (m_streams T s !! i) as [st|] eqn:Ei.
  2:{ intros [= _ <-]. exists n. split; [done|]. rewrite <- (difference_empty_L (sources n)). by apply kept_forget; [set_solver|..]. }
  destruct (on_end_headers_put f i st) as (st' & p & o & -> & M & F); [by apply (ag_message _ _ _ (proj1 Hk) i)|].
  unfold M_bind at 1 3, put_stream, modify. set (s1 := set_streams T _ s).
  assert (kept alive (sources n ∖ ∅) (reading n ∖ {[i]}) s1) as Hput.
  { rewrite difference_empty_L. apply (kept_put alive i st' _ (reading n)); [done|apply u32_u32|..].
    - rewrite M. split; [by intros []|set_solver].
    - rewrite F. by eapply (ag_scheduled _ _ _ (proj1 Hk)).
    - set_solver. }
  intros E. destruct (emit T loc user p o s1) as [[u s2]|] eqn:E1; [|done].
  destruct (M_bind _ _ _ _ s2) as [[z s3]|] eqn:E2; [|done]. simplify_eq.
  destruct (kept_then alive ∅ {[i]} n s1 _ _ _ Hn Hput (emit_grow p o) E1) as (n2 & H2 & K2).
  eapply (kept_then alive ∅ {[i]} n2 s2) in E2 as (n' & H' & K'); [|done|done|unfold on_end_stream; by walk_grow].
  exists n'. split; [done|]. by rewrite difference_empty_L in K'.
Qed.

Lemma keeps_close i code : keeps (EvStreamClose i code) (answer <$> on_stream_close T h loc user i code).
Proof.
  intros alive b s n a s' Hn Hk _ _. cbn [sources_after reading_after]. unfold on_stream_close, fmap, M_fmap, mbind, M_bind at 1, find_stream, gets.
  destruct (m_streams T s !! u32 i) as [st|] eqn:Ei.
  2:{ intros [= _ <-]. exists n. split; [done|]. by apply kept_forget. }
  unfold M_bind at 1, modify. set (s1 := set_streams T _ s). intros E. destruct (M_bind _ _ _ _ s1) as [[z s2]|] eqn:E1; [|done].
  simplify_eq. eapply (kept_then alive {[u32 i]} {[u32 i]} n s1) in E1; [done|done|by apply kept_delete|].
  unfold close_stream. by walk_grow.
Qed.

(** Headers begin on a stream that has none under way. *)
Lemma begin_headers_fresh alive n f s :
  m_session T s = Some n -> kept alive (sources n) (reading n) s -> u32 (hd_stream_id f) ∉ reading n ->
  exists st, on_begin_headers T f s = Some (0%Z, set_streams T (<[u32 (hd_stream_id f) := st]> (m_streams T s)) s) /\
    is_Some (message T st) /\ forall st0, m_streams T s !! u32 (hd_stream_id f) = Some st0 -> flags T st = flags T st0.
Proof.
  intros Hn [[Am _ _] _] Hi. unfold on_begin_headers, emplace_stream, mbind, M_bind, find_stream, gets. set (i := u32 _) in *.
  destruct (m_streams T s !! i) as [st|] eqn:Ei.
  - cbn. destruct (message T st) eqn:Em; [exfalso; apply Hi, (Am i st Ei); by rewrite Em|].
    eexists. split; [done|]. split; [by eexists|]. by intros st0 [= <-].
  - cbn. eexists. split; [by rewrite insert_insert_eq|]. split; [by eexists|done].
Qed.

Lemma keeps_begin f : keeps (EvBeginHeaders f) (answer <$> on_begin_headers T f).
Proof.
  intros alive b s n a s' Hn Hk -> HP. specialize (HP eq_refl). cbn [sources_after reading_after]. unfold fmap, M_fmap. set (i := u32 (hd_stream_id f)).
  destruct (decide (i ∈ reading n)) as [Hr|Hr].
  - destruct Hk as [Ha Hc]. destruct (Hc HP i) as [st Est]; [set_solver|].
    pose proof Hr as Hm. apply (ag_message _ _ _ Ha i st Est) in Hm as [m Em].
    unfold on_begin_headers, emplace_stream, mbind, M_bind, find_stream, gets. fold i. rewrite Est. cbn. rewrite Em.
    intros [= <- <-]. exists n. by split.
  - destruct (begin_headers_fresh alive n f s Hn Hk Hr) as (st & -> & Hm & Hf). intros [= <- <-]. exists n. split; [done|]. cbn [result answer Z.eqb].
    apply (kept_put alive i st _ (reading n)); [done|apply u32_u32|set_solver|..].
    + intros Hi. destruct Hk as [Ha Hc]. destruct (Hc HP i) as [st0 E0]; [set_solver|]. rewrite (Hf st0 E0). by apply (ag_scheduled _ _ _ Ha i).
    + set_solver.
Qed.

Lemma callback_keeps e : keeps e (callback T h loc user e).
Proof.
  destruct e; cbn [callback]; try (apply keeps_grow; [done..|]; try apply grow_fmap).
  - apply grow_ret.
  - destruct (ends_headers f) eqn:E; [by apply keeps_end_headers|].
    apply keeps_grow; [done|by intros; cbn; rewrite E|]. by apply grow_fmap, on_frame_recv_grow.
  - unfold on_frame_send, submit_settings_impl. by walk_grow.
  - apply grow_ret.
  - apply keeps_begin.
  - apply on_header_grow.
  - unfold on_data_chunk_recv. by walk_grow.
  - apply keeps_close.
  - unfold on_send. by walk_grow.
  - apply grow_ret.
  - apply on_data_source_read_grow.
Qed.
(** ** Runs and operations *)

Lemma kept_mono alive S S' R s : S' ⊆ S -> kept alive S R s -> kept alive S' R s.
Proof. intros HS [[Am As Ak] Hc]. split; [split; [done|set_solver|done]|]. intros HP i Hi. apply Hc; [done|set_solver]. Qed.

Lemma kept_session alive S R n s : kept alive S R s -> kept alive S R (set_session T (Some n) s).
Proof. intros [[Am As Ak] Hc]. by split. Qed.

Hint Resolve kept_session : core.

(** The order of nghttp2 is what the session needs. *)
Lemma permitted_legal alive b n e s : kept alive (sources n) (reading n) s -> permitted b n e -> legal T e s.
Proof.
  intros [[Am As _] _] Hp. destruct e; try done; cbn [permitted legal] in *.
  - intros Ht Hf st Est. apply (Am _ st Est), Hp. unfold ends_headers. by rewrite Ht, Hf.
  - intros st Est. by apply (As _ st Est).
Qed.

Lemma run_good alive b S R t s :
  (b = true -> alive) -> orderly b S R t -> wf T s -> kept alive S R s ->
  exists z s', run T h loc user t s = Some (z, s') /\ good alive s'.
Proof.
  intros HP. revert S R s. induction t as [n status|n e k IH]; intros S R s Ho Hw Hk; inversion Ho as [? ? HS HR|? ? ? HS HR Hp Hn]; subst;
    cbn [run]; unfold mbind, M_bind, modify; apply (kept_mono alive S (sources n)) in Hk; try done.
  - eexists _, _. split; [done|]. split; [by apply wf_set_session|]. intros ? [= <-]. auto.
  - set (s0 := set_session T (Some n) s). assert (kept alive (sources n) (reading n) s0) as Hk0 by by apply kept_session.
    destruct (callback_safe T h loc user Hnew e s0) as (a & s1 & E & W1); [by apply wf_set_session|by eapply permitted_legal|].
    destruct (callback_keeps e alive b s0 n a s1 eq_refl Hk0 Hp HP E) as (n1 & E1 & K1).
    rewrite E. unfold lib. rewrite E1. eapply (IH n1 a); [apply Hn|by apply wf_set_session|auto].
Qed.

Lemma lib_run_good alive b f s :
  (b = true -> alive) -> (forall n, orderly b (sources n) (reading n) (f n)) -> good alive s ->
  exists z s', lib_run T h loc user f s = Some (z, s') /\ good alive s'.
Proof.
  intros HP Hf [Hw Hk]. destruct (wf_session _ _ Hw) as [n En]. unfold lib_run, mbind, M_bind, lib. rewrite En.
  eapply run_good; [done|apply Hf|by apply wf_set_session|by apply kept_session, Hk].
Qed.

Lemma grow_good alive {A} (m : M Session A) s : safe T m -> grow m -> good alive s -> exists a s', m s = Some (a, s') /\ good alive s'.
Proof.
  intros Hsafe Hm [Hw Hk]. destruct (Hsafe s Hw) as (a & s' & E & H'). exists a, s'. split; [done|]. split; [done|].
  destruct (wf_session _ _ Hw) as [n En]. destruct (Hm s n a s' En (ag_keys _ _ _ (proj1 (Hk n En))) E) as (n1 & E1 & G).
  intros ? E2. simplify_eq. specialize (Hk n En). eapply (kept_grows alive ∅ ∅) in G; [|by rewrite !difference_empty_L].
  by rewrite !difference_empty_L in G.
Qed.

Lemma step_good o s : good True s -> exists s', step T h loc user o s = Some (tt, s') /\ good True s'.
Proof.
  intros Hs. destruct o as [chunk| |a]; cbn [step].
  - destruct (lib_run_good True true (nghttp2_session_mem_recv chunk) s) as (z & s' & E & G); [done|intros; apply mem_recv_orderly|done|].
    exists s'. unfold input_impl, mbind, M_bind. by rewrite E.
  - destruct (lib_run_good True false nghttp2_session_send s) as (z & s' & E & G); [done|intros; apply send_orderly|done|].
    exists s'. unfold flush_impl, mbind, M_bind. by rewrite E.
  - destruct (grow_good True _ s (act_safe T loc Hnew a) (act_grow a) Hs) as ([] & s' & E & G). by exists s'.
Qed.

Lemma steps_good l s : good True s -> exists s', steps T h loc user l s = Some (tt, s') /\ good True s'.
Proof.
  revert s. induction l as [|o l IH]; intros s Hs; [by exists s|]. destruct (step_good o s Hs) as (s1 & E & G1).
  cbn [steps]. unfold mbind, M_bind. rewrite E. auto.
Qed.

Lemma close_all_grow ids : grow (close_all T h loc user ids).
Proof. induction ids as [|i ids IH]; cbn [close_all]; [apply grow_ret|]. unfold close_stream. apply grow_bind; [apply emit_grow|done]. Qed.

Lemma destroy_good order s : good True s -> exists s', destroy T h loc user order s = Some (tt, s').
Proof.
  intros [Hw Hk]. unfold destroy, mbind, M_bind, gets, modify. set (s1 := set_streams T ∅ s).
  assert (good False s1) as G1.
  { split; [split; [apply Hw|by intros i st]|]. intros n _. split; [|done]. split; [by intros i st..|]. by intros i []. }
  destruct (grow_good False _ s1 (close_all_safe T h loc user Hnew (order (m_streams T s))) (close_all_grow _) G1) as ([] & s2 & -> & G2).
  destruct (wf_session _ _ (good_wf _ _ G2)) as [n En]. rewrite En.
  destruct (grow_good False (lib T (nghttp2_session_terminate_session (m_error T s2))) s2) as (z & s3 & -> & G3);
    [by apply safe_lib|apply grow_lib; auto with news|done|].
  destruct (lib_run_good False false nghttp2_session_send s3) as (z2 & s4 & -> & _); [done|apply send_orderly|done|].
  by exists s4.
Qed.

Lemma submit_settings_grow : grow (submit_settings_impl T loc).
Proof. unfold submit_settings_impl. by walk_grow. Qed.

Lemma make_good order settings :
  (forall m, order m ≡ₚ elements (dom m)) ->
  exists r, make T h loc user order settings = Some r /\ forall s, r = RValue s -> good True s.
Proof.
  intros Hord. destruct (make_safe T h loc user order settings Hord) as (r & E & Hr). exists r. split; [done|]. intros s ->.
  split; [by apply Hr|]. revert E. unfold make, initialize_session, mbind, M_bind, gets.
  pose proof (new_history T (MkOptions 0 (negb (auto_flow_control settings)))) as [HS HR]. cbn [m_settings session_new].
  destruct (nghttp2_session_new _ _) as [status n]. cbn [snd] in HS, HR.
  destruct (negb (status =? 0)%Z); [cbn; by case_match|]. unfold modify. set (s1 := set_session T (Some n) _).
  assert (kept True (sources n ∖ ∅) (reading n ∖ ∅) s1) as K1.
  { rewrite HS, HR. split; [split; [by intros i st..|]; by intros i []|]. intros _ i. set_solver. }
  intros E n' En'. destruct (bool_decide _).
  - destruct (submit_settings_impl T loc s1) as [[[e|] s2]|] eqn:Es; [cbn in E; by case_match| |done]. cbn in E. simplify_eq.
    destruct (submit_settings_grow s1 n None s eq_refl (ag_keys _ _ _ (proj1 K1)) Es) as (n2 & ? & G). simplify_eq.
    apply (kept_grows True ∅ ∅ _ _ _ _ K1) in G. by rewrite !difference_empty_L in G.
  - cbn in E. simplify_eq. cbn in En'. simplify_eq. by rewrite !difference_empty_L in K1.
Qed.

End Safety.

(** ** A small library that keeps the order *)

(** It knows stream 1 only: whether data was submitted for it, and whether its headers are under way. *)
Record OneStream := MkOneStream { has_source : bool; in_headers : bool }.

Definition one (b : bool) : gset Z := if b then {[1%Z]} else ∅.

#[export] Instance one_history : Nghttp2History OneStream := {
  sources n := one (has_source n);
  reading n := one (in_headers n)
}.

(** The fields of a request on stream 1; the frame is complete if its headers are still under way then. *)
Definition receive_request (method : bytes) (n : OneStream) : Run OneStream :=
  Call n (EvBeginHeaders head_frame) (fun n1 a =>
    if (result a =? 0)%Z then
      Call (MkOneStream (has_source n1) true) (EvHeader head_frame (str ":method") method) (fun n2 _ =>
        if in_headers n2 then
          Call n2 (EvFrameRecv head_frame) (fun n3 _ => Finished (MkOneStream (has_source n3) false) 0)
        else Finished n2 0)
    else Finished n1 (result a)).

(** Reads the data there is and closes the stream. *)
Definition send_data (n : OneStream) : Run OneStream :=
  if has_source n then
    Call n (EvDataSourceRead 1 16) (fun n1 a =>
      if (0 <=? result a)%Z then
        Call n1 (EvSend (stored a)) (fun n2 _ => Call n2 (EvStreamClose 1 0) (fun n3 _ => Finished (MkOneStream false false) 0))
      else Finished n1 0)
  else Finished n 0.

#[export] Instance one_lib : Nghttp2 OneStream := {
  nghttp2_session_new := fun _ _ => (0%Z, MkOneStream false false);
  nghttp2_session_mem_recv := receive_request;
  nghttp2_session_send := send_data;
  nghttp2_session_terminate_session := fun _ n => (0%Z, n);
  nghttp2_submit_settings := fun _ n => (0%Z, n);
  nghttp2_session_set_local_window_size := fun _ _ n => (0%Z, n);
  nghttp2_submit_headers := fun _ _ _ n => (0%Z, n);
  nghttp2_submit_trailer := fun _ _ n => (0%Z, n);
  nghttp2_submit_data := fun _ i n => if (u32 i =? 1)%Z then (0%Z, MkOneStream true (in_headers n)) else ((-501)%Z, n);
  nghttp2_session_resume_data := fun _ n => (0%Z, n);
  nghttp2_submit_rst_stream := fun _ _ n => (0%Z, n);
  nghttp2_session_consume_connection := fun _ n => (0%Z, n);
  nghttp2_session_consume_stream := fun _ _ n => (0%Z, n);
  nghttp2_session_get_next_stream_id := fun _ => 3%Z;
  nghttp2_session_set_next_stream_id := fun _ n => (0%Z, n);
  nghttp2_strerror := fun _ => str "error"
}.

#[export] Instance one_laws : Nghttp2Laws OneStream.
Proof.
  split; try done.
  - intros chunk n. constructor; [done..|]. intros n1 a. cbn [reading_after]. destruct (result a =? 0)%Z; [|by constructor].
    constructor; [done|cbn; by destruct (in_headers n1)|done|]. intros n2 b. destruct (in_headers n2) eqn:E2; [|constructor; [done|cbn; by rewrite E2]].
    constructor; [done|done|cbn; rewrite E2; set_solver|]. intros n3 c. constructor; [done|]. cbn. by destruct (in_headers n3).
  - intros n. cbn. unfold send_data. destruct (has_source n) eqn:E; [|constructor; [cbn; by rewrite E|done]].
    constructor; [cbn; by rewrite E|done|cbn; rewrite E; set_solver|]. intros n1 a. case_match; [|by constructor].
    constructor; [done..|]. intros n2 b. constructor; [done..|]. intros n3 c. constructor; [cbn; set_solver|]. cbn. by destruct (in_headers n3).
  - intros f i n. cbn. destruct (u32 i =? 1)%Z eqn:E; [|set_solver]. apply Z.eqb_eq in E. rewrite E. by destruct (has_source n).
  - intros n. cbn. destruct (has_source n), (in_headers n); by vm_compute.
Qed.

