(* ===== verification/Http2Messages.v ===== *)
(** * HTTP/2 sessions: messages and bodies

    Theorems on [Http2.v]: a block of fields becomes the message of its parts, the first messages of a
    stream are reported as requests or responses and later ones as trailers, and the body of a stream
    leaves in the order it was submitted, up to its end. *)

From S2P Require Import StringView Utils Error Headers Message StateMonad Http2 Http2Facts.

(** A frame of headers with its fields, as nghttp2 reports it. *)
Definition block (f : Frame) (fields : list (bytes * bytes)) : list Event :=
  EvBeginHeaders f :: map (fun nv => EvHeader f nv.1 nv.2) fields ++ [EvFrameRecv f].

(** The message of a block. *)
Definition block_message {T : side} (fields : list (bytes * bytes)) (m : Message T) : option (Message T) :=
  fold_left (fun o nv => o ≫= message_field nv.1 nv.2) fields (Some m).

(** The message with what the frame says of the body. *)
Definition with_body {T : side} (b : bool) (m : Message T) : Message T :=
  set_message_headers (set_has_body b (message_headers m)) m.

(** A message after which only trailers come. *)
Definition is_final {T : side} : Message T -> bool :=
  match T return Message T -> bool with Server => fun _ => true | Client => fun r => (200 <=? m_status_code r)%Z end.

(** What the user hears of the messages of a stream. *)
Fixpoint reports {T : side} (received : bool) (i : Z) (ms : list (Message T * bool)) : list Out :=
  match ms with
  | [] => []
  | (m, fin) :: ms' =>
      (if received then OnTrailerHeaders i (into_headers m) else message_out i m)
      :: (if fin : bool then [OnStreamReadFinished i] else []) ++ reports (received || is_final m) i ms'
  end.

Section Messages.
Context {Lib : Type} `{Nghttp2 Lib} {B : Type} `{EvBuffer B}.
Context (T : side) (h : Callbacks) (loc : SourceLocation) (user : list Out -> list Action).
Context (Hnew : is_Some (evbuffer_new (B := B))).

Abbreviation Session := (Http2.Session (Lib := Lib) (B := B) T).
Abbreviation Stream := (Http2.Stream (B := B) T).
Abbreviation run' := (run T h loc user).
Abbreviation emit' := (emit T loc user).
Abbreviation wf' := (wf T).

(** ** Calls of the user leave the messages of a stream alone *)

Definition same_view (st st' : Stream) : Prop :=
  message T st' = message T st /\ flags T st' MESSAGE_ALREADY_RECEIVED = flags T st MESSAGE_ALREADY_RECEIVED.

Definition keeps_view (s s' : Session) : Prop :=
  forall i st, m_streams T s !! i = Some st -> exists st', m_streams T s' !! i = Some st' /\ same_view st st'.

Lemma keeps_view_refl s : keeps_view s s.
Proof. intros i st Hst. by exists st. Qed.

Lemma keeps_view_trans s1 s2 s3 : keeps_view s1 s2 -> keeps_view s2 s3 -> keeps_view s1 s3.
Proof.
  intros H1 H2 i st (st1 & E1 & V1)%H1. apply H2 in E1 as (st2 & E2 & V2). exists st2. split; [done|].
  destruct V1, V2. split; congruence.
Qed.

Lemma keeps_view_put i st s s' m :
  m_streams T s' = m -> (forall st0, m !! i = Some st0 -> same_view st0 st) -> keeps_view s s' ->
  keeps_view s (set_streams T (<[i := st]> m) s').
Proof.
  intros <- Hst Hs. eapply keeps_view_trans; [exact Hs|]. intros j st0 Hj. cbn. destruct (decide (i = j)) as [->|Hne].
  - exists st. rewrite lookup_insert_eq. auto.
  - exists st0. by rewrite lookup_insert_ne.
Qed.

Lemma keeps_view_session n s s' : keeps_view s s' -> keeps_view s (set_session T n s').
Proof. done. Qed.

Hint Resolve keeps_view_refl keeps_view_put keeps_view_session : ag.

Lemma push_data_view st chunk eof r st' : push_data T st chunk eof = Some (r, st') -> same_view st st'.
Proof.
  unfold push_data. destruct (buffer T st); [|destruct evbuffer_new; [|done]]; cbn; destruct (evbuffer_add _ _); by intros [= <- <-].
Qed.

Lemma act_view a s u s' : act T loc a s = Some (u, s') -> keeps_view s s'.
Proof.
  destruct a; cbn [act];
    unfold submit_response, submit_request, submit_trailer_impl, submit_body_impl, schedule_send, reset_stream_impl,
      set_session_close_error, consume_stream_impl, consume_connection_impl; intros Hs; unmonad.
  all: repeat first
    [ apply keeps_view_refl | apply keeps_view_session
    | eapply keeps_view_put; [reflexivity|intros st0 E; rewrite ?lookup_insert_eq in E; simplify_eq|]; eauto using push_data_view
    | exact (keeps_view_refl s) | done ].
Qed.

Lemma emit_view p o s u s' : emit' p o s = Some (u, s') -> keeps_view s s'.
Proof.
  unfold emit. destruct p; [|by intros [= _ <-]; apply keeps_view_refl]. unfold mbind, M_bind, gets, modify.
  set (s1 := add_log T o s). intros Hs. eapply (keeps_view_trans s s1); [exact (keeps_view_refl s)|]. clearbody s1.
  revert Hs. generalize (user (m_log T s1)). intros l. revert s1. induction l as [|a l IH]; intros s1; cbn [act_all].
  - by intros [= _ <-]; apply keeps_view_refl.
  - unfold mbind, M_bind. destruct (act T loc a s1) as [[u1 s2]|] eqn:E; [|done]. intros Hs%IH.
    eapply keeps_view_trans; [by eapply act_view|done].
Qed.

(** What a call of the user's callback does, all in one. *)
Lemma emit_spec p o s :
  wf' s -> exists s', emit' p o s = Some (tt, s') /\ wf' s' /\ keeps_view s s' /\
    m_log T s' = m_log T s ++ (if p then [o] else []).
Proof.
  intros Hs. destruct (emit_safe T loc user Hnew p o s Hs) as ([] & s' & E & H'). exists s'. split; [done|]. split; [done|].
  split; [by eapply emit_view|]. by apply emit_effect in E as [].
Qed.

(** ** Blocks of fields *)

Lemma set_session_same n (s : Session) : m_session T s = Some n -> set_session T (Some n) s = s.
Proof. destruct s. cbn. by intros ->. Qed.

(** A call of the script that is answered with success. *)
Lemma run_script e es n n1 s s1 :
  m_session T s = Some n -> callback T h loc user e s = Some (answer 0, s1) -> m_session T s1 = Some n1 ->
  run' (script (e :: es) n) s = run' (script es n1) s1.
Proof.
  intros Hn He H1. cbn [script run]. unfold mbind, M_bind, modify. rewrite set_session_same by done. rewrite He.
  unfold lib. rewrite H1. cbn [result answer Z.leb Z.compare]. by rewrite set_session_same.
Qed.

Lemma block_message_None fields : fold_left (fun o nv => o ≫= message_field (T := T) nv.1 nv.2) fields None = None.
Proof. induction fields; [done|]. cbn. done. Qed.

(** The part of a run on the fields of a block. *)
Lemma run_fields f fields es n s st m m' :
  m_session T s = Some n -> m_streams T s !! u32 (hd_stream_id f) = Some st -> message T st = Some m ->
  block_message fields m = Some m' ->
  run' (script (map (fun nv => EvHeader f nv.1 nv.2) fields ++ es) n) s
  = run' (script es n) (set_streams T (<[u32 (hd_stream_id f) := set_message T (Some m') st]> (m_streams T s)) s).
Proof.
  revert s st m. induction fields as [|[nm v] fields IH]; intros s st m Hn Hst Hm Hb; cbn [map app].
  - injection Hb as <-. f_equal. destruct s, st; cbn in *. subst. by rewrite insert_id.
  - unfold block_message in Hb. cbn [fold_left mbind option_bind fst snd] in Hb.
    destruct (message_field nm v m) as [m1|] eqn:Em; cbn in Hb; [|by rewrite block_message_None in Hb].
    erewrite run_script; [|done| |].
    2:{ cbn [callback fst snd]. unfold on_header, fmap, M_fmap, mbind, M_bind, find_stream, gets, put_stream, modify, mret, M_ret.
        by rewrite Hst, Hm, Em. }
    2:{ exact Hn. }
    rewrite (IH _ (set_message T (Some m1) st) m1); [|done|by cbn; rewrite lookup_insert_eq|done|exact Hb].
    cbn [m_streams set_streams]. by rewrite insert_insert_eq.
Qed.

Lemma mark_received_flag m (st : Stream) :
  message T (mark_received T m st) = message T st /\ flags T (mark_received T m st) MESSAGE_ALREADY_RECEIVED = is_final m.
Proof. clear. unfold mark_received, is_final. revert m st. generalize T. by intros []. Qed.

Context (Hmsg : has_on_message h = true) (Htr : has_on_trailer_headers h = true)
  (Hfin : has_on_stream_read_finished h = true).

(** The end of the headers of a stream with a message. *)
Lemma on_end_headers_spec f i st s m :
  wf' s -> m_streams T s !! i = Some st -> message T st = Some m ->
  let m' := with_body (negb (has_flag f NGHTTP2_FLAG_END_STREAM)) m in
  exists s' st', on_end_headers T h loc user f i st s = Some (tt, s') /\ wf' s' /\
    m_log T s' = m_log T s ++ [if flags T st MESSAGE_ALREADY_RECEIVED then OnTrailerHeaders i (into_headers m') else message_out i m'] /\
    m_streams T s' !! i = Some st' /\ message T st' = None /\
    flags T st' MESSAGE_ALREADY_RECEIVED = flags T st MESSAGE_ALREADY_RECEIVED || is_final m'.
Proof.
  intros Hs Hst Hm m'. assert (stream_ok T st) as Hok by (by eapply wf_streams). unfold on_end_headers. rewrite Hm.
  fold (with_body (T := T) (negb (has_flag f NGHTTP2_FLAG_END_STREAM)) m). fold m'. cbn [flags set_message].
  set (st1 := if flags T st MESSAGE_ALREADY_RECEIVED then set_message T None st else mark_received T m' (set_message T None st)).
  set (o := if flags T st MESSAGE_ALREADY_RECEIVED then OnTrailerHeaders i (into_headers m') else message_out i m').
  assert (stream_ok T st1) as Hok1 by (unfold st1; destruct (flags T st _); [done|by apply mark_received_ok]).
  destruct (safe_put T i st1 Hok1 s Hs) as ([] & s1 & E1 & H1). injection E1 as E1.
  destruct (emit_spec true o s1 H1) as (s2 & E2 & H2 & V2 & L2).
  destruct (V2 i st1) as (st2 & Hst2 & [Vm Vf]); [subst s1; cbn; by rewrite lookup_insert_eq|].
  exists s2, st2. split.
  { unfold o, st1 in *. destruct (flags T st _); unfold mbind, M_bind, put_stream, modify; rewrite E1, ?Hmsg, ?Htr; exact E2. }
  split; [done|]. split; [by rewrite L2, <- E1|]. split; [done|]. rewrite Vm, Vf. unfold st1.
  destruct (flags T st _) eqn:Ef; [done|]. destruct (mark_received_flag m' (set_message T None st)) as [-> ->]. done.
Qed.

(** The frame that ends a block. *)
Lemma on_frame_recv_spec f st s m :
  let i := u32 (hd_stream_id f) in
  let fin := has_flag f NGHTTP2_FLAG_END_STREAM in
  wf' s -> hd_type f = NGHTTP2_HEADERS -> has_flag f NGHTTP2_FLAG_END_HEADERS = true ->
  m_streams T s !! i = Some st -> message T st = Some m ->
  exists s' st', on_frame_recv T h loc user f s = Some (0%Z, s') /\ wf' s' /\
    m_log T s' = m_log T s ++ reports (flags T st MESSAGE_ALREADY_RECEIVED) i [(with_body (negb fin) m, fin)] /\
    m_streams T s' !! i = Some st' /\ message T st' = None /\
    flags T st' MESSAGE_ALREADY_RECEIVED = flags T st MESSAGE_ALREADY_RECEIVED || is_final (with_body (negb fin) m).
Proof.
  intros i fin Hs Ht Hf Hst Hm. destruct (on_end_headers_spec f i st s m Hs Hst Hm) as (s1 & st1 & E1 & H1 & L1 & Hst1 & Hm1 & Hf1).
  destruct (emit_spec fin (OnStreamReadFinished i) s1 H1) as (s2 & E2 & H2 & V2 & L2).
  destruct (V2 i st1 Hst1) as (st2 & Hst2 & [Vm Vf]). exists s2, st2.
  split; [|by rewrite L2, L1, Vm, Vf, <- app_assoc, Hm1, Hf1; unfold reports; rewrite app_nil_r].
  unfold on_frame_recv. rewrite Ht. cbn [Z.eqb orb NGHTTP2_HEADERS NGHTTP2_DATA Pos.eqb].
  unfold mbind, M_bind at 1, find_stream, gets. fold i. rewrite Hst, Hf. unfold M_bind at 1. rewrite E1. unfold on_end_stream.
  fold fin. rewrite Hfin. destruct fin; unfold M_bind, mret, M_ret; [by rewrite E2|]. injection E2 as <-. done.
Qed.

(** One block of a stream that has no message at the moment. *)
Lemma run_block f fields n s st m :
  let i := u32 (hd_stream_id f) in
  let fin := has_flag f NGHTTP2_FLAG_END_STREAM in
  wf' s -> m_session T s = Some n -> hd_type f = NGHTTP2_HEADERS -> has_flag f NGHTTP2_FLAG_END_HEADERS = true ->
  default (new_stream T) (m_streams T s !! i) = st -> message T st = None ->
  block_message fields (message_new T HTTP_2_0) = Some m ->
  exists s' st', run' (script (block f fields) n) s = Some (0%Z, s') /\ wf' s' /\
    m_log T s' = m_log T s ++ reports (flags T st MESSAGE_ALREADY_RECEIVED) i [(with_body (negb fin) m, fin)] /\
    m_streams T s' !! i = Some st' /\ message T st' = None /\
    flags T st' MESSAGE_ALREADY_RECEIVED = flags T st MESSAGE_ALREADY_RECEIVED || is_final (with_body (negb fin) m).
Proof.
  intros i fin Hs Hn Ht Hf Hst Hm Hb. unfold block. set (m0 := message_new T HTTP_2_0) in Hb.
  set (s1 := set_streams T (<[i := set_message T (Some m0) st]> (m_streams T s)) s).
  assert (on_begin_headers T f s = Some (0%Z, s1)) as Eb.
  { unfold on_begin_headers, emplace_stream, put_stream, find_stream, gets, modify, mbind, M_bind, mret, M_ret. fold i.
    destruct (m_streams T s !! i) as [st0|]; cbn in Hst; subst st; rewrite Hm; [done|].
    unfold s1. cbn [m_streams set_streams]. by rewrite insert_insert_eq. }
  rewrite (run_script _ _ n n s s1); [|done|cbn [callback]; unfold fmap, M_fmap; by rewrite Eb|done].
  rewrite (run_fields f fields [EvFrameRecv f] n s1 (set_message T (Some m0) st) m0 m);
    [|done|unfold s1; cbn; by rewrite lookup_insert_eq|done|done].
  set (st2 := set_message T (Some m) (set_message T (Some m0) st)). set (s2 := set_streams T _ s1).
  assert (stream_ok T st) as Hok.
  { destruct (m_streams T s !! i) as [st0|] eqn:E; cbn in Hst; subst st; [by eapply wf_streams|by intros ?]. }
  assert (wf' s2) as H2.
  { destruct Hs as [Hs1 Hs2]. split; [done|]. intros j st'. unfold s2, s1. cbn. rewrite insert_insert_eq. fold i.
    destruct (decide (i = j)) as [->|Hne]; [rewrite lookup_insert_eq; by intros [= <-]|rewrite lookup_insert_ne by done; apply Hs2]. }
  destruct (on_frame_recv_spec f st2 s2 m H2 Ht Hf) as (s3 & st3 & E3 & H3 & L3 & R3); [unfold s2; cbn; by rewrite lookup_insert_eq|done|].
  exists s3, st3. destruct (wf_session T s3 H3) as [n3 Hn3].
  split; [|done]. rewrite (run_script _ _ n n3 s2 s3); [|done|cbn [callback]; unfold fmap, M_fmap; by rewrite E3|done].
  cbn [script run]. unfold mbind, M_bind, modify. by rewrite set_session_same.
Qed.

(** ** Messages, then trailers *)

Fixpoint receive (bs : list (Frame * list (bytes * bytes))) : M Session unit :=
  match bs with
  | [] => M_ret _ tt
  | (f, fields) :: bs' => M_bind _ _ (fun _ => receive bs') (lib_run T h loc user (script (block f fields)))
  end.

(** The block [b] on stream [i] makes the message [m], and ends the stream or not. *)
Definition makes (i : Z) (b : Frame * list (bytes * bytes)) (m : Message T * bool) : Prop :=
  hd_type b.1 = NGHTTP2_HEADERS /\ has_flag b.1 NGHTTP2_FLAG_END_HEADERS = true /\ u32 (hd_stream_id b.1) = i /\
  exists m0, block_message b.2 (message_new T HTTP_2_0) = Some m0 /\
    m = (with_body (negb (has_flag b.1 NGHTTP2_FLAG_END_STREAM)) m0, has_flag b.1 NGHTTP2_FLAG_END_STREAM).

Lemma receive_reports i bs ms s st :
  wf' s -> default (new_stream T) (m_streams T s !! i) = st -> message T st = None -> Forall2 (makes i) bs ms ->
  exists s', receive bs s = Some (tt, s') /\ wf' s' /\
    m_log T s' = m_log T s ++ reports (flags T st MESSAGE_ALREADY_RECEIVED) i ms.
Proof.
  intros Hs Hst Hm Hb. revert s st Hs Hst Hm. induction Hb as [|[f fields] [m fin] bs ms Hb _ IH]; intros s st Hs Hst Hm.
  - exists s. split; [done|]. cbn. by rewrite app_nil_r.
  - destruct Hb as (Ht & Hf & Hi & m0 & Hb & [= -> ->]). cbn [fst snd] in *. destruct (wf_session T s Hs) as [n Hn]. subst i.
    destruct (run_block f fields n s st m0 Hs Hn Ht Hf Hst Hm Hb) as (s1 & st1 & E1 & H1 & L1 & Hst1 & Hm1 & Hf1).
    destruct (IH s1 st1) as (s2 & E2 & H2 & L2); [done|by rewrite Hst1|done|].
    exists s2. split; [|split; [done|]].
    + cbn [receive]. unfold M_bind at 1, lib_run, mbind, M_bind, lib. rewrite Hn. rewrite set_session_same by done. by rewrite E1.
    + rewrite L2, L1, Hf1, <- app_assoc. f_equal. cbn [reports]. by rewrite app_nil_r.
Qed.


(** A stream on which no message has come yet: one that is not open, as a server sees it before the request, or one
    that a client has opened with its request. *)
Definition awaits_message (i : Z) (s : Session) : Prop :=
  match m_streams T s !! i with None => True | Some st => message T st = None /\ flags T st MESSAGE_ALREADY_RECEIVED = false end.

Lemma request_awaits r eof i s s' : submit_request T loc r eof s = Some (RValue i, s') -> m_streams T s !! i = None -> awaits_message i s'.
Proof.
  unfold submit_request. intros E Hi. unmonad; simplify_eq; unfold awaits_message; cbn; by rewrite lookup_insert_eq.
Qed.

(** C7: The blocks of fields that arrive on a stream on which no message has come yet, opened by the request of a
    client or not open, are reported in order to a user who has set the callbacks, each with the message its fields
    make: as responses up to the first one with a final status (or as the request, on a server), and as trailers
    from then on; the end of the stream is reported after the block that carries it. *)
Theorem messages_reported i bs ms s :
  wf' s -> awaits_message i s -> Forall2 (makes i) bs ms ->
  exists s', receive bs s = Some (tt, s') /\ wf' s' /\ m_log T s' = m_log T s ++ reports false i ms.
Proof.
  intros Hs Hi Hb. unfold awaits_message in Hi. destruct (m_streams T s !! i) as [st|] eqn:E.
  - destruct Hi as [Hm Hf]. rewrite <- Hf. apply (receive_reports i bs ms s st); [done|by rewrite E|done|done].
  - apply (receive_reports i bs ms s (new_stream T)); [done|by rewrite E|done|done].
Qed.
End Messages.

Section Requests.
Context {Lib : Type} `{Nghttp2 Lib} {B : Type} `{EvBuffer B}.
Context (h : Callbacks) (loc : SourceLocation) (user : list Out -> list Action).
Context (Hnew : is_Some (evbuffer_new (B := B))).
Context (Hmsg : has_on_message h = true) (Htr : has_on_trailer_headers h = true)
  (Hfin : has_on_stream_read_finished h = true).

Lemma server_block_message fields r : block_message (T := Server) fields r = Some (request_of fields r).
Proof.
  rewrite <- request_fields_fold. unfold block_message. revert r.
  induction fields as [|[n v] fields IH]; intros r; [done|]. cbn. apply IH.
Qed.

(** A block of fields on a new stream of a server becomes one request: the last value of each
    pseudo-header, every other field in order, and a body unless the frame ends the stream. *)
Theorem request_received f fields (s : Session (Lib := Lib) (B := B) Server) :
  let i := u32 (hd_stream_id f) in
  let fin := has_flag f NGHTTP2_FLAG_END_STREAM in
  wf Server s -> hd_type f = NGHTTP2_HEADERS -> has_flag f NGHTTP2_FLAG_END_HEADERS = true ->
  m_streams Server s !! i = None ->
  exists s', lib_run Server h loc user (script (block f fields)) s = Some (0%Z, s') /\ wf Server s' /\
    m_log Server s' = m_log Server s ++
      OnRequest i (with_body (T := Server) (negb fin) (request_of fields (request_new HTTP_2_0 [] [])))
      :: (if fin then [OnStreamReadFinished i] else []).
Proof.
  intros i fin Hs Ht Hf Hi. destruct (wf_session Server s Hs) as [n Hn].
  destruct (run_block Server h loc user Hnew Hmsg Htr Hfin f fields n s (new_stream Server)
    (request_of fields (request_new HTTP_2_0 [] []))) as (s' & st' & E & H' & L & _);
    [done|done|done|done|by fold i; rewrite Hi|done|by apply server_block_message|].
  exists s'. split; [|split; [done|by rewrite L; cbn [reports]; rewrite app_nil_r]].
  unfold lib_run, mbind, M_bind, lib. rewrite Hn. by rewrite set_session_same.
Qed.
End Requests.

(** ** Bodies *)

Section Bodies.
Context {Lib : Type} `{NG : Nghttp2 Lib} {B : Type} `{EB : EvBuffer B} `{EL : !EvBufferLaws B}.
Context (T : side) (h : Callbacks) (loc : SourceLocation) (user : list Out -> list Action).

(** The buffers work, and the user waits with its calls until the session returns. *)
Context (Hnew : is_Some (evbuffer_new (B := B))).
Context (Hadd : forall (b : B) d, (evbuffer_add b d).1 = 0%Z).
Context (Hrem : forall (b : B) n, (0 <= (evbuffer_remove b n).1.1)%Z).
Context (Huser : forall l, user l = []).

Abbreviation Session := (Http2.Session (Lib := Lib) (B := B) T).
Abbreviation Stream := (Http2.Stream (B := B) T).

Inductive BodyOp := Push (chunk : bytes) (eof : bool) | Pull (length : nat).

Fixpoint body_ops (i : Z) (ops : list BodyOp) : M Session (list Answer) :=
  match ops with
  | [] => M_ret _ []
  | Push chunk eof :: ops' => M_bind _ _ (fun _ => body_ops i ops') (submit_body_impl T loc i chunk eof)
  | Pull n :: ops' =>
      M_bind _ _ (fun a => M_bind _ _ (fun l => M_ret _ (a :: l)) (body_ops i ops'))
        (on_data_source_read T h loc user i n)
  end.

Definition delivered (answers : list Answer) : bytes := List.concat (map stored answers).

Definition submitted (ops : list BodyOp) : bytes :=
  List.concat (map (fun o => match o with Push chunk _ => chunk | Pull _ => [] end) ops).

Definition last_eof (ops : list BodyOp) (d : bool) : bool :=
  fold_left (fun acc o => match o with Push _ eof => eof | Pull _ => acc end) ops d.

(** What waits in the buffer of a stream. *)
Definition body (st : Stream) : bytes := match buffer T st with Some b => contents b | None => [] end.

(** The session has the stream, with this body and this end mark. *)
Definition holds (i : Z) (s : Session) (w : bytes) (eof : bool) : Prop :=
  is_Some (m_session T s) /\
  exists st b, m_streams T s !! i = Some st /\ buffer T st = Some b /\ contents b = w /\ flags T st HAS_EOF = eof.

Lemma push_step i chunk eof s st :
  is_Some (m_session T s) -> m_streams T s !! i = Some st ->
  exists e s', submit_body_impl T loc i chunk eof s = Some (e, s') /\ holds i s' (body st ++ chunk) eof.
Proof.
  intros [n Hn] Hst. unfold submit_body_impl, mbind, M_bind at 1, find_stream, gets. rewrite Hst. unfold push_data.
  assert (exists b, (match buffer T st with Some b => Some b | None => evbuffer_new end) = Some b /\ contents b = body st) as (b & Eb & Hb).
  { unfold body. destruct (buffer T st) as [b|]; [by exists b|]. destruct Hnew as [b Eb]. exists b. split; [done|]. by apply evbuffer_new_empty. }
  rewrite Eb. cbn [mbind option_bind]. pose proof (Hadd b chunk) as Ha. pose proof (evbuffer_add_appends b chunk) as Hc. rewrite Ha in Hc.
  destruct (evbuffer_add b chunk) as [r b'] eqn:Er. cbn in Ha, Hc. subst r.
  set (st1 := set_buffer T (Some b') (set_flag T HAS_EOF eof st)). unfold put_stream, modify, M_bind. cbn [negb Z.eqb].
  unfold schedule_send, put_stream, modify, mbind, M_bind, lib.
  assert (forall st' n', m_streams T n' !! i = Some st' -> is_Some (m_session T n') -> buffer T st' = Some b' -> flags T st' HAS_EOF = eof ->
    holds i n' (body st ++ chunk) eof) as Hh.
  { intros st' s' E1 E2 E3 E4. split; [done|]. exists st', b'. by rewrite Hc, Hb. }
  destruct (flags T st1 SCHEDULED).
  - cbn [m_session set_streams]. rewrite Hn. destruct (nghttp2_session_resume_data _ n) as [z n'].
    eexists _, _. split; [done|]. apply (Hh st1); [cbn; by rewrite lookup_insert_eq|by eexists|done|done].
  - cbn [m_session set_streams]. rewrite Hn. destruct (nghttp2_submit_data _ _ n) as [z n'].
    eexists _, _. split; [done|]. apply (Hh (set_flag T SCHEDULED true st1)); [cbn; by rewrite lookup_insert_eq|by eexists|done|done].
Qed.

Lemma quiet_emit p o s : emit T loc user p o s = Some (tt, if p then add_log T o s else s).
Proof. unfold emit, mbind, M_bind, modify, gets. destruct p; [|done]. by rewrite Huser. Qed.

Lemma pull_step i n s w eof :
  u32 i = i -> holds i s w eof ->
  exists a s', on_data_source_read T h loc user i n s = Some (a, s') /\ holds i s' (drop n w) eof /\
    stored a = take n w /\ (data_flags a = NGHTTP2_DATA_FLAG_EOF <-> eof = true /\ drop n w = []).
Proof.
  intros Hi (Hn & st & b & Hst & Hb & <- & <-). unfold on_data_source_read, mbind, M_bind at 1, find_stream, gets.
  rewrite Hi, Hst, Hb, evbuffer_length. destruct (flags T st HAS_EOF) eqn:Ef; cbn [negb andb].
  2: destruct (Nat.eqb_spec (length (contents b)) 0) as [E0|E0].
  2:{ apply nil_length_inv in E0. eexists _, s. split; [done|]. rewrite E0, drop_nil, take_nil.
      split; [split; [done|]; by exists st, b|]. split; [done|]. split; [done|]. by intros [? _]. }
  all: pose proof (Hrem b n) as Hr; destruct (evbuffer_remove b n) as [[r d] b'] eqn:Er; cbn in Hr;
    destruct (evbuffer_remove_takes _ _ _ _ _ Er Hr) as (_ & Hd & Hb');
    unfold put_stream, modify, M_bind; rewrite (proj2 (Z.ltb_ge _ _)) by done; rewrite quiet_emit;
    eexists _, _; (split; [done|]); rewrite <- Hb';
    (split; [split; [by destruct (has_on_data_sent h)|]; exists (set_buffer T (Some b') st), b'; split; [|done];
             destruct (has_on_data_sent h); cbn; by rewrite lookup_insert_eq|]); (split; [done|]); cbn [data_flags].
  - rewrite evbuffer_length. cbn [andb]. destruct (Nat.eqb_spec (length (contents b')) 0) as [E|E].
    + split; [|done]. intros _. split; [done|]. by apply nil_length_inv.
    + split; [done|]. intros [_ E']. by rewrite E' in E.
  - cbn [andb]. split; [done|]. by intros [? _].
Qed.

(** The operations on a stream that holds a body. *)
Lemma body_ops_spec i ops s w eof :
  u32 i = i -> holds i s w eof ->
  exists answers s' w', body_ops i ops s = Some (answers, s') /\ holds i s' w' (last_eof ops eof) /\
    delivered answers ++ w' = w ++ submitted ops.
Proof.
  intros Hi. revert s w eof. induction ops as [|[chunk e|n] ops IH]; intros s w eof Hh; cbn [body_ops].
  - exists [], s, w. split; [done|]. split; [done|]. by rewrite app_nil_r.
  - destruct Hh as (Hn & st & b & Hst & Hb & Hw & _). destruct (push_step i chunk e s st Hn Hst) as (r & s1 & E1 & H1).
    assert (body st = w) as E by (unfold body; by rewrite Hb). rewrite E in H1.
    destruct (IH s1 (w ++ chunk) e H1) as (l & s2 & w' & E2 & H2 & D2). exists l, s2, w'. unfold M_bind. rewrite E1.
    split; [done|]. split; [done|]. rewrite D2. unfold submitted. cbn. by rewrite <- app_assoc.
  - destruct (pull_step i n s w eof Hi Hh) as (a & s1 & E1 & H1 & S1 & _).
    destruct (IH s1 (drop n w) eof H1) as (l & s2 & w' & E2 & H2 & D2). exists (a :: l), s2, w'. unfold M_bind. rewrite E1, E2.
    split; [done|]. split; [done|]. unfold delivered in *. cbn. rewrite <- app_assoc, D2, S1, app_assoc, take_drop. done.
Qed.

Lemma body_ops_app i a b s l1 s1 l2 s2 :
  body_ops i a s = Some (l1, s1) -> body_ops i b s1 = Some (l2, s2) -> body_ops i (a ++ b) s = Some (l1 ++ l2, s2).
Proof.
  intros Ha Hb. revert s l1 Ha. induction a as [|[chunk e|n] a IH]; intros s l1; cbn [body_ops app].
  - by intros [= <- <-].
  - unfold M_bind. destruct (submit_body_impl _ _ _ _ _ s) as [[r s']|]; [apply IH|done].
  - unfold M_bind. destruct (on_data_source_read _ _ _ _ _ _ s) as [[r s']|]; [|done].
    destruct (body_ops i a s') as [[l s'']|] eqn:E; [|done]. intros [= <- <-]. by rewrite (IH s' l E).
Qed.


End Bodies.

Lemma request_received_witness :
  exists s', lib_run Server all_callbacks here busy_user
      (script (block head_frame [(str ":method", str "GET"); (str "accept", str "*"); (str ":path", str "/")])) (live_session ∅)
      = Some (0%Z, s') /\
    m_log Server s' = [OnRequest 1 (MkRequest HTTP_2_0 (str "GET") (str "/") [] [] (MkHeaders [make_header (str "accept") (str "*")] false));
                       OnStreamReadFinished 1].
Proof.
  destruct (request_received all_callbacks here busy_user (Lib := nat) (B := bytes) ltac:(by eexists) eq_refl eq_refl eq_refl head_frame
    [(str ":method", str "GET"); (str "accept", str "*"); (str ":path", str "/")] (live_session ∅)) as (s' & E & _ & L); [|done..|].
  - split; [by eexists|]. intros i st Hi. by vm_compute in Hi.
  - exists s'. split; [exact E|]. rewrite L. by vm_compute.
Defined.

Definition client_session : Session (Lib := nat) (B := bytes) Client := MkSession Client (Some 0) default_settings ∅ 0 false [].

(** An interim response, the response and trailers, on a client. *)
Definition sample_blocks : list (Frame * list (bytes * bytes)) :=
  [(MkFrame NGHTTP2_HEADERS 4 1 0 0, [(str ":status", str "100")]);
   (MkFrame NGHTTP2_HEADERS 4 1 0 0, [(str ":status", str "404"); (str "x", str "y")]);
   (MkFrame NGHTTP2_HEADERS 5 1 0 0, [(str "t", str "u")])].

Definition sample_messages : list (Message Client * bool) :=
  [(MkResponse HTTP_2_0 100 (str "100") (MkHeaders [] true), false);
   (MkResponse HTTP_2_0 404 (str "404") (MkHeaders [make_header (str "x") (str "y")] true), false);
   (MkResponse HTTP_2_0 200 [] (MkHeaders [make_header (str "t") (str "u")] false), true)].

(** The session after a request. *)
Definition requested_session : Session (Lib := nat) (B := bytes) Client :=
  match submit_request Client here (request_new HTTP_2_0 (str "GET") (str "/")) true client_session with Some (_, s) => s | None => client_session end.

Lemma messages_reported_witness :
  is_Some (m_streams Client requested_session !! 1%Z) /\
  exists s', receive Client all_callbacks here (fun _ => []) sample_blocks requested_session = Some (tt, s') /\
    m_log Client s' =
      [OnResponse 1 (MkResponse HTTP_2_0 100 (str "100") (MkHeaders [] true));
       OnResponse 1 (MkResponse HTTP_2_0 404 (str "404") (MkHeaders [make_header (str "x") (str "y")] true));
       OnTrailerHeaders 1 (MkHeaders [make_header (str "t") (str "u")] false); OnStreamReadFinished 1].
Proof.
  split; [by eexists|].
  destruct (messages_reported Client all_callbacks here (fun _ => []) (Lib := nat) (B := bytes) ltac:(by eexists) eq_refl eq_refl eq_refl 1
    sample_blocks sample_messages requested_session) as (s' & E & _ & L).
  - split; [by eexists|]. intros i st Hi Hst. assert (flags Client st SCHEDULED = false) as Hf; [|congruence].
    assert (m_streams Client requested_session = {[1%Z := set_flag Client HAS_EOF true (set_flag Client HEAD_REQUEST false (new_stream Client))]}) as Em
      by reflexivity.
    rewrite Em in Hi. apply lookup_singleton_Some in Hi as [_ <-]. reflexivity.
  - by split.
  - repeat constructor; eexists; by split.
  - exists s'. split; [exact E|]. rewrite L. by vm_compute.
Defined.

Lemma list_remove_count (b : bytes) n : (0 <= (evbuffer_remove b n).1.1)%Z.
Proof. cbn. lia. Qed.


