(* ===== verification/Http3.v ===== *)
(** * HTTP/3 sessions: [http/http3.cpp] and [http3.h]

    A session joins two libraries that are not part of this code: ngtcp2 for QUIC and nghttp3 for
    HTTP/3.  A packet makes ngtcp2 call the session, which feeds the data of a stream to nghttp3, which
    calls the session again.  Each library is a class of operations over its state; those that run
    callbacks answer trees of them.  The time handed to ngtcp2 is left to the library's state.  The
    codes of errors are fields of the classes. *)

From S2P Require Import StringView Utils Error Headers Message StateMonad.

(** ** Constants of the protocols *)

Definition NGHTTP3_H3_NO_ERROR : Z := 0x0100.
Definition NGHTTP3_H3_REQUEST_CANCELLED : Z := 0x010c.
Definition NGHTTP3_DATA_FLAG_EOF : Z := 1.
Definition NGHTTP3_DATA_FLAG_NO_END_STREAM : Z := 2.
Definition NGTCP2_NO_ERROR : Z := 0.
Definition NGTCP2_STREAM_DATA_FLAG_FIN : Z := 1.
Definition NGTCP2_STREAM_CLOSE_FLAG_APP_ERROR_CODE_SET : Z := 1.
Definition NGTCP2_WRITE_STREAM_FLAG_MORE : Z := 1.
Definition NGTCP2_WRITE_STREAM_FLAG_FIN : Z := 2.

(** OpenSSL alerts are moved by 1000 to tell them from QUIC and HTTP/3 codes. *)
Definition SSL_ALERT_CODES_START : Z := 1000.

(** ** Data *)

(** The number a library gave. *)
Record Http3Error := MkHttp3Error { http3_code : Z }.

Abbreviation ErrorPtr := (option (ErrorImpl Http3Error)).

Inductive Flag := HAS_EOF | TRAILERS_SUBMITTED | HEAD_REQUEST.

#[export] Instance h3_flag_eq_dec : EqDecision Flag.
Proof. solve_decision. Defined.

Record QuicNetworkPath := MkPath { local : bytes; remote : bytes }.

Inductive CcerrType := TRANSPORT | APPLICATION | VERSION_NEGOTIATION | IDLE_CLOSE | CCERR_DROP_CONN | CCERR_RETRY.

(** [ngtcp2_ccerr]: why a connection was closed. *)
Record Ccerr := MkCcerr { ccerr_type : CcerrType; error_code : Z; reason : bytes }.

(** Calls of the user's callbacks. *)
Inductive Out :=
| OnHandshakeCompleted
| OnRequest (stream_id : Z) (r : Request)
| OnResponse (stream_id : Z) (r : Response)
| OnTrailerHeaders (stream_id : Z) (h : Headers)
| OnBody (stream_id : Z) (chunk : bytes)
| OnStreamReadFinished (stream_id : Z)
| OnStreamClosed (stream_id code : Z)
| OnClose (code : Z)
| OnOutput (path : QuicNetworkPath) (chunk : bytes)
| OnDataSent (stream_id n : Z)
| OnExpiryUpdate (period : Z)
| OnAvailableStreams.

Definition message_out {T : side} (stream_id : Z) : Message T -> Out :=
  match T return Message T -> Out with Server => OnRequest stream_id | Client => OnResponse stream_id end.

(** Which callbacks are not null. *)
Record Callbacks := MkCallbacks {
  has_on_handshake_completed : bool;
  has_on_message : bool;
  has_on_trailer_headers : bool;
  has_on_body : bool;
  has_on_stream_read_finished : bool;
  has_on_stream_closed : bool;
  has_on_close : bool;
  has_on_output : bool;
  has_on_data_sent : bool;
  has_on_expiry_update : bool;
  has_on_available_streams : bool
}.

(** The callbacks nghttp3 makes. *)
Inductive H3Event :=
| H3AckedStreamData (stream_id len : Z)
| H3StreamClose (stream_id code : Z)
| H3RecvData (stream_id : Z) (data : bytes)
| H3DeferredConsume (stream_id consumed : Z)
| H3BeginHeaders (stream_id : Z)
| H3RecvHeader (stream_id : Z) (name value : bytes)
| H3EndHeaders (stream_id : Z) (fin : bool)
| H3BeginTrailers (stream_id : Z)
| H3RecvTrailer (stream_id : Z) (name value : bytes)
| H3EndTrailers (stream_id : Z)
| H3StopSending (stream_id code : Z)
| H3EndStream (stream_id : Z)
| H3ResetStream (stream_id code : Z)
| H3ReadData (stream_id : Z) (vec_num : nat).

(** The callbacks ngtcp2 makes, less those that go to its crypto library or to random numbers. *)
Inductive QuicEvent :=
| QRecvStreamData (flags stream_id : Z) (data : bytes)
| QAckedStreamDataOffset (stream_id len : Z)
| QStreamClose (flags stream_id code : Z)
| QExtendMaxLocalStreamsBidi
| QExtendMaxRemoteStreamsBidi (max_streams : Z)
| QExtendMaxStreamData (stream_id : Z)
| QStreamReset (stream_id code : Z)
| QStreamStopSending (stream_id code : Z)
| QHandshake.                        (* completed on a server, confirmed on a client *)

(** What a callback answers; for a read of body data also the pieces and flags it stores. *)
Record Answer := MkAnswer { result : Z; vecs : list bytes; pflags : Z }.

Definition answer (z : Z) : Answer := MkAnswer z [] 0.

(** What a callback of the user may ask of the session. *)
Inductive Action :=
| SubmitResponse (stream_id : Z) (r : Response) (eof : bool)
| SubmitRequest (r : Request) (eof : bool)
| SubmitTrailer (stream_id : Z) (h : Headers)
| SubmitBody (stream_id : Z) (chunk : bytes) (eof : bool)
| ResetStream (stream_id code : Z)
| SetSessionCloseError (code : Z) (reason : bytes)
| ConsumeConnection (length : Z)
| ConsumeStream (stream_id length : Z)
| UpdateCallbacks (h : Callbacks).

(** ** The libraries *)

(** A run of a library with state [L] that makes calls [E] and answers [R]. *)
Inductive Run (L E R : Type) :=
| Finished (n : L) (r : R)
| Call (n : L) (e : E) (k : L -> Answer -> Run L E R).
Arguments Finished {L E R} n r.
Arguments Call {L E R} n e k.

(** What [nghttp3_conn_writev_stream] answers: a count or an error, the stream or -1, the end mark. *)
Record H3Write := MkH3Write { vec_num : Z; write_stream_id : Z; fin : bool; write_vecs : list bytes }.

(** What [ngtcp2_conn_writev_stream] answers: the size of the packet or an error, the count of the stream
    bytes in it or -1, the packet and its path. *)
Record QuicWrite := MkQuicWrite { packet_size : Z; data_len : Z; packet : bytes; packet_path : QuicNetworkPath }.

Class Nghttp3 (Hl : Type) := {
  nghttp3_conn_read_stream : Z -> bytes -> bool -> Hl -> Run Hl H3Event Z;
  nghttp3_conn_add_ack_offset : Z -> Z -> Hl -> Run Hl H3Event Z;
  nghttp3_conn_close_stream : Z -> Z -> Hl -> Run Hl H3Event Z;
  nghttp3_conn_shutdown_stream_read : Z -> Hl -> Run Hl H3Event Z;
  nghttp3_conn_writev_stream : Hl -> Run Hl H3Event H3Write;
  nghttp3_conn_shutdown_stream_write : Z -> Hl -> Hl;
  nghttp3_conn_shutdown : Hl -> Z * Hl;
  nghttp3_conn_bind_control_stream : Z -> Hl -> Z * Hl;
  nghttp3_conn_bind_qpack_streams : Z -> Z -> Hl -> Z * Hl;
  nghttp3_conn_submit_request : Z -> list Header -> option bool -> Hl -> Z * Hl;
  nghttp3_conn_submit_response : Z -> list Header -> option bool -> Hl -> Z * Hl;
  nghttp3_conn_submit_trailers : Z -> list Header -> Hl -> Z * Hl;
  nghttp3_conn_resume_stream : Z -> Hl -> Z * Hl;
  nghttp3_conn_add_write_offset : Z -> Z -> Hl -> Z * Hl;
  nghttp3_conn_block_stream : Z -> Hl -> Hl;
  nghttp3_conn_unblock_stream : Z -> Hl -> Z * Hl;
  nghttp3_conn_set_max_client_streams_bidi : Z -> Hl -> Hl;
  nghttp3_strerror : Z -> bytes;
  nghttp3_err_infer_quic_app_error_code : Z -> Z;
  NGHTTP3_ERR_CALLBACK_FAILURE : Z;
  NGHTTP3_ERR_WOULDBLOCK : Z;
  NGHTTP3_ERR_STREAM_NOT_FOUND : Z
}.

Class Ngtcp2 (Q : Type) := {
  ngtcp2_conn_read_pkt : QuicNetworkPath -> bytes -> Q -> Run Q QuicEvent Z;
  ngtcp2_conn_writev_stream : nat -> Z -> Z -> list bytes -> Q -> Run Q QuicEvent QuicWrite;
  ngtcp2_conn_write_connection_close : nat -> Ccerr -> Q -> QuicWrite * Q;
  ngtcp2_conn_handle_expiry : Q -> Z * Q;
  ngtcp2_conn_shutdown_stream : Z -> Z -> Q -> Z * Q;
  ngtcp2_conn_shutdown_stream_read : Z -> Z -> Q -> Z * Q;
  ngtcp2_conn_shutdown_stream_write : Z -> Z -> Q -> Z * Q;
  ngtcp2_conn_extend_max_offset : Z -> Q -> Q;
  ngtcp2_conn_extend_max_stream_offset : Z -> Z -> Q -> Z * Q;
  ngtcp2_conn_extend_max_streams_bidi : Z -> Q -> Q;
  ngtcp2_conn_open_uni_stream : Q -> Z * Z * Q;
  ngtcp2_conn_open_bidi_stream : Q -> Z * Z * Q;
  ngtcp2_conn_is_local_stream : Q -> Z -> bool;
  ngtcp2_conn_get_max_tx_udp_payload_size : Q -> nat;
  ngtcp2_conn_get_expiry : Q -> Z;
  ngtcp2_conn_get_max_stream_data_left : Q -> Z -> Z;
  ngtcp2_conn_get_max_data_left : Q -> Z;
  ngtcp2_conn_get_tls_alert : Q -> Z;
  ngtcp2_conn_get_ccerr : Q -> Ccerr;
  ngtcp2_conn_get_pto : Q -> Z;
  ngtcp2_is_bidi_stream : Z -> bool;
  ngtcp2_ccerr_set_liberr : Z -> bytes -> Ccerr;
  ngtcp2_ccerr_set_tls_alert : Z -> bytes -> Ccerr;
  ngtcp2_ccerr_set_application_error : Z -> bytes -> Ccerr;
  ngtcp2_ccerr_default : Ccerr;
  ngtcp2_strerror : Z -> bytes;
  NGTCP2_DEFAULT_MAX_RECV_UDP_PAYLOAD_SIZE : nat;
  NGTCP2_ERR_CALLBACK_FAILURE : Z;
  NGTCP2_ERR_INTERNAL : Z;
  NGTCP2_ERR_NOMEM : Z;
  NGTCP2_ERR_STREAM_NOT_FOUND : Z;
  NGTCP2_ERR_STREAM_DATA_BLOCKED : Z;
  NGTCP2_ERR_STREAM_SHUT_WR : Z;
  NGTCP2_ERR_WRITE_MORE : Z;
  NGTCP2_ERR_DRAINING : Z;
  NGTCP2_ERR_DROP_CONN : Z;
  NGTCP2_ERR_RETRY : Z;
  NGTCP2_ERR_CRYPTO : Z
}.

(** The further operations of libevent's buffer: memory handed over, a look at pieces of the data from
    a position, and the removal of a prefix. *)
Class EvBufferRef (B : Type) `{EvBuffer B} := {
  evbuffer_add_reference : B -> bytes -> Z * B;
  evbuffer_ptr_set : B -> nat -> Z;
  evbuffer_peek : B -> nat -> nat -> list bytes;
  evbuffer_drain : B -> nat -> Z * B
}.

Section Http3.
Context {Hl : Type} `{Nghttp3 Hl} {Q : Type} `{Ngtcp2 Q} {B : Type} `{EvBufferRef B}.
Context (T : side).

(** Place the compiler writes into an error, and texts of OpenSSL. *)
Context (loc : SourceLocation).
Context (SSL_alert_desc_string_long SSL_alert_type_string_long : Z -> bytes).

(** The user's callbacks: what they ask for, given all calls so far, the newest last. *)
Context (user : list Out -> list Action).

#[local] Instance http3_error_string : ErrorCodeToString Http3Error :=
  fun e => ngtcp2_strerror (http3_code e) ++ str " (" ++ fmt_dec (http3_code e) ++ str ")".

Record Stream := MkStream {
  message : option (Message T);
  flags : Flag -> bool;
  buffer : option B;                 (* [data_source.buffer] *)
  read_offset : nat                  (* [data_source.read_offset] *)
}.

Definition new_stream : Stream := MkStream None (fun _ => false) None 0.

Definition set_message (m : option (Message T)) (s : Stream) : Stream := MkStream m (flags s) (buffer s) (read_offset s).
Definition set_flag (f : Flag) (v : bool) (s : Stream) : Stream :=
  MkStream (message s) (fun g => if decide (g = f) then v else flags s g) (buffer s) (read_offset s).
Definition set_buffer (b : option B) (s : Stream) : Stream := MkStream (message s) (flags s) b (read_offset s).
Definition set_read_offset (n : nat) (s : Stream) : Stream := MkStream (message s) (flags s) (buffer s) n.

(** [m_log] is the history of the calls of the user's callbacks; [m_drop_silently] is a field of the
    server only. *)
Record Session := MkSession {
  m_quic_conn : option Q;
  m_http_conn : option Hl;
  m_streams : gmap Z Stream;
  m_last_error : Ccerr;
  m_handshake_completed : bool;
  m_handled_rx_connection_close : bool;
  m_connection_close_sent : bool;
  m_drop_silently : bool;
  m_handler : Callbacks;
  m_log : list Out
}.

Abbreviation M := (StateMonad.M Session).

Definition set_quic (n : option Q) (s : Session) : Session :=
  MkSession n (m_http_conn s) (m_streams s) (m_last_error s) (m_handshake_completed s) (m_handled_rx_connection_close s)
    (m_connection_close_sent s) (m_drop_silently s) (m_handler s) (m_log s).
Definition set_http (n : option Hl) (s : Session) : Session :=
  MkSession (m_quic_conn s) n (m_streams s) (m_last_error s) (m_handshake_completed s) (m_handled_rx_connection_close s)
    (m_connection_close_sent s) (m_drop_silently s) (m_handler s) (m_log s).
Definition set_streams (l : gmap Z Stream) (s : Session) : Session :=
  MkSession (m_quic_conn s) (m_http_conn s) l (m_last_error s) (m_handshake_completed s) (m_handled_rx_connection_close s)
    (m_connection_close_sent s) (m_drop_silently s) (m_handler s) (m_log s).
Definition set_last_error (e : Ccerr) (s : Session) : Session :=
  MkSession (m_quic_conn s) (m_http_conn s) (m_streams s) e (m_handshake_completed s) (m_handled_rx_connection_close s)
    (m_connection_close_sent s) (m_drop_silently s) (m_handler s) (m_log s).
Definition set_handshake_completed (s : Session) : Session :=
  MkSession (m_quic_conn s) (m_http_conn s) (m_streams s) (m_last_error s) true (m_handled_rx_connection_close s)
    (m_connection_close_sent s) (m_drop_silently s) (m_handler s) (m_log s).
Definition set_handled_rx_close (s : Session) : Session :=
  MkSession (m_quic_conn s) (m_http_conn s) (m_streams s) (m_last_error s) (m_handshake_completed s) true
    (m_connection_close_sent s) (m_drop_silently s) (m_handler s) (m_log s).
Definition set_close_sent (s : Session) : Session :=
  MkSession (m_quic_conn s) (m_http_conn s) (m_streams s) (m_last_error s) (m_handshake_completed s)
    (m_handled_rx_connection_close s) true (m_drop_silently s) (m_handler s) (m_log s).
Definition set_drop_silently (s : Session) : Session :=
  MkSession (m_quic_conn s) (m_http_conn s) (m_streams s) (m_last_error s) (m_handshake_completed s)
    (m_handled_rx_connection_close s) (m_connection_close_sent s) true (m_handler s) (m_log s).
Definition set_handler (h : Callbacks) (s : Session) : Session :=
  MkSession (m_quic_conn s) (m_http_conn s) (m_streams s) (m_last_error s) (m_handshake_completed s)
    (m_handled_rx_connection_close s) (m_connection_close_sent s) (m_drop_silently s) h (m_log s).
Definition add_log (o : Out) (s : Session) : Session :=
  MkSession (m_quic_conn s) (m_http_conn s) (m_streams s) (m_last_error s) (m_handshake_completed s)
    (m_handled_rx_connection_close s) (m_connection_close_sent s) (m_drop_silently s) (m_handler s) (m_log s ++ [o]).

(** Calls with [m_quic_conn.get()] and [m_http_conn.get()]. *)
Definition quic {A} (f : Q -> A * Q) : M A := fun s =>
  match m_quic_conn s with None => None | Some n => let '(a, n') := f n in Some (a, set_quic (Some n') s) end.
Definition http {A} (f : Hl -> A * Hl) : M A := fun s =>
  match m_http_conn s with None => None | Some n => let '(a, n') := f n in Some (a, set_http (Some n') s) end.
Definition quic_do (f : Q -> Q) : M unit := quic (fun n => (tt, f n)).
Definition http_do (f : Hl -> Hl) : M unit := http (fun n => (tt, f n)).
Definition quic_get {A} (f : Q -> A) : M A := quic (fun n => (f n, n)).

Definition find_stream (stream_id : Z) : M (option Stream) := gets (fun s => m_streams s !! stream_id).
Definition put_stream (stream_id : Z) (st : Stream) : M unit :=
  modify (fun s => set_streams (<[stream_id := st]> (m_streams s)) s).
Definition erase_stream (stream_id : Z) : M unit := modify (fun s => set_streams (delete stream_id (m_streams s)) s).
Definition emplace_stream (stream_id : Z) : M Stream :=
  o ← find_stream stream_id;
  match o with
  | Some st => mret st
  | None => put_stream stream_id new_stream;; mret new_stream
  end.

Definition error (code : Z) (msg : bytes) : ErrorPtr := Some (make_error_msg loc (MkHttp3Error code) msg None).
Definition bare_error (code : Z) : ErrorPtr := Some (make_error loc (MkHttp3Error code) None).
Definition h3_text (status : Z) : bytes := nghttp3_strerror status ++ str " (" ++ fmt_dec status ++ str ")".

(** ** Operations *)

(** The stream with the chunk, or with an error of the buffer; nothing when bytes go to a buffer that
    could not be made. *)
Definition push_data (stream : Stream) (chunk : bytes) (eof : bool) : option (ErrorPtr * Stream) :=
  let b := match buffer stream with Some b => Some b | None => evbuffer_new end in
  let stream := set_flag HAS_EOF eof (set_buffer b stream) in
  if bool_decide (chunk = []) then Some (None, stream)
  else
    b ≫= fun b =>
    let '(r, b') := evbuffer_add_reference b chunk in
    Some (if negb (r =? 0)%Z then error NGTCP2_ERR_NOMEM (str "Couldn't write data in buffer") else None,
          set_buffer (Some b') stream).

Definition resume_stream (stream_id : Z) : M ErrorPtr :=
  status ← http (nghttp3_conn_resume_stream stream_id);
  mret (if negb (status =? 0)%Z then error NGTCP2_ERR_NOMEM (str "Couldn't resume stream: " ++ h3_text status) else None).

Definition submit_body_impl (stream_id : Z) (chunk : bytes) (eof : bool) : M ErrorPtr :=
  o ← find_stream stream_id;
  match o with
  | None => mret (bare_error NGTCP2_ERR_STREAM_NOT_FOUND)
  | Some stream =>
      match push_data stream chunk eof with
      | None => crash
      | Some (e, stream) =>
          put_stream stream_id stream;;
          match e with
          | Some e => mret (Some e)
          | None => resume_stream stream_id
          end
      end
  end.

Definition submit_trailer_impl (stream_id : Z) (hs : Headers) : M ErrorPtr :=
  o ← find_stream stream_id;
  match o with
  | None => mret (bare_error NGTCP2_ERR_STREAM_NOT_FOUND)
  | Some stream =>
      status ← http (nghttp3_conn_submit_trailers (i32 stream_id) (m_headers hs));
      if negb (status =? 0)%Z then mret (error NGTCP2_ERR_INTERNAL (str "submit_trailers(): " ++ h3_text status))
      else
        e ← resume_stream stream_id;
        match e with
        | Some e => mret (Some e)
        | None => put_stream stream_id (set_flag TRAILERS_SUBMITTED true stream);; mret None
        end
  end.

Definition reset_stream_impl (stream_id code : Z) : M ErrorPtr :=
  status ← quic (ngtcp2_conn_shutdown_stream stream_id code);
  mret (if negb (status =? NGTCP2_NO_ERROR)%Z then error status (str "Couldn't shutdown stream") else None).

Definition consume_connection_impl (length : Z) : M ErrorPtr :=
  quic_do (ngtcp2_conn_extend_max_offset length);; mret None.

Definition consume_stream_impl (stream_id length : Z) : M ErrorPtr :=
  e ← consume_connection_impl length;
  match e with
  | Some e =>
      mret (Some (make_error_msg loc (MkHttp3Error NGTCP2_ERR_INTERNAL) (str "Couldn't consume connection") (Some (to_base e))))
  | None =>
      status ← quic (ngtcp2_conn_extend_max_stream_offset stream_id length);
      mret (if negb (status =? NGTCP2_NO_ERROR)%Z then error status (str "Couldn't consume stream") else None)
  end.

Definition handle_expiry_impl : M ErrorPtr :=
  status ← quic ngtcp2_conn_handle_expiry;
  mret (if negb (status =? NGTCP2_NO_ERROR)%Z then error status (str "Error handling expiry timer") else None).

Definition set_session_close_error (code : Z) (reason : bytes) : M unit :=
  if (SSL_ALERT_CODES_START <? code)%Z then
    let alert_code := (code - SSL_ALERT_CODES_START)%Z in
    modify (set_last_error (ngtcp2_ccerr_set_tls_alert alert_code (SSL_alert_desc_string_long alert_code)))
  else if (NGHTTP3_H3_NO_ERROR <? code)%Z then modify (set_last_error (ngtcp2_ccerr_set_application_error code reason))
  else mret tt.

(** [Http3Server::submit_response]; the reader is a null pointer, or a structure with the callback set or not. *)
Definition submit_response (stream_id : Z) (response : Response) (eof : bool) : M ErrorPtr :=
  o ← find_stream stream_id;
  match o with
  | None => mret (error NGTCP2_ERR_STREAM_NOT_FOUND (str "Stream not found"))
  | Some stream =>
      let eof := eof || flags stream HEAD_REQUEST in
      let fresh := negb eof && bool_decide (buffer stream = None) in
      (if fresh then put_stream stream_id (set_buffer evbuffer_new stream) else mret tt);;
      status ← http (nghttp3_conn_submit_response stream_id (response_fields response) (if eof then None else Some fresh));
      if negb (status =? 0)%Z then mret (error NGTCP2_ERR_INTERNAL (str "Couldn't submit response: " ++ h3_text status))
      else resume_stream stream_id
  end.

(** [Http3Client::submit_request]. *)
Definition submit_request (request : Request) (eof : bool) : M (Result Z Http3Error) :=
  opened ← quic ngtcp2_conn_open_bidi_stream;
  let '(status, stream_id) := opened in
  if negb (status =? NGTCP2_NO_ERROR)%Z then
    mret (RError (make_error_msg loc (MkHttp3Error status) (str "Couldn't open stream: " ++ h3_text status) None))
  else
    let head_request := bool_decide (m_method request = str "HEAD") in
    let eof := eof || head_request in
    stream ← emplace_stream (u64 stream_id);
    let stream := set_flag HAS_EOF eof (set_flag HEAD_REQUEST head_request stream) in
    put_stream (u64 stream_id) (if negb eof then set_buffer evbuffer_new stream else stream);;
    status ← http (nghttp3_conn_submit_request stream_id (request_fields request) (if eof then None else Some true));
    if negb (status =? 0)%Z then
      erase_stream (u64 stream_id);;
      mret (RError (make_error_msg loc (MkHttp3Error NGTCP2_ERR_INTERNAL) (str "Couldn't submit request: " ++ h3_text status) None))
    else mret (RValue (u64 stream_id)).

(** What can still be given to a stream: the smaller window, less what waits in the buffer. *)
Definition get_stream_send_capacity_impl (stream_id : Z) : M Z :=
  stream_left ← quic_get (fun n => ngtcp2_conn_get_max_stream_data_left n stream_id);
  conn_left ← quic_get ngtcp2_conn_get_max_data_left;
  let capacity := Z.min stream_left conn_left in
  o ← find_stream stream_id;
  mret (match o with
        | Some stream =>
            match buffer stream with
            | Some b =>
                let buffered := evbuffer_get_length b in
                let unsent := if read_offset stream <? buffered then Z.of_nat (buffered - read_offset stream) else 0%Z in
                if (capacity <=? unsent)%Z then 0%Z else (capacity - unsent)%Z
            | None => capacity
            end
        | None => capacity
        end).

Definition probe_timeout : M Z :=
  dropped ← gets m_drop_silently;
  if bool_decide (T = Server) && dropped then mret 0%Z else quic_get ngtcp2_conn_get_pto.

(** A call the user makes; a server has no requests to send, a client no responses. *)
Definition act (a : Action) : M unit :=
  match a with
  | SubmitResponse i r eof => if bool_decide (T = Server) then submit_response i r eof;; mret tt else mret tt
  | SubmitRequest r eof => if bool_decide (T = Client) then submit_request r eof;; mret tt else mret tt
  | SubmitTrailer i hs => submit_trailer_impl i hs;; mret tt
  | SubmitBody i chunk eof => submit_body_impl i chunk eof;; mret tt
  | ResetStream i code => reset_stream_impl i code;; mret tt
  | SetSessionCloseError code reason => set_session_close_error code reason
  | ConsumeConnection len => consume_connection_impl len;; mret tt
  | ConsumeStream i len => consume_stream_impl i len;; mret tt
  | UpdateCallbacks h => if bool_decide (T = Client) then modify (set_handler h) else mret tt
  end.

Fixpoint act_all (l : list Action) : M unit :=
  match l with [] => mret tt | a :: l' => act a;; act_all l' end.

(** [if (h.callback != nullptr) h.callback(...)]. *)
Definition emit (present : Callbacks -> bool) (o : Out) : M unit :=
  h ← gets m_handler;
  if present h then modify (add_log o);; log ← gets m_log; act_all (user log) else mret tt.

(** ** Callbacks of nghttp3 *)

(** The stream looked up, or the refusal. *)
Definition with_stream (stream_id : Z) (f : Stream -> M Z) : M Z :=
  o ← find_stream (u64 stream_id);
  match o with None => mret NGHTTP3_ERR_CALLBACK_FAILURE | Some stream => f stream end.

Definition begin_message (stream_id : Z) (stream : Stream) : M Z :=
  match message stream with
  | Some _ => mret NGHTTP3_ERR_CALLBACK_FAILURE
  | None => put_stream (u64 stream_id) (set_message (Some (message_new T HTTP_3_0)) stream);; mret 0%Z
  end.

Definition on_begin_headers (stream_id : Z) : M Z :=
  stream ← emplace_stream (u64 stream_id); begin_message stream_id stream.

Definition on_begin_trailers (stream_id : Z) : M Z := with_stream stream_id (begin_message stream_id).

Definition on_recv_header (stream_id : Z) (n v : bytes) : M Z :=
  with_stream stream_id (fun stream =>
    match message stream with
    | None => mret NGHTTP3_ERR_CALLBACK_FAILURE
    | Some m =>
        match message_field n v m with
        | None => mret NGHTTP3_ERR_CALLBACK_FAILURE
        | Some m' => put_stream (u64 stream_id) (set_message (Some m') stream);; mret 0%Z
        end
    end).

Definition on_recv_trailer (stream_id : Z) (n v : bytes) : M Z :=
  with_stream stream_id (fun stream =>
    match message stream with
    | None => mret NGHTTP3_ERR_CALLBACK_FAILURE
    | Some m => put_stream (u64 stream_id) (set_message (Some (put_field n v m)) stream);; mret 0%Z
    end).

(** The flags of a stream whose message has come. *)
Definition mark_received (m : Message T) (stream : Stream) : Stream :=
  match T return Message T -> Stream with
  | Server => fun m => set_flag HEAD_REQUEST (bool_decide (m_method m = str "HEAD")) stream
  | Client => fun _ => stream
  end m.

Definition on_end_headers (stream_id : Z) (fin : bool) : M Z :=
  with_stream stream_id (fun stream =>
    match message stream with
    | None => crash
    | Some m =>
        let m := set_message_headers (set_has_body (negb fin) (message_headers m)) m in
        put_stream (u64 stream_id) (mark_received m (set_message None stream));;
        emit has_on_message (message_out (u64 stream_id) m);;
        mret 0%Z
    end).

Definition on_end_trailers (stream_id : Z) : M Z :=
  with_stream stream_id (fun stream =>
    match message stream with
    | None => crash
    | Some m =>
        put_stream (u64 stream_id) (set_message None stream);;
        emit has_on_trailer_headers (OnTrailerHeaders (u64 stream_id) (into_headers m));;
        mret 0%Z
    end).

Definition on_data_chunk_recv (stream_id : Z) (data : bytes) : M Z :=
  with_stream stream_id (fun _ => emit has_on_body (OnBody (u64 stream_id) data);; mret 0%Z).

Definition on_h3_stop_sending (stream_id code : Z) : M Z :=
  status ← quic (ngtcp2_conn_shutdown_stream_write stream_id code);
  mret (if negb (status =? NGTCP2_NO_ERROR)%Z then (-1)%Z else 0%Z).

Definition on_end_stream (stream_id : Z) : M Z :=
  emit has_on_stream_read_finished (OnStreamReadFinished (u64 stream_id));; mret 0%Z.

Definition on_h3_reset_stream (stream_id code : Z) : M Z :=
  status ← quic (ngtcp2_conn_shutdown_stream_read stream_id code);
  mret (if negb (status =? NGTCP2_NO_ERROR)%Z then (-1)%Z else 0%Z).

(** The parameter of [close_stream] is 32 bits wide. *)
Definition close_stream (stream_id code : Z) : M unit :=
  emit has_on_stream_closed (OnStreamClosed (u32 stream_id) code).

Definition on_h3_stream_close (stream_id code : Z) : M Z :=
  o ← find_stream (u64 stream_id);
  match o with
  | None => mret NGHTTP3_ERR_CALLBACK_FAILURE
  | Some _ =>
      erase_stream (u64 stream_id);;
      close_stream stream_id (i32 code);;
      mret 0%Z
  end.

Definition on_acked_stream_data (stream_id orig_len : Z) : M Z :=
  with_stream stream_id (fun stream =>
    match buffer stream with
    | None => crash
    | Some b =>
        let len := Nat.min (Z.to_nat orig_len) (evbuffer_get_length b) in
        let '(r, b') := evbuffer_drain b len in
        if negb (r =? 0)%Z then
          put_stream (u64 stream_id) (set_buffer (Some b') stream);; mret NGHTTP3_ERR_CALLBACK_FAILURE
        else
          let len := Nat.min len (read_offset stream) in
          put_stream (u64 stream_id) (set_read_offset (read_offset stream - len) (set_buffer (Some b') stream));;
          emit has_on_data_sent (OnDataSent (u64 stream_id) orig_len);;
          mret 0%Z
    end).

Definition on_deferred_consume (stream_id consumed : Z) : M Z :=
  e ← consume_stream_impl (u64 stream_id) consumed;
  mret (match e with Some _ => NGHTTP3_ERR_CALLBACK_FAILURE | None => 0%Z end).

Definition on_read_data (stream_id : Z) (vec_num : nat) : M Answer :=
  o ← find_stream (u64 stream_id);
  match o with
  | None => mret (answer NGHTTP3_ERR_CALLBACK_FAILURE)
  | Some stream =>
      match buffer stream with
      | None => crash
      | Some b =>
          if negb (evbuffer_ptr_set b (read_offset stream) =? 0)%Z then mret (answer NGHTTP3_ERR_CALLBACK_FAILURE)
          else
            let vec := evbuffer_peek b (read_offset stream) vec_num in
            let offset := read_offset stream + length (List.concat vec) in
            put_stream (u64 stream_id) (set_read_offset offset stream);;
            let unsent := u64 (Z.of_nat (evbuffer_get_length b) - Z.of_nat offset) in
            if bool_decide (vec = []) && (unsent =? 0)%Z && flags stream TRAILERS_SUBMITTED then
              mret (MkAnswer 0 [] (Z.lor NGHTTP3_DATA_FLAG_EOF NGHTTP3_DATA_FLAG_NO_END_STREAM))
            else
              let eof := (unsent =? 0)%Z && flags stream HAS_EOF in
              if bool_decide (vec = []) && negb eof then mret (answer NGHTTP3_ERR_WOULDBLOCK)
              else mret (MkAnswer (Z.of_nat (length vec)) vec (if eof then NGHTTP3_DATA_FLAG_EOF else 0%Z))
      end
  end.

Definition h3_callback (e : H3Event) : M Answer :=
  match e with
  | H3AckedStreamData i len => answer <$> on_acked_stream_data i len
  | H3StreamClose i code => answer <$> on_h3_stream_close i code
  | H3RecvData i data => answer <$> on_data_chunk_recv i data
  | H3DeferredConsume i n => answer <$> on_deferred_consume i n
  | H3BeginHeaders i => answer <$> on_begin_headers i
  | H3RecvHeader i n v => answer <$> on_recv_header i n v
  | H3EndHeaders i fin => answer <$> on_end_headers i fin
  | H3BeginTrailers i => answer <$> on_begin_trailers i
  | H3RecvTrailer i n v => answer <$> on_recv_trailer i n v
  | H3EndTrailers i => answer <$> on_end_trailers i
  | H3StopSending i code => answer <$> on_h3_stop_sending i code
  | H3EndStream i => answer <$> on_end_stream i
  | H3ResetStream i code => answer <$> on_h3_reset_stream i code
  | H3ReadData i n => on_read_data i n
  end.

Fixpoint h3_run {R} (t : Run Hl H3Event R) : M R :=
  match t with
  | Finished n r => modify (set_http (Some n));; mret r
  | Call n e k =>
      modify (set_http (Some n));;
      a ← h3_callback e;
      n' ← http (fun n => (n, n));
      h3_run (k n' a)
  end.

(** A call of nghttp3 that runs callbacks, with [m_http_conn.get()]. *)
Definition http_run {R} (f : Hl -> Run Hl H3Event R) : M R :=
  n ← http (fun n => (n, n)); h3_run (f n).

(** ** Callbacks of ngtcp2 *)

Definition recv_h3_stream_data (stream_id : Z) (chunk : bytes) (eof : bool) : M Z :=
  r ← http_run (nghttp3_conn_read_stream stream_id chunk eof);
  if (r <? 0)%Z then mret 0%Z
  else
    e ← consume_stream_impl (u64 stream_id) r;
    mret (match e with Some _ => NGTCP2_ERR_CALLBACK_FAILURE | None => 0%Z end).

Definition on_quic_stream_stop_sending (stream_id : Z) : M Z :=
  http_do (nghttp3_conn_shutdown_stream_write stream_id);; mret 0%Z.

Definition on_quic_stream_reset (stream_id : Z) : M Z :=
  status ← http_run (nghttp3_conn_shutdown_stream_read stream_id);
  mret (if negb (status =? 0)%Z then (-1)%Z else 0%Z).

(** The assertion that a closed stream is not a local one ends the program when it fails. *)
Definition on_quic_stream_close (fl stream_id code : Z) : M Z :=
  let code :=
    if (code =? 0)%Z || (Z.land fl NGTCP2_STREAM_CLOSE_FLAG_APP_ERROR_CODE_SET =? 0)%Z then NGHTTP3_H3_NO_ERROR else code in
  status ← http_run (nghttp3_conn_close_stream stream_id code);
  (if bool_decide (T = Server) && ngtcp2_is_bidi_stream stream_id then
     is_local ← quic_get (fun n => ngtcp2_conn_is_local_stream n stream_id);
     if is_local : bool then crash else quic_do (ngtcp2_conn_extend_max_streams_bidi 1)
   else mret tt);;
  if (status =? 0)%Z || (status =? NGHTTP3_ERR_STREAM_NOT_FOUND)%Z then mret 0%Z
  else
    modify (set_last_error (ngtcp2_ccerr_set_application_error (nghttp3_err_infer_quic_app_error_code status) []));;
    mret (-1)%Z.

Definition on_handshake_completed : M Z :=
  c ← quic ngtcp2_conn_open_uni_stream;
  if negb (c.1 =? NGTCP2_NO_ERROR)%Z then mret (-1)%Z
  else
    e ← quic ngtcp2_conn_open_uni_stream;
    if negb (e.1 =? NGTCP2_NO_ERROR)%Z then mret (-1)%Z
    else
      d ← quic ngtcp2_conn_open_uni_stream;
      if negb (d.1 =? NGTCP2_NO_ERROR)%Z then mret (-1)%Z
      else
        status ← http (nghttp3_conn_bind_control_stream c.2);
        if negb (status =? 0)%Z then mret (-1)%Z
        else
          status ← http (nghttp3_conn_bind_qpack_streams e.2 d.2);
          if negb (status =? 0)%Z then mret (-1)%Z
          else
            modify set_handshake_completed;;
            (if bool_decide (T = Client) then emit has_on_handshake_completed OnHandshakeCompleted else mret tt);;
            mret 0%Z.

Definition quic_callback (e : QuicEvent) : M Z :=
  match e with
  | QRecvStreamData fl i data => recv_h3_stream_data i data (negb (Z.land fl NGTCP2_STREAM_DATA_FLAG_FIN =? 0)%Z)
  | QAckedStreamDataOffset i len => http_run (nghttp3_conn_add_ack_offset i len)
  | QStreamClose fl i code => on_quic_stream_close fl i code
  | QExtendMaxLocalStreamsBidi => emit has_on_available_streams OnAvailableStreams;; mret 0%Z
  | QExtendMaxRemoteStreamsBidi n => http_do (nghttp3_conn_set_max_client_streams_bidi n);; mret 0%Z
  | QExtendMaxStreamData i =>
      status ← http (nghttp3_conn_unblock_stream i);
      mret (if negb (status =? 0)%Z then NGTCP2_ERR_CALLBACK_FAILURE else 0%Z)
  | QStreamReset i _ => on_quic_stream_reset i
  | QStreamStopSending i _ => on_quic_stream_stop_sending i
  | QHandshake => on_handshake_completed
  end.

Fixpoint quic_run {R} (t : Run Q QuicEvent R) : M R :=
  match t with
  | Finished n r => modify (set_quic (Some n));; mret r
  | Call n e k =>
      modify (set_quic (Some n));;
      a ← quic_callback e;
      n' ← quic (fun n => (n, n));
      quic_run (k n' (answer a))
  end.

Definition conn_run {R} (f : Q -> Run Q QuicEvent R) : M R :=
  n ← quic (fun n => (n, n)); quic_run (f n).

(** ** Closing *)

Definition close_connection : M unit :=
  sent ← gets m_connection_close_sent;
  if sent : bool then mret tt
  else
    max ← quic_get ngtcp2_conn_get_max_tx_udp_payload_size;
    last_error ← gets m_last_error;
    w ← quic (ngtcp2_conn_write_connection_close (Nat.min NGTCP2_DEFAULT_MAX_RECV_UDP_PAYLOAD_SIZE max) last_error);
    if (packet_size w <? 0)%Z then mret tt
    else
      emit has_on_output (OnOutput (packet_path w) (packet w));;
      modify set_close_sent.

Definition handle_error : M unit :=
  e ← gets m_last_error;
  match ccerr_type e with IDLE_CLOSE => mret tt | _ => close_connection end.

Definition handle_rx_connection_close : M unit :=
  e ← quic_get ngtcp2_conn_get_ccerr;
  let code :=
    match ccerr_type e with
    | TRANSPORT => (SSL_ALERT_CODES_START + Z.land (error_code e) 0xff)%Z
    | APPLICATION => Z.land (error_code e) 0xff
    | _ => 0%Z
    end in
  emit has_on_close (OnClose code).

(** ** Input *)

Definition input_impl (path : QuicNetworkPath) (chunk : bytes) : M Z := conn_run (ngtcp2_conn_read_pkt path chunk).

Inductive InputResult := EATEN | SEND_RETRY.

(** The first close of the peer is reported. *)
Definition on_draining : M unit :=
  handled ← gets m_handled_rx_connection_close;
  if handled : bool then mret tt else modify set_handled_rx_close;; handle_rx_connection_close.

(** The error is kept unless there is one already. *)
Definition keep_error (e : Ccerr) : M unit :=
  last_error ← gets m_last_error;
  if (error_code last_error =? 0)%Z then modify (set_last_error e) else mret tt.

Definition tls_alert_error (status : Z) : M (ErrorImpl Http3Error) :=
  alert ← quic_get ngtcp2_conn_get_tls_alert;
  keep_error (ngtcp2_ccerr_set_tls_alert alert []);;
  mret (make_error_msg loc (MkHttp3Error status)
    (str "TLS alert: " ++ SSL_alert_desc_string_long alert ++ str " (" ++ SSL_alert_type_string_long alert ++ str ")") None).

Definition server_input (path : QuicNetworkPath) (chunk : bytes) : M (Result InputResult Http3Error) :=
  status ← input_impl path chunk;
  if (status =? NGTCP2_NO_ERROR)%Z then mret (RValue EATEN)
  else if (status =? NGTCP2_ERR_DROP_CONN)%Z then
    modify set_drop_silently;;
    handle_error;;
    mret (RError (make_error loc (MkHttp3Error status) None))
  else if (status =? NGTCP2_ERR_DRAINING)%Z then on_draining;; mret (RValue EATEN)
  else if (status =? NGTCP2_ERR_RETRY)%Z then mret (RValue SEND_RETRY)
  else if (status =? NGTCP2_ERR_CRYPTO)%Z then
    e ← tls_alert_error status;
    handle_error;;
    mret (RError e)
  else
    keep_error (ngtcp2_ccerr_set_liberr status []);;
    handle_error;;
    mret (RError (make_error loc (MkHttp3Error status) None)).

Definition client_input (path : QuicNetworkPath) (chunk : bytes) : M ErrorPtr :=
  status ← input_impl path chunk;
  if (status =? NGTCP2_NO_ERROR)%Z then mret None
  else if (status =? NGTCP2_ERR_DRAINING)%Z then on_draining;; mret None
  else if (status =? NGTCP2_ERR_CRYPTO)%Z then
    e ← tls_alert_error status;
    handle_error;;
    mret (Some e)
  else
    keep_error (ngtcp2_ccerr_set_liberr status []);;
    last_error ← gets m_last_error;
    mret (error (if (status =? 0)%Z then NGTCP2_ERR_INTERNAL else status)
      (reason last_error ++ str " (" ++ fmt_dec (error_code last_error) ++ str ")")).

(** ** Output *)

(** One turn of the loop of [flush_impl]: it goes on, or leaves with [last_liberr]. *)
Inductive turn := Continue | Leave (last_liberr : Z).

Definition flush_turn (max_buf_size : nat) : M turn :=
  w ← http_run nghttp3_conn_writev_stream;
  if (vec_num w <? 0)%Z then
    modify (set_last_error (ngtcp2_ccerr_set_application_error (nghttp3_err_infer_quic_app_error_code (vec_num w))
      (nghttp3_strerror (vec_num w))));;
    mret (Leave 0)
  else
    let stream_id := write_stream_id w in
    let fl := Z.lor (if negb (stream_id =? -1)%Z then NGTCP2_WRITE_STREAM_FLAG_MORE else 0)
                    (if fin w then NGTCP2_WRITE_STREAM_FLAG_FIN else 0) in
    q ← conn_run (ngtcp2_conn_writev_stream max_buf_size fl stream_id (write_vecs w));
    let r := packet_size q in
    status ← (if (0 <=? data_len q)%Z then http (nghttp3_conn_add_write_offset stream_id (data_len q)) else mret 0%Z);
    if negb (status =? 0)%Z then
      modify (set_last_error (ngtcp2_ccerr_set_application_error (nghttp3_err_infer_quic_app_error_code status)
        (nghttp3_strerror status)));;
      mret (Leave 0)
    else if (0 <? r)%Z then emit has_on_output (OnOutput (packet_path q) (packet q));; mret Continue
    else if (r =? 0)%Z then mret (Leave 0)
    else if (r =? NGTCP2_ERR_STREAM_DATA_BLOCKED)%Z then
      if (data_len q =? -1)%Z then http_do (nghttp3_conn_block_stream stream_id);; mret Continue else crash
    else if (r =? NGTCP2_ERR_STREAM_SHUT_WR)%Z then
      if (data_len q =? -1)%Z then http_do (nghttp3_conn_shutdown_stream_write stream_id);; mret Continue else crash
    else if (r =? NGTCP2_ERR_WRITE_MORE)%Z then mret Continue
    else if (r =? NGTCP2_ERR_DRAINING)%Z || (r =? NGTCP2_ERR_DROP_CONN)%Z then mret (Leave 0)
    else
      modify (set_last_error (ngtcp2_ccerr_set_liberr r (ngtcp2_strerror r)));;
      mret (Leave r).

(** The loop, with a bound on its turns; [None] is a loop that did not leave within it. *)
Fixpoint flush_loop (fuel max_buf_size : nat) : M (option Z) :=
  match fuel with
  | O => mret None
  | S f =>
      t ← flush_turn max_buf_size;
      match t with Continue => flush_loop f max_buf_size | Leave e => mret (Some e) end
  end.

Definition UINT64_MAX : Z := 2 ^ 64 - 1.

(** [now] is the reading of the clock after the loop. *)
Definition flush_impl (fuel : nat) (now : Z) : M (option ErrorPtr) :=
  max ← quic_get ngtcp2_conn_get_max_tx_udp_payload_size;
  left ← flush_loop fuel (Nat.min NGTCP2_DEFAULT_MAX_RECV_UDP_PAYLOAD_SIZE max);
  match left with
  | None => mret None
  | Some last_liberr =>
      last_error ← gets m_last_error;
      if negb (error_code last_error =? NGTCP2_NO_ERROR)%Z then
        handle_error;;
        last_error ← gets m_last_error;
        mret (Some (error (if negb (last_liberr =? 0)%Z then last_liberr else NGTCP2_ERR_INTERNAL)
          (reason last_error ++ str " (" ++ fmt_dec (error_code last_error) ++ str ")")))
      else
        expiry ← quic_get ngtcp2_conn_get_expiry;
        (if negb (expiry =? UINT64_MAX)%Z && (now <? expiry)%Z then emit has_on_expiry_update (OnExpiryUpdate (expiry - now))
         else mret tt);;
        mret (Some None)
  end.

(** ** End of a session *)

Fixpoint close_all (ids : list Z) : M unit :=
  match ids with
  | [] => mret tt
  | i :: ids' => close_stream i NGHTTP3_H3_REQUEST_CANCELLED;; close_all ids'
  end.

(** The destructor; [order] is the order in which the hash table lists its keys. *)
Definition destroy (order : gmap Z Stream -> list Z) : M unit :=
  streams ← gets m_streams;
  modify (set_streams ∅);;
  close_all (order streams);;
  dropped ← gets m_drop_silently;
  if bool_decide (T = Server) && dropped then mret tt
  else
    s ← gets id;
    (if bool_decide (is_Some (m_http_conn s)) && (error_code (m_last_error s) =? 0)%Z && m_handshake_completed s
     then http nghttp3_conn_shutdown;; mret tt else mret tt);;
    if bool_decide (is_Some (m_quic_conn s)) then close_connection else mret tt.

(** The session with its two connections made. *)
Definition session_new (quic_conn : option Q) (http_conn : option Hl) (h : Callbacks) : Session :=
  MkSession quic_conn http_conn ∅ ngtcp2_ccerr_default false false false false h [].
End Http3.
