(* ===== verification/Http3Facts.v ===== *)
(** * HTTP/3 sessions: bodies, windows and the end of a connection

    Theorems on [Http3.v].  The buffer of a stream keeps what was submitted until the peer has
    acknowledged it: nghttp3 holds pointers into it.  [read_offset] divides it into what was handed
    over and what was not. *)

From S2P Require Import StringView Utils Error Headers Message StateMonad Http3.

(** What libevent documents of the further operations. *)
Class EvBufferRefLaws (B : Type) `{EvBufferRef B, !EvBufferLaws B} := {
  evbuffer_add_reference_appends : forall b d,
    contents (evbuffer_add_reference b d).2 = contents b ++ (if ((evbuffer_add_reference b d).1 =? 0)%Z then d else []);
  evbuffer_ptr_set_within : forall b n, n <= length (contents b) -> evbuffer_ptr_set b n = 0%Z;
  evbuffer_peek_prefix : forall b n k, List.concat (evbuffer_peek b n k) `prefix_of` drop n (contents b);
  evbuffer_peek_some : forall b n k, 0 < k -> drop n (contents b) <> [] -> List.concat (evbuffer_peek b n k) <> [];
  evbuffer_peek_none : forall b n k, drop n (contents b) = [] -> evbuffer_peek b n k = [];
  evbuffer_drain_drops : forall b n, n <= length (contents b) ->
    contents (evbuffer_drain b n).2 = drop (if ((evbuffer_drain b n).1 =? 0)%Z then n else 0) (contents b)
}.

(** The plain queue has them. *)
#[export] Instance list_evbuffer_ref : EvBufferRef bytes := {
  evbuffer_add_reference := fun b d => (0%Z, b ++ d);
  evbuffer_ptr_set := fun b n => if n <=? length b then 0%Z else (-1)%Z;
  evbuffer_peek := fun b n k => if (0 <? k) && (n <? length b) then [drop n b] else [];
  evbuffer_drain := fun b n => (0%Z, drop n b)
}.

#[export] Instance list_evbuffer_ref_laws : EvBufferRefLaws bytes.
Proof.
  split; cbn -[Nat.ltb].
  - done.
  - intros b n Hn. by rewrite (proj2 (Nat.leb_le _ _)).
  - intros b n k. destruct (_ && _); cbn; [by rewrite app_nil_r|apply prefix_nil].
  - intros b n k Hk Hd. destruct k as [|k]; [lia|]. destruct (Nat.ltb_spec n (length b)) as [?|?]; cbn; [rewrite ?app_nil_r; exact Hd|].
    by rewrite drop_ge in Hd.
  - intros b n k Hd. destruct (Nat.ltb_spec n (length b)); [|by rewrite andb_false_r].
    apply (f_equal length) in Hd. rewrite length_drop in Hd. cbn in Hd. lia.
  - done.
Defined.

Section Bodies.
Context {Hl : Type} `{NH : Nghttp3 Hl} {Q : Type} `{NQ : Ngtcp2 Q}.
Context {B : Type} `{EB : EvBuffer B} `{ER : !EvBufferRef B} `{EL : !EvBufferLaws B} `{ERL : !EvBufferRefLaws B}.
Context (T : side) (loc : SourceLocation) (user : list Out -> list Action).

(** The buffers work, and the user waits with its calls until the session returns. *)
Context (Hadd : forall (b : B) d, (evbuffer_add_reference b d).1 = 0%Z).
Context (Hdrain : forall (b : B) n, (evbuffer_drain b n).1 = 0%Z).
Context (Huser : forall l, user l = []).
Context (desc : Z -> bytes).

Abbreviation Session := (Http3.Session (Hl := Hl) (Q := Q) (B := B) T).
Abbreviation Stream := (Http3.Stream (B := B) T).
Abbreviation acked' := (on_acked_stream_data T loc desc user).

(** The stream [i] keeps the bytes [w], of which [off] were handed to nghttp3; the last chunk came with
    the end mark [eof], and trailers were submitted or not. *)
Definition holds (i : Z) (s : Session) (w : bytes) (off : nat) (eof tr : bool) : Prop :=
  is_Some (m_http_conn T s) /\
  exists st b, m_streams T s !! i = Some st /\ buffer T st = Some b /\ contents b = w /\ read_offset T st = off /\
    off <= length w /\ flags T st HAS_EOF = eof /\ flags T st TRAILERS_SUBMITTED = tr.

(** What happened to the body of a stream: the bytes submitted, handed over and acknowledged so far, and
    the last end mark.  The peer acknowledges no more than was handed over. *)
Inductive body_trace (i : Z) (tr : bool) : Session -> bytes -> bytes -> bytes -> bool -> Prop :=
| bt_start s eof : holds i s [] 0 eof tr -> body_trace i tr s [] [] [] eof
| bt_push s su de ac eof0 chunk eof e s' :
    body_trace i tr s su de ac eof0 -> submit_body_impl T loc i chunk eof s = Some (e, s') ->
    body_trace i tr s' (su ++ chunk) de ac eof
| bt_read s su de ac eof k a s' :
    body_trace i tr s su de ac eof -> on_read_data T i k s = Some (a, s') ->
    body_trace i tr s' su (de ++ List.concat (vecs a)) ac eof
| bt_ack s su de ac eof n a s' :
    body_trace i tr s su de ac eof -> length ac + n <= length de -> acked' i (Z.of_nat n) s = Some (a, s') ->
    body_trace i tr s' su de (take (length ac + n) de) eof.

Lemma push_data_holds chunk eof st b :
  buffer T st = Some b ->
  exists b' st', push_data T loc st chunk eof = Some (None, st') /\ buffer T st' = Some b' /\
    contents b' = contents b ++ chunk /\ read_offset T st' = read_offset T st /\ flags T st' HAS_EOF = eof /\
    flags T st' TRAILERS_SUBMITTED = flags T st TRAILERS_SUBMITTED.
Proof.
  intros Hb. unfold push_data. rewrite Hb. case_bool_decide as E.
  - subst chunk. eexists b, _. split; [done|]. by rewrite app_nil_r.
  - pose proof (Hadd b chunk) as Ha. pose proof (evbuffer_add_reference_appends b chunk) as Hc. rewrite Ha in Hc.
    cbn [mbind option_bind]. destruct (evbuffer_add_reference b chunk) as [r b']. cbn in Ha, Hc. subst r. by eexists b', _.
Qed.

Lemma submit_step i chunk eof s w off eof0 tr :
  holds i s w off eof0 tr ->
  exists e s', submit_body_impl T loc i chunk eof s = Some (e, s') /\ holds i s' (w ++ chunk) off eof tr.
Proof.
  intros ([n Hn] & st & b & Hst & Hb & <- & <- & Hle & He & Htr). unfold submit_body_impl, mbind, M_bind at 1, find_stream, gets.
  rewrite Hst. destruct (push_data_holds chunk eof st b Hb) as (b' & st' & -> & Hb' & Hc' & Ho & He' & Ht').
  unfold put_stream, modify, resume_stream, mbind, M_bind, http. cbn [m_http_conn set_streams]. rewrite Hn.
  destruct (nghttp3_conn_resume_stream _ n) as [z n']. eexists _, _. split; [done|]. split; [by eexists|].
  exists st', b'. cbn. rewrite lookup_insert_eq, <- Htr. split_and!; try done. rewrite length_app. lia.
Qed.

(** The flags a read stores. *)
Definition read_flags (none all eof tr : bool) : Z :=
  if none && all && tr then Z.lor NGHTTP3_DATA_FLAG_EOF NGHTTP3_DATA_FLAG_NO_END_STREAM
  else if all && eof then NGHTTP3_DATA_FLAG_EOF else 0.

Lemma u64_small n : (Z.of_nat n < 2 ^ 64)%Z -> u64 (Z.of_nat n) = Z.of_nat n.
Proof. intros Hn. unfold u64. apply Z.mod_small. lia. Qed.

Lemma unsent_zero a b :
  b <= a -> (Z.of_nat a < 2 ^ 64)%Z -> (u64 (Z.of_nat a - Z.of_nat b) =? 0)%Z = (b =? a).
Proof.
  intros Hle Ha. rewrite <- Nat2Z.inj_sub, u64_small by lia. destruct (Nat.eqb_spec b a), (Z.eqb_spec (Z.of_nat (a - b)) 0); (done || lia).
Qed.

(** A read hands over what libevent shows of the buffer and moves the offset past it. *)
Lemma read_answer i k (s : Session) st b :
  u64 i = i -> m_streams T s !! i = Some st -> buffer T st = Some b -> read_offset T st <= length (contents b) ->
  (Z.of_nat (length (contents b)) < 2 ^ 64)%Z ->
  let vec := evbuffer_peek b (read_offset T st) k in
  let off' := read_offset T st + length (List.concat vec) in
  off' <= length (contents b) /\
  exists r, on_read_data T i k s =
    Some (MkAnswer r vec (read_flags (bool_decide (vec = [])) (off' =? length (contents b)) (flags T st HAS_EOF) (flags T st TRAILERS_SUBMITTED)),
          set_streams T (<[i := set_read_offset T off' st]> (m_streams T s)) s).
Proof.
  intros Hi Hst Hb Hle Hw vec off'.
  assert (off' <= length (contents b)) as Ho.
  { pose proof (prefix_length _ _ (evbuffer_peek_prefix b (read_offset T st) k)) as Hp. rewrite length_drop in Hp. unfold off', vec. lia. }
  split; [done|]. unfold on_read_data, mbind, M_bind at 1, find_stream, gets.
  rewrite Hi, Hst, Hb, (evbuffer_ptr_set_within _ _ Hle). cbn [Z.eqb negb]. fold vec. cbv zeta. fold off'.
  unfold put_stream, modify, mret, M_ret, M_bind, read_flags. rewrite evbuffer_length, unsent_zero by lia. unfold answer.
  case_bool_decide as Ev; [rewrite Ev|]; destruct (off' =? _), (flags T st HAS_EOF), (flags T st TRAILERS_SUBMITTED);
    cbn [andb negb]; by eexists.
Qed.

Lemma read_step i k s w off eof tr :
  u64 i = i -> (Z.of_nat (length w) < 2 ^ 64)%Z -> holds i s w off eof tr ->
  exists a s', on_read_data T i k s = Some (a, s') /\
    let off' := off + length (List.concat (vecs a)) in
    List.concat (vecs a) `prefix_of` drop off w /\ holds i s' w off' eof tr /\ (0 < k -> off < length w -> off < off') /\
    pflags a = read_flags (bool_decide (vecs a = [])) (off' =? length w) eof tr.
Proof.
  intros Hi Hw (Hn & st & b & Hst & Hb & <- & <- & Hle & <- & <-).
  destruct (read_answer i k s st b Hi Hst Hb Hle Hw) as (Ho & r & ->). eexists _, _. split; [done|]. cbn [vecs pflags]. cbv zeta.
  split; [apply evbuffer_peek_prefix|]. split; [|split; [|done]].
  - split; [done|]. eexists _, b. cbn. rewrite lookup_insert_eq. by split_and!.
  - intros H1 H2. pose proof (evbuffer_peek_some b (read_offset T st) k H1) as Hs.
    destruct (List.concat (evbuffer_peek _ _ _)); cbn; [|lia]. destruct Hs; [|done].
    intros E. apply (f_equal length) in E. rewrite length_drop in E. cbn in E. lia.
Qed.

Lemma emit_quiet p o s : emit T loc desc user p o s = Some (tt, if p (m_handler T s) then add_log T o s else s).
Proof. unfold emit, mbind, M_bind, modify, gets. destruct (p _); [|done]. by rewrite Huser. Qed.

Lemma ack_step i n s w off eof tr :
  u64 i = i -> n <= off -> holds i s w off eof tr ->
  exists s', acked' i (Z.of_nat n) s = Some (0%Z, s') /\ holds i s' (drop n w) (off - n) eof tr.
Proof.
  intros Hi Hno (Hn & st & b & Hst & Hb & <- & <- & Hle & <- & <-).
  unfold on_acked_stream_data, with_stream, mbind, M_bind at 1, find_stream, gets. rewrite Hi, Hst, Hb, evbuffer_length, Nat2Z.id.
  rewrite Nat.min_l by lia. pose proof (Hdrain b n) as Hd. pose proof (evbuffer_drain_drops b n ltac:(lia)) as Hc. rewrite Hd in Hc.
  destruct (evbuffer_drain b n) as [r b']. cbn in Hd, Hc. subst r. cbn [Z.eqb negb]. unfold put_stream, modify, M_bind. cbv zeta.
  rewrite emit_quiet, Nat.min_l by lia. eexists. split; [done|].
  set (st' := set_read_offset _ _ _). set (s1 := set_streams _ _ _).
  assert (forall s', m_http_conn T s' = m_http_conn T s -> m_streams T s' !! i = Some st' -> 
    holds i s' (drop n (contents b)) (read_offset T st - n) (flags T st HAS_EOF) (flags T st TRAILERS_SUBMITTED)) as Hh.
  { intros s' E1 E2. split; [by rewrite E1|]. exists st', b'. split_and!; try done. rewrite length_drop. lia. }
  destruct (has_on_data_sent _); apply Hh; try done; cbn; by rewrite lookup_insert_eq.
Qed.
Lemma prefix_extend (de su v : bytes) : de `prefix_of` su -> v `prefix_of` drop (length de) su -> de ++ v `prefix_of` su.
Proof. intros [r ->]. rewrite drop_app_length. apply prefix_app. Qed.

Lemma drop_short n (w : bytes) : (Z.of_nat (length w) < 2 ^ 64)%Z -> (Z.of_nat (length (drop n w)) < 2 ^ 64)%Z.
Proof. rewrite length_drop. lia. Qed.

Lemma trace_holds i tr s su de ac eof :
  u64 i = i -> (Z.of_nat (length su) < 2 ^ 64)%Z -> body_trace i tr s su de ac eof ->
  holds i s (drop (length ac) su) (length de - length ac) eof tr /\ de `prefix_of` su /\ ac `prefix_of` de.
Proof.
  intros Hi Hlen Ht. induction Ht as [s eof Hh|s su de ac e0 chunk eof e s' Ht IH E|s su de ac eof k a s' Ht IH E|s su de ac eof n a s' Ht IH Hn E].
  - by split_and!.
  - rewrite length_app in Hlen. destruct IH as (Hh & Hde & Hac); [lia|].
    destruct (submit_step i chunk eof s _ _ _ _ Hh) as (e' & s1 & E' & H1). rewrite E' in E. injection E as -> ->.
    pose proof (prefix_length _ _ Hde). pose proof (prefix_length _ _ Hac).
    split; [|by split; [apply prefix_app_r|]]. by rewrite drop_app_le by lia.
  - destruct IH as (Hh & Hde & Hac); [done|]. pose proof (prefix_length _ _ Hde). pose proof (prefix_length _ _ Hac).
    destruct (read_step i k s _ _ _ _ Hi (drop_short _ _ Hlen) Hh) as (a' & s1 & E' & Hp & H1 & _).
    rewrite E' in E. injection E as -> ->. rewrite drop_drop in Hp. replace (length ac + (length de - length ac)) with (length de) in Hp by lia.
    split; [|split; [by apply prefix_extend|by apply prefix_app_r]].
    rewrite length_app. by replace (length de + length (List.concat (vecs a)) - length ac)
      with (length de - length ac + length (List.concat (vecs a))) by lia.
  - destruct IH as (Hh & Hde & Hac); [done|]. destruct (ack_step i n s _ (length de - length ac) _ _ Hi ltac:(lia) Hh) as (s1 & E' & H1).
    rewrite E' in E. injection E as <- ->. rewrite drop_drop in H1. rewrite length_take_le by done.
    split; [by replace (length de - (length ac + n)) with (length de - length ac - n) by lia|].
    split; [done|]. apply prefix_take.
Qed.


(** Reads of nghttp3 until an answer carries the end mark. *)
Fixpoint read_until (i : Z) (k fuel : nat) : StateMonad.M Session (list Answer) :=
  match fuel with
  | O => M_ret _ []
  | S f =>
      M_bind _ _ (fun a => if (Z.land (pflags a) NGHTTP3_DATA_FLAG_EOF =? 0)%Z
        then M_bind _ _ (fun l => M_ret _ (a :: l)) (read_until i k f) else M_ret _ [a]) (on_read_data T i k)
  end.

Definition handed_over (answers : list Answer) : bytes := List.concat (map (fun a => List.concat (vecs a)) answers).

(** A body whose last chunk was submitted comes to its end: nghttp3, reading until it sees the end
    mark, gets all that was not handed over, after at most one read for each byte left; the read that
    takes the last byte carries the mark and no read before it does. *)
Theorem h3_body_reaches_end i k s w off :
  u64 i = i -> (Z.of_nat (length w) < 2 ^ 64)%Z -> 0 < k -> holds i s w off true false ->
  exists answers a s', read_until i k (S (length w - off)) s = Some (answers ++ [a], s') /\
    handed_over (answers ++ [a]) = drop off w /\ pflags a = NGHTTP3_DATA_FLAG_EOF /\
    Forall (fun b => pflags b = 0%Z /\ vecs b <> []) answers.
Proof.
  intros Hi Hw Hk Hh. assert (length w - off < S (length w - off)) as Hm by lia. revert Hm.
  generalize (S (length w - off)). intros fuel. revert s off Hh.
  induction fuel as [|fuel IH]; intros s off Hh Hm; [lia|].
  destruct (read_step i k s w off true false Hi Hw Hh) as (a & s1 & E & Hp & H1 & Hgo & Hf). specialize (Hgo Hk).
  unfold read_flags in Hf. rewrite !andb_false_r, andb_true_r in Hf. cbn [read_until]. unfold M_bind at 1. rewrite E.
  pose proof H1 as (_ & _ & _ & _ & _ & _ & _ & Hle & _). set (off' := off + _) in *.
  destruct (Nat.eqb_spec off' (length w)) as [Eo|Eo]; rewrite Hf.
  - exists [], a, s1. split; [done|]. split; [|done]. unfold handed_over. cbn. rewrite app_nil_r.
    apply prefix_length_eq; [done|]. rewrite length_drop. lia.
  - destruct (IH s1 off' H1 ltac:(lia)) as (l & b & s2 & E2 & D2 & F2 & A2). exists (a :: l), b, s2.
    change (Z.land 0 NGHTTP3_DATA_FLAG_EOF =? 0)%Z with true. unfold M_bind. rewrite E2.
    split; [done|]. split; [|split; [done|]].
    + unfold handed_over in *. cbn [map app List.concat]. rewrite D2. destruct Hp as [r Hr]. rewrite Hr. f_equal.
      unfold off'. by rewrite <- drop_drop, Hr, drop_app_length.
    + constructor; [|done]. split; [done|]. intros Ev. subst off'. rewrite Ev in *. cbn in *. lia.
Qed.
(** ** Windows *)

(** The bytes of a stream that wait to be handed over. *)
Definition waiting (i : Z) (s : Session) : nat :=
  match m_streams T s !! i with
  | Some st => match buffer T st with Some b => length (contents b) - read_offset T st | None => 0 end
  | None => 0
  end.

Definition window (q : Q) (i : Z) : Z := Z.min (ngtcp2_conn_get_max_stream_data_left q i) (ngtcp2_conn_get_max_data_left q).

Lemma set_quic_same q (s : Session) : m_quic_conn T s = Some q -> set_quic T (Some q) s = s.
Proof. intros E. destruct s. cbn in *. by rewrite <- E. Qed.

Lemma capacity_value i q s :
  m_quic_conn T s = Some q -> (0 <= window q i)%Z ->
  get_stream_send_capacity_impl T i s = Some (Z.max 0 (window q i - Z.of_nat (waiting i s)), s).
Proof.
  intros Eq Hw. unfold get_stream_send_capacity_impl, quic_get, quic, find_stream, gets, mbind, M_bind. rewrite !Eq, (set_quic_same q s Eq), Eq.
  rewrite (set_quic_same q s Eq). unfold mret, M_ret, waiting. fold (window q i).
  destruct (m_streams T s !! i) as [st|]; [|do 2 f_equal; lia]. destruct (buffer T st) as [b|]; [|do 2 f_equal; lia].
  rewrite evbuffer_length. cbv zeta. destruct (Nat.ltb_spec (read_offset T st) (length (contents b))); do 2 f_equal;
    match goal with |- context [(?a <=? ?b)%Z] => destruct (Z.leb_spec a b) end; lia.
Qed.

Lemma submit_body_quic i chunk eof (s : Session) e s' :
  submit_body_impl T loc i chunk eof s = Some (e, s') -> m_quic_conn T s' = m_quic_conn T s.
Proof.
  unfold submit_body_impl, find_stream, gets, put_stream, modify, resume_stream, http, mbind, M_bind, mret, M_ret, crash.
  intros E. repeat (case_match; simplify_eq; cbn in *); done.
Qed.

(** C13: What a stream can take and what waits for it fill the smaller of the two windows of QUIC: the
    answer is never negative, and a chunk within it leaves room for exactly the rest.  A user who
    asks first keeps at most one window of data waiting. *)
Theorem h3_send_capacity i q chunk eof s w off eof0 tr :
  m_quic_conn T s = Some q -> (0 <= window q i)%Z -> holds i s w off eof0 tr ->
  exists c, get_stream_send_capacity_impl T i s = Some (c, s) /\ (0 <= c)%Z /\
    (Z.of_nat (waiting i s) + c = Z.max (Z.of_nat (waiting i s)) (window q i))%Z /\
    ((Z.of_nat (length chunk) <= c)%Z ->
     exists e s', submit_body_impl T loc i chunk eof s = Some (e, s') /\
       get_stream_send_capacity_impl T i s' = Some (c - Z.of_nat (length chunk), s')%Z).
Proof.
  intros Eq Hw Hh. eexists. split; [by apply (capacity_value i q)|]. split; [lia|]. split; [lia|]. intros Hc.
  destruct (submit_step i chunk eof s w off eof0 tr Hh) as (e & s' & E & H'). exists e, s'. split; [done|].
  assert (m_quic_conn T s' = Some q) as Eq' by (rewrite <- Eq; by apply (submit_body_quic i chunk eof s e)).
  rewrite (capacity_value i q) by done. do 2 f_equal.
  assert (forall s w off eof, holds i s w off eof tr -> waiting i s = length w - off) as Hwait.
  { clear. intros s w off eof (_ & st & b & E1 & E2 & <- & <- & _). unfold waiting. by rewrite E1, E2. }
  rewrite (Hwait _ _ _ _ H'), (Hwait _ _ _ _ Hh) in *. destruct Hh as (_ & _ & _ & _ & _ & _ & _ & Hle & _).
  rewrite length_app. lia.
Qed.
End Bodies.

(** ** The end of a connection *)

Section Closing.
Context {Hl : Type} `{NH : Nghttp3 Hl} {Q : Type} `{NQ : Ngtcp2 Q} {B : Type} `{EB : EvBuffer B} `{ER : !EvBufferRef B}.
Context (T : side) (loc : SourceLocation) (desc ty : Z -> bytes) (user : list Out -> list Action).

Abbreviation Session := (Http3.Session (Hl := Hl) (Q := Q) (B := B) T).
Abbreviation Stream := (Http3.Stream (B := B) T).
Abbreviation M := (StateMonad.M Session).

Definition is_close (o : Out) : bool := match o with OnClose _ => true | _ => false end.

(** The reports of a close. *)
Definition closes (s : Session) : list Out := filter (fun o => is_close o = true) (m_log T s).

(** Nothing about the close of the peer has changed. *)
Definition same_close (s s' : Session) : Prop :=
  m_handled_rx_connection_close T s' = m_handled_rx_connection_close T s /\ closes s' = closes s.

Definition keeps {A} (m : M A) : Prop := forall s a s', m s = Some (a, s') -> same_close s s'.

Lemma keeps_ret {A} (a : A) : keeps (M_ret A a).
Proof. by intros s ? s' [= <- <-]. Qed.

Lemma keeps_crash {A} : keeps (crash (A := A)).
Proof. by intros s a s'. Qed.

Lemma keeps_gets {A} (f : Session -> A) : keeps (gets f).
Proof. by intros s ? s' [= <- <-]. Qed.

Lemma keeps_modify f : (forall s, same_close s (f s)) -> keeps (modify f).
Proof. intros Hf s ? s' [= <- <-]. apply Hf. Qed.

Lemma keeps_bind {A C} (m : M A) (f : A -> M C) : keeps m -> (forall a, keeps (f a)) -> keeps (M_bind A C f m).
Proof.
  intros Hm Hf s c s'. unfold M_bind. destruct (m s) as [[a s1]|] eqn:E; [|done]. intros E'.
  destruct (Hm _ _ _ E) as [H1 H2]. destruct (Hf _ _ _ _ E') as [H3 H4]. split; congruence.
Qed.

Lemma keeps_fmap {A C} (g : A -> C) (m : M A) : keeps m -> keeps (M_fmap A C g m).
Proof. intros Hm s c s'. unfold M_fmap. destruct (m s) as [[a s1]|] eqn:E; [|done]. intros [= <- <-]. by apply (Hm s a). Qed.

Lemma keeps_quic {A} (f : Q -> A * Q) : keeps (quic T f).
Proof. intros s a s'. unfold quic. destruct (m_quic_conn T s) as [n|]; [|done]. destruct (f n). by intros [= <- <-]. Qed.

Lemma keeps_http {A} (f : Hl -> A * Hl) : keeps (http T f).
Proof. intros s a s'. unfold http. destruct (m_http_conn T s) as [n|]; [|done]. destruct (f n). by intros [= <- <-]. Qed.

Create HintDb keeps.
#[local] Hint Resolve keeps_ret keeps_crash keeps_gets keeps_quic keeps_http : keeps.

Ltac walk := repeat first
  [ solve [eauto with keeps]
  | progress intros
  | apply keeps_bind
  | apply keeps_fmap
  | apply keeps_modify; intros; split; reflexivity
  | case_match
  | progress unfold mbind, mret, fmap ].

Lemma keeps_act a : keeps (act T loc desc a).
Proof.
  unfold act, submit_response, submit_request, submit_trailer_impl, submit_body_impl, reset_stream_impl, set_session_close_error,
    consume_stream_impl, consume_connection_impl, resume_stream, emplace_stream, find_stream, put_stream, erase_stream, quic_do.
  walk.
Qed.

Lemma keeps_act_all l : keeps (act_all T loc desc l).
Proof. induction l as [|a l IH]; cbn [act_all]; [apply keeps_ret|]. apply keeps_bind; [apply keeps_act|]. by intros _. Qed.

Lemma closes_add o (s : Session) : closes (add_log T o s) = closes s ++ if is_close o then [o] else [].
Proof. unfold closes. cbn. rewrite filter_app. f_equal. rewrite filter_cons, filter_nil. by destruct (is_close o). Qed.

(** A call of the user's adds itself. *)
Lemma emit_closes p o s u s' :
  emit T loc desc user p o s = Some (u, s') ->
  m_handled_rx_connection_close T s' = m_handled_rx_connection_close T s /\
  closes s' = closes s ++ if p (m_handler T s) && is_close o then [o] else [].
Proof.
  unfold emit, mbind, M_bind, gets, modify. destruct (p (m_handler T s)); [|intros [= <- <-]; split; [done|cbn; by rewrite app_nil_r]].
  intros E. destruct (keeps_act_all _ _ _ _ E) as [E1 E2]. split; [done|]. by rewrite E2, closes_add.
Qed.

Lemma keeps_emit p o : is_close o = false -> keeps (emit T loc desc user p o).
Proof. intros Ho s u s' E. destruct (emit_closes _ _ _ _ _ E) as [E1 E2]. split; [done|]. by rewrite E2, Ho, andb_false_r, app_nil_r. Qed.

Lemma message_not_close i (m : Message T) : is_close (message_out i m) = false.
Proof. unfold message_out. revert m. by destruct T. Qed.

#[local] Hint Resolve keeps_emit message_not_close : keeps.
Lemma keeps_h3_callback e : keeps (h3_callback T loc desc user e).
Proof.
  destruct e; unfold h3_callback, on_acked_stream_data, on_h3_stream_close, on_data_chunk_recv, on_deferred_consume, on_begin_headers,
    on_recv_header, on_end_headers, on_begin_trailers, on_recv_trailer, on_end_trailers, on_h3_stop_sending, on_end_stream,
    on_h3_reset_stream, on_read_data, with_stream, begin_message, consume_stream_impl, consume_connection_impl, close_stream,
    emplace_stream, find_stream, put_stream, erase_stream, quic_do; walk.
Qed.

Lemma keeps_http_run {R} (f : Hl -> Run Hl H3Event R) : keeps (http_run T loc desc user f).
Proof.
  apply keeps_bind; [auto with keeps|]. intros n. induction (f n) as [n' r|n' e k IH]; cbn [h3_run]; [walk|].
  apply keeps_bind; [walk|]. intros _. apply keeps_bind; [apply keeps_h3_callback|]. intros a.
  apply keeps_bind; [auto with keeps|]. intros n1. apply IH.
Qed.

#[local] Hint Resolve keeps_http_run : keeps.

Lemma keeps_quic_callback e : keeps (quic_callback T loc desc user e).
Proof.
  destruct e; unfold quic_callback, recv_h3_stream_data, on_quic_stream_close, on_quic_stream_reset, on_quic_stream_stop_sending,
    on_handshake_completed, consume_stream_impl, consume_connection_impl, quic_get, quic_do, http_do; walk.
Qed.

Lemma keeps_conn_run {R} (f : Q -> Run Q QuicEvent R) : keeps (conn_run T loc desc user f).
Proof.
  apply keeps_bind; [auto with keeps|]. intros n. induction (f n) as [n' r|n' e k IH]; cbn [quic_run]; [walk|].
  apply keeps_bind; [walk|]. intros _. apply keeps_bind; [apply keeps_quic_callback|]. intros a.
  apply keeps_bind; [auto with keeps|]. intros n1. apply IH.
Qed.

Lemma keeps_handle_error : keeps (handle_error T loc desc user).
Proof. unfold handle_error, close_connection, quic_get. walk. Qed.

Lemma keeps_tls_alert_error z : keeps (tls_alert_error T loc desc ty z).
Proof. unfold tls_alert_error, keep_error, quic_get. walk. Qed.

#[local] Hint Resolve keeps_conn_run keeps_handle_error keeps_tls_alert_error : keeps.

Lemma keeps_flush fuel now : keeps (flush_impl T loc desc user fuel now).
Proof.
  unfold flush_impl, quic_get. apply keeps_bind; [auto with keeps|]. intros max. apply keeps_bind; [|walk].
  induction fuel as [|fuel IH]; cbn [flush_loop]; [apply keeps_ret|]. apply keeps_bind; [|intros []; walk].
  unfold flush_turn, http_do. walk.
Qed.

Lemma keeps_destroy order : keeps (destroy T loc desc user order).
Proof.
  unfold destroy. apply keeps_bind; [auto with keeps|]. intros l. apply keeps_bind; [walk|]. intros _. apply keeps_bind.
  - induction (order l) as [|i ids IH]; cbn [close_all]; unfold close_stream; walk.
  - unfold close_connection, quic_get. walk.
Qed.

(** What the owner of a session may do. *)
Inductive Op :=
| OpInput (path : QuicNetworkPath) (chunk : bytes)
| OpCall (a : Action)
| OpExpiry
| OpFlush (fuel : nat) (now : Z)
| OpDestroy (order : gmap Z Stream -> list Z).

Definition run_op (o : Op) : M unit :=
  match o with
  | OpInput p c =>
      if bool_decide (T = Server) then M_bind _ _ (fun _ => M_ret _ tt) (server_input T loc desc ty user p c)
      else M_bind _ _ (fun _ => M_ret _ tt) (client_input T loc desc ty user p c)
  | OpCall a => act T loc desc a
  | OpExpiry => M_bind _ _ (fun _ => M_ret _ tt) (handle_expiry_impl T loc)
  | OpFlush fuel now => M_bind _ _ (fun _ => M_ret _ tt) (flush_impl T loc desc user fuel now)
  | OpDestroy order => destroy T loc desc user order
  end.

Fixpoint run_ops (l : list Op) : M unit :=
  match l with [] => M_ret _ tt | o :: l' => M_bind _ _ (fun _ => run_ops l') (run_op o) end.

(** ngtcp2 gives the answers of a packet different numbers. *)
Context (Hdraining : NGTCP2_ERR_DRAINING <> NGTCP2_NO_ERROR) (Hdrop : NGTCP2_ERR_DRAINING <> NGTCP2_ERR_DROP_CONN).

(** The code a peer closed the connection with, as its owner sees it: the low byte, above the start of the TLS alerts
    when it is of the transport. *)
Definition peer_code (e : Ccerr) : Z :=
  match ccerr_type e with
  | TRANSPORT => (SSL_ALERT_CODES_START + Z.land (error_code e) 0xff)%Z
  | APPLICATION => Z.land (error_code e) 0xff
  | _ => 0%Z
  end.

(** The connection after a packet that makes ngtcp2 drain. *)
Definition drained (o : Op) (s : Session) : option Session :=
  match o with
  | OpInput path chunk =>
      match input_impl T loc desc user path chunk s with
      | Some (status, s1) => if (status =? NGTCP2_ERR_DRAINING)%Z then Some s1 else None
      | None => None
      end
  | _ => None
  end.

(** The same for the first such packet of a list of calls. *)
Fixpoint first_drained (l : list Op) (s : Session) : option Session :=
  match l with
  | [] => None
  | o :: l' =>
      match drained o s with
      | Some s1 => Some s1
      | None => match run_op o s with Some (_, s') => first_drained l' s' | None => None end
      end
  end.

(** What the owner hears of it. *)
Definition close_report (s1 : Session) : list Out :=
  match m_quic_conn T s1 with
  | Some q => if has_on_close (m_handler T s1) then [OnClose (peer_code (ngtcp2_conn_get_ccerr q))] else []
  | None => []
  end.

(** What a call does about the close, if it makes ngtcp2 drain or not. *)
Definition step_report (d : option Session) (s s' : Session) : Prop :=
  match d with
  | Some s1 =>
      m_handled_rx_connection_close T s' = true /\
      closes s' = closes s ++ (if m_handled_rx_connection_close T s then [] else close_report s1)
  | None => same_close s s'
  end.

Lemma draining_report s u s' : on_draining T loc desc user s = Some (u, s') -> step_report (Some s) s s'.
Proof.
  unfold on_draining, mbind, M_bind, gets, modify, step_report. destruct (m_handled_rx_connection_close T s) eqn:Eh.
  { intros [= _ <-]. by rewrite app_nil_r. }
  unfold handle_rx_connection_close, mbind, M_bind, quic_get, quic, close_report. set (s1 := set_handled_rx_close T s).
  change (m_quic_conn T s1) with (m_quic_conn T s). destruct (m_quic_conn T s) as [q|]; [|done].
  intros [E1 E2]%emit_closes. split; [by rewrite E1|]. rewrite E2. f_equal. cbn [is_close]. by rewrite andb_true_r.
Qed.

(** An answer to a packet that is not the one for draining. *)
Lemma step_report_input {A} path chunk (f : Z -> M A) s a s' :
  (forall z, z <> NGTCP2_ERR_DRAINING -> keeps (f z)) ->
  (forall s1 a s', f NGTCP2_ERR_DRAINING s1 = Some (a, s') -> step_report (Some s1) s1 s') ->
  M_bind _ _ f (input_impl T loc desc user path chunk) s = Some (a, s') -> step_report (drained (OpInput path chunk) s) s s'.
Proof.
  intros Hf Hd. unfold M_bind, drained. destruct (input_impl _ _ _ _ path chunk s) as [[z s1]|] eqn:E; [|done].
  apply keeps_conn_run in E as [E1 E2]. destruct (Z.eqb_spec z NGTCP2_ERR_DRAINING) as [->|Hz].
  - intros [H1 H2]%Hd. split; [done|]. by rewrite H2, E1, E2.
  - intros [H1 H2]%Hf; [|done]. split; congruence.
Qed.

Lemma draining_then {A} (a : A) s1 b s' :
  M_bind _ _ (fun _ => M_ret _ a) (on_draining T loc desc user) s1 = Some (b, s') -> step_report (Some s1) s1 s'.
Proof.
  unfold M_bind. destruct (on_draining _ _ _ _ s1) as [[u s2]|] eqn:E; [|done]. intros [= _ <-]. by eapply draining_report.
Qed.

Lemma server_input_report path chunk s a s' :
  server_input T loc desc ty user path chunk s = Some (a, s') -> step_report (drained (OpInput path chunk) s) s s'.
Proof.
  apply step_report_input.
  - intros z Hz. apply Z.eqb_neq in Hz. rewrite Hz. unfold keep_error. repeat (case_match; try (walk; fail)).
  - intros s1 b s2. apply Z.eqb_neq in Hdraining. apply Z.eqb_neq in Hdrop. rewrite Hdraining, Hdrop, Z.eqb_refl. apply draining_then.
Qed.

Lemma client_input_report path chunk s a s' :
  client_input T loc desc ty user path chunk s = Some (a, s') -> step_report (drained (OpInput path chunk) s) s s'.
Proof.
  apply step_report_input.
  - intros z Hz. apply Z.eqb_neq in Hz. rewrite Hz. unfold keep_error. repeat (case_match; try (walk; fail)).
  - intros s1 b s2. apply Z.eqb_neq in Hdraining. rewrite Hdraining, Z.eqb_refl. apply draining_then.
Qed.

Lemma run_op_report o s u s' : run_op o s = Some (u, s') -> step_report (drained o s) s s'.
Proof.
  destruct o as [p c|a| |fuel now|order]; cbn [run_op].
  - case_bool_decide; unfold M_bind.
    + destruct (server_input _ _ _ _ _ p c s) as [[r s1]|] eqn:E; [|done]. intros [= _ <-]. by eapply server_input_report.
    + destruct (client_input _ _ _ _ _ p c s) as [[r s1]|] eqn:E; [|done]. intros [= _ <-]. by eapply client_input_report.
  - apply keeps_act.
  - assert (keeps (M_bind _ _ (fun _ => M_ret _ tt) (handle_expiry_impl T loc))) as Hk by (unfold handle_expiry_impl; walk). apply Hk.
  - assert (keeps (M_bind _ _ (fun _ => M_ret _ tt) (flush_impl T loc desc user fuel now))) as Hk by (apply keeps_bind; [apply keeps_flush|walk]). apply Hk.
  - apply keeps_destroy.
Qed.

Lemma run_ops_report l s u s' :
  run_ops l s = Some (u, s') ->
  m_handled_rx_connection_close T s' = m_handled_rx_connection_close T s || bool_decide (is_Some (first_drained l s)) /\
  closes s' = closes s ++ (if m_handled_rx_connection_close T s then [] else
    match first_drained l s with Some s1 => close_report s1 | None => [] end).
Proof.
  revert s. induction l as [|o l IH]; intros s; cbn [run_ops first_drained].
  - intros [= _ <-]. rewrite orb_false_r. split; [done|]. destruct (m_handled_rx_connection_close T s); by rewrite app_nil_r.
  - unfold M_bind. destruct (run_op o s) as [[v s1]|] eqn:E; [|done]. intros [H1 H2]%IH. apply run_op_report in E.
    destruct (drained o s) as [s2|]; destruct E as [E1 E2]; rewrite H1, H2, E1, E2; cbn.
    + split; [by rewrite orb_true_r|]. by rewrite app_nil_r.
    + done.
Qed.

(** C11: However a session is driven, with packets, calls, timers, flushes and its destructor in any order and as often as
    one likes, the close of the connection by the peer is reported to its owner exactly when the first packet arrives
    that makes ngtcp2 start to drain: one report if the owner wants it, with the code of the peer as ngtcp2 has it after
    that packet, and none without such a packet.  No later packet reports it again, and no other answer to a packet
    does.  Asked of ngtcp2 is that its answers for draining, for success and for a dropped connection differ. *)
Theorem h3_close_reported_once q n h l u s :
  run_ops l (session_new T q n h) = Some (u, s) ->
  closes s = match first_drained l (session_new T q n h) with Some s1 => close_report s1 | None => [] end /\
  length (closes s) <= 1.
Proof.
  intros [_ E]%run_ops_report. change (closes (session_new T q n h)) with (@nil Out) in E. cbn in E. rewrite E. split; [done|].
  destruct (first_drained l _) as [s1|]; [unfold close_report; destruct (m_quic_conn T s1); [case_match|]|]; cbn; lia.
Qed.
End Closing.

(** ** Requests and their answers *)

(** A run of a library that makes these calls and stops at the first refusal. *)
Fixpoint script {L E} (es : list E) (n : L) : Run L E Z :=
  match es with
  | [] => Finished n 0%Z
  | e :: es' => Call n e (fun n' a => if (result a <? 0)%Z then Finished n' (result a) else script es' n')
  end.

Section Requests.
Context {Hl : Type} `{NH : Nghttp3 Hl} {Q : Type} `{NQ : Ngtcp2 Q} {B : Type} `{EB : EvBuffer B} `{ER : !EvBufferRef B}.
Context (loc : SourceLocation) (desc : Z -> bytes) (user : list Out -> list Action).
Context (Huser : forall l, user l = []).

Abbreviation Session := (Http3.Session (Hl := Hl) (Q := Q) (B := B) Server).
Abbreviation Stream := (Http3.Stream (B := B) Server).
Abbreviation run' := (h3_run Server loc desc user).

(** The calls nghttp3 makes for the fields of a request. *)
Definition field_calls (i : Z) (fields : list (bytes * bytes)) : list H3Event := map (fun nv => H3RecvHeader i nv.1 nv.2) fields.

Definition request_calls (i : Z) (fields : list (bytes * bytes)) (fin : bool) : list H3Event :=
  H3BeginHeaders i :: field_calls i fields ++ [H3EndHeaders i fin].

(** One call that succeeds. *)
Lemma script_step e es n (s s1 : Session) n1 :
  h3_callback Server loc desc user e (set_http Server (Some n) s) = Some (answer 0, s1) -> m_http_conn Server s1 = Some n1 ->
  run' (script (e :: es) n) s = run' (script es n1) s1.
Proof.
  intros E Hn. cbn [script h3_run]. unfold mbind, M_bind, modify. rewrite E. unfold http. rewrite Hn. cbn [answer result Z.ltb Z.compare].
  f_equal. destruct s1. cbn in *. by rewrite <- Hn.
Qed.

(** The stream [i] replaced. *)
Definition with_stream_at (i : Z) (st : Stream) (s : Session) : Session := set_streams Server (<[i := st]> (m_streams Server s)) s.

Lemma run_field_calls i fields es n s st (m : Request) :
  u64 i = i -> m_http_conn Server s = Some n -> m_streams Server s !! i = Some st -> message Server st = Some m ->
  run' (script (field_calls i fields ++ es) n) s =
  run' (script es n) (with_stream_at i (set_message Server (Some (request_of fields m : Message Server)) st) s).
Proof.
  intros Hi. rewrite <- request_fields_fold. revert s st m.
  induction fields as [|[fn fv] fields IH]; intros s st m Hn Hst Hm; cbn [field_calls map app fold_left fst snd].
  - f_equal. destruct s, st. unfold with_stream_at, set_streams, set_message. cbn in *. by rewrite <- Hm, insert_id.
  - rewrite (script_step _ _ n s (with_stream_at i (set_message Server (Some (request_field fn fv m : Message Server)) st) s) n); [| |done].
    + fold (field_calls i fields). erewrite IH; [|done|cbn; by rewrite lookup_insert_eq|done]. f_equal.
      unfold with_stream_at, set_streams. cbn. by rewrite insert_insert_eq.
    + cbn [h3_callback]. unfold fmap, M_fmap, on_recv_header, Http3.with_stream, find_stream, gets, mbind, M_bind. cbn [m_streams set_http].
      rewrite Hi, Hst, Hm. cbn [message_field]. unfold put_stream, modify.
      cbn. do 2 f_equal. destruct s. unfold with_stream_at, set_streams, set_http. cbn in *. by rewrite <- Hn.
Qed.
(** The request a block of fields makes, and its stream. *)
Definition block_request (fields : list (bytes * bytes)) (fin : bool) : Request :=
  let r := request_of fields (request_new HTTP_3_0 [] []) in with_headers (set_has_body (negb fin) (r_headers r)) r.

Definition received (r : Request) : Stream := mark_received Server (r : Message Server) (new_stream Server).

Lemma run_request i fields fin n s :
  u64 i = i -> m_http_conn Server s = Some n -> has_on_message (m_handler Server s) = true -> m_streams Server s !! i = None ->
  let r := block_request fields fin in
  run' (script (request_calls i fields fin) n) s = Some (0%Z, add_log Server (OnRequest i r) (with_stream_at i (received r) s)).
Proof.
  intros Hi Hn Hh Hst r. unfold request_calls.
  set (st0 := set_message Server (Some (request_new HTTP_3_0 [] [] : Message Server)) (new_stream Server) : Stream).
  rewrite (script_step _ _ n s (with_stream_at i st0 s) n); [| |done].
  2:{ cbn [h3_callback]. unfold fmap, M_fmap, on_begin_headers, emplace_stream, find_stream, gets, mbind, M_bind. cbn [m_streams set_http].
      rewrite Hi, Hst. unfold put_stream, modify, begin_message. cbn. rewrite ?Hi. unfold put_stream, modify. cbn. do 2 f_equal.
      destruct s. unfold with_stream_at, set_streams, set_http. cbn in *. by rewrite insert_insert_eq, <- Hn. }
  erewrite run_field_calls; [|done|done|cbn; by rewrite lookup_insert_eq|done].
  set (s1 := with_stream_at i _ (with_stream_at i st0 s)).
  rewrite (script_step _ _ n s1 (add_log Server (OnRequest i r) (with_stream_at i (received r) s)) n); [| |done].
  - cbn [script h3_run]. unfold mbind, M_bind, modify. do 2 f_equal. destruct s. cbn in *. unfold add_log, with_stream_at, set_streams, set_http.
    cbn. by rewrite <- Hn.
  - cbn [h3_callback]. unfold fmap, M_fmap, on_end_headers, Http3.with_stream, find_stream, gets, mbind, M_bind, s1. cbn.
    rewrite Hi, lookup_insert_eq. cbn. unfold put_stream, modify, emit, mbind, M_bind, gets, modify. cbn. rewrite Hh, Huser. cbn.
    do 2 f_equal. destruct s. unfold with_stream_at, set_streams, set_http, add_log. cbn in *. by rewrite !insert_insert_eq, <- Hn.
Qed.

(** A response on a stream without a buffer, by the calls it makes of nghttp3. *)
Lemma response_calls i response eof n s st :
  m_http_conn Server s = Some n -> m_streams Server s !! i = Some st -> buffer Server st = None ->
  exists e s', submit_response Server loc i response eof s = Some (e, s') /\
    let '(z, n1) := nghttp3_conn_submit_response i (response_fields response)
      (if eof || flags Server st HEAD_REQUEST then None else Some true) n in
    m_http_conn Server s' = Some (if (z =? 0)%Z then (nghttp3_conn_resume_stream i n1).2 else n1).
Proof.
  intros Hn Hst Hb. unfold submit_response, find_stream, gets, mbind, M_bind. rewrite Hst, Hb. cbv zeta.
  rewrite (bool_decide_true (@None B = None)) by done.
  set (bodiless := eof || flags Server st HEAD_REQUEST). rewrite andb_true_r.
  assert (exists s1, (if negb bodiless then put_stream Server i (set_buffer Server evbuffer_new st) else mret ()) s = Some (tt, s1) /\
    m_http_conn Server s1 = Some n) as (s1 & E1 & Hn1) by (destruct bodiless; by eexists).
  rewrite E1. unfold http at 1. rewrite Hn1. replace (if bodiless then None else Some (negb bodiless)) with (if bodiless then None else Some true)
    by by destruct bodiless.
  destruct (nghttp3_conn_submit_response _ _ _ n) as [z n1]. destruct (Z.eqb_spec z 0); cbn [negb]; [|by eexists _, _].
  unfold resume_stream, http, mbind, M_bind. cbn [m_http_conn set_http]. destruct (nghttp3_conn_resume_stream i n1) as [z2 n2].
  by eexists _, _.
Qed.

End Requests.

(** ** Corners *)

Section Corners.
Context {Hl : Type} `{NH : Nghttp3 Hl} {Q : Type} `{NQ : Ngtcp2 Q} {B : Type} `{EB : EvBuffer B} `{ER : !EvBufferRef B}.
Context (loc : SourceLocation) (desc ty : Z -> bytes) (user : list Out -> list Action).
Context (Huser : forall l, user l = []).

Abbreviation Session T := (Http3.Session (Hl := Hl) (Q := Q) (B := B) T).

(** A response after [submit_body] gives nghttp3 a reader without its callback: the buffer is there already. *)
Lemma response_after_body_has_no_reader i response n (s : Session Server) st b :
  m_http_conn Server s = Some n -> m_streams Server s !! i = Some st -> buffer Server st = Some b -> flags Server st HEAD_REQUEST = false ->
  exists e s', submit_response Server loc i response false s = Some (e, s') /\
    let '(z, n1) := nghttp3_conn_submit_response i (response_fields response) (Some false) n in
    m_http_conn Server s' = Some (if (z =? 0)%Z then (nghttp3_conn_resume_stream i n1).2 else n1).
Proof.
  intros Hn Hst Hb Hf. unfold submit_response, find_stream, gets, mbind, M_bind. rewrite Hst, Hb, Hf. cbn [orb negb andb].
  rewrite bool_decide_false by done. unfold http at 1, mret, M_ret. rewrite Hn.
  destruct (nghttp3_conn_submit_response _ _ _ n) as [z n1]. destruct (Z.eqb_spec z 0); cbn [negb]; [|by eexists _, _].
  unfold resume_stream, http, mbind, M_bind. cbn [m_http_conn set_http]. destruct (nghttp3_conn_resume_stream i n1) as [z2 n2].
  by eexists _, _.
Qed.

(** Trailers of a stream whose number needs more than 31 bits go to another stream. *)
Lemma trailers_go_astray T hs n n1 (s : Session T) st :
  m_http_conn T s = Some n -> m_streams T s !! (2 ^ 32 + 4)%Z = Some st -> nghttp3_conn_submit_trailers 4 (m_headers hs) n = (0%Z, n1) ->
  exists e s', submit_trailer_impl T loc (2 ^ 32 + 4) hs s = Some (e, s') /\
    m_http_conn T s' = Some (nghttp3_conn_resume_stream (2 ^ 32 + 4) n1).2.
Proof.
  intros Hn Hst Ht. unfold submit_trailer_impl, find_stream, gets, mbind, M_bind. rewrite Hst. change (i32 (2 ^ 32 + 4)) with 4%Z.
  unfold http at 1. rewrite Hn, Ht. cbn [Z.eqb negb]. unfold resume_stream, http, mbind, M_bind. cbn [m_http_conn set_http].
  destruct (nghttp3_conn_resume_stream _ n1) as [z n2]. cbn. destruct (z =? 0)%Z; by eexists _, _.
Qed.

(** The end of such a stream is reported under another number. *)
Lemma closed_stream_misnamed T code (s : Session T) st :
  m_streams T s !! (2 ^ 32 + 4)%Z = Some st -> has_on_stream_closed (m_handler T s) = true ->
  exists s', on_h3_stream_close T loc desc user (2 ^ 32 + 4) code s = Some (0%Z, s') /\
    m_log T s' = m_log T s ++ [OnStreamClosed 4 (i32 code)].
Proof.
  intros Hst Hh. unfold on_h3_stream_close, find_stream, gets, mbind, M_bind. change (u64 (2 ^ 32 + 4)) with (2 ^ 32 + 4)%Z.
  rewrite Hst. unfold erase_stream, modify, close_stream, emit, mbind, M_bind, gets, modify. cbn [m_handler set_streams].
  rewrite Hh, Huser. by eexists.
Qed.

(** A connection to be dropped silently still gets its close packet, when the library can write one. *)
Lemma dropped_connection_is_closed_aloud path chunk q (s : Session Server) w q' :
  m_quic_conn Server s = Some q -> m_connection_close_sent Server s = false -> has_on_output (m_handler Server s) = true ->
  ccerr_type (m_last_error Server s) = TRANSPORT ->
  ngtcp2_conn_read_pkt path chunk q = Finished q NGTCP2_ERR_DROP_CONN -> NGTCP2_ERR_DROP_CONN <> 0%Z ->
  ngtcp2_conn_write_connection_close
    (Nat.min NGTCP2_DEFAULT_MAX_RECV_UDP_PAYLOAD_SIZE (ngtcp2_conn_get_max_tx_udp_payload_size q)) (m_last_error Server s) q = (w, q') ->
  (0 <= packet_size w)%Z ->
  exists e s', server_input Server loc desc ty user path chunk s = Some (RError e, s') /\
    m_drop_silently Server s' = true /\ m_log Server s' = m_log Server s ++ [OnOutput (packet_path w) (packet w)].
Proof.
  intros Hq Hc Ho Ht Hr Hne Hw Hp. unfold server_input, input_impl, conn_run, mbind, M_bind, quic. rewrite Hq, Hr. cbn [quic_run].
  unfold mbind, M_bind, modify, NGTCP2_NO_ERROR. cbn. rewrite (proj2 (Z.eqb_neq _ _) Hne), Z.eqb_refl.
  unfold handle_error, close_connection, quic_get, quic, mbind, M_bind, gets. cbn. rewrite Ht. cbn. rewrite Hc. cbn. rewrite Hw.
  rewrite (proj2 (Z.ltb_ge _ _)) by done. unfold emit, mbind, M_bind, gets, modify. cbn. rewrite Ho, Huser. cbn. by eexists _, _.
Qed.

(** Of the code of a peer that cancels with an HTTP/3 error the low byte is reported. *)
Lemma application_code_cut T q (s : Session T) text :
  m_quic_conn T s = Some q -> has_on_close (m_handler T s) = true ->
  ngtcp2_conn_get_ccerr q = MkCcerr APPLICATION NGHTTP3_H3_REQUEST_CANCELLED text ->
  exists s', handle_rx_connection_close T loc desc user s = Some (tt, s') /\ m_log T s' = m_log T s ++ [OnClose 12].
Proof.
  intros Hq Hc He. unfold handle_rx_connection_close, quic_get, quic, emit, mbind, M_bind, gets, modify. rewrite Hq, He. cbn.
  rewrite Hc, Huser. by eexists.
Qed.
End Corners.

(** ** Instances *)

(** A library that counts the calls made of it. *)
Definition counting (n : nat) : Z * nat := (0%Z, S n).

#[local] Instance toy_nghttp3 : Nghttp3 nat := {
  nghttp3_conn_read_stream := fun _ chunk _ n => Finished (S n) (Z.of_nat (length chunk));
  nghttp3_conn_add_ack_offset := fun _ _ n => Finished (S n) 0%Z;
  nghttp3_conn_close_stream := fun i code n => script [H3StreamClose i code] (S n);
  nghttp3_conn_shutdown_stream_read := fun _ n => Finished (S n) 0%Z;
  nghttp3_conn_writev_stream := fun n => Finished (S n) (MkH3Write 0 (-1) false []);
  nghttp3_conn_shutdown_stream_write := fun _ => S;
  nghttp3_conn_shutdown := counting;
  nghttp3_conn_bind_control_stream := fun _ => counting;
  nghttp3_conn_bind_qpack_streams := fun _ _ => counting;
  nghttp3_conn_submit_request := fun _ _ _ => counting;
  nghttp3_conn_submit_response := fun _ _ _ => counting;
  nghttp3_conn_submit_trailers := fun _ _ => counting;
  nghttp3_conn_resume_stream := fun _ => counting;
  nghttp3_conn_add_write_offset := fun _ _ => counting;
  nghttp3_conn_block_stream := fun _ => S;
  nghttp3_conn_unblock_stream := fun _ => counting;
  nghttp3_conn_set_max_client_streams_bidi := fun _ => S;
  nghttp3_strerror := fun _ => str "error";
  nghttp3_err_infer_quic_app_error_code := fun _ => 0x102%Z;
  NGHTTP3_ERR_CALLBACK_FAILURE := (-902)%Z;
  NGHTTP3_ERR_WOULDBLOCK := (-104)%Z;
  NGHTTP3_ERR_STREAM_NOT_FOUND := (-110)%Z
}.

Definition no_path : QuicNetworkPath := MkPath [] [].

(** A connection whose every packet says that the peer closed it. *)
#[local] Instance toy_ngtcp2 : Ngtcp2 nat := {
  ngtcp2_conn_read_pkt := fun _ _ n => Finished (S n) (-224)%Z;
  ngtcp2_conn_writev_stream := fun _ _ _ _ n => Finished (S n) (MkQuicWrite 0 (-1) [] no_path);
  ngtcp2_conn_write_connection_close := fun _ _ n => (MkQuicWrite 1 (-1) [28%Z] no_path, S n);
  ngtcp2_conn_handle_expiry := counting;
  ngtcp2_conn_shutdown_stream := fun _ _ => counting;
  ngtcp2_conn_shutdown_stream_read := fun _ _ => counting;
  ngtcp2_conn_shutdown_stream_write := fun _ _ => counting;
  ngtcp2_conn_extend_max_offset := fun _ => S;
  ngtcp2_conn_extend_max_stream_offset := fun _ _ => counting;
  ngtcp2_conn_extend_max_streams_bidi := fun _ => S;
  ngtcp2_conn_open_uni_stream := fun n => (0%Z, Z.of_nat n, S n);
  ngtcp2_conn_open_bidi_stream := fun n => (0%Z, Z.of_nat n, S n);
  ngtcp2_conn_is_local_stream := fun _ _ => false;
  ngtcp2_conn_get_max_tx_udp_payload_size := fun _ => 1200;
  ngtcp2_conn_get_expiry := fun _ => UINT64_MAX;
  ngtcp2_conn_get_max_stream_data_left := fun _ _ => 10%Z;
  ngtcp2_conn_get_max_data_left := fun _ => 8%Z;
  ngtcp2_conn_get_tls_alert := fun _ => 0%Z;
  ngtcp2_conn_get_ccerr := fun _ => MkCcerr APPLICATION 0x10c [];
  ngtcp2_conn_get_pto := fun _ => 0%Z;
  ngtcp2_is_bidi_stream := fun i => (Z.land i 2 =? 0)%Z;
  ngtcp2_ccerr_set_liberr := fun z r => MkCcerr TRANSPORT z r;
  ngtcp2_ccerr_set_tls_alert := fun z r => MkCcerr TRANSPORT (0x100 + z) r;
  ngtcp2_ccerr_set_application_error := fun z r => MkCcerr APPLICATION z r;
  ngtcp2_ccerr_default := MkCcerr TRANSPORT 0 [];
  ngtcp2_strerror := fun _ => str "error";
  NGTCP2_DEFAULT_MAX_RECV_UDP_PAYLOAD_SIZE := 1452;
  NGTCP2_ERR_CALLBACK_FAILURE := (-502)%Z;
  NGTCP2_ERR_INTERNAL := (-235)%Z;
  NGTCP2_ERR_NOMEM := (-501)%Z;
  NGTCP2_ERR_STREAM_NOT_FOUND := (-220)%Z;
  NGTCP2_ERR_STREAM_DATA_BLOCKED := (-208)%Z;
  NGTCP2_ERR_STREAM_SHUT_WR := (-221)%Z;
  NGTCP2_ERR_WRITE_MORE := (-240)%Z;
  NGTCP2_ERR_DRAINING := (-224)%Z;
  NGTCP2_ERR_DROP_CONN := (-242)%Z;
  NGTCP2_ERR_RETRY := (-241)%Z;
  NGTCP2_ERR_CRYPTO := (-213)%Z
}.

Definition every_callback : Callbacks := MkCallbacks true true true true true true true true true true true.
Definition somewhere : SourceLocation := MkLocation (str "f") 1.
Definition idle_user : list Out -> list Action := fun _ => [].
Definition no_text : Z -> bytes := fun _ => [].

(** A session with the stream 4, whose buffer holds [w]. *)
Definition h3_session (T : side) (w : bytes) (eof : bool) : Session (Hl := nat) (Q := nat) (B := bytes) T :=
  MkSession T (Some 0) (Some 0) {[4%Z := set_buffer T (Some w) (set_flag T HAS_EOF eof (new_stream T))]} ngtcp2_ccerr_default
    true false false false every_callback [].

Lemma h3_session_holds T w eof : holds T 4 (h3_session T w eof) w 0 eof false.
Proof. split; [by eexists|]. eexists _, _. split; [reflexivity|]. split_and!; try done. lia. Qed.

(** The state an operation leaves. *)
Definition after {S A} (m : M S A) (s : S) : S := match m s with Some (_, s') => s' | None => s end.

Definition body_s1 := after (submit_body_impl Server somewhere 4 (str "hel") false) (h3_session Server [] false).
Definition body_s2 := after (on_read_data Server 4 16) body_s1.
Definition body_s3 := after (on_acked_stream_data Server somewhere no_text idle_user 4 2) body_s2.
Definition body_s4 := after (submit_body_impl Server somewhere 4 (str "lo") true) body_s3.

Lemma body_s4_trace : body_trace Server somewhere idle_user no_text 4 false body_s4 (str "hello") (str "hel") (str "he") true.
Proof.
  apply (bt_push Server somewhere idle_user no_text 4 false body_s3 (str "hel") (str "hel") (str "he") false (str "lo") true None); [|by vm_compute].
  apply (bt_ack Server somewhere idle_user no_text 4 false body_s2 (str "hel") (str "hel") [] false 2 0%Z); [|cbn; lia|by vm_compute].
  apply (bt_read Server somewhere idle_user no_text 4 false body_s1 (str "hel") [] [] false 16 (MkAnswer 1 [str "hel"] 0)); [|by vm_compute].
  apply (bt_push Server somewhere idle_user no_text 4 false (h3_session Server [] false) [] [] [] false (str "hel") false None); [|by vm_compute].
  apply bt_start, h3_session_holds.
Qed.


Lemma h3_body_reaches_end_witness :
  exists answers a s', read_until Server 4 16 6 (h3_session Server (str "hello") true) = Some (answers ++ [a], s') /\
    handed_over (answers ++ [a]) = str "hello" /\ pflags a = NGHTTP3_DATA_FLAG_EOF /\ Forall (fun b => pflags b = 0%Z /\ vecs b <> []) answers.
Proof. apply (h3_body_reaches_end Server 4 16 _ (str "hello") 0); [done|done|lia|apply h3_session_holds]. Defined.

Lemma h3_send_capacity_witness :
  exists c, get_stream_send_capacity_impl Server 4 (h3_session Server (str "hello") false) = Some (c, h3_session Server (str "hello") false) /\
    c = 3%Z.
Proof.
  destruct (h3_send_capacity Server somewhere ltac:(done) 4 0 (str "ab") true (h3_session Server (str "hello") false) (str "hello") 0 false false
    eq_refl ltac:(done) (h3_session_holds _ _ _)) as (c & E & _ & Hs & _).
  exists c. split; [exact E|]. vm_compute in E. congruence.
Defined.

(** Two packets make the library drain, and the close is reported once. *)
Lemma h3_close_reported_once_witness :
  exists u s, run_ops Client somewhere no_text no_text idle_user [OpInput Client no_path []; OpInput Client no_path []]
      (session_new Client (Some 0) (Some 0) every_callback) = Some (u, s) /\ closes Client s = [OnClose 12].
Proof.
  destruct (run_ops Client somewhere no_text no_text idle_user [OpInput Client no_path []; OpInput Client no_path []]
    (session_new Client (Some 0) (Some 0) every_callback)) as [[u s]|] eqn:E; [|by vm_compute in E].
  exists u, s. split; [done|].
  assert (NGTCP2_ERR_DRAINING (Q := nat) <> NGTCP2_NO_ERROR /\ NGTCP2_ERR_DRAINING (Q := nat) <> NGTCP2_ERR_DROP_CONN) as [H1 H2] by by split.
  destruct (h3_close_reported_once Client somewhere no_text no_text idle_user (Hl := nat) (B := bytes) H1 H2 (Some 0) (Some 0) every_callback _ u s E)
    as [Hc _]. rewrite Hc. by vm_compute.
Defined.

