(* ===== verification/Http3Setup.v ===== *)
(** * HTTP/3 sessions: how they are made

    [initialize_session], [Http3Server::accept], [Http3Client::connect] and [prepare_retry] of
    [http/http3.cpp]: the settings handed to ngtcp2 and the connection ids and tokens of a session.
    Random bytes, digests and the makers of connections are arguments. *)

From S2P Require Import StringView Utils Error Headers Message StateMonad Http3 Http3Facts.

Definition ORIGINAL_DCID_DATALEN : nat := 8.
Definition ACCEPTED_DCID_DATA_LEN : nat := 12.
Definition ACTIVE_CONNECTION_ID_LIMIT : Z := 7.

Inductive CongestionControlAlgorithm := RENO | CUBIC | BBR.

Record Http3Settings := MkHttp3Settings {
  congestion_control_algorithm : CongestionControlAlgorithm;
  s_max_tx_udp_payload_size : Z;
  s_initial_max_stream_data_bidi_local : Z;
  s_initial_max_stream_data_bidi_remote : Z;
  s_initial_max_stream_data_uni : Z;
  s_initial_max_data : Z;
  s_initial_max_streams_bidi : Z;
  s_initial_max_streams_uni : Z;
  s_max_idle_timeout : Z;            (* microseconds *)
  s_max_window : Z;
  s_max_stream_window : Z;
  quic_version : Z
}.

Definition default_settings : Http3Settings :=
  MkHttp3Settings CUBIC 1350 (256 * 1024) (256 * 1024) (256 * 1024) (8 * 1024 * 1024) 1024 3 (180 * 1000 * 1000) 0 0 0.

(** [ngtcp2_cc_algo], [ngtcp2_settings] and [ngtcp2_transport_params], by the fields the code sets. *)
Inductive CcAlgo := NGTCP2_CC_ALGO_RENO | NGTCP2_CC_ALGO_CUBIC | NGTCP2_CC_ALGO_BBR.

Record QuicSettings := MkQuicSettings {
  initial_pkt_num : Z;
  cc_algo : CcAlgo;
  initial_ts : Z;
  initial_rtt : Z;
  max_tx_udp_payload_size : Z;
  max_window : Z;
  max_stream_window : Z
}.

Record TransportParams := MkTransportParams {
  initial_max_stream_data_bidi_local : Z;
  initial_max_stream_data_bidi_remote : Z;
  initial_max_stream_data_uni : Z;
  initial_max_data : Z;
  initial_max_streams_bidi : Z;
  max_idle_timeout : Z;              (* nanoseconds *)
  initial_max_streams_uni : Z;
  active_connection_id_limit : Z;
  original_dcid : option bytes;
  stateless_reset_token : option bytes
}.

(** The header of the first packet of a client. *)
Record PktHd := MkPktHd { hd_dcid : bytes; hd_scid : bytes; hd_version : Z }.

(** What makes connections: the connection, or the status of a failure. *)
Class Makers (Hl Q : Type) := {
  ngtcp2_conn_server_new : bytes -> bytes -> QuicNetworkPath -> Z -> QuicSettings -> TransportParams -> Z + Q;
  ngtcp2_conn_client_new : bytes -> bytes -> QuicNetworkPath -> Z -> QuicSettings -> TransportParams -> Z + Q;
  nghttp3_conn_server_new : Z + Hl;
  nghttp3_conn_client_new : Z + Hl;
  ngtcp2_accept : bytes -> Z + PktHd;
  ngtcp2_crypto_generate_retry_token : bytes -> Z -> bytes -> bytes -> bytes -> Z -> Z + bytes;
  ngtcp2_crypto_write_retry : nat -> Z -> bytes -> bytes -> bytes -> bytes -> Z + bytes;
  NGTCP2_DEFAULT_INITIAL_RTT : Z;
  NGTCP2_MAX_UDP_PAYLOAD_SIZE : nat;
  NGTCP2_PROTO_VER_V1 : Z;
  EVP_sha1 : bytes -> bytes;
  EVP_md5 : option (bytes -> bytes)  (* nothing when the digest cannot be started *)
}.

Definition to_ng_cc_algo (x : CongestionControlAlgorithm) : CcAlgo :=
  match x with RENO => NGTCP2_CC_ALGO_RENO | CUBIC => NGTCP2_CC_ALGO_CUBIC | BBR => NGTCP2_CC_ALGO_BBR end.

Section Setup.
Context {Hl : Type} `{NH : Nghttp3 Hl} {Q : Type} `{NQ : Ngtcp2 Q} {B : Type} `{EB : EvBuffer B} `{ER : !EvBufferRef B}.
Context `{MK : !Makers Hl Q}.
Context (T : side) (loc : SourceLocation).

Abbreviation Session := (Http3.Session (Hl := Hl) (Q := Q) (B := B) T).

(** The first bytes of the digest. *)
Definition http3_dcid_from_scid (scid : bytes) : bytes := take ACCEPTED_DCID_DATA_LEN (EVP_sha1 scid).

Definition derive_token (static_secret input : bytes) : option bytes :=
  (fun md5 => md5 (input ++ static_secret)) <$> EVP_md5.

Definition quic_settings (m_settings : Http3Settings) (now : Z) : QuicSettings :=
  MkQuicSettings 1 (to_ng_cc_algo (congestion_control_algorithm m_settings)) now (NGTCP2_DEFAULT_INITIAL_RTT / 2)
    (s_max_tx_udp_payload_size m_settings) (s_max_window m_settings) (s_max_stream_window m_settings).

Definition transport_params (m_settings : Http3Settings) (dcid token : option bytes) : TransportParams :=
  MkTransportParams (s_initial_max_stream_data_bidi_local m_settings) (s_initial_max_stream_data_bidi_remote m_settings)
    (s_initial_max_stream_data_uni m_settings) (s_initial_max_data m_settings) (s_initial_max_streams_bidi m_settings)
    (s_max_idle_timeout m_settings * 1000) (s_initial_max_streams_uni m_settings) ACTIVE_CONNECTION_ID_LIMIT dcid token.

Definition setup_error (code : Z) (msg : bytes) : ErrorImpl Http3Error := make_error_msg loc (MkHttp3Error code) msg None.

Definition no_http3 (status : Z) : ErrorImpl Http3Error :=
  setup_error NGTCP2_ERR_INTERNAL
    (str "Couldn't create http3 connection: " ++ nghttp3_strerror status ++ str " (" ++ fmt_dec status ++ str ")").

(** The connections of a server: the secret of the stateless reset comes from the identifier it chose. *)
Definition server_session (m_settings : Http3Settings) (path : QuicNetworkPath) (static_secret : bytes) (now : Z)
    (client_scid client_dcid : bytes) (client_chosen_version : Z) : ErrorImpl Http3Error + (Q * Hl) :=
  let server_scid := http3_dcid_from_scid client_scid in
  match derive_token static_secret server_scid with
  | None => inl (setup_error NGTCP2_ERR_INTERNAL (str "Couldn't forge stateless reset token"))
  | Some token =>
      match ngtcp2_conn_server_new client_scid server_scid path client_chosen_version (quic_settings m_settings now)
              (transport_params m_settings (Some client_dcid) (Some token)) with
      | inl status => inl (setup_error status (str "Couldn't create quic connection"))
      | inr quic_conn =>
          match nghttp3_conn_server_new with inl status => inl (no_http3 status) | inr h3_conn => inr (quic_conn, h3_conn) end
      end
  end.

(** Those of a client, which makes up the first identifier of the server. *)
Definition client_session (m_settings : Http3Settings) (path : QuicNetworkPath) (random : bytes) (now : Z)
    (client_scid client_dcid : bytes) (client_chosen_version : Z) : ErrorImpl Http3Error + (Q * Hl) :=
  let client_dcid := if length client_dcid =? 0 then take ORIGINAL_DCID_DATALEN random else client_dcid in
  match ngtcp2_conn_client_new client_dcid client_scid path client_chosen_version (quic_settings m_settings now)
          (transport_params m_settings None None) with
  | inl status => inl (setup_error status (str "Couldn't create quic connection"))
  | inr quic_conn =>
      match nghttp3_conn_client_new with inl status => inl (no_http3 status) | inr h3_conn => inr (quic_conn, h3_conn) end
  end.

(** [random] are the bytes of the random source for the secret and, on a client, for the id it chooses. *)
Definition initialize_session (m_settings : Http3Settings) (path : QuicNetworkPath) (has_ssl : bool) (static_secret random : bytes)
    (now : Z) (client_scid client_dcid : bytes) (client_chosen_version : Z) : ErrorImpl Http3Error + (Q * Hl) :=
  if negb has_ssl then inl (setup_error NGTCP2_ERR_INTERNAL (str "SSL handle mustn't be null"))
  else
    match T with
    | Server => server_session m_settings path static_secret now client_scid client_dcid client_chosen_version
    | Client => client_session m_settings path random now client_scid client_dcid client_chosen_version
    end.

(** The session around two connections. *)
Definition made (handler : Callbacks) (r : ErrorImpl Http3Error + (Q * Hl)) : Result Session Http3Error :=
  match r with
  | inl e => RError e
  | inr (quic_conn, h3_conn) => RValue (session_new T (Some quic_conn) (Some h3_conn) handler)
  end.

(** [Http3Server::accept]. *)
Definition accept (m_settings : Http3Settings) (handler : Callbacks) (path : QuicNetworkPath) (has_ssl : bool)
    (static_secret random : bytes) (now : Z) (packet : bytes) : Result Session Http3Error :=
  match ngtcp2_accept packet with
  | inl status => RError (make_error loc (MkHttp3Error status) None)
  | inr hd => made handler (initialize_session m_settings path has_ssl static_secret random now (hd_scid hd) (hd_dcid hd) (hd_version hd))
  end.

(** [Http3Client::connect]. *)
Definition connect (m_settings : Http3Settings) (handler : Callbacks) (path : QuicNetworkPath) (has_ssl : bool)
    (static_secret random : bytes) (now : Z) : Result Session Http3Error :=
  let version := if negb (quic_version m_settings =? 0)%Z then quic_version m_settings else NGTCP2_PROTO_VER_V1 in
  made handler (initialize_session m_settings path has_ssl static_secret random now [] [] version).

(** [Http3Server::prepare_retry]. *)
Definition prepare_retry (static_secret random remote : bytes) (now : Z) (hd : PktHd) (max_packet_len : nat)
    : Result bytes Http3Error :=
  let scid := take ORIGINAL_DCID_DATALEN random in
  match ngtcp2_crypto_generate_retry_token static_secret (hd_version hd) remote scid (hd_dcid hd) now with
  | inl status => RError (setup_error status (str "Couldn't generate token"))
  | inr token =>
      match ngtcp2_crypto_write_retry (Nat.min NGTCP2_MAX_UDP_PAYLOAD_SIZE max_packet_len) (hd_version hd) (hd_scid hd) scid (hd_dcid hd) token with
      | inl n => RError (setup_error n (str "Couldn't write retry packet"))
      | inr packet => RValue packet
      end
  end.

(** ** Facts *)

(** A server is made exactly when the packet opens a connection, there is a TLS handle, the token can be
    derived and both libraries agree; it then answers in the client's version, under an id that
    depends on the client's id only, with the user's windows. *)
Lemma accept_iff m_settings handler path has_ssl secret random now packet s :
  T = Server ->
  accept m_settings handler path has_ssl secret random now packet = RValue s <->
  exists hd token q n, ngtcp2_accept packet = inr hd /\ has_ssl = true /\
    derive_token secret (http3_dcid_from_scid (hd_scid hd)) = Some token /\
    ngtcp2_conn_server_new (hd_scid hd) (http3_dcid_from_scid (hd_scid hd)) path (hd_version hd) (quic_settings m_settings now)
      (transport_params m_settings (Some (hd_dcid hd)) (Some token)) = inr q /\
    nghttp3_conn_server_new = inr n /\ s = session_new T (Some q) (Some n) handler.
Proof.
  intros HT. unfold accept, made. assert (forall x y : ErrorImpl Http3Error + (Q * Hl), match T with Server => x | Client => y end = x) as Hm
    by (intros; by rewrite HT). unfold initialize_session, server_session.
  destruct (ngtcp2_accept packet) as [z|hd]; [split; [done|]; by intros (? & ? & ? & ? & ? & _)|]. rewrite Hm. split.
  - intros E. destruct has_ssl; [cbn [negb] in E|done]. repeat (case_match; simplify_eq). by eexists _, _, _, _.
  - intros (hd' & token & q & n & [= <-] & -> & -> & -> & -> & ->). done.
Qed.

(** A client that asks for no version gets the first one, and has chosen an id of eight bytes. *)
Lemma connect_iff m_settings handler path has_ssl secret random now s :
  T = Client -> ORIGINAL_DCID_DATALEN <= length random ->
  connect m_settings handler path has_ssl secret random now = RValue s <->
  exists dcid q n, has_ssl = true /\ length dcid = ORIGINAL_DCID_DATALEN /\ dcid `prefix_of` random /\
    ngtcp2_conn_client_new dcid [] path
      (if (quic_version m_settings =? 0)%Z then NGTCP2_PROTO_VER_V1 else quic_version m_settings)
      (quic_settings m_settings now) (transport_params m_settings None None) = inr q /\
    nghttp3_conn_client_new = inr n /\ s = session_new T (Some q) (Some n) handler.
Proof.
  intros HT Hr. unfold connect, made, initialize_session, client_session.
  assert (forall x y : ErrorImpl Http3Error + (Q * Hl), match T with Server => x | Client => y end = y) as Hm by (intros; by rewrite HT).
  rewrite Hm. cbn [length Nat.eqb].
  replace (if negb (quic_version m_settings =? 0)%Z then quic_version m_settings else NGTCP2_PROTO_VER_V1)
    with (if (quic_version m_settings =? 0)%Z then NGTCP2_PROTO_VER_V1 else quic_version m_settings) by by destruct (_ =? _)%Z.
  split.
  - intros E. destruct has_ssl; [cbn [negb] in E|done]. exists (take ORIGINAL_DCID_DATALEN random). repeat (case_match; simplify_eq).
    all: eexists _, _; split; [done|]; split; [by apply length_take_le|]; split; [apply prefix_take|done].
  - intros (dcid & q & n & -> & Hl' & [r ->] & E & -> & ->). cbn [negb].
    replace (take ORIGINAL_DCID_DATALEN (dcid ++ r)) with dcid by (by rewrite <- Hl', take_app_length). by rewrite E.
Qed.
End Setup.
